(* ===== verification/_CoqProject ===== *)
-Q . S2P
Prelude.v
GoFloat.v
GoUtf8.v
GoTime.v
GoBase64.v
GoDuration.v
ExprValue.v
ExprLexer.v
ExprParser.v
ExprDuration.v
ExprFuncs.v
ExprEval.v
StoreTypes.v
StoreQuery.v
StoreMemory.v
StoreAlias.v
Vault.v
StoreJournal.v
BpmnModel.v
BpmnValidate.v
BpmnParser.v
Replicate.v
RestAuth.v
EngineBase.v
EngineLifecycle.v
Otel.v
OtelSpans.v
EngineCancel.v
EngineFlow.v
EngineErrors.v
EngineActivity.v
EngineRun.v
EngineApi.v
EngineSched.v
EngineSamples.v
EngineLocal.v
EngineHandlers.v
EngineCleanup.v
EngineMigrate.v
Dmn.v
DmnParser.v
Forms.v
RestTypes.v
Rest.v
EngineJobs.v
SqlStore.v
SqlRefine.v
SqlCalls.v
SqlSamples.v
SqlDriver.v
EngineReach.v
EngineTrace.v
EngineProgress.v
EngineSafety.v
EngineCalls.v
RestSamples.v
RestSafety.v
RestTenants.v
RestEvents.v
Platform.v
Cli.v
