(* ===== verification/Prelude.v ===== *)
(** * A verification development of the fliable workflow engine

    fliable ([src/]) executes BPMN processes.  A document is parsed and
    validated ([bpmn]), its conditions, mappings and timers are texts of a small
    expression language ([expr]), the state lives in a store ([store]) and the
    engine ([engine]) moves the tokens of process instances.  Decision tables
    ([dmn]) and forms ([form]) are evaluated for business rule tasks and for
    completed user tasks.  Around that core lie the HTTP interface ([rest]) with
    its authentication, the vault of secrets ([vault]), the replication of the
    journal to a standby ([replicate]) and the export of traces ([otel]); the
    command [cmd/fliable] wires them together.

    ** How the parts interact

    A call of the engine ([StartInstance], [CompleteTask], [CorrelateMessage],
    the scheduler's jobs, ...) loads one instance under its lock, changes it,
    runs ("drains") its active tokens until all of them wait, stores it, and
    then executes the continuations it collected: notices to a parent, messages
    and signals, the start or the cancellation of children, each of them again
    such a call on another instance.  Conditions and mappings go to the
    expression evaluator with the variables of the instance and of the token;
    records (tasks, jobs, subscriptions, external work, incidents, events) go to
    the store.  A request of the HTTP interface passes the trace headers, CORS,
    the chain of authenticators, the table of routes and the guard of its route,
    and its handler then makes calls of the engine and of the store.  The
    exporter of traces is told every event that the engine records.

    ** The files

    - [Prelude]: the outcome [res] of a Go call (value, error, panic, endless
      loop), byte strings, association lists, [MapOrder] (the order in which Go
      walks a map, a parameter: theorems hold for every order).
    - [GoFloat], [GoUtf8], [GoTime], [GoBase64], [GoDuration]: what the program
      uses of the language and its standard library: IEEE doubles on [SpecFloat]
      with their printing and parsing, wrap-around of [int64] ([wrap64]), UTF-8
      decoding, quoting and trimming, dates, base64, [time.ParseDuration].
    - [ExprValue], [ExprLexer], [ExprParser], [ExprDuration], [ExprFuncs],
      [ExprEval]: [src/expr/]: values and [Normalize], [Truthy], [Stringify]; the
      scanner ([lex_loop], [lex_step]); the recursive-descent parser; ISO
      durations, timer cycles and times; the built-in functions; [eval] with the
      program cache.
    - [StoreTypes], [StoreQuery], [StoreMemory], [StoreJournal]: [src/store/]: the
      records, filters and pagination; the in-memory store, one function of
      [Memory] per method, of which [store_op] and [run_op] collect the mutating
      ones; the journal with its snapshot, compaction, replay and crashes.
    - [StoreAlias]: the records of the in-memory store as structures with maps,
      slices and pointers on a heap, and the [clone] functions of [memory.go].
    - [SqlStore]: [src/store/sqlstore.go]: the store over a database, with the
      texts of its statements.  [SqlRefine] says what the statements do to the
      rows ([DatabaseLaws]) and relates a table to a [Memory] ([abs]);
      [SqlCalls] has the refinement, [SqlSamples] a concrete database.
      [SqlDriver] is [src/store/sqltest/driver.go], the program's own database
      for its tests, and obeys those laws ([driver_laws]).
    - [Replicate]: [src/store/replicate.go] and [src/replicate/]: the journal of a
      follower, the receiver, the sender's loop, and both ends with a network in
      between that loses requests and answers.
    - [BpmnModel], [BpmnValidate], [BpmnParser]: [src/bpmn/]: the elements and
      scopes of a definition, the checks of the validator, and the conversion of
      a decoded document into elements wired by their flows ([Parse]).
    - [EngineBase]: the state ([world]: store, counters, definitions; [rt]: one
      running instance) and the monad [ST] of functions that change it, also
      when they end in an error; evaluation, identifiers, tokens, history.
    - [EngineCancel], [EngineFlow], [EngineErrors], [EngineActivity],
      [EngineRun]: [exec.go], [events.go], [multiinstance.go], [vars.go],
      [activity.go], [agent.go], [guard.go]: cleanup and termination; flows and
      gateways; retries, BPMN errors and boundary events; the activities; the
      loop [drain], end events and triggers.
    - [EngineLifecycle]: [Start], [Stop] and the loops of [scheduler.go] and
      [housekeeping.go] as goroutines over channels ([lstep]); the stripes of the
      instances' locks ([lockFor]).
    - [EngineApi], [EngineSched]: [engine.go], [scheduler.go], [housekeeping.go]:
      the public operations, the continuations ([after_run]), jobs, recovery,
      retention.
    - [EngineMigrate]: [migrate.go]: moving an instance to another definition.
    - [Dmn]: [src/dmn/dmn.go] and [unary.go]; [DmnParser]: [src/dmn/parser.go];
      [Forms]: [src/form/form.go]; [Vault]: [src/vault/vault.go].
    - [RestAuth]: [src/rest/auth.go], [oidc.go] and [cors.go]: roles, the chain of
      authenticators, signed tokens, tokens of an identity provider.
    - [RestTypes], [Rest]: the other files of [src/rest/]: requests and responses,
      queries, the window of idempotency keys, paths; then the server, the monad
      [H] of handlers (an [Err] is a response that ends the handler), every
      handler under its Go name, the route tables, [guard] and [serve_http].
      [RestSamples] is a concrete server.  [RestSafety], [RestTenants],
      [RestEvents]: what a request may do, what a tenant sees, webhook events.
    - [Otel]: [src/otel/otel.go]; [OtelSpans]: the spans of one instance among
      the events of many.
    - [Platform]: the options of [engine.go] and [New]; [engine_of] is the engine
      of a configuration, with the parser, the decisions and the forms of the
      program in the place of the parameters of [Engine]; [run_program] is any
      sequence of requests and calls.  [Cli]: [src/cmd/fliable/main.go]: the check
      of files, the deploy directory, what [serve] sets up.
    - [EngineSamples]: a concrete engine and concrete processes, on which the
      model runs by evaluation and on which the theorems are applied.
    - [EngineLocal], [EngineHandlers], [EngineCleanup], [EngineJobs],
      [EngineReach]: properties of single operations; [EngineTrace],
      [EngineProgress], [EngineSafety], [EngineCalls]: properties of runs and of
      sequences of calls.

    A definition has the name of the Go function where that is possible
    ([DueJobs], [PurgeInstance]); a function of the engine has it in lower case
    ([handleActivityFailure] is [handle_failure]).  A Go pointer to a token is the
    token's identifier: [tok_get] and [tok_set] follow it, also after the token
    was taken out of the instance.  A nil pointer is [None], and following it is
    the outcome [Panic].

    ** What the theorems show

    - Calls refine an abstract specification ([EngineCalls.calls_refine]): the
      transitions [EngineSafety.estep] say which writes are allowed, whatever the
      call and however it ends.  From it follow the invariant of the store over
      any sequence of calls and the append-only audit trail; a definition that the
      engine holds ready is the stored one, as it parses.
    - The parts together ([Cli.served_runs_parsed]): whatever the deploy directory
      holds, and whatever requests and calls follow, what the program runs was
      accepted by the validator and is wired in every scope, nested ones included.
    - One scheduler runs while the engine runs, none once [Stop] has returned, and
      [Stop] can return ([EngineLifecycle.one_scheduler]); the sweepers have
      neither property ([EngineLifecycle.sweepers_pile_up]).
    - The files take records as values, which the deep copies of the store justify:
      on the heap a table refines a map of values, whatever its callers write
      into what they put or got ([StoreAlias.table_isolated]).
    - The journal store refines the in-memory store over any run of operations,
      compactions and restarts, and recovers a prefix after a crash
      ([StoreJournal]).  A standby converges to its leader, catches up after
      failed requests and can be promoted at any time; a buffer that overflows
      breaks that ([Replicate]).  The SQL store gives the answers of the in-memory
      store as long as the database answers ([SqlCalls.sql_refines_memory]);
      [SqlSamples] shows what it loses when it does not.  Over the driver of the
      tests it is the in-memory store from its opening on
      ([SqlDriver.driver_refines]).
    - The run of an instance ends, at rest, suspended or at the step limit
      ([EngineProgress.drain_runs_to_rest]); the token that moves next does not
      depend on the order of the map.
    - Gateways: the search of the inclusive join against reachability in the
      graph, the readiness of both joins, the choice of the exclusive gateway.
    - Failures: the scope that handles an error ([EngineHandlers]), retries with
      their backoff, incidents and their resolution, claimed jobs that are never
      lost, late reports that change nothing, what the end of an instance
      releases.
    - A parsed document is wired, at every depth ([BpmnParser.parse_wired]); the
      validator against a declarative well-formedness; migration against
      the mapped instance; decision tables against their hit policies; forms
      against the values a field admits.
    - The expression language: compiling and evaluating end, parsing gives
      back a printed tree, values are normalised, the cache makes no difference.
    - The server: a request reaches a handler only with the role of its route,
      moves the store by the engine's transitions and only as far as that role
      goes, and keeps the invariant and the audit trail ([RestSafety]); lists are
      confined to the caller's tenant, records asked for by identifier are not
      ([RestTenants]); the window of idempotency keys ([RestEvents]).
    - Signed tokens, tokens of an identity provider ([RestAuth]) and sealed
      secrets ([Vault]) are accepted, or open, only as what they were made for.
    - Every activation of an element ends up in one span of its instance's trace
      ([OtelSpans]).
    - Errors of the program that modelling showed are theorems or examples too:
      [ExprLexer.lex_loop_stuck], [StoreJournal.torn_write_loses_later_writes],
      [EngineProgress.inclusive_join_stuck], [EngineLocal.resolve_keeps_attempts],
      [EngineMigrate.renamed_flows_block_join], [Dmn.lists_of_ranges_fail],
      [Forms.trailing_text_corrupts], [RestTenants.tenant_bypass],
      [RestAuth.withdrawn_key_stays], [RestEvents.failed_event_swallowed],
      [Otel.buffer_grows], ...

    ** Bounds

    Recursion that is not structural takes fuel, and running out of it is the
    outcome [OutOfFuel], never a value.
    - The scanner and the parser get the length of what they read; that it is
      enough is part of [ExprParser.compile_returns].
    - [reach_fuel], the number of flows plus one: every flow puts its target into
      the queue at most once, so that the search always ends
      ([EngineReach.can_reach_spec]).
    - [drain_fuel], the step limit of the program plus two: each round of the
      loop takes a step ([EngineProgress.drain_runs_to_rest]).
    - [match_cell], the length of the cell: nested tests are shorter
      ([Dmn.evaluate_returns]).
    - [after_run] gets a depth, an argument of the calls: continuations may start
      instances that start others, for which the program has no bound.  The
      theorems about calls hold for every depth, an exhausted one included.
    - [complete_activity] gets the number of the tokens of the instance plus
      one: each nested completion comes after a token was deleted.

    ** Parameters

    Code outside the repository, and the outside world: the tables of Unicode
    above Latin-1 ([Unicode]), regular expressions ([Regexp]), the JSON codecs of
    the journal ([Codec]), of the SQL store ([RecordJson]), of the forms and of
    the server ([RestCodec]), the database ([Database]), the XML decoders
    ([XmlDecoder], [DmnDecoder]), the cipher of the vault ([Aead]), signatures and
    hashes ([AuthCodec], [TraceHash]), the process that hosts the server
    ([Host]), the clocks, service handlers, agents, and, for the engine's files,
    the parser, the decision evaluator and the form validator ([Engine]), which
    [Platform] replaces by the program's own.  A call of one of them is numbered and may
    answer differently each time.  Hypotheses about them stand in the sections
    that use them, and each property that has one is applied to concrete
    functions.

    ** Not modelled

    - The decoding of XML, which [encoding/xml] does ([BpmnParser] starts from
      the shapes it fills).  The theorems about the engine take the
      parser, the decision tables and the forms as any functions.
    - The database under the SQL store: the laws say what a statement does to the
      rows while the database answers, and nothing of one that does not.
    - [engine/metrics.go], the example programs, the SDK: counters, code that only
      uses the engine, another language.  Of [cmd/], the parsing of flags, the
      sockets and signals, and the order in which the parts are closed.
      Of [rest/], the text of the OpenAPI document and of the documentation page,
      the encoding of responses (a response holds the value that is encoded),
      logging, and the goroutine of an event stream ([stream_next] is one round
      of its loop); paths have no percent-encoded slash.  Of [otel/], the HTTP
      request and the envelope of its JSON.
    - Locks: a call is atomic for its instance, and calls on
      different instances happen one after the other.  Writes to the in-memory
      store do not fail; the files of the journal are written without errors.
    - [float32] values and Go types that JSON cannot produce. *)
From stdpp Require Export base gmap sets list strings fin_maps sorting.
From Stdlib Require Export ZArith Lia.
From Stdlib Require Import Ascii.

(** ** Outcomes of a Go call

    A Go function that returns [(T, error)] ends in a value or an error; it
    can also stop the process with a run-time panic, and a loop can run
    forever.  [OutOfFuel] is the result of a loop whose bound was exhausted;
    theorems about termination say that it does not occur. *)
Inductive res (E A : Type) : Type :=
| Ok (a : A)
| Err (e : E)
| Panic (what : string)
| OutOfFuel.
Arguments Ok {E A} a.
Arguments Err {E A} e.
Arguments Panic {E A} what.
Arguments OutOfFuel {E A}.

(** Sequencing: the rest of the function runs only on a value. *)
Definition rbind {E A B} (r : res E A) (f : A -> res E B) : res E B :=
  match r with
  | Ok a => f a
  | Err e => Err e
  | Panic w => Panic w
  | OutOfFuel => OutOfFuel
  end.
Declare Scope go_scope.
Delimit Scope go_scope with go.
Notation "'let!' p ':=' m 'in' k" := (rbind m (fun p => k))
  (at level 10, p pattern, m at level 100, k at level 200) : go_scope.
#[export] Instance res_ret {E} : MRet (res E) := fun A a => Ok a.
#[export] Instance res_bind {E} : MBind (res E) := fun A B f r => rbind r f.
#[export] Instance res_fmap {E} : FMap (res E) :=
  fun A B f r => match r with
                 | Ok a => Ok (f a)
                 | Err e => Err e
                 | Panic w => Panic w
                 | OutOfFuel => OutOfFuel
                 end.

Definition is_ok {E A} (r : res E A) : bool :=
  match r with Ok _ => true | _ => false end.

(** [returns r]: the call comes back to its caller, with a value or an
    error (it neither panics nor runs out of fuel). *)
Definition returns {E A} (r : res E A) : bool :=
  match r with Ok _ | Err _ => true | _ => false end.

(** ** Case-analysis tactics *)

(** Destructs the innermost scrutinee of the first [match] found. *)
Ltac match_scrut t :=
  match t with
  | context [match ?x with _ => _ end] => match_scrut x
  | _ => t
  end.

Ltac case_step :=
  match goal with
  | |- context [match ?x with _ => _ end] =>
      let s := match_scrut x in destruct s eqn:?
  end.
Ltac case_step_in H :=
  match type of H with
  | context [match ?x with _ => _ end] =>
      let s := match_scrut x in destruct s eqn:?
  end.

(** Splits the equation "a bind returned [Ok]" into its two steps. *)
Lemma bind_Ok {E A B} (r : res E A) (f : A -> res E B) b :
  rbind r f = Ok b <-> exists a, r = Ok a /\ f a = Ok b.
Proof. destruct r; cbn; naive_solver. Qed.

Lemma returns_bind {E A B} (r : res E A) (f : A -> res E B) :
  returns r = true -> (forall a, r = Ok a -> returns (f a) = true) ->
  returns (rbind r f) = true.
Proof. destruct r; cbn; naive_solver. Qed.

Lemma returns_fmap {E A B} (f : A -> B) (r : res E A) :
  returns (f <$> r) = returns r.
Proof. destruct r; done. Qed.

Create HintDb go discriminated.
#[export] Hint Resolve returns_bind : go.

(** ** Byte strings

    A Go string is a sequence of bytes; [string] is Stdlib's list of 8-bit
    [ascii], and indices count bytes. *)
Local Open Scope go_scope.
Local Open Scope string_scope.
#[global] Arguments String.append : simpl nomatch.

Definition byte_val (c : ascii) : Z := Z.of_N (N_of_ascii c).

Definition slen (s : string) : Z := Z.of_nat (String.length s).

(** Go's comparison of strings is bytewise. *)
Definition str_lt (a b : string) : bool :=
  match String.compare a b with Lt => true | _ => false end.
Definition str_le (a b : string) : bool :=
  match String.compare a b with Gt => false | _ => true end.

Fixpoint string_to_list (s : string) : list ascii :=
  match s with EmptyString => [] | String c s => c :: string_to_list s end.
Fixpoint list_to_string (l : list ascii) : string :=
  match l with [] => EmptyString | c :: l => String c (list_to_string l) end.

(** [strings.HasPrefix], and the text left after the prefix. *)
Fixpoint strip_prefix (p s : string) : option string :=
  match p, s with
  | EmptyString, _ => Some s
  | String c p, String d s => if Ascii.eqb c d then strip_prefix p s else None
  | String _ _, EmptyString => None
  end.
Definition has_prefix (s p : string) : bool :=
  match strip_prefix p s with Some _ => true | None => false end.

(** [s[from:to]] for indices in range; [s[from:]]. *)
Fixpoint sdrop (n : nat) (s : string) : string :=
  match n, s with
  | O, _ => s
  | S n, String _ s => sdrop n s
  | S _, EmptyString => EmptyString
  end.
Fixpoint stake (n : nat) (s : string) : string :=
  match n, s with
  | O, _ => EmptyString
  | S n, String c s => String c (stake n s)
  | S _, EmptyString => EmptyString
  end.
Definition sslice (from to : nat) (s : string) : string := stake (to - from) (sdrop from s).

Definition has_suffix (s p : string) : bool :=
  Nat.leb (String.length p) (String.length s)
  && String.eqb (sdrop (String.length s - String.length p) s) p.

(** [strings.Index]: offset of the first occurrence. *)
Fixpoint sindex (s sub : string) : option nat :=
  if has_prefix s sub then Some O
  else match s with
       | EmptyString => None
       | String _ s' => S <$> sindex s' sub
       end.
Definition scontains (s sub : string) : bool :=
  match sindex s sub with Some _ => true | None => false end.

(** [strings.Join]. *)
Fixpoint sjoin (sep : string) (l : list string) : string :=
  match l with
  | [] => ""
  | [x] => x
  | x :: l => x ++ sep ++ sjoin sep l
  end.

Definition is_digit (c : ascii) : bool :=
  let v := byte_val c in ((48 <=? v) && (v <=? 57))%Z.

(** ** Generic lemmas *)
Lemma string_app_nil_r (s : string) : s ++ "" = s.
Proof. induction s; cbn; congruence. Qed.

Lemma string_app_assoc (a b c : string) : a ++ b ++ c = (a ++ b) ++ c.
Proof. induction a; cbn; congruence. Qed.

Lemma string_app_length (a b : string) :
  String.length (a ++ b) = String.length a + String.length b.
Proof. induction a; cbn; lia. Qed.

Lemma strip_prefix_Some p s t : strip_prefix p s = Some t <-> s = p ++ t.
Proof.
  revert s; induction p as [|c p IH]; intros s; cbn; [naive_solver|].
  destruct s as [|d s]; cbn; [naive_solver|].
  destruct (Ascii.eqb_spec c d) as [->|]; [rewrite IH|]; naive_solver.
Qed.

Lemma has_prefix_spec s p : has_prefix s p = true <-> exists t, s = p ++ t.
Proof.
  unfold has_prefix. destruct (strip_prefix p s) eqn:E.
  - apply strip_prefix_Some in E. naive_solver.
  - split; [done|]. intros [t ->].
    assert (strip_prefix p (p ++ t) = Some t) by by apply strip_prefix_Some.
    congruence.
Qed.

Lemma sdrop_length n s : String.length (sdrop n s) = String.length s - n.
Proof. revert s; induction n; intros [|c s]; cbn; auto; lia. Qed.

Lemma stake_sdrop n s : stake n s ++ sdrop n s = s.
Proof. revert s; induction n; intros [|c s]; cbn; congruence. Qed.

Lemma sdrop_app a b : sdrop (String.length a) (a ++ b) = b.
Proof. by induction a. Qed.

Lemma sindex_Some s sub i :
  sindex s sub = Some i -> s = stake i s ++ sub ++ sdrop (i + String.length sub) s.
Proof.
  revert i; induction s as [|c s IH]; intros i; cbn [sindex].
  - destruct (has_prefix "" sub) eqn:E; [|done]. intros [= <-].
    apply has_prefix_spec in E as [t E]. destruct sub; [done|discriminate].
  - destruct (has_prefix (String c s) sub) eqn:E.
    + intros [= <-]. apply has_prefix_spec in E as [t E]. rewrite E. cbn [stake Nat.add].
      by rewrite sdrop_app.
    + destruct (sindex s sub) as [j|] eqn:Ej; cbn; [|done]. intros [= <-].
      cbn [stake Nat.add sdrop]. by rewrite (IH j eq_refl) at 1.
Qed.

Lemma scontains_spec s sub :
  scontains s sub = true <-> exists a b, s = a ++ sub ++ b.
Proof.
  unfold scontains. split.
  - destruct (sindex s sub) as [i|] eqn:E; [|done]. intros _. apply sindex_Some in E. eauto.
  - intros (a & b & ->). induction a as [|c a IH]; cbn [String.append].
    + assert (has_prefix (sub ++ b) sub = true) as Hp by (apply has_prefix_spec; eauto).
      by destruct (sub ++ b) eqn:E; cbn [sindex]; rewrite Hp.
    + cbn [sindex]. destruct (has_prefix _ sub); [done|]. by destruct (sindex (a ++ _) sub).
Qed.

(** Comparison of strings is a strict total order. *)
Lemma str_compare_refl s : String.compare s s = Eq.
Proof.
  induction s as [|c s IH]; cbn; [done|].
  unfold Ascii.compare. by rewrite N.compare_refl.
Qed.
Lemma str_lt_irrefl s : str_lt s s = false.
Proof. unfold str_lt. by rewrite str_compare_refl. Qed.

Lemma str_lt_trans a b c : str_lt a b = true -> str_lt b c = true -> str_lt a c = true.
Proof.
  unfold str_lt. revert b c.
  induction a as [|x a IH]; intros [|y b] [|z c]; cbn; try done.
  unfold Ascii.compare.
  destruct (N.compare_spec (N_of_ascii x) (N_of_ascii y)) as [H|H|H]; try done;
  destruct (N.compare_spec (N_of_ascii y) (N_of_ascii z)) as [H'|H'|H']; try done;
  destruct (N.compare_spec (N_of_ascii x) (N_of_ascii z)); try done; try (exfalso; lia);
  eauto.
Qed.

Lemma str_lt_antisym a b : str_lt a b = true -> str_lt b a = false.
Proof.
  unfold str_lt. intros. rewrite String.compare_antisym.
  destruct (String.compare a b); done.
Qed.

Lemma str_lt_total a b : a = b \/ str_lt a b = true \/ str_lt b a = true.
Proof.
  unfold str_lt. rewrite (String.compare_antisym b a).
  destruct (String.compare a b) eqn:E; cbn; auto.
  left. by apply String.compare_eq_iff.
Qed.

Lemma str_le_lt a b : str_le a b = negb (str_lt b a).
Proof.
  unfold str_le, str_lt. rewrite (String.compare_antisym b a).
  by destruct (String.compare a b).
Qed.

#[export] Instance str_le_dec : RelDecision (fun a b => str_le a b = true).
Proof. intros a b. solve_decision. Defined.

#[export] Instance str_le_total : Total (fun a b => str_le a b = true).
Proof.
  intros a b. rewrite !str_le_lt.
  destruct (str_lt_total a b) as [->|[H|H]].
  - rewrite str_lt_irrefl; auto.
  - rewrite (str_lt_antisym a b H); auto.
  - rewrite (str_lt_antisym b a H); auto.
Qed.
#[export] Instance str_le_transitive : Transitive (fun a b => str_le a b = true).
Proof.
  intros a b c. rewrite !str_le_lt, !negb_true_iff. intros H1 H2.
  destruct (str_lt c a) eqn:E; [|done].
  destruct (str_lt_total a b) as [->|[H|H]]; [congruence| |congruence].
  pose proof (str_lt_trans _ _ _ E H). congruence.
Qed.

(** ** Ranging over a Go map

    The order of a [range] loop over a map is unspecified and may differ from
    loop to loop.  The model takes the order from a parameter: a permutation
    of the keys for each loop, the loops told apart by a seed. *)
Class MapOrder := {
  range_keys : nat -> list string -> list string;
  range_keys_perm seed l : range_keys seed l ≡ₚ l;
}.
Definition map_range `{MapOrder} {A} (seed : nat) (m : gmap string A) : list (string * A) :=
  omap (fun k => (fun x => (k, x)) <$> m !! k) (range_keys seed (map fst (map_to_list m))).

(** An order for evaluating the model: that of the keys. *)
Definition key_order : MapOrder :=
  {| range_keys _ l := merge_sort (fun a b => str_le a b = true) l;
     range_keys_perm _ l := merge_sort_Permutation _ l |}.

Lemma map_range_perm `{MapOrder} {A} seed (m : gmap string A) : map_range seed m ≡ₚ map_to_list m.
Proof.
  unfold map_range. rewrite (range_keys_perm seed).
  apply reflexive_eq.
  assert (forall l, (forall k x, (k, x) ∈ l -> m !! k = Some x) ->
    omap (fun k => (fun x => (k, x)) <$> m !! k) (map fst l) = l) as Hl.
  { induction l as [|[k x] l IH]; intros Hin; cbn; [done|].
    rewrite (Hin k x) by set_solver. cbn. f_equal. apply IH. set_solver. }
  apply Hl. intros k x. by rewrite elem_of_map_to_list.
Qed.

Lemma elem_of_map_range `{MapOrder} {A} seed (m : gmap string A) k x :
  (k, x) ∈ map_range seed m <-> m !! k = Some x.
Proof. by rewrite map_range_perm, elem_of_map_to_list. Qed.
