(* ===== verification/GoFloat.v ===== *)
(** * Go's [float64]

    IEEE-754 binary64 values and operations as in Stdlib's [SpecFloat]
    (precision 53, maximal exponent 1024), which computes with integers and
    needs no axiom; then the functions of Go's [math], [strconv] and [fmt]
    packages that the program applies to floats. *)
From Stdlib Require Export SpecFloat.
From Stdlib Require Import Ascii.
From S2P Require Import Prelude.
Local Open Scope string_scope.
Local Open Scope Z_scope.

Abbreviation f64 := spec_float.
Definition prec64 : Z := 53.
Definition emax64 : Z := 1024.

Definition fadd : f64 -> f64 -> f64 := SFadd prec64 emax64.
Definition fsub : f64 -> f64 -> f64 := SFsub prec64 emax64.
Definition fmul : f64 -> f64 -> f64 := SFmul prec64 emax64.
Definition fdiv : f64 -> f64 -> f64 := SFdiv prec64 emax64.
Definition fneg : f64 -> f64 := SFopp.
Definition f_abs : f64 -> f64 := SFabs.
Definition feq : f64 -> f64 -> bool := SFeqb.
Definition flt : f64 -> f64 -> bool := SFltb.
Definition fle : f64 -> f64 -> bool := SFleb.

(** Conversion of an integer, rounded to nearest even. *)
Definition f_of_Z (z : Z) : f64 := binary_normalize prec64 emax64 z 0 false.
Definition f_zero : f64 := S754_zero false.
Definition f_one : f64 := f_of_Z 1.

(** [float64(x)] of a [float32]: exact, only the exponent range widens. *)
Definition f_of_f32 (x : f64) : f64 :=
  match x with
  | S754_finite s m e => binary_round prec64 emax64 s m e
  | _ => x
  end.

#[export] Instance f64_eq_dec : EqDecision f64.
Proof. solve_decision. Defined.

Definition is_nan (x : f64) : bool := match x with S754_nan => true | _ => false end.
Definition is_fin (x : f64) : bool :=
  match x with S754_zero _ | S754_finite _ _ _ => true | _ => false end.

Definition int64_min : Z := - 2 ^ 63.
Definition int64_max : Z := 2 ^ 63 - 1.
(** Two's-complement wrap-around of [int64] arithmetic. *)
Definition wrap64 (z : Z) : Z := (z + 2 ^ 63) mod 2 ^ 64 - 2 ^ 63.

(** Integral part of a finite float, towards zero. *)
Definition ftruncZ (x : f64) : Z :=
  match x with
  | S754_finite s m e =>
      let a := if 0 <=? e then Zpos m * 2 ^ e else Zpos m / 2 ^ (- e) in
      if s then - a else a
  | _ => 0
  end.

(** [int64(f)]: the value towards zero; NaN and values outside the type give
    [-2^63], the result of amd64's conversion instruction. *)
Definition f_to_int64 (x : f64) : Z :=
  if is_fin x then
    let z := ftruncZ x in
    if (int64_min <=? z) && (z <=? int64_max) then z else int64_min
  else int64_min.

Definition fsign (x : f64) : bool :=
  match x with
  | S754_zero s | S754_infinity s | S754_finite s _ _ => s
  | S754_nan => false
  end.

(** An integer with the sign bit kept when it is zero. *)
Definition f_of_signZ (s : bool) (a : Z) : f64 :=
  binary_normalize prec64 emax64 (if s then - a else a) 0 s.

(** [math.Trunc], [math.Floor], [math.Ceil], [math.Round] (half away from
    zero). *)
Definition f_trunc (x : f64) : f64 :=
  match x with
  | S754_finite s m e => f_of_signZ s (Z.abs (ftruncZ x))
  | _ => x
  end.
Definition f_integral (x : f64) : bool :=
  match x with
  | S754_finite _ m e => (0 <=? e) || (Zpos m mod 2 ^ (- e) =? 0)
  | S754_zero _ => true
  | _ => false
  end.
Definition f_floor (x : f64) : f64 :=
  match x with
  | S754_finite s m e =>
      let a := Z.abs (ftruncZ x) in
      f_of_signZ s (if s && negb (f_integral x) then a + 1 else a)
  | _ => x
  end.
Definition f_ceil (x : f64) : f64 := fneg (f_floor (fneg x)).
Definition f_round (x : f64) : f64 :=
  match x with
  | S754_finite s m e =>
      let a := if 0 <=? e then Zpos m * 2 ^ e
               else (2 * Zpos m + 2 ^ (- e)) / (2 * 2 ^ (- e)) in
      f_of_signZ s a
  | _ => x
  end.

(** [math.Mod]: the remainder with the sign of the dividend. *)
Definition f_mod (x y : f64) : f64 :=
  match x, y with
  | S754_nan, _ | _, S754_nan | S754_infinity _, _ | _, S754_zero _ => S754_nan
  | _, S754_infinity _ => x
  | S754_zero _, _ => x
  | S754_finite s mx ex, S754_finite _ my ey =>
      let e := Z.min ex ey in
      let r := (Zpos mx * 2 ^ (ex - e)) mod (Zpos my * 2 ^ (ey - e)) in
      binary_normalize prec64 emax64 (if s then - r else r) e s
  end.

(** [math.Min], [math.Max]. *)
Definition f_min (x y : f64) : f64 :=
  match x, y with
  | S754_infinity true, _ | _, S754_infinity true => S754_infinity true
  | S754_nan, _ | _, S754_nan => S754_nan
  | S754_zero s, S754_zero _ => if s then x else y
  | _, _ => if flt x y then x else y
  end.
Definition f_max (x y : f64) : f64 :=
  match x, y with
  | S754_infinity false, _ | _, S754_infinity false => S754_infinity false
  | S754_nan, _ | _, S754_nan => S754_nan
  | S754_zero s, S754_zero _ => if s then y else x
  | _, _ => if flt y x then x else y
  end.

(** ** Decimal conversion *)

(** [(-1)^neg * m * 10^e], correctly rounded.  Exponents far outside the
    binary64 range are decided before the power is formed. *)
Definition f_of_dec (neg : bool) (m e : Z) : f64 :=
  match m with
  | Zpos p =>
      if 400 <? e then S754_infinity neg
      else if e + Z.log2 m <? -1200 then S754_zero neg
      else if 0 <=? e then binary_normalize prec64 emax64 ((if neg then -1 else 1) * m * 10 ^ e) 0 neg
      else
        let '(q, e', l) := SFdiv_core_binary prec64 emax64 m 0 (10 ^ (- e)) 0 in
        binary_round_aux prec64 emax64 neg q e' l
  | _ => S754_zero neg
  end.

(** Accumulates decimal digits: value, number of digits read, rest. *)
Fixpoint read_digits (s : string) (acc n : Z) : Z * Z * string :=
  match s with
  | String c s' =>
      if is_digit c then read_digits s' (10 * acc + (byte_val c - 48)) (n + 1)
      else (acc, n, s)
  | EmptyString => (acc, n, s)
  end.

Definition lower_byte (c : ascii) : ascii :=
  let v := byte_val c in
  if (65 <=? v) && (v <=? 90) then ascii_of_N (Z.to_N (v + 32)) else c.
Fixpoint lower_ascii (s : string) : string :=
  match s with String c s => String (lower_byte c) (lower_ascii s) | EmptyString => EmptyString end.

Definition split_sign (s : string) : bool * string :=
  match s with
  | String "+" r => (false, r)
  | String "-" r => (true, r)
  | _ => (false, s)
  end.

(** The optional exponent of a decimal literal. *)
Definition read_exp (s : string) : option Z :=
  match s with
  | EmptyString => Some 0
  | String c r =>
      if Ascii.eqb (lower_byte c) "e" then
        let '(neg, r) := split_sign r in
        match read_digits r 0 0 with
        | (_, 0, _) => None
        | (e, _, EmptyString) => Some (if neg then - e else e)
        | _ => None
        end
      else None
  end.

(** [strconv.ParseFloat(s, 64)] on decimal literals and the names of the
    special values; [None] is a syntax or a range error.  Hexadecimal
    literals are not handled. *)
Definition parse_float (s : string) : option f64 :=
  let '(neg, r) := split_sign s in
  let low := lower_ascii r in
  if (String.eqb low "inf" || String.eqb low "infinity") then Some (S754_infinity neg)
  else if String.eqb (lower_ascii s) "nan" then Some S754_nan
  else
    let '(ip, ni, r) := read_digits r 0 0 in
    let '(m, nf, r) :=
      match r with
      | String "." r' => read_digits r' ip 0
      | _ => (ip, 0, r)
      end in
    if (ni + nf =? 0) then None
    else match read_exp r with
         | None => None
         | Some e =>
             match f_of_dec neg m (e - nf) with
             | S754_infinity _ => None
             | f => Some f
             end
         end.

(** Decimal digits of a non-negative integer. *)
Fixpoint nat_digits (fuel : nat) (z : Z) (acc : string) : string :=
  match fuel with
  | O => acc
  | S fuel =>
      let acc' := String (ascii_of_N (Z.to_N (48 + z mod 10))) acc in
      if z / 10 =? 0 then acc' else nat_digits fuel (z / 10) acc'
  end.
Definition digits_fuel (z : Z) : nat := S (Z.to_nat (Z.log2 z)).
(** [%d]. *)
Definition fmt_int (z : Z) : string :=
  (if z <? 0 then "-" else "") ++ nat_digits (digits_fuel (Z.abs z)) (Z.abs z) "".

(** Shortest decimal [d * 10^k] that reads back as the float [m * 2^e]: the
    least digit count for which one of the two neighbours of the value lies
    in the rounding interval, and the nearer of the two when both do. *)
Section shortest.
Variables (m : positive) (e : Z).
Let even_m : bool := Z.even (Zpos m).
(** value, lower and upper bound as numerators over [den]. *)
Let sc : Z := if 0 <=? e then 2 ^ e else 1.
Let den : Z := 4 * (if 0 <=? e then 1 else 2 ^ (- e)).
Let num : Z := 4 * Zpos m * sc.
Let hi : Z := (4 * Zpos m + 2) * sc.
Let lo : Z :=
  if (Zpos m =? 2 ^ 52) && negb (e =? -1074) then (4 * Zpos m - 1) * sc
  else (4 * Zpos m - 2) * sc.

Let inside (d k : Z) : bool :=
  let '(a, b) := if 0 <=? k then (d * 10 ^ k * den, 1) else (d * den, 10 ^ (- k)) in
  if even_m then (lo * b <=? a) && (a <=? hi * b) else (lo * b <? a) && (a <? hi * b).

(** [floor (value / 10^k)], and twice the distance to it compared with
    the unit. *)
Let floor_at (k : Z) : Z * comparison :=
  let '(a, b) := if 0 <=? k then (num, den * 10 ^ k) else (num * 10 ^ (- k), den) in
  (a / b, Z.compare (2 * (a mod b)) b).

Fixpoint shortest_from (fuel : nat) (k : Z) : Z * Z :=
  let '(d, c) := floor_at k in
  let stop := match fuel with
              | O => Some (d, k)
              | S _ =>
                  match inside d k, inside (d + 1) k with
                  | true, true =>
                      match c with
                      | Lt => Some (d, k)
                      | Gt => Some (d + 1, k)
                      | Eq => Some (if Z.even d then d else d + 1, k)
                      end
                  | true, false => Some (d, k)
                  | false, true => Some (d + 1, k)
                  | false, false => None
                  end
              end in
  match stop with
  | Some r => r
  | None => match fuel with O => (d, k) | S fuel => shortest_from fuel (k - 1) end
  end.

(** Starts one digit above the leading digit. *)
Definition shortest : Z * Z :=
  shortest_from 20 ((Z.log2 num - Z.log2 den) * 30103 / 100000 + 1).
End shortest.

(** Removes trailing zeros of the digit string. *)
Fixpoint strip_zeros (fuel : nat) (d k : Z) : Z * Z :=
  match fuel with
  | O => (d, k)
  | S fuel => if (d mod 10 =? 0) && negb (d =? 0) then strip_zeros fuel (d / 10) (k + 1) else (d, k)
  end.

Fixpoint zeros (n : nat) : string :=
  match n with O => "" | S n => "0" ++ zeros n end.

Definition pad2 (z : Z) : string := (if z <? 10 then "0" else "") ++ fmt_int z.

(** [fmt.Sprintf("%g", x)]. *)
Definition fmt_g (x : f64) : string :=
  match x with
  | S754_nan => "NaN"
  | S754_infinity s => if s then "-Inf" else "+Inf"
  | S754_zero s => if s then "-0" else "0"
  | S754_finite s m e =>
      let '(d0, k0) := shortest m e in
      let '(d, k) := strip_zeros 30 d0 k0 in
      let ds := fmt_int d in
      let nd := slen ds in
      let x10 := nd + k - 1 in
      let body :=
        if (x10 <? -4) || (6 <=? x10) then
          stake 1 ds ++ (if 1 <? nd then "." ++ sdrop 1 ds else "")
          ++ "e" ++ (if x10 <? 0 then "-" else "+") ++ pad2 (Z.abs x10)
        else if 0 <=? k then ds ++ zeros (Z.to_nat k)
        else if 0 <=? x10 then
          stake (Z.to_nat (x10 + 1)) ds ++ "." ++ sdrop (Z.to_nat (x10 + 1)) ds
        else "0." ++ zeros (Z.to_nat (- x10 - 1)) ++ ds in
      (if s then "-" else "") ++ body
  end.

(** ** Lemmas *)
Lemma shr_1_nonneg r : 0 <= shr_m r -> 0 <= shr_m (shr_1 r).
Proof. destruct r as [m ? ?]; destruct m as [|[]|[]]; cbn; lia. Qed.

Lemma iter_pos_nonneg (p : positive) r : 0 <= shr_m r -> 0 <= shr_m (SpecFloat.iter_pos shr_1 p r).
Proof. revert r; induction p; intros r H; cbn; auto using shr_1_nonneg. Qed.

Lemma shr_fexp_nonneg m e l : 0 <= m -> 0 <= shr_m (shr_fexp prec64 emax64 m e l).1.
Proof.
  intros H. unfold shr_fexp, shr. destruct (_ - e) as [|p|p]; cbn;
    try apply iter_pos_nonneg; destruct l as [|[]]; done.
Qed.

Lemma round_nearest_even_nonneg m l : 0 <= m -> 0 <= round_nearest_even m l.
Proof. destruct l as [|[]]; cbn; try case_match; lia. Qed.

Lemma binary_round_aux_not_nan s m e l :
  0 <= m -> is_nan (binary_round_aux prec64 emax64 s m e l) = false.
Proof.
  intros H. unfold binary_round_aux.
  destruct (shr_fexp prec64 emax64 m e l) as [r e'] eqn:E1.
  destruct (shr_fexp prec64 emax64 (round_nearest_even (shr_m r) (loc_of_shr_record r)) e' loc_Exact)
    as [r' e''] eqn:E2.
  assert (0 <= shr_m r') as Hr.
  { change r' with (r', e'').1. rewrite <- E2. apply shr_fexp_nonneg, round_nearest_even_nonneg.
    change r with (r, e').1. rewrite <- E1. by apply shr_fexp_nonneg. }
  destruct (shr_m r'); [done| |lia]. by destruct (e'' <=? _).
Qed.

Lemma f_of_Z_not_nan z : is_nan (f_of_Z z) = false.
Proof.
  destruct z as [|p|p]; [done| |]; cbn; unfold binary_round;
    destruct (shl_align _ _ _); by apply binary_round_aux_not_nan.
Qed.

Lemma wrap64_range z : int64_min <= wrap64 z <= int64_max.
Proof.
  unfold wrap64, int64_min, int64_max. pose proof (Z.mod_pos_bound (z + 2 ^ 63) (2 ^ 64)). lia.
Qed.

Lemma wrap64_id z : int64_min <= z <= int64_max -> wrap64 z = z.
Proof. unfold wrap64, int64_min, int64_max. intros. rewrite Z.mod_small; lia. Qed.
