(* ===== verification/GoUtf8.v ===== *)
(** * UTF-8, character classes and quoting

    [unicode/utf8], the parts of [unicode] and [strings] the program uses,
    and the [%q] verb of [fmt].  Character classes are exact for code points
    below 256; the Unicode tables above that are a parameter, the class
    [Unicode]. *)
From Stdlib Require Import Ascii.
From S2P Require Import Prelude GoFloat.
Local Open Scope string_scope.
Local Open Scope Z_scope.

(** Unicode property tables for code points from U+0100 on. *)
Class Unicode := {
  uni_letter : Z -> bool;
  uni_digit : Z -> bool;
  uni_print : Z -> bool;
  (** simple case mappings *)
  uni_upper : Z -> Z;
  uni_lower : Z -> Z;
}.

Definition byte_of (z : Z) : ascii := ascii_of_N (Z.to_N z).

Definition rune_error : Z := 65533.

Definition is_cont (z : Z) : bool := (128 <=? z) && (z <=? 191).

(** [utf8.DecodeRuneInString]: the first code point and its width; an
    invalid sequence gives U+FFFD of width 1, the empty string width 0. *)
Definition decode_rune (s : string) : Z * nat :=
  let bad := (rune_error, 1%nat) in
  match s with
  | EmptyString => (rune_error, 0%nat)
  | String c0 s1 =>
      let b0 := byte_val c0 in
      if b0 <? 128 then (b0, 1%nat) else
      if b0 <? 194 then bad else
      match s1 with
      | EmptyString => bad
      | String c1 s2 =>
          let b1 := byte_val c1 in
          if b0 <? 224 then
            if is_cont b1 then ((b0 - 192) * 64 + (b1 - 128), 2%nat) else bad
          else
          match s2 with
          | EmptyString => bad
          | String c2 s3 =>
              let b2 := byte_val c2 in
              if b0 <? 240 then
                let lo := if b0 =? 224 then 160 else 128 in
                let hi := if b0 =? 237 then 159 else 191 in
                if (lo <=? b1) && (b1 <=? hi) && is_cont b2
                then ((b0 - 224) * 4096 + (b1 - 128) * 64 + (b2 - 128), 3%nat) else bad
              else if b0 <? 245 then
                match s3 with
                | EmptyString => bad
                | String c3 _ =>
                    let b3 := byte_val c3 in
                    let lo := if b0 =? 240 then 144 else 128 in
                    let hi := if b0 =? 244 then 143 else 191 in
                    if (lo <=? b1) && (b1 <=? hi) && is_cont b2 && is_cont b3
                    then ((b0 - 240) * 262144 + (b1 - 128) * 4096 + (b2 - 128) * 64 + (b3 - 128), 4%nat)
                    else bad
                end
              else bad
          end
      end
  end.

(** [utf8.AppendRune] of a valid code point. *)
Definition encode_rune (r : Z) : string :=
  if r <? 128 then String (byte_of r) ""
  else if r <? 2048 then String (byte_of (192 + r / 64)) (String (byte_of (128 + r mod 64)) "")
  else if r <? 65536 then
    String (byte_of (224 + r / 4096))
      (String (byte_of (128 + r / 64 mod 64)) (String (byte_of (128 + r mod 64)) ""))
  else
    String (byte_of (240 + r / 262144))
      (String (byte_of (128 + r / 4096 mod 64))
        (String (byte_of (128 + r / 64 mod 64)) (String (byte_of (128 + r mod 64)) ""))).

(** The code points of a string, each with its bytes. *)
Fixpoint runes_fuel (fuel : nat) (s : string) : list (Z * string) :=
  match fuel, s with
  | S fuel, String _ _ =>
      let '(r, n) := decode_rune s in (r, stake n s) :: runes_fuel fuel (sdrop n s)
  | _, _ => []
  end.
Definition runes (s : string) : list (Z * string) := runes_fuel (String.length s) s.
Definition unrunes (l : list (Z * string)) : string := fold_right (fun x acc => x.2 ++ acc) "" l.

(** [unicode.IsSpace], [strings.TrimSpace]. *)
Definition is_space_rune (r : Z) : bool :=
  ((9 <=? r) && (r <=? 13)) || (r =? 32) || (r =? 133) || (r =? 160) || (r =? 5760)
  || ((8192 <=? r) && (r <=? 8202)) || (r =? 8232) || (r =? 8233) || (r =? 8239)
  || (r =? 8287) || (r =? 12288).
Fixpoint drop_space (l : list (Z * string)) : list (Z * string) :=
  match l with
  | x :: l' => if is_space_rune x.1 then drop_space l' else l
  | [] => []
  end.
Definition trim_space (s : string) : string :=
  unrunes (rev (drop_space (rev (drop_space (runes s))))).

Section classes.
Context {U : Unicode}.

(** [unicode.IsLetter], [unicode.IsDigit], [unicode.IsPrint]. *)
Definition is_letter_rune (r : Z) : bool :=
  if r <? 256 then
    ((65 <=? r) && (r <=? 90)) || ((97 <=? r) && (r <=? 122)) || (r =? 170) || (r =? 181)
    || (r =? 186) || ((192 <=? r) && (r <=? 255) && negb (r =? 215) && negb (r =? 247))
  else uni_letter r.
Definition is_digit_rune (r : Z) : bool :=
  if r <? 256 then (48 <=? r) && (r <=? 57) else uni_digit r.
Definition is_print_rune (r : Z) : bool :=
  if r <? 256 then ((32 <=? r) && (r <=? 126)) || ((161 <=? r) && negb (r =? 173))
  else uni_print r.

(** [strings.ToUpper], [strings.ToLower]; below 256 the mappings are those
    of Latin-1, with the two letters whose upper case lies outside it. *)
Definition upper_rune (r : Z) : Z :=
  if r <? 256 then
    if (97 <=? r) && (r <=? 122) then r - 32
    else if (224 <=? r) && (r <=? 254) && negb (r =? 247) then r - 32
    else if r =? 181 then 924 else if r =? 255 then 376 else r
  else uni_upper r.
Definition lower_rune (r : Z) : Z :=
  if r <? 256 then
    if (65 <=? r) && (r <=? 90) then r + 32
    else if (192 <=? r) && (r <=? 222) && negb (r =? 215) then r + 32 else r
  else uni_lower r.
Definition str_upper (s : string) : string :=
  fold_right (fun x acc => encode_rune (upper_rune x.1) ++ acc) "" (runes s).
Definition str_lower (s : string) : string :=
  fold_right (fun x acc => encode_rune (lower_rune x.1) ++ acc) "" (runes s).

Definition hex_digit (z : Z) : ascii := byte_of (if z <? 10 then 48 + z else 87 + z).
(** [%0nx]. *)
Fixpoint hex_pad (n : nat) (z : Z) (acc : string) : string :=
  match n with
  | O => acc
  | S n => hex_pad n (z / 16) (String (hex_digit (z mod 16)) acc)
  end.

Definition quote_rune (x : Z * string) : string :=
  let r := x.1 in
  if (r =? rune_error) && Nat.eqb (String.length x.2) 1 then
    match x.2 with String c _ => "\x" ++ hex_pad 2 (byte_val c) "" | _ => "" end
  else if r =? 34 then "\" ++ String (byte_of 34) EmptyString else if r =? 92 then "\\"
  else if is_print_rune r then x.2
  else if r =? 7 then "\a" else if r =? 8 then "\b" else if r =? 12 then "\f"
  else if r =? 10 then "\n" else if r =? 13 then "\r" else if r =? 9 then "\t"
  else if r =? 11 then "\v"
  else if (r <? 32) || (r =? 127) then "\x" ++ hex_pad 2 r ""
  else if r <? 65536 then "\u" ++ hex_pad 4 r "" else "\U" ++ hex_pad 8 r "".

(** [%q] of a string ([strconv.Quote]). *)
Definition quote (s : string) : string :=
  let q := String (byte_of 34) "" in
  q ++ fold_right (fun x acc => quote_rune x ++ acc) "" (runes s) ++ q.

(** [%q] of a code point ([strconv.QuoteRune]). *)
Definition quote_char (r : Z) : string :=
  let body := if r =? 39 then "\'" else if r =? 34 then String (byte_of 34) EmptyString
              else if r =? rune_error then encode_rune r
              else quote_rune (r, encode_rune r) in
  "'" ++ body ++ "'".
End classes.

(** Tables in which no code point from U+0100 on is a letter, digit or
    printable; for evaluating the model on Latin-1 text. *)
Definition latin1_only : Unicode :=
  {| uni_letter := fun _ => false; uni_digit := fun _ => false; uni_print := fun _ => false;
     uni_upper := fun r => r; uni_lower := fun r => r |}.

(** ** Lemmas *)
Lemma decode_rune_width s : s <> "" -> (1 <= (decode_rune s).2 <= 4)%nat.
Proof.
  intros H. unfold decode_rune. repeat case_match; cbn; simplify_eq; try lia; done.
Qed.

Lemma byte_val_range c : 0 <= byte_val c < 256.
Proof. unfold byte_val. pose proof (N_ascii_bounded c). lia. Qed.

Lemma decode_ascii c s : byte_val c < 128 -> decode_rune (String c s) = (byte_val c, 1%nat).
Proof. intros H. cbn. by destruct (Z.ltb_spec (byte_val c) 128); [|lia]. Qed.

(** ** [TrimSpace] does not lengthen a text *)
Lemma unrunes_app l l' : unrunes (l ++ l') = unrunes l ++ unrunes l'.
Proof. unfold unrunes. induction l as [|x l IH]; cbn; [done|]. by rewrite IH, string_app_assoc. Qed.
Lemma unrunes_rev l : String.length (unrunes (rev l)) = String.length (unrunes l).
Proof.
  induction l as [|x l IH]; [done|]. cbn [rev]. rewrite unrunes_app. unfold unrunes in *. cbn.
  rewrite !string_app_length, IH. cbn. lia.
Qed.
Lemma drop_space_length l : (String.length (unrunes (drop_space l)) <= String.length (unrunes l))%nat.
Proof.
  unfold unrunes. induction l as [|x l IH]; cbn; [done|]. case_match; [|done]. rewrite string_app_length. lia.
Qed.
Lemma runes_fuel_length fuel s : (String.length (unrunes (runes_fuel fuel s)) <= String.length s)%nat.
Proof.
  revert s. induction fuel as [|fuel IH]; intros s; cbn [runes_fuel]; [cbn; lia|]. destruct s as [|c s]; [done|].
  destruct (decode_rune (String c s)) as [r n]. cbn [unrunes fold_right snd].
  rewrite string_app_length. specialize (IH (sdrop n (String c s))). unfold unrunes in IH.
  rewrite <- (stake_sdrop n (String c s)) at 3. rewrite string_app_length. lia.
Qed.
Lemma trim_space_length s : (String.length (trim_space s) <= String.length s)%nat.
Proof.
  unfold trim_space. rewrite unrunes_rev. etrans; [apply drop_space_length|]. rewrite unrunes_rev.
  etrans; [apply drop_space_length|]. apply runes_fuel_length.
Qed.
