(* ===== verification/GoBase64.v ===== *)
(** * Base64 ([encoding/base64], [RawURLEncoding])

    The encoding of the tokens in [src/rest/auth.go] and [oidc.go]: the
    alphabet for URLs, without padding.  The decoder skips line breaks and does
    not look at the bits that are left over. *)
From Stdlib Require Import Ascii.
From S2P Require Import Prelude GoUtf8.
Local Open Scope string_scope.
Local Open Scope Z_scope.

Definition b64_char (i : Z) : ascii :=
  byte_of (if i <? 26 then 65 + i else if i <? 52 then 71 + i else if i <? 62 then i - 4 else if i =? 62 then 45 else 95).
Definition b64_val (c : ascii) : option Z :=
  let v := byte_val c in
  if (65 <=? v) && (v <=? 90) then Some (v - 65)
  else if (97 <=? v) && (v <=? 122) then Some (v - 71)
  else if (48 <=? v) && (v <=? 57) then Some (v + 4)
  else if v =? 45 then Some 62 else if v =? 95 then Some 63 else None.

Fixpoint b64_encode (s : string) : string :=
  match s with
  | EmptyString => EmptyString
  | String a EmptyString =>
      let a := byte_val a in String (b64_char (a / 4)) (String (b64_char (a mod 4 * 16)) EmptyString)
  | String a (String b EmptyString) =>
      let a := byte_val a in let b := byte_val b in
      String (b64_char (a / 4)) (String (b64_char (a mod 4 * 16 + b / 16)) (String (b64_char (b mod 16 * 4)) EmptyString))
  | String a (String b (String c r)) =>
      let a := byte_val a in let b := byte_val b in let c := byte_val c in
      String (b64_char (a / 4)) (String (b64_char (a mod 4 * 16 + b / 16))
        (String (b64_char (b mod 16 * 4 + c / 64)) (String (b64_char (c mod 64)) (b64_encode r))))
  end.

Fixpoint drop_breaks (s : string) : string :=
  match s with
  | EmptyString => EmptyString
  | String c r => let v := byte_val c in if (v =? 10) || (v =? 13) then drop_breaks r else String c (drop_breaks r)
  end.
(** Groups of four characters; of the last group two or three may be there. *)
Fixpoint b64_groups (s : string) : option string :=
  match s with
  | EmptyString => Some EmptyString
  | String a (String b (String c (String d r))) =>
      a ← b64_val a; b ← b64_val b; c ← b64_val c; d ← b64_val d; r ← b64_groups r;
      Some (String (byte_of (a * 4 + b / 16)) (String (byte_of (b mod 16 * 16 + c / 4)) (String (byte_of (c mod 4 * 64 + d)) r)))
  | String a (String b (String c EmptyString)) =>
      a ← b64_val a; b ← b64_val b; c ← b64_val c;
      Some (String (byte_of (a * 4 + b / 16)) (String (byte_of (b mod 16 * 16 + c / 4)) EmptyString))
  | String a (String b EmptyString) =>
      a ← b64_val a; b ← b64_val b; Some (String (byte_of (a * 4 + b / 16)) EmptyString)
  | _ => None
  end.
Definition b64_decode (s : string) : option string := b64_groups (drop_breaks s).

(** ** The encoding can be read back *)
Lemma byte_of_val c z : z = byte_val c -> byte_of z = c.
Proof. intros ->. unfold byte_of, byte_val. by rewrite N2Z.id, ascii_N_embedding. Qed.

Lemma b64_checks :
  forallb (fun i => match b64_val (b64_char (Z.of_nat i)) with Some j => j =? Z.of_nat i | None => false end
                    && negb (byte_val (b64_char (Z.of_nat i)) =? 10) && negb (byte_val (b64_char (Z.of_nat i)) =? 13)
                    && negb (byte_val (b64_char (Z.of_nat i)) =? 46)) (seq 0 64) = true.
Proof. by vm_compute. Qed.
Lemma b64_char_ok i : 0 <= i < 64 ->
  b64_val (b64_char i) = Some i /\ byte_val (b64_char i) <> 10 /\ byte_val (b64_char i) <> 13 /\ byte_val (b64_char i) <> 46.
Proof.
  intros Hi. pose proof b64_checks as H. rewrite forallb_forall in H. specialize (H (Z.to_nat i)).
  rewrite Z2Nat.id in H by lia. rewrite !andb_true_iff, !negb_true_iff, !Z.eqb_neq in H.
  destruct H as [[[H1 H2] H3] H4]; [apply in_seq; lia|].
  destruct (b64_val (b64_char i)) as [j|]; [|done]. apply Z.eqb_eq in H1. by subst.
Qed.

Lemma drop_breaks_char i r : 0 <= i < 64 -> drop_breaks (String (b64_char i) r) = String (b64_char i) (drop_breaks r).
Proof.
  intros (_ & H1 & H2 & _)%b64_char_ok. cbn.
  destruct (Z.eqb_spec (byte_val (b64_char i)) 10); [done|]. by destruct (Z.eqb_spec (byte_val (b64_char i)) 13).
Qed.

(** The parts of a byte, and of two neighbours. *)
Lemma b64_parts a b : 0 <= a < 256 -> 0 <= b < 256 ->
  0 <= a / 4 < 64 /\ 0 <= a mod 4 * 16 + b / 16 < 64 /\ 0 <= b mod 16 * 4 < 64 /\ 0 <= b mod 64 < 64 /\
  0 <= a mod 16 * 4 + b / 64 < 64 /\ 0 <= a mod 4 * 16 < 64.
Proof.
  intros. pose proof (Z.mod_pos_bound a 4). pose proof (Z.mod_pos_bound b 16). pose proof (Z.mod_pos_bound b 64).
  pose proof (Z.mod_pos_bound a 16).
  pose proof (Z.div_mod a 4). pose proof (Z.div_mod b 16). pose proof (Z.div_mod b 64). lia.
Qed.
Lemma b64_join a b : 0 <= a < 256 -> 0 <= b < 256 ->
  a / 4 * 4 + (a mod 4 * 16 + b / 16) / 16 = a /\ (a mod 4 * 16 + b / 16) mod 16 = b / 16 /\
  a / 4 * 4 + (a mod 4 * 16) / 16 = a /\
  b / 16 * 16 + (b mod 16 * 4) / 4 = b /\
  b / 16 * 16 + (b mod 16 * 4 + a / 64) / 4 = b /\ (b mod 16 * 4 + a / 64) mod 4 = a / 64 /\ a / 64 * 64 + a mod 64 = a.
Proof.
  intros. pose proof (Z.div_mod a 4). pose proof (Z.div_mod b 16). pose proof (Z.div_mod a 64).
  pose proof (Z.mod_pos_bound a 4). pose proof (Z.mod_pos_bound b 16). pose proof (Z.mod_pos_bound a 64).
  pose proof (Z.div_mod (a mod 4 * 16 + b / 16) 16). pose proof (Z.mod_pos_bound (a mod 4 * 16 + b / 16) 16).
  pose proof (Z.div_mod (b mod 16 * 4 + a / 64) 4). pose proof (Z.mod_pos_bound (b mod 16 * 4 + a / 64) 4).
  rewrite !Z.div_mul by lia. lia.
Qed.

Lemma b64_roundtrip s : b64_decode (b64_encode s) = Some s.
Proof.
  unfold b64_decode. remember (String.length s) as n eqn:Hn. assert (String.length s <= n)%nat as Hle by lia. clear Hn.
  revert s Hle. induction n as [|n IH]; intros s Hle.
  { by destruct s; [|cbn in Hle; lia]. }
  destruct s as [|a [|b [|c r]]]; [done|..]; cbn [b64_encode].
  - pose proof (byte_val_range a) as Ha. pose proof (b64_parts _ _ Ha Ha) as (H1 & H2 & H3 & H4 & H5 & H6).
    pose proof (b64_join _ _ Ha Ha) as (J1 & J2 & J3 & J4 & J5 & J6 & J7).
    rewrite !drop_breaks_char by done. cbn [drop_breaks b64_groups].
    rewrite (proj1 (b64_char_ok _ H1)), (proj1 (b64_char_ok _ H6)). cbn. do 2 f_equal. apply byte_of_val. lia.
  - pose proof (byte_val_range a) as Ha. pose proof (byte_val_range b) as Hb.
    pose proof (b64_parts _ _ Ha Hb) as (H1 & H2 & H3 & H4 & H5 & H6).
    pose proof (b64_join _ _ Ha Hb) as (J1 & J2 & J3 & J4 & J5 & J6 & J7).
    rewrite !drop_breaks_char by done. cbn [drop_breaks b64_groups].
    rewrite (proj1 (b64_char_ok _ H1)), (proj1 (b64_char_ok _ H2)), (proj1 (b64_char_ok _ H3)). cbn.
    do 2 f_equal; [apply byte_of_val; lia|]. f_equal. apply byte_of_val. lia.
  - pose proof (byte_val_range a) as Ha. pose proof (byte_val_range b) as Hb. pose proof (byte_val_range c) as Hc.
    pose proof (b64_parts _ _ Ha Hb) as (H1 & H2 & _ & _ & _ & _).
    pose proof (b64_parts _ _ Hb Hc) as (_ & _ & _ & H4 & H5 & _).
    pose proof (b64_join _ _ Ha Hb) as (J1 & J2 & _). pose proof (b64_join _ _ Hc Hb) as (_ & _ & _ & _ & J5 & J6 & J7).
    rewrite !drop_breaks_char by done. cbn [b64_groups].
    rewrite (proj1 (b64_char_ok _ H1)), (proj1 (b64_char_ok _ H2)), (proj1 (b64_char_ok _ H5)), (proj1 (b64_char_ok _ H4)).
    cbn. rewrite IH by (cbn in Hle; lia). cbn.
    do 2 f_equal; [apply byte_of_val; lia|]. f_equal; [apply byte_of_val; lia|]. f_equal. apply byte_of_val. lia.
Qed.

(** An encoded text has no dot. *)
Definition dotless (s : string) : bool := forallb (fun c => negb (byte_val c =? 46)) (string_to_list s).
Lemma dotless_char i r : 0 <= i < 64 -> dotless (String (b64_char i) r) = dotless r.
Proof. intros (_ & _ & _ & H)%b64_char_ok. unfold dotless. cbn. by apply Z.eqb_neq in H as ->. Qed.
Lemma b64_dotless s : dotless (b64_encode s) = true.
Proof.
  remember (String.length s) as n eqn:Hn. assert (String.length s <= n)%nat as Hle by lia. clear Hn.
  revert s Hle. induction n as [|n IH]; intros s Hle; [by destruct s; [|cbn in Hle; lia]|].
  destruct s as [|a [|b [|c r]]]; [done|..]; cbn [b64_encode]; pose proof (byte_val_range a) as Ha;
    try pose proof (byte_val_range b) as Hb; try pose proof (byte_val_range c) as Hc.
  - pose proof (b64_parts _ _ Ha Ha) as (? & _ & _ & _ & _ & ?). by rewrite !dotless_char.
  - pose proof (b64_parts _ _ Ha Hb) as (? & ? & ? & _). by rewrite !dotless_char.
  - pose proof (b64_parts _ _ Ha Hb) as (? & ? & _). pose proof (b64_parts _ _ Hb Hc) as (_ & _ & _ & ? & ? & _).
    rewrite !dotless_char by done. apply IH. cbn in Hle. lia.
Qed.
Example b64_example : b64_encode "fliable" = "ZmxpYWJsZQ" /\ b64_decode "ZmxpYWJsZQ" = Some "fliable" /\ b64_decode "Z" = None.
Proof. by vm_compute. Qed.
