(* ===== verification/GoDuration.v ===== *)
(** * [time.ParseDuration]

    The texts of durations in requests ([src/rest/handlers.go], [agent.go]):
    decimal numbers with units, in nanoseconds. *)
From Stdlib Require Import Ascii.
From S2P Require Import Prelude GoFloat GoUtf8 GoTime.
Local Open Scope go_scope.
Local Open Scope string_scope.
Local Open Scope Z_scope.

Definition two63 : Z := 2 ^ 63.

(** [time.quote]: bytes that are not printable ASCII as [\x..]. *)
Fixpoint time_quote_body (s : string) : string :=
  match s with
  | EmptyString => ""
  | String c r =>
      let v := byte_val c in
      (if (128 <=? v) || (v <? 32) then String "092" (String "x" (hex_pad 2 v ""))
       else if (v =? 34) || (v =? 92) then String "092" (String c "")
       else String c "") ++ time_quote_body r
  end.
Definition time_quote (s : string) : string := String "034" (time_quote_body s ++ String "034" "").

(** [leadingInt]: [None] on overflow. *)
Fixpoint leading_int (x : Z) (s : string) : option (Z * string) :=
  match s with
  | String c r =>
      if is_digit c then
        if two63 / 10 <? x then None
        else let x := x * 10 + (byte_val c - 48) in if two63 <? x then None else leading_int x r
      else Some (x, s)
  | EmptyString => Some (x, "")
  end.
(** [leadingFraction]: digits after an overflow are ignored. *)
Fixpoint leading_fraction (x : Z) (scale : f64) (over : bool) (s : string) : Z * f64 * string :=
  match s with
  | String c r =>
      if is_digit c then
        if over then leading_fraction x scale true r
        else if (two63 - 1) / 10 <? x then leading_fraction x scale true r
        else let y := x * 10 + (byte_val c - 48) in
             if two63 <? y then leading_fraction x scale true r else leading_fraction y (fmul scale (f_of_Z 10)) false r
      else (x, scale, s)
  | EmptyString => (x, scale, "")
  end.
Fixpoint unit_text (s : string) : string * string :=
  match s with
  | String c r =>
      if is_digit c || Ascii.eqb c "." then ("", s) else let '(u, rest) := unit_text r in (String c u, rest)
  | EmptyString => ("", "")
  end.
Definition unit_of (u : string) : option Z :=
  if String.eqb u "ns" then Some nanosecond
  else if String.eqb u "us" then Some 1000
  else if String.eqb u (encode_rune 181 ++ "s") || String.eqb u (encode_rune 956 ++ "s") then Some 1000
  else if String.eqb u "ms" then Some 1000000
  else if String.eqb u "s" then Some second
  else if String.eqb u "m" then Some minute
  else if String.eqb u "h" then Some hour else None.

Definition invalid_duration {A} (orig : string) : res string A := Err ("time: invalid duration " ++ time_quote orig).
(** One number with its unit: its length and the rest. *)
Definition duration_part (orig s : string) : res string (Z * string) :=
  match s with
  | EmptyString => invalid_duration orig
  | String c _ =>
      if negb (is_digit c || Ascii.eqb c ".") then invalid_duration orig
      else match leading_int 0 s with
           | None => invalid_duration orig
           | Some (v, s1) =>
               let pre := negb (String.length s =? String.length s1)%nat in
               let '(f, scale, s2, post) :=
                 match s1 with
                 | String "." r => let '(f, scale, s2) := leading_fraction 0 f_one false r in
                                   (f, scale, s2, negb (String.length r =? String.length s2)%nat)
                 | _ => (0, f_one, s1, false)
                 end in
               if negb pre && negb post then invalid_duration orig
               else
                 let '(u, rest) := unit_text s2 in
                 if String.eqb u "" then Err ("time: missing unit in duration " ++ time_quote orig)
                 else match unit_of u with
                      | None => Err ("time: unknown unit " ++ time_quote u ++ " in duration " ++ time_quote orig)
                      | Some unit =>
                          if two63 / unit <? v then invalid_duration orig
                          else
                            let v := v * unit in
                            let v := if 0 <? f then v + f_to_int64 (fmul (f_of_Z f) (fdiv (f_of_Z unit) scale)) else v in
                            if two63 <? v then invalid_duration orig else Ok (v, rest)
                      end
           end
  end.
Fixpoint duration_parts (fuel : nat) (orig s : string) (d : Z) : res string Z :=
  if String.eqb s "" then Ok d
  else match fuel with
       | O => OutOfFuel
       | S fuel =>
           let! (v, rest) := duration_part orig s in
           let d := (d + v) mod 2 ^ 64 in
           if two63 <? d then invalid_duration orig else duration_parts fuel orig rest d
       end.
Definition parse_duration (orig : string) : res string Z :=
  let '(neg, s) := match orig with
                   | String "-" r => (true, r)
                   | String "+" r => (false, r)
                   | _ => (false, orig)
                   end in
  if String.eqb s "0" then Ok 0
  else if String.eqb s "" then invalid_duration orig
  else
    let! d := duration_parts (String.length s) orig s 0 in
    if neg then Ok (- d) else if two63 - 1 <? d then invalid_duration orig else Ok d.

Lemma leading_int_shorter x s v r : leading_int x s = Some (v, r) -> (String.length r <= String.length s)%nat.
Proof.
  revert x. induction s as [|c s IH]; intros x; cbn; [by intros [= _ <-]|].
  destruct (is_digit c); [|intros [= _ <-]; cbn; lia]. destruct (_ <? _); [done|]. destruct (_ <? _); [done|].
  intros H%IH. lia.
Qed.
Lemma leading_fraction_shorter s : forall x sc o, (String.length (leading_fraction x sc o s).2 <= String.length s)%nat.
Proof.
  induction s as [|c s IH]; intros x sc o; cbn; [lia|]. destruct (is_digit c); [|cbn; lia].
  repeat case_match; (etrans; [apply IH|lia]).
Qed.
Lemma unit_text_shorter s : unit_text s = ("", s) \/ (String.length (unit_text s).2 < String.length s)%nat.
Proof.
  induction s as [|c s IH]; cbn; [by left|]. destruct (is_digit c || _); [by left|right].
  destruct (unit_text s) as [u r]. cbn in *. destruct IH as [[= -> ->]|]; lia.
Qed.
Lemma duration_part_shorter orig s v r : duration_part orig s = Ok (v, r) -> (String.length r < String.length s)%nat.
Proof.
  unfold duration_part. destruct s as [|c s]; [done|]. destruct (negb (is_digit c || _)); [done|].
  destruct (leading_int 0 (String c s)) as [[x s1]|] eqn:E1; [|done]. apply leading_int_shorter in E1.
  cbv zeta. set (y := match s1 with EmptyString => _ | _ => _ end).
  assert (String.length y.1.2 <= String.length s1)%nat as Hy.
  { unfold y. destruct s1 as [|d s1]; [done|].
    pose proof (leading_fraction_shorter s1 0 f_one false) as Hf. destruct (leading_fraction 0 f_one false s1) as [[f sc] s2].
    cbn in Hf. repeat case_match; cbn; lia. }
  destruct y as [[[f sc] s2] post]. cbn in Hy. destruct (_ && _); [done|].
  pose proof (unit_text_shorter s2) as Hu. destruct (unit_text s2) as [u rest]. cbn in Hu.
  destruct (String.eqb_spec u ""); [done|]. destruct (unit_of u); [|done]. destruct (_ <? _); [done|].
  destruct (_ <? _); [done|]. intros [= _ <-]. destruct Hu as [[= -> _]|]; [done|lia].
Qed.
(** The length of the text is fuel enough. *)
Lemma parse_duration_returns s : returns (parse_duration s) = true.
Proof.
  assert (forall n orig t d, (String.length t <= n)%nat -> returns (duration_parts n orig t d) = true) as H.
  { induction n as [|n IH]; intros orig t d Ht; [by destruct t; [|cbn in Ht; lia]|].
    cbn [duration_parts]. destruct (String.eqb t ""); [done|].
    destruct (duration_part orig t) as [[v r]| | |] eqn:E; try done.
    - cbn. destruct (_ <? _); [done|]. apply IH. apply duration_part_shorter in E. lia.
    - exfalso. unfold duration_part, invalid_duration in E. repeat case_match; discriminate.
    - exfalso. unfold duration_part, invalid_duration in E. repeat case_match; discriminate. }
  unfold parse_duration. set (x := match s with EmptyString => _ | _ => _ end). destruct x as [neg t].
  destruct (String.eqb t "0"); [done|]. destruct (String.eqb t ""); [done|].
  specialize (H (String.length t) s t 0 (le_n _)). destruct (duration_parts _ s t 0); try done. cbn. by repeat case_match.
Qed.
Example durations :
  parse_duration "1h15m30.5s" = Ok (4530500000000) /\ parse_duration "-1.5h" = Ok (-5400000000000) /\
  parse_duration "5" = Err ("time: missing unit in duration " ++ time_quote "5") /\ parse_duration ".s" = invalid_duration ".s".
Proof. by vm_compute. Qed.
