(* ===== verification/ExprValue.v ===== *)
(** * Values of the expression language ([src/expr/eval.go])

    The Go [any] values the engine works with: nil, booleans, numbers,
    strings, lists, string-keyed maps and times.  Go's integer types occur
    when an embedding program passes them; [Normalize] turns them into
    floats.  [float32] and values of other Go types are not represented. *)
From S2P Require Import Prelude GoFloat GoUtf8 GoTime.
Local Open Scope string_scope.
Local Open Scope Z_scope.

Inductive int_kind :=
| KInt | KInt8 | KInt16 | KInt32 | KInt64
| KUint | KUint8 | KUint16 | KUint32 | KUint64.

Inductive value :=
| VNil
| VBool (b : bool)
| VNum (f : f64)
| VStr (s : string)
| VList (l : list value)
| VMap (m : gmap string value)
| VTime (t : Z)
| VInt (k : int_kind) (z : Z).

(** A Go [map[string]any] passed as the variables of an evaluation. *)
Abbreviation vars := (gmap string value).

Definition vnum (z : Z) : value := VNum (f_of_Z z).

(** [toFloat]. *)
Definition to_float (v : value) : option f64 :=
  match v with
  | VNum f => Some f
  | VInt _ z => Some (f_of_Z z)
  | _ => None
  end.

(** [Normalize]. *)
Definition normalize (v : value) : value :=
  match v with
  | VInt _ z => VNum (f_of_Z z)
  | _ => v
  end.

(** [Truthy]. *)
Definition truthy (v : value) : bool :=
  match v with
  | VNil => false
  | VBool b => b
  | VNum f => negb (feq f f_zero)
  | VStr s => negb (String.eqb s "")
  | VList l => match l with [] => false | _ => true end
  | VMap m => negb (bool_decide (m = ∅))
  | VTime t => negb (is_zero_time t)
  | VInt _ z => negb (feq (f_of_Z z) f_zero)
  end.

(** A missing map entry reads as nil. *)
Definition vget (m : vars) (k : string) : value :=
  match m !! k with Some v => v | None => VNil end.

(** [%T]. *)
Definition type_name (v : value) : string :=
  match v with
  | VNil => "<nil>"
  | VBool _ => "bool"
  | VNum _ => "float64"
  | VStr _ => "string"
  | VList _ => "[]interface {}"
  | VMap _ => "map[string]interface {}"
  | VTime _ => "time.Time"
  | VInt k _ =>
      match k with
      | KInt => "int" | KInt8 => "int8" | KInt16 => "int16" | KInt32 => "int32"
      | KInt64 => "int64" | KUint => "uint" | KUint8 => "uint8" | KUint16 => "uint16"
      | KUint32 => "uint32" | KUint64 => "uint64"
      end
  end.

(** [equal]. *)
Fixpoint equal (l r : value) : bool :=
  match to_float l, to_float r with
  | Some a, Some b => feq a b
  | _, _ =>
      match l, r with
      | VNil, VNil => true
      | VBool a, VBool b => Bool.eqb a b
      | VStr a, VStr b => String.eqb a b
      | VTime a, VTime b => a =? b
      | VList la, VList lb =>
          (fix go la lb :=
             match la, lb with
             | [], [] => true
             | x :: la, y :: lb => equal x y && go la lb
             | _, _ => false
             end) la lb
      | VMap ma, VMap mb =>
          bool_decide (size ma = size mb)
          && map_fold (fun k x acc =>
                         match mb !! k with Some y => equal x y | None => false end && acc)
               true ma
      | _, _ => false
      end
  end.

(** The [String] method of a UTC time: a fraction of a second is printed
    without its trailing zeros. *)
Definition fmt_time (t : Z) : string :=
  let ns := t mod second in
  let frac := if ns =? 0 then ""
              else let '(d, k) := strip_zeros 9 ns 0 in "." ++ pad_int (Z.to_nat (9 - k)) d in
  pad_int 4 (time_year t) ++ "-" ++ pad_int 2 (time_month t) ++ "-" ++ pad_int 2 (time_day t)
  ++ " " ++ pad_int 2 (time_hour t) ++ ":" ++ pad_int 2 (time_minute t) ++ ":"
  ++ pad_int 2 (time_second t) ++ frac ++ " +0000 UTC".

(** Entries in key order, as [fmt] prints maps. *)
Definition key_le (a b : string * string) : bool := str_le a.1 b.1.
#[export] Instance key_le_dec : RelDecision (fun a b => key_le a b = true).
Proof. intros a b. solve_decision. Defined.
Definition sort_entries (l : list (string * string)) : list (string * string) :=
  merge_sort (fun a b => key_le a b = true) l.
Definition sort_strings (l : list string) : list string :=
  merge_sort (fun a b => str_le a b = true) l.

(** [%v]. *)
Fixpoint fmt_v (v : value) : string :=
  match v with
  | VNil => "<nil>"
  | VBool b => if b then "true" else "false"
  | VNum f => fmt_g f
  | VStr s => s
  | VList l => "[" ++ sjoin " " (map fmt_v l) ++ "]"
  | VMap m =>
      let es := sort_entries (map_fold (fun k x acc => (k, fmt_v x) :: acc) [] m) in
      "map[" ++ sjoin " " (map (fun e => e.1 ++ ":" ++ e.2) es) ++ "]"
  | VTime t => fmt_time t
  | VInt _ z => fmt_int z
  end.

Definition f_1e15 : f64 := f_of_Z (10 ^ 15).

(** The float case of [Stringify]. *)
Definition stringify_num (x : f64) : string :=
  if feq x (f_trunc x) && flt (f_abs x) f_1e15 then fmt_int (f_to_int64 x) else fmt_g x.

(** [Stringify]. *)
Fixpoint stringify (v : value) : string :=
  match v with
  | VNil => ""
  | VStr s => s
  | VBool b => if b then "true" else "false"
  | VNum f => stringify_num f
  | VInt _ z => stringify_num (f_of_Z z)
  | VTime t => fmt_rfc3339 t
  | VList l => "[" ++ sjoin ", " (map stringify l) ++ "]"
  | VMap _ => fmt_v v
  end.

(** ** Induction over nested values *)
Fixpoint vsize (v : value) : nat :=
  match v with
  | VList l => S (list_sum (map vsize l))
  | VMap m => S (map_fold (fun _ x n => (vsize x + n)%nat) O m)
  | _ => 1%nat
  end.

Lemma vsize_list_In l x : x ∈ l -> (vsize x < vsize (VList l))%nat.
Proof.
  change (vsize (VList l)) with (S (list_sum (map vsize l))).
  induction 1 as [y l|y z l Hx IH]; unfold list_sum in *; cbn; lia.
Qed.

Lemma vsize_map_lookup (m : vars) k x : m !! k = Some x -> (vsize x < vsize (VMap m))%nat.
Proof.
  intros H. cbn.
  rewrite (map_fold_delete_L (fun _ x n => (vsize x + n)%nat) O k x m); [lia| |done].
  intros; lia.
Qed.

Lemma value_nested_ind (P : value -> Prop) :
  P VNil -> (forall b, P (VBool b)) -> (forall f, P (VNum f)) -> (forall s, P (VStr s)) ->
  (forall l, (forall x, x ∈ l -> P x) -> P (VList l)) ->
  (forall m : vars, (forall k x, m !! k = Some x -> P x) -> P (VMap m)) ->
  (forall t, P (VTime t)) -> (forall k z, P (VInt k z)) ->
  forall v, P v.
Proof.
  intros Hn Hb Hf Hs Hl Hm Ht Hi v.
  induction (lt_wf (vsize v)) as [n _ IH] using Acc_ind.
  revert n v IH.
  enough (forall n v, vsize v = n -> P v) as H by (intros; by eapply H).
  intros n. induction (lt_wf n) as [n _ IH]. intros v <-.
  destruct v; auto.
  - apply Hl. intros x Hx. eapply IH; [|done]. by apply vsize_list_In.
  - apply Hm. intros k x Hx. eapply IH; [|done]. by eapply vsize_map_lookup.
Qed.

(** ** Equality of floats and of values *)
Lemma SFcompare_antisym a b : SFcompare a b = CompOpp <$> SFcompare b a.
Proof.
  destruct a as [[]|[]| |[] m e], b as [[]|[]| |[] m' e']; cbn; try done;
    change (Pos.compare_cont Eq) with Pos.compare;
    rewrite (Z.compare_antisym e e'), (Pos.compare_antisym m m');
    by destruct (e ?= e'), (m ?= m')%positive.
Qed.

Lemma feq_sym a b : feq a b = feq b a.
Proof.
  unfold feq, SFeqb. rewrite (SFcompare_antisym a b).
  by destruct (SFcompare b a) as [[]|].
Qed.

Lemma feq_refl a : is_nan a = false -> feq a a = true.
Proof.
  destruct a as [[]|[]| |[] m e]; cbn; try done; intros _; unfold feq, SFeqb; cbn;
    rewrite Z.compare_refl; change (Pos.compare_cont Eq) with Pos.compare;
    by rewrite Pos.compare_refl.
Qed.

Lemma flt_irrefl a : flt a a = false.
Proof.
  unfold flt, SFltb. destruct (is_nan a) eqn:E; [by destruct a|].
  pose proof (feq_refl a E) as H. unfold feq, SFeqb in H.
  by destruct (SFcompare a a) as [[]|].
Qed.

Lemma flt_asym a b : flt a b = true -> flt b a = false.
Proof.
  unfold flt, SFltb. rewrite (SFcompare_antisym b a).
  by destruct (SFcompare a b) as [[]|].
Qed.

Lemma flt_trans a b c : flt a b = true -> flt b c = true -> flt a c = true.
Proof.
  unfold flt, SFltb.
  destruct a as [s|[]| |[] m e], b as [s'|[]| |[] m' e'], c as [s''|[]| |[] m'' e'']; cbn; try done;
    change (Pos.compare_cont Eq) with Pos.compare;
    repeat match goal with
      | |- context [(?x ?= ?y)] => destruct (Z.compare_spec x y); subst; cbn; try done
      | |- context [(?x ?= ?y)%positive] => destruct (Pos.compare_spec x y); subst; cbn; try done
      end; lia.
Qed.

(** [feq] of non-zero floats is Leibniz equality. *)
Lemma feq_true_inv a b :
  feq a b = true -> a = b \/ (exists s t, a = S754_zero s /\ b = S754_zero t).
Proof.
  unfold feq, SFeqb.
  destruct a as [s|[]| |[] m e], b as [s'|[]| |[] m' e']; cbn; try done; intros H; eauto;
    destruct (Z.compare_spec e e') as [->| |]; try done;
    change (Pos.compare_cont Eq) with Pos.compare in H;
    destruct (Pos.compare_spec m m') as [->| |]; try done; by left.
Qed.
Lemma feq_trans a b c : feq a b = true -> feq b c = true -> feq a c = true.
Proof.
  intros H1 H2.
  destruct (feq_true_inv _ _ H1) as [->|(s & t & -> & ->)]; [done|].
  destruct (feq_true_inv _ _ H2) as [<-|(s' & t' & ? & ->)]; [done|]. done.
Qed.

(** ** [equal] is an equivalence away from NaN *)

(** The list case of [equal] as a function of its own. *)
Fixpoint equal_list (la lb : list value) : bool :=
  match la, lb with
  | [], [] => true
  | x :: la, y :: lb => equal x y && equal_list la lb
  | _, _ => false
  end.
Lemma equal_VList la lb : equal (VList la) (VList lb) = equal_list la lb.
Proof. revert lb; induction la; intros []; cbn; try done; f_equal; apply IHla. Qed.

Lemma equal_list_Forall2 la lb : equal_list la lb = true <-> Forall2 (fun x y => equal x y = true) la lb.
Proof.
  split.
  - revert lb; induction la as [|x la IH]; intros [|y lb]; cbn; try done.
    rewrite andb_true_iff. intros []; constructor; auto.
  - induction 1; cbn; [done|]. by rewrite andb_true_iff.
Qed.

Lemma map_fold_andb_true {A} (f : string -> A -> bool) (m : gmap string A) :
  map_fold (fun k x acc => f k x && acc) true m = true <->
  forall k x, m !! k = Some x -> f k x = true.
Proof.
  induction m as [|i y m Hi Hfst IH] using map_first_key_ind.
  - rewrite map_fold_empty. split; [|done]. intros _ k x. by rewrite lookup_empty.
  - rewrite map_fold_insert_first_key, andb_true_iff, IH by done. split.
    + intros [Hy Hm] k x. rewrite lookup_insert. case_decide; naive_solver.
    + intros H. split; [apply H, lookup_insert_eq|].
      intros k x Hk. apply H. rewrite lookup_insert_ne; congruence.
Qed.

Lemma equal_VMap (ma mb : vars) :
  equal (VMap ma) (VMap mb) = true <->
  size ma = size mb /\
  forall k x, ma !! k = Some x -> exists y, mb !! k = Some y /\ equal x y = true.
Proof.
  cbn. rewrite andb_true_iff, bool_decide_eq_true.
  rewrite (map_fold_andb_true (fun k x => match mb !! k with Some y => equal x y | None => false end)).
  split; (intros [Hs H]; split; [done|]; intros k x Hx; specialize (H k x Hx)).
  - destruct (mb !! k); naive_solver.
  - destruct H as (y & -> & ?); done.
Qed.

(** Same size and every key of one in the other: the keys are the same. *)
Lemma map_same_keys {A B} (ma : gmap string A) (mb : gmap string B) :
  size ma = size mb -> (forall k x, ma !! k = Some x -> is_Some (mb !! k)) ->
  forall k y, mb !! k = Some y -> is_Some (ma !! k).
Proof.
  intros Hs Hsub k y Hk.
  assert (dom ma = dom mb) as E.
  { apply set_subseteq_size_eq; [|rewrite !size_dom; lia].
    intros j. rewrite !elem_of_dom. intros [x Hx]. eauto. }
  apply elem_of_dom. rewrite E. apply elem_of_dom. eauto.
Qed.

(** Values none of whose numbers is NaN. *)
Fixpoint nan_free (v : value) : bool :=
  match v with
  | VNum f => negb (is_nan f)
  | VList l => forallb nan_free l
  | VMap m => map_fold (fun _ x acc => nan_free x && acc) true m
  | _ => true
  end.

Lemma equal_refl v : nan_free v = true -> equal v v = true.
Proof.
  induction v as [|b|f|s|l IH|m IH|t|k z] using value_nested_ind; intros Hv; cbn.
  - done.
  - by destruct b.
  - apply feq_refl. by destruct f.
  - apply String.eqb_refl.
  - change (equal (VList l) (VList l) = true). rewrite equal_VList, equal_list_Forall2.
    apply Forall_Forall2_diag, Forall_forall. intros x Hx. apply IH; [done|].
    cbn in Hv. rewrite forallb_forall in Hv. by apply Hv, list_elem_of_In.
  - change (equal (VMap m) (VMap m) = true). rewrite equal_VMap. split; [done|].
    cbn in Hv. rewrite (map_fold_andb_true (fun _ x => nan_free x)) in Hv. eauto.
  - apply Z.eqb_refl.
  - apply feq_refl, f_of_Z_not_nan.
Qed.

Lemma equal_sym a b : equal a b = true -> equal b a = true.
Proof.
  revert b. induction a as [|x|f|s|l IH|m IH|t|k z] using value_nested_ind; intros b H;
    destruct b; try done; cbn in *; try (rewrite feq_sym; exact H).
  - by destruct x, b.
  - by rewrite String.eqb_sym.
  - change (equal (VList l) (VList l0) = true) in H. change (equal (VList l0) (VList l) = true).
    rewrite equal_VList, equal_list_Forall2 in *. apply Forall2_flip.
    induction H; constructor; [|apply IHForall2; set_solver].
    apply IH; [set_solver|done].
  - change (equal (VMap m) (VMap m0) = true) in H. change (equal (VMap m0) (VMap m) = true).
    rewrite equal_VMap in *. destruct H as [Hs H]. split; [done|]. intros k y Hk.
    destruct (map_same_keys m m0 Hs ltac:(naive_solver) k y Hk) as [x Hx].
    destruct (H k x Hx) as (y' & Hy' & He). simplify_eq. eauto.
  - by rewrite Z.eqb_sym.
Qed.

Lemma equal_trans a b c : equal a b = true -> equal b c = true -> equal a c = true.
Proof.
  revert b c. induction a as [|x|f|s|l IH|m IH|t|k z] using value_nested_ind; intros b c H H2;
    destruct b; try done; destruct c; try done; cbn in *; try (by eapply feq_trans).
  - by destruct x, b.
  - apply String.eqb_eq in H as ->. done.
  - change (equal (VList l) (VList l0) = true) in H. change (equal (VList l0) (VList l1) = true) in H2.
    change (equal (VList l) (VList l1) = true).
    rewrite equal_VList, equal_list_Forall2 in *. revert l1 H2.
    induction H; intros l1 H2; inv H2; constructor; [eapply IH; set_solver|].
    apply IHForall2; [set_solver|done].
  - change (equal (VMap m) (VMap m0) = true) in H. change (equal (VMap m0) (VMap m1) = true) in H2.
    change (equal (VMap m) (VMap m1) = true).
    rewrite equal_VMap in *. destruct H as [Hs H], H2 as [Hs2 H2]. split; [congruence|].
    intros k x Hx. destruct (H k x Hx) as (y & Hy & ?). destruct (H2 k y Hy) as (w & ? & ?).
    eauto.
  - apply Z.eqb_eq in H as ->. done.
Qed.

(** NaN aside, [equal] is a setoid equality; the instance lets a proof
    rewrite with it. *)
Definition value_eqv (a b : value) : Prop := equal a b = true.
#[export] Instance value_eqv_per : RelationClasses.PER value_eqv.
Proof. split; [exact equal_sym|exact equal_trans]. Qed.
#[export] Instance equal_proper : Proper (value_eqv ==> value_eqv ==> eq) equal.
Proof.
  intros a a' Ha b b' Hb. apply eq_true_iff_eq. unfold value_eqv in *.
  split; eauto using equal_sym, equal_trans.
Qed.
