(* ===== verification/ExprLexer.v ===== *)
(** * Lexer of the expression language ([src/expr/lexer.go])

    The scanner state is the unread suffix [src[pos:]] together with [pos]. *)
From Stdlib Require Import Ascii.
From S2P Require Import Prelude GoFloat GoUtf8 ExprValue.
Local Open Scope go_scope.
Local Open Scope string_scope.
Local Open Scope Z_scope.

Inductive token_kind := TokEOF | TokNumber | TokString | TokIdent | TokOp | TokBool | TokNull.

Record token := Token { t_kind : token_kind; t_val : string; t_pos : Z }.

(** [CompileError] (syntax, with the byte offset) and [EvalError]. *)
Inductive expr_error :=
| CompileError (src : string) (pos : Z) (msg : string)
| EvalError (src : string) (msg : string).

Definition operators : list string :=
  ["=="; "!="; "<="; ">="; "&&"; "||"; "??";
   "+"; "-"; "*"; "/"; "%"; "<"; ">"; "!"; "("; ")"; "["; "]"; ","; "."; "?"; ":"].

Section lexer.
Context {U : Unicode}.

Definition is_ident_start (r : Z) : bool := (r =? 95) || is_letter_rune r.
Definition is_ident_part (r : Z) : bool := (r =? 95) || is_letter_rune r || is_digit_rune r.

(** The [Error] methods of the two error types. *)
Definition expr_error_string (e : expr_error) : string :=
  match e with
  | CompileError src pos msg => "expr: " ++ msg ++ " at offset " ++ fmt_int pos ++ " in " ++ quote src
  | EvalError src msg => "expr: " ++ msg ++ " in " ++ quote src
  end.

(** [(l *lexer) number]: the literal and the rest. *)
Fixpoint lex_number (seen_dot : bool) (s : string) : string * string :=
  match s with
  | EmptyString => ("", s)
  | String c s' =>
      let dot := Ascii.eqb c "." && negb seen_dot
                 && match s' with String d _ => is_digit d | _ => false end in
      if dot || is_digit c then
        let '(t, r) := lex_number (seen_dot || dot) s' in (String c t, r)
      else ("", s)
  end.

(** [(l *lexer) str] after the opening quote: the decoded contents and the
    rest.  [start] is the offset of the literal, [pos] that of [s]. *)
Fixpoint lex_str (src : string) (q : ascii) (start pos : Z) (s : string)
  : res expr_error (string * string) :=
  match s with
  | EmptyString => Err (CompileError src start "unterminated string")
  | String c s' =>
      if Ascii.eqb c q then Ok ("", s')
      else if Ascii.eqb c "\" then
        match s' with
        | EmptyString => Err (CompileError src start "unterminated string")
        | String e s'' =>
            let put (d : ascii) :=
              let! (t, r) := lex_str src q start (pos + 2) s'' in Ok (String d t, r) in
            if Ascii.eqb e "n" then put (byte_of 10)
            else if Ascii.eqb e "t" then put (byte_of 9)
            else if Ascii.eqb e "r" then put (byte_of 13)
            else if Ascii.eqb e "\" || Ascii.eqb e "'" || Ascii.eqb e (byte_of 34) then put e
            else Err (CompileError src (pos + 1) ("unknown escape \" ++ encode_rune (byte_val e)))
        end
      else let! (t, r) := lex_str src q start (pos + 1) s' in Ok (String c t, r)
  end.

(** The scan of [(l *lexer) ident]: the longest run of identifier runes. *)
Fixpoint ident_run (fuel : nat) (s : string) : string * string :=
  match fuel, s with
  | S fuel, String _ _ =>
      let '(r, n) := decode_rune s in
      if is_ident_part r then
        let '(t, rest) := ident_run fuel (sdrop n s) in (stake n s ++ t, rest)
      else ("", s)
  | _, _ => ("", s)
  end.

(** The keyword table of [(l *lexer) ident]. *)
Definition ident_token (word : string) (pos : Z) : token :=
  if String.eqb word "true" || String.eqb word "false" then Token TokBool word pos
  else if String.eqb word "null" || String.eqb word "nil" then Token TokNull word pos
  else if String.eqb word "and" then Token TokOp "&&" pos
  else if String.eqb word "or" then Token TokOp "||" pos
  else if String.eqb word "not" then Token TokOp "!" pos
  else if String.eqb word "in" then Token TokOp "in" pos
  else Token TokIdent word pos.

(** [(l *lexer) operator]: the first operator of the table that is a prefix. *)
Fixpoint lex_operator (ops : list string) (s : string) : option (string * string) :=
  match ops with
  | [] => None
  | op :: ops =>
      match strip_prefix op s with
      | Some rest => Some (op, rest)
      | None => lex_operator ops s
      end
  end.

Definition is_blank (c : ascii) : bool :=
  let v := byte_val c in (v =? 32) || (v =? 9) || (v =? 10) || (v =? 13).

(** One turn of the loop of [lex]: the token scanned, if any, with the
    offset and the text after it.  The byte at the position selects the
    scanner; [isIdentStart] is asked about that byte as a code point. *)
Definition lex_step (src : string) (pos : Z) (c : ascii) (s' : string)
  : res expr_error (option token * Z * string) :=
  let s := String c s' in
  if is_blank c then Ok (None, pos + 1, s')
  else if is_digit c then
    let '(t, r) := lex_number false s in Ok (Some (Token TokNumber t pos), pos + slen t, r)
  else if Ascii.eqb c (byte_of 34) || Ascii.eqb c "'" then
    let! (t, r) := lex_str src c pos (pos + 1) s' in
    Ok (Some (Token TokString t pos), pos + (slen s - slen r), r)
  else if is_ident_start (byte_val c) then
    let '(w, r) := ident_run (String.length s) s in
    Ok (Some (ident_token w pos), pos + slen w, r)
  else match lex_operator operators s with
       | Some (op, r) => Ok (Some (Token TokOp op pos), pos + slen op, r)
       | None =>
           Err (CompileError src pos ("unexpected character " ++ quote_char (decode_rune s).1))
       end.

Fixpoint lex_loop (fuel : nat) (src : string) (pos : Z) (s : string) : res expr_error (list token) :=
  match s with
  | EmptyString => Ok [Token TokEOF "" pos]
  | String c s' =>
      match fuel with
      | O => OutOfFuel
      | S fuel =>
          let! (ot, pos', r) := lex_step src pos c s' in
          let! ts := lex_loop fuel src pos' r in
          Ok (match ot with Some t => t :: ts | None => ts end)
      end
  end.

(** [lex]: each turn consumes at least one byte of well-behaved input, so the
    length of the source bounds the turns. *)
Definition lex (src : string) : res expr_error (list token) :=
  lex_loop (String.length src) src 0 src.
End lexer.

(** ** What each scanner consumes *)
#[local] Opaque decode_rune.

Section lexer_facts.
Context {U : Unicode}.

(** [is_suffix r s]: [r] is what remains of [s] after some bytes. *)
Definition is_suffix (r s : string) : Prop := exists p, s = p ++ r.

Lemma is_suffix_refl s : is_suffix s s.
Proof. by exists "". Qed.
Lemma is_suffix_cons c r s : is_suffix r s -> is_suffix r (String c s).
Proof. intros [p ->]. by exists (String c p). Qed.
Lemma is_suffix_length r s : is_suffix r s -> (String.length r <= String.length s)%nat.
Proof. intros [p ->]. rewrite string_app_length. lia. Qed.

Lemma lex_number_app d s : (lex_number d s).1 ++ (lex_number d s).2 = s.
Proof.
  revert d; induction s as [|c s IH]; intros d; cbn; [done|].
  case_match; [|done]. match goal with |- context [lex_number ?b s] => specialize (IH b);
    destruct (lex_number b s) eqn:? end. cbn in *. congruence.
Qed.

Lemma lex_str_suffix src q st pos s t r :
  lex_str src q st pos s = Ok (t, r) -> is_suffix r s /\ (String.length r < String.length s)%nat.
Proof.
  revert pos t. induction s as [s IH] using (induction_ltof1 _ String.length); unfold ltof in IH.
  intros pos t. destruct s as [|c s]; cbn; [done|].
  case_match; [intros; simplify_eq; split; [apply is_suffix_cons, is_suffix_refl|lia]|].
  case_match.
  - destruct s as [|e s]; cbn; [done|].
    assert (forall d, rbind (lex_str src q st (pos + 2) s) (fun '(t0, r0) => Ok (String d t0, r0)) = Ok (t, r) ->
            is_suffix r (String c (String e s)) /\ (String.length r < S (S (String.length s)))%nat) as Hput.
    { intros d. rewrite bind_Ok. intros ([t0 r0] & H1 & H2). simplify_eq.
      apply IH in H1 as [H1 H2]; [|cbn; lia]. split; [by do 2 apply is_suffix_cons|lia]. }
    repeat case_match; try done; apply Hput.
  - rewrite bind_Ok. intros ([t0 r0] & H1 & H2). simplify_eq.
    apply IH in H1 as [H1 H2]; [|cbn; lia]. split; [by apply is_suffix_cons|lia].
Qed.

Lemma lex_str_returns src q st pos s : returns (lex_str src q st pos s) = true.
Proof.
  revert pos. induction s as [s IH] using (induction_ltof1 _ String.length); unfold ltof in IH.
  intros pos. destruct s as [|c s]; cbn; [done|].
  case_match; [done|]. case_match.
  - destruct s as [|e s]; cbn; [done|].
    repeat case_match; try done; (apply returns_bind; [apply IH; cbn; lia|by intros []]).
  - apply returns_bind; [apply IH; cbn; lia|by intros []].
Qed.

Lemma ident_run_app n s : (ident_run n s).1 ++ (ident_run n s).2 = s.
Proof.
  revert s; induction n as [|n IH]; intros s; cbn; [done|].
  destruct s as [|c s]; [done|]. destruct (decode_rune (String c s)) as [r k].
  case_match; [|done]. specialize (IH (sdrop k (String c s))).
  destruct (ident_run n (sdrop k (String c s))) as [t rest]. cbn [fst snd] in *.
  rewrite <- string_app_assoc, IH. apply stake_sdrop.
Qed.

Lemma lex_operator_app ops s op r :
  lex_operator ops s = Some (op, r) -> s = op ++ r /\ op ∈ ops.
Proof.
  induction ops as [|o ops IH]; cbn; [done|].
  destruct (strip_prefix o s) eqn:E.
  - intros; simplify_eq. apply strip_prefix_Some in E. set_solver.
  - intros H. apply IH in H. set_solver.
Qed.

Lemma lex_step_suffix src pos c s ot pos' r :
  lex_step src pos c s = Ok (ot, pos', r) -> is_suffix r (String c s).
Proof.
  unfold lex_step. case_match; [intros; simplify_eq; apply is_suffix_cons, is_suffix_refl|].
  case_match.
  { pose proof (lex_number_app false (String c s)) as H'.
    destruct (lex_number false (String c s)) as [t r']. intros; simplify_eq. by exists t. }
  case_match.
  { rewrite bind_Ok. intros ([t r'] & H' & ?). simplify_eq.
    apply is_suffix_cons. by eapply lex_str_suffix. }
  case_match.
  { pose proof (ident_run_app (String.length (String c s)) (String c s)) as H'.
    destruct (ident_run _ (String c s)) as [t r']. intros; simplify_eq. by exists t. }
  destruct (lex_operator operators (String c s)) as [[op r']|] eqn:E; [|done].
  apply lex_operator_app in E as [E _]. intros; simplify_eq. by exists op.
Qed.

Lemma lex_step_returns src pos c s : returns (lex_step src pos c s) = true.
Proof.
  unfold lex_step. repeat case_match; try done.
  apply returns_bind; [apply lex_str_returns|by intros []].
Qed.

(** The byte at the position opens an identifier exactly when the rune
    there does: true of ASCII text, and of letters such as é. *)
Definition ident_agrees (s : string) : bool :=
  match s with
  | String c _ =>
      implb (is_ident_start (byte_val c)) (is_ident_part (decode_rune s).1)
  | EmptyString => true
  end.

Lemma lex_step_progress src pos c s ot pos' r :
  ident_agrees (String c s) = true ->
  lex_step src pos c s = Ok (ot, pos', r) -> (String.length r < S (String.length s))%nat.
Proof.
  intros Hag. pose proof (fun H => is_suffix_length _ _ (lex_step_suffix src pos c s ot pos' r H)) as Hle.
  intros H. specialize (Hle H). revert H. unfold lex_step.
  case_match; [intros; simplify_eq; lia|].
  case_match.
  { cbn [lex_number]. rewrite H0, orb_true_r.
    destruct (lex_number _ s) as [t r'] eqn:E. intros; simplify_eq.
    pose proof (lex_number_app (false || (Ascii.eqb c "." && negb false && match s with String d _ => is_digit d | _ => false end)) s) as Ha.
    rewrite E in Ha. cbn in Ha. rewrite <- Ha, string_app_length. lia. }
  case_match.
  { rewrite bind_Ok. intros ([t r'] & H' & ?). simplify_eq.
    apply lex_str_suffix in H' as [_ ?]. lia. }
  case_match.
  { unfold ident_agrees in Hag. rewrite H2 in Hag. cbn [implb] in Hag.
    cbn [ident_run String.length]. destruct (decode_rune (String c s)) as [rn k] eqn:Ed.
    cbn [fst] in Hag. rewrite Hag.
    pose proof (decode_rune_width (String c s) ltac:(done)) as Hk. rewrite Ed in Hk. cbn in Hk.
    pose proof (ident_run_app (String.length s) (sdrop k (String c s))) as Ha.
    destruct (ident_run _ (sdrop k _)) as [t r'] eqn:E. cbn in Ha. intros; simplify_eq.
    pose proof (sdrop_length k (String c s)) as Hl. rewrite <- Ha, string_app_length in Hl.
    cbn in Hl. lia. }
  destruct (lex_operator operators (String c s)) as [[op r']|] eqn:E; [|done].
  apply lex_operator_app in E as [E Hop]. intros; simplify_eq.
  assert (1 <= String.length op)%nat.
  { revert Hop. unfold operators. rewrite !elem_of_cons, elem_of_nil. intros; destruct_or!; subst; cbn; lia. }
  apply (f_equal String.length) in E. rewrite string_app_length in E. cbn in E. lia.
Qed.

(** Every position of the text, not only token starts. *)
Fixpoint ident_agrees_all (s : string) : bool :=
  ident_agrees s && match s with String _ s' => ident_agrees_all s' | EmptyString => true end.

Lemma ident_agrees_suffix r s : is_suffix r s -> ident_agrees_all s = true -> ident_agrees_all r = true.
Proof.
  intros [p ->]. induction p as [|c p IH]; cbn [String.append]; [done|].
  cbn [ident_agrees_all]. rewrite andb_true_iff. intros [_ H]. auto.
Qed.

(** The last token of a successful scan, and only that one, is EOF. *)
Definition ends_in_eof (ts : list token) : Prop :=
  exists body e, ts = (body ++ [e])%list /\ t_kind e = TokEOF /\ Forall (fun t => t_kind t <> TokEOF) body.

Lemma lex_step_not_eof src pos c s t pos' r :
  lex_step src pos c s = Ok (Some t, pos', r) -> t_kind t <> TokEOF.
Proof.
  unfold lex_step. case_match; [done|].
  case_match; [destruct (lex_number _ _); intros; by simplify_eq|].
  case_match; [rewrite bind_Ok; intros ([] & ? & ?); by simplify_eq|].
  case_match.
  - destruct (ident_run _ _). intros; simplify_eq. unfold ident_token. by repeat case_match.
  - destruct (lex_operator _ _) as [[]|]; intros; by simplify_eq.
Qed.

Lemma lex_loop_ends fuel src pos s ts : lex_loop fuel src pos s = Ok ts -> ends_in_eof ts.
Proof.
  revert pos s ts; induction fuel as [|fuel IH]; intros pos [|c s] ts; cbn; try done;
    try (intros; simplify_eq; by exists [], (Token TokEOF "" pos)).
  rewrite bind_Ok. intros ([[ot pos'] r] & Hs & H). rewrite bind_Ok in H.
  destruct H as (ts' & Hl & Heq). apply IH in Hl as (body & e & -> & He & Hb).
  destruct ot as [t|]; simplify_eq; [|by exists body, e].
  exists (t :: body), e. split_and!; [done..|]. constructor; [|done]. by eapply lex_step_not_eof.
Qed.

Lemma lex_loop_returns fuel src pos s :
  ident_agrees_all s = true -> (String.length s <= fuel)%nat ->
  returns (lex_loop fuel src pos s) = true.
Proof.
  revert pos s; induction fuel as [|fuel IH]; intros pos [|c s] Ha Hl; cbn [lex_loop]; try done;
    [cbn in Hl; lia|].
  apply returns_bind; [apply lex_step_returns|]. intros [[ot pos'] r] Hs.
  pose proof (lex_step_suffix _ _ _ _ _ _ _ Hs) as Hsuf.
  apply lex_step_progress in Hs; [|cbn in Ha; by apply andb_true_iff in Ha as [? _]].
  apply returns_bind; [|done]. apply IH; [by eapply ident_agrees_suffix|]. cbn in Hl. lia.
Qed.

(** ASCII text has the property. *)
Fixpoint is_ascii (s : string) : bool :=
  match s with String c s => (byte_val c <? 128)%Z && is_ascii s | EmptyString => true end.

Lemma is_ascii_agrees s : is_ascii s = true -> ident_agrees_all s = true.
Proof.
  induction s as [|c s IH]; cbn [is_ascii ident_agrees_all]; [done|].
  rewrite !andb_true_iff, Z.ltb_lt. intros [Hc Hs]. split; [|auto].
  unfold ident_agrees. rewrite decode_ascii by done. cbn.
  unfold is_ident_start, is_ident_part. destruct (_ || _)%bool; done.
Qed.
End lexer_facts.

Section lexer_properties.
Context {U : Unicode}.

Lemma ident_start_other_cases c :
  is_ident_start (byte_val c) = true ->
  is_blank c = false /\ is_digit c = false
  /\ (Ascii.eqb c (byte_of 34) || Ascii.eqb c "'")%bool = false.
Proof.
  intros H. pose proof (byte_val_range c) as Hr.
  assert (65 <= byte_val c) as Hge.
  { revert H. unfold is_ident_start, is_letter_rune.
    destruct (Z.ltb_spec (byte_val c) 256); [|lia]. lia. }
  unfold is_blank, is_digit. split; [lia|]. split; [lia|].
  destruct (Ascii.eqb_spec c (byte_of 34)) as [->|]; [by vm_compute in Hge|].
  destruct (Ascii.eqb_spec c "'") as [->|]; [by vm_compute in Hge|]. done.
Qed.

(** The scanner loops forever on a character whose first byte, read as a
    code point, is a letter while the character itself is no identifier
    character (for instance the multiplication sign, or a no-break space):
    [ident] then consumes nothing and the main loop repeats.  Whatever bound
    is put on the number of turns, the scan has not finished. *)
Theorem lex_loop_stuck fuel src pos c s :
  is_ident_start (byte_val c) = true ->
  is_ident_part (decode_rune (String c s)).1 = false ->
  lex_loop fuel src pos (String c s) = OutOfFuel.
Proof.
  intros Hs Hp. destruct (ident_start_other_cases c Hs) as (Hb & Hd & Hq).
  revert pos; induction fuel as [|fuel IH]; intros pos; [done|].
  cbn [lex_loop]. unfold lex_step. rewrite Hb, Hd, Hq, Hs. cbn [ident_run String.length].
  destruct (decode_rune (String c s)) as [r n]. cbn in Hp. rewrite Hp. cbn [rbind].
  by rewrite IH.
Qed.

(** On text in which every byte that opens an identifier starts an
    identifier character (all ASCII text, all text whose non-ASCII
    characters are letters) the scanner returns, and the tokens end in the
    only EOF token. *)
Theorem lex_returns src :
  ident_agrees_all src = true ->
  returns (lex src) = true /\ forall ts, lex src = Ok ts -> ends_in_eof ts.
Proof.
  intros H. unfold lex. split; [by apply lex_loop_returns|]. intros ts. apply lex_loop_ends.
Qed.
End lexer_properties.

(** The multiplication sign is the two bytes C3 97; byte C3 is the code
    point of a letter. *)
Lemma lex_loop_stuck_witness :
  @is_ident_start latin1_only 195 = true /\
  @is_ident_part latin1_only (decode_rune (encode_rune 215)).1 = false /\
  @lex_loop latin1_only 1000 (encode_rune 215) 0 (encode_rune 215) = OutOfFuel.
Proof.
  split_and!; [vm_compute; reflexivity..|].
  apply (@lex_loop_stuck latin1_only 1000 (encode_rune 215) 0 (byte_of 195)
    (String (byte_of 151) EmptyString)); vm_compute; reflexivity.
Defined.
