(* ===== verification/ExprParser.v ===== *)
(** * Parser of the expression language ([src/expr/parser.go])

    The parser state is the unread token list, which ends in an EOF token.
    Every grammar function takes [pe], the parser of a full expression that
    it calls on a shorter input; [parse_expr] ties the knot with fuel. *)
From S2P Require Import Prelude GoFloat GoUtf8 ExprValue ExprLexer.
Local Open Scope go_scope.
Local Open Scope string_scope.

(** The AST node types. *)
Inductive node :=
| LitNode (v : value)
| VarNode (name : string)
| ListNode (items : list node)
| UnaryNode (op : string) (x : node)
| BinaryNode (op : string) (l r : node)
| TernaryNode (cond thn els : node)
| MemberNode (x : node) (name : string)
| IndexNode (x idx : node)
| CallNode (name : string) (args : list node).

Definition cmp_ops : list string := ["=="; "!="; "<="; ">="; "<"; ">"; "in"].

Section parser.
Context {U : Unicode}.
Variable src : string.

Definition perr (t : token) (msg : string) : expr_error := CompileError src (t_pos t) msg.

(** [p.next]: reading past the last token is an index panic. *)
Definition next (ts : list token) : res expr_error (token * list token) :=
  match ts with
  | t :: ts => Ok (t, ts)
  | [] => Panic "index out of range"
  end.

(** [p.accept] of any of the given operators, in order. *)
Definition is_op (t : token) (op : string) : bool :=
  match t_kind t with TokOp => String.eqb (t_val t) op | _ => false end.

Fixpoint accept_any (ops : list string) (t : token) : option string :=
  match ops with
  | [] => None
  | op :: ops => if is_op t op then Some op else accept_any ops t
  end.

Definition accept (op : string) (ts : list token) : res expr_error (bool * list token) :=
  match ts with
  | t :: r => Ok (if is_op t op then (true, r) else (false, ts))
  | [] => Panic "index out of range"
  end.

Definition expect (op : string) (ts : list token) : res expr_error (list token) :=
  let! (ok, r) := accept op ts in
  if ok then Ok r
  else match ts with
       | t :: _ => Err (perr t ("expected " ++ quote op ++ ", found " ++ quote (t_val t)))
       | [] => Panic "index out of range"
       end.

Definition token_label (t : token) : string :=
  match t_kind t with TokEOF => "end of expression" | _ => t_val t end.

Section grammar.
Variable pe : list token -> res expr_error (node * list token).

(** [e ( ',' e )* close] after the opening bracket. *)
Fixpoint parse_items (fuel : nat) (close : string) (ts : list token)
  : res expr_error (list node * list token) :=
  match fuel with
  | O => OutOfFuel
  | S fuel =>
      let! (a, ts) := pe ts in
      let! (done, ts) := accept close ts in
      if done then Ok ([a], ts)
      else
        let! ts := expect "," ts in
        let! (rest, ts) := parse_items fuel close ts in
        Ok (a :: rest, ts)
  end.
Definition parse_seq (close : string) (ts : list token) : res expr_error (list node * list token) :=
  let! (done, ts) := accept close ts in
  if done then Ok ([], ts) else parse_items (length ts) close ts.

Definition parse_primary (ts : list token) : res expr_error (node * list token) :=
  let! (t, ts) := next ts in
  let unexpected := Err (perr t ("unexpected " ++ quote (token_label t))) in
  match t_kind t with
  | TokNumber =>
      match parse_float (t_val t) with
      | Some f => Ok (LitNode (VNum f), ts)
      | None => Err (perr t ("bad number " ++ quote (t_val t)))
      end
  | TokString => Ok (LitNode (VStr (t_val t)), ts)
  | TokBool => Ok (LitNode (VBool (String.eqb (t_val t) "true")), ts)
  | TokNull => Ok (LitNode VNil, ts)
  | TokIdent =>
      let! (call, ts) := accept "(" ts in
      if call then let! (args, ts) := parse_seq ")" ts in Ok (CallNode (t_val t) args, ts)
      else Ok (VarNode (t_val t), ts)
  | TokOp =>
      if String.eqb (t_val t) "(" then
        let! (x, ts) := pe ts in let! ts := expect ")" ts in Ok (x, ts)
      else if String.eqb (t_val t) "[" then
        let! (items, ts) := parse_seq "]" ts in Ok (ListNode items, ts)
      else unexpected
  | TokEOF => unexpected
  end.

(** The suffixes [.name] and [[e]]. *)
Fixpoint postfix_loop (fuel : nat) (x : node) (ts : list token) : res expr_error (node * list token) :=
  match fuel with
  | O => OutOfFuel
  | S fuel =>
      let! (dot, ts) := accept "." ts in
      if dot then
        let! (t, ts) := next ts in
        match t_kind t with
        | TokIdent => postfix_loop fuel (MemberNode x (t_val t)) ts
        | _ => Err (perr t "expected property name after '.'")
        end
      else
        let! (br, ts) := accept "[" ts in
        if br then
          let! (idx, ts) := pe ts in
          let! ts := expect "]" ts in
          postfix_loop fuel (IndexNode x idx) ts
        else Ok (x, ts)
  end.
Definition parse_postfix (ts : list token) : res expr_error (node * list token) :=
  let! (x, ts) := parse_primary ts in postfix_loop (S (length ts)) x ts.

(** Prefix operators; structural on the tokens. *)
Fixpoint parse_unary (ts : list token) : res expr_error (node * list token) :=
  match ts with
  | t :: r =>
      if is_op t "!" then let! (x, r) := parse_unary r in Ok (UnaryNode "!" x, r)
      else if is_op t "-" then let! (x, r) := parse_unary r in Ok (UnaryNode "-" x, r)
      else parse_postfix ts
  | [] => Panic "index out of range"
  end.

(** [sub (op sub)*], associating to the left. *)
Fixpoint binary_loop (sub : list token -> res expr_error (node * list token)) (ops : list string)
    (fuel : nat) (l : node) (ts : list token) : res expr_error (node * list token) :=
  match fuel with
  | O => OutOfFuel
  | S fuel =>
      match ts with
      | [] => Panic "index out of range"
      | t :: r =>
          match accept_any ops t with
          | Some op => let! (x, r) := sub r in binary_loop sub ops fuel (BinaryNode op l x) r
          | None => Ok (l, ts)
          end
      end
  end.
Definition binary_level (sub : list token -> res expr_error (node * list token)) (ops : list string)
    (ts : list token) : res expr_error (node * list token) :=
  let! (l, ts) := sub ts in binary_loop sub ops (S (length ts)) l ts.

Definition parse_mul := binary_level parse_unary ["*"; "/"; "%"].
Definition parse_add := binary_level parse_mul ["+"; "-"].
Definition parse_cmp := binary_level parse_add cmp_ops.
Definition parse_and := binary_level parse_cmp ["&&"].
Definition parse_or := binary_level parse_and ["||"].
Definition parse_coalesce := binary_level parse_or ["??"].

Definition parse_ternary (ts : list token) : res expr_error (node * list token) :=
  let! (cond, ts) := parse_coalesce ts in
  let! (q, ts) := accept "?" ts in
  if q then
    let! (thn, ts) := pe ts in
    let! ts := expect ":" ts in
    let! (els, ts) := pe ts in
    Ok (TernaryNode cond thn els, ts)
  else Ok (cond, ts).
End grammar.

(** [parseExpr]. *)
Fixpoint parse_expr (fuel : nat) (ts : list token) : res expr_error (node * list token) :=
  match fuel with
  | O => OutOfFuel
  | S fuel => parse_ternary (parse_expr fuel) ts
  end.

Definition parse_tokens (ts : list token) : res expr_error node :=
  let! (n, r) := parse_expr (S (length ts)) ts in
  let! (t, _) := next r in
  match t_kind t with
  | TokEOF => Ok n
  | _ => Err (perr t ("unexpected " ++ quote (t_val t)))
  end.
End parser.

(** [Compile]. *)
Definition compile {U : Unicode} (src : string) : res expr_error node :=
  let! ts := lex src in parse_tokens src ts.

(** ** Termination

    Every grammar function, given a recursive parser that is well behaved on
    shorter inputs, returns, and on success leaves a shorter input that
    still ends in EOF. *)
Section parser_returns.
Context {U : Unicode}.
Variable src : string.

Definition good (n : nat) {A} (r : res expr_error (A * list token)) : Prop :=
  match r with
  | Ok (_, ts) => ends_in_eof ts /\ (length ts < n)%nat
  | Err _ => True
  | _ => False
  end.
(** A step that may consume nothing. *)
Definition good_le (n : nat) {A} (r : res expr_error (A * list token)) : Prop := good (S n) r.

Lemma good_bind n m {A B} (r : res expr_error (A * list token)) (f : A * list token -> res expr_error (B * list token)) :
  good m r ->
  (forall a ts, r = Ok (a, ts) -> ends_in_eof ts -> (length ts < m)%nat -> good n (f (a, ts))) ->
  good n (rbind r f).
Proof. destruct r as [[a ts]| | |]; cbn; naive_solver. Qed.

Lemma good_weaken n m {A} (r : res expr_error (A * list token)) : good n r -> (n <= m)%nat -> good m r.
Proof. destruct r as [[]| | |]; cbn; try done. intros []; split; [done|lia]. Qed.

Lemma ends_in_eof_cons t ts :
  ends_in_eof (t :: ts) -> t_kind t <> TokEOF -> ends_in_eof ts.
Proof.
  intros (body & e & Heq & He & Hb) Ht. destruct body as [|b body]; simplify_eq/=.
  exists body, e. inv Hb. done.
Qed.

Lemma ends_in_eof_nil : ~ ends_in_eof [].
Proof. intros ([] & ? & ? & _); done. Qed.

Lemma is_op_not_eof t op : is_op t op = true -> t_kind t <> TokEOF.
Proof. unfold is_op. by destruct (t_kind t). Qed.

Lemma good_accept op ts :
  ends_in_eof ts -> exists b r, accept op ts = Ok (b, r) /\ ends_in_eof r /\
    (if b then (length r < length ts)%nat else r = ts).
Proof.
  intros H. destruct ts as [|t ts]; [by apply ends_in_eof_nil in H|]. cbn.
  destruct (is_op t op) eqn:E.
  - exists true, ts. split_and!; [done| |lia]. by eapply ends_in_eof_cons, is_op_not_eof.
  - by exists false, (t :: ts).
Qed.

Lemma good_expect op ts :
  ends_in_eof ts ->
  (exists r, expect src op ts = Ok r /\ ends_in_eof r /\ (length r < length ts)%nat)
  \/ exists e, expect src op ts = Err e.
Proof.
  intros H. unfold expect. destruct (good_accept op ts H) as (b & r & -> & Hr & Hb). cbn.
  destruct b; [left; eauto|]. subst. destruct ts; [by apply ends_in_eof_nil in H|]. eauto.
Qed.

Ltac step_accept :=
  match goal with
  | H : ends_in_eof ?ts |- context [accept ?op ?ts] =>
      let b := fresh "b" in let r := fresh "r" in
      destruct (good_accept op ts H) as (b & r & -> & ? & ?); cbn [rbind]; destruct b
  end.
Ltac step_expect :=
  match goal with
  | H : ends_in_eof ?ts |- context [expect src ?op ?ts] =>
      let r := fresh "r" in
      destruct (good_expect op ts H) as [(r & -> & ? & ?)|[? ->]]; cbn [rbind]; [|done]
  end.

Section grammar_returns.
Variable pe : list token -> res expr_error (node * list token).
Variable bound : nat.
Hypothesis pe_good : forall ts, ends_in_eof ts -> (length ts < bound)%nat -> good (length ts) (pe ts).

Lemma parse_items_good fuel close ts :
  ends_in_eof ts -> (length ts < bound)%nat -> (length ts <= fuel)%nat ->
  good (length ts) (parse_items src pe fuel close ts).
Proof.
  revert ts; induction fuel as [|fuel IH]; intros ts Hts Hb Hf.
  { destruct ts; [by apply ends_in_eof_nil in Hts|cbn in Hf; lia]. }
  cbn [parse_items]. eapply good_bind; [by apply pe_good|]. intros a ts1 _ Ht1 Hl1.
  step_accept; [by split; [|lia]|]. subst.
  step_expect. eapply good_bind; [apply IH; [done|lia..]|].
  intros l ts2 _ ??. split; [done|]. lia.
Qed.

Lemma parse_seq_good close ts :
  ends_in_eof ts -> (length ts < bound)%nat -> good (length ts) (parse_seq src pe close ts).
Proof.
  intros Hts Hb. unfold parse_seq. step_accept; [by split|]. subst.
  by apply parse_items_good.
Qed.

Lemma parse_primary_good ts :
  ends_in_eof ts -> (length ts <= bound)%nat -> good (length ts) (parse_primary src pe ts).
Proof.
  intros Hts Hb. unfold parse_primary. destruct ts as [|t ts]; [by apply ends_in_eof_nil in Hts|].
  cbn [next rbind length] in *.
  destruct (t_kind t) eqn:Ek; try done;
    pose proof (ends_in_eof_cons t ts Hts ltac:(congruence)) as Hr.
  - destruct (parse_float _); [|done]. split; [done|lia].
  - split; [done|lia].
  - step_accept; [|subst; split; [done|lia]].
    eapply good_bind; [apply parse_seq_good; [done|lia]|]. intros l ts2 _ ??. split; [done|lia].
  - destruct (String.eqb _ "(").
    + eapply good_bind; [apply pe_good; [done|lia]|]. intros x ts2 _ ??.
      step_expect. split; [done|lia].
    + destruct (String.eqb _ "["); [|done].
      eapply good_bind; [apply parse_seq_good; [done|lia]|]. intros l ts2 _ ??. split; [done|lia].
  - split; [done|lia].
  - split; [done|lia].
Qed.

Lemma postfix_loop_good fuel x ts :
  ends_in_eof ts -> (length ts < bound)%nat -> (length ts < fuel)%nat ->
  good_le (length ts) (postfix_loop src pe fuel x ts).
Proof.
  revert x ts; induction fuel as [|fuel IH]; intros x ts Hts Hb Hf; [lia|]. cbn [postfix_loop].
  step_accept.
  - destruct r as [|t r]; [exfalso; by eapply ends_in_eof_nil|]. cbn [next rbind length] in *.
    destruct (t_kind t) eqn:Ek; try done.
    eapply good_weaken; [apply IH|cbn; lia]; [eapply ends_in_eof_cons; [eassumption|congruence]|lia..].
  - subst. step_accept; [|subst; by split; [|lia]].
    eapply good_bind; [apply pe_good; [done|lia]|]. intros i ts2 _ ??. step_expect.
    eapply good_weaken; [apply IH|]; [done|lia..].
Qed.

Lemma parse_postfix_good ts :
  ends_in_eof ts -> (length ts <= bound)%nat -> good (length ts) (parse_postfix src pe ts).
Proof.
  intros Hts Hb. eapply good_bind; [by apply parse_primary_good|]. intros x ts1 _ ??.
  eapply good_weaken; [apply postfix_loop_good|]; [done|lia..].
Qed.

Lemma parse_unary_good ts :
  ends_in_eof ts -> (length ts <= bound)%nat -> good (length ts) (parse_unary src pe ts).
Proof.
  induction ts as [|t ts IH]; intros Hts Hb; [by apply ends_in_eof_nil in Hts|].
  cbn [parse_unary].
  assert (forall op, is_op t op = true ->
          good (length (t :: ts)) (let! (x, r) := parse_unary src pe ts in Ok (UnaryNode op x, r))) as Hop.
  { intros op E. cbn in Hb. pose proof (ends_in_eof_cons _ _ Hts (is_op_not_eof _ _ E)).
    eapply good_bind; [apply IH; [done|lia]|]. intros x ts1 _ ??. split; [done|cbn; lia]. }
  destruct (is_op t "!") eqn:E1; [by apply (Hop "!")|].
  destruct (is_op t "-") eqn:E2; [by apply (Hop "-")|].
  by apply parse_postfix_good.
Qed.

Lemma accept_any_not_eof ops t op : accept_any ops t = Some op -> t_kind t <> TokEOF.
Proof.
  induction ops as [|o ops IH]; cbn; [done|]. destruct (is_op t o) eqn:E; [|done].
  intros _. by eapply is_op_not_eof.
Qed.

Section level.
Variable sub : list token -> res expr_error (node * list token).
Hypothesis sub_good : forall ts, ends_in_eof ts -> (length ts <= bound)%nat -> good (length ts) (sub ts).

Lemma binary_loop_good ops fuel l ts :
  ends_in_eof ts -> (length ts <= bound)%nat -> (length ts < fuel)%nat ->
  good_le (length ts) (binary_loop sub ops fuel l ts).
Proof.
  revert l ts; induction fuel as [|fuel IH]; intros l ts Hts Hb Hf; [lia|].
  destruct ts as [|t ts]; [by apply ends_in_eof_nil in Hts|]. cbn [binary_loop].
  destruct (accept_any ops t) eqn:E; [|by split; [|cbn; lia]].
  apply accept_any_not_eof in E. pose proof (ends_in_eof_cons _ _ Hts E). cbn in Hb, Hf.
  eapply good_bind; [apply sub_good; [done|lia]|]. intros x ts1 _ ??.
  eapply good_weaken; [apply IH|cbn]; [done|lia..].
Qed.

Lemma binary_level_good ops ts :
  ends_in_eof ts -> (length ts <= bound)%nat -> good (length ts) (binary_level sub ops ts).
Proof.
  intros Hts Hb. eapply good_bind; [by apply sub_good|]. intros x ts1 _ ??.
  eapply good_weaken; [apply binary_loop_good|]; [done|lia..].
Qed.
End level.

Lemma parse_coalesce_good ts :
  ends_in_eof ts -> (length ts <= bound)%nat -> good (length ts) (parse_coalesce src pe ts).
Proof. revert ts. do 6 (apply binary_level_good). apply parse_unary_good. Qed.

Lemma parse_ternary_good ts :
  ends_in_eof ts -> (length ts <= bound)%nat -> good (length ts) (parse_ternary src pe ts).
Proof.
  intros Hts Hb. eapply good_bind; [by apply parse_coalesce_good|]. intros x ts1 _ ??.
  step_accept; [|subst; by split].
  eapply good_bind; [apply pe_good; [done|lia]|]. intros y ts2 _ ??. step_expect.
  eapply good_bind; [apply pe_good; [done|lia]|]. intros z ts3 _ ??. split; [done|lia].
Qed.
End grammar_returns.

Lemma parse_expr_good fuel ts :
  ends_in_eof ts -> (length ts <= fuel)%nat -> good (length ts) (parse_expr src fuel ts).
Proof.
  revert ts; induction fuel as [|fuel IH]; intros ts Hts Hf.
  { destruct ts; [by apply ends_in_eof_nil in Hts|cbn in Hf; lia]. }
  cbn [parse_expr]. apply (parse_ternary_good _ (length ts)); [|done..].
  intros ts' ??. apply IH; [done|lia].
Qed.

Lemma parse_tokens_returns ts : ends_in_eof ts -> returns (parse_tokens src ts) = true.
Proof.
  intros Hts. unfold parse_tokens.
  pose proof (parse_expr_good (S (length ts)) ts Hts ltac:(lia)) as H.
  destruct (parse_expr src (S (length ts)) ts) as [[n r]| | |]; cbn in H; try done.
  destruct H as [Hr _]. destruct r as [|t r]; [by apply ends_in_eof_nil in Hr|].
  cbn. by destruct (t_kind t).
Qed.
End parser_returns.

(** ** Printing and parsing back

    [print_node] writes a tree as tokens, with parentheses around every
    compound expression; [num_text] chooses the literal of a number. *)
Definition op_tok (s : string) : token := Token TokOp s 0.
Definition eof_tok : token := Token TokEOF "" 0.
Definition binary_ops : list string :=
  ["*"; "/"; "%"; "+"; "-"; "=="; "!="; "<="; ">="; "<"; ">"; "in"; "&&"; "||"; "??"].

Section print.
Variable num_text : f64 -> string.

Definition lit_tok (v : value) : token :=
  match v with
  | VNum f => Token TokNumber (num_text f) 0
  | VStr s => Token TokString s 0
  | VBool b => Token TokBool (if b then "true" else "false") 0
  | _ => Token TokNull "null" 0
  end.

Fixpoint sep_toks (l : list (list token)) : list token :=
  match l with
  | [] => []
  | [x] => x
  | x :: l => (x ++ op_tok "," :: sep_toks l)%list
  end.

Fixpoint print_node (n : node) : list token :=
  (match n with
   | LitNode v => [lit_tok v]
   | VarNode s => [Token TokIdent s 0]
   | ListNode items => op_tok "[" :: sep_toks (map print_node items) ++ [op_tok "]"]
   | UnaryNode o x => op_tok "(" :: op_tok o :: print_node x ++ [op_tok ")"]
   | BinaryNode o l r => op_tok "(" :: print_node l ++ op_tok o :: print_node r ++ [op_tok ")"]
   | TernaryNode c t e =>
       op_tok "(" :: print_node c ++ op_tok "?" :: print_node t ++ op_tok ":" :: print_node e
       ++ [op_tok ")"]
   | MemberNode x s => op_tok "(" :: print_node x ++ op_tok "." :: Token TokIdent s 0 :: [op_tok ")"]
   | IndexNode x i => op_tok "(" :: print_node x ++ op_tok "[" :: print_node i ++ [op_tok "]"; op_tok ")"]
   | CallNode f args =>
       Token TokIdent f 0 :: op_tok "(" :: sep_toks (map print_node args) ++ [op_tok ")"]
   end)%list.

(** Trees that source text can denote: scalar literals, known operators. *)
Fixpoint source_node (n : node) : bool :=
  match n with
  | LitNode v =>
      match v with
      | VNum f => bool_decide (parse_float (num_text f) = Some f)
      | VStr _ | VBool _ | VNil => true
      | _ => false
      end
  | VarNode _ => true
  | ListNode l | CallNode _ l => forallb source_node l
  | UnaryNode o x => (String.eqb o "!" || String.eqb o "-") && source_node x
  | BinaryNode o l r => existsb (String.eqb o) binary_ops && source_node l && source_node r
  | TernaryNode c t e => source_node c && source_node t && source_node e
  | MemberNode x _ => source_node x
  | IndexNode x i => source_node x && source_node i
  end.
End print.

Fixpoint nsize (n : node) : nat :=
  match n with
  | LitNode _ | VarNode _ => 1
  | ListNode l | CallNode _ l => S (list_sum (map nsize l))
  | UnaryNode _ x | MemberNode x _ => S (nsize x)
  | BinaryNode _ l r => S (nsize l + nsize r)
  | TernaryNode c t e => S (nsize c + nsize t + nsize e)
  | IndexNode x i => S (nsize x + nsize i)
  end.

Lemma print_length num_text n : (nsize n <= length (print_node num_text n))%nat.
Proof.
  induction n as [n IH] using (induction_ltof1 _ nsize); unfold ltof in IH.
  assert (forall l, (list_sum (map nsize l) < nsize n)%nat ->
            (list_sum (map nsize l) <= length (sep_toks (map (print_node num_text) l)))%nat) as Hl.
  { intros l. induction l as [|x l IHl]; intros Hn; [done|]. unfold list_sum in *. cbn [map foldr] in *.
    pose proof (IH x ltac:(lia)). destruct l as [|y l]; [cbn in *; lia|].
    specialize (IHl ltac:(lia)). cbn [map sep_toks] in *. rewrite length_app. cbn [length]. lia. }
  destruct n; cbn [nsize print_node length] in *; rewrite ?length_app; cbn [length];
    rewrite ?length_app; cbn [length]; rewrite ?length_app; cbn [length];
    try (specialize (Hl _ (Nat.lt_succ_diag_r _)));
    repeat match goal with
           | |- context [print_node num_text ?x] =>
               lazymatch goal with
               | _ : (nsize x <= _)%nat |- _ => fail
               | _ => pose proof (IH x ltac:(lia))
               end
           end; lia.
Qed.

Section roundtrip.
Context {U : Unicode}.
Variable src : string.
Variable num_text : f64 -> string.
Abbreviation pr := (print_node num_text).

(** A token after which a postfix expression ends. *)
Definition no_postfix (t : token) : bool := negb (is_op t "(" || is_op t "." || is_op t "[").
(** A token after which a full expression ends. *)
Definition closer (t : token) : bool :=
  is_op t ")" || is_op t "]" || is_op t "," || is_op t ":"
  || match t_kind t with TokEOF => true | _ => false end.

Lemma closer_cases t : closer t = true ->
  no_postfix t = true /\ is_op t "?" = false /\
  forall ops, ops ∈ [["*"; "/"; "%"]; ["+"; "-"]; cmp_ops; ["&&"]; ["||"]; ["??"]] ->
    accept_any ops t = None.
Proof.
  unfold closer, no_postfix. intros H.
  assert (t_kind t = TokEOF \/
          t_kind t = TokOp /\ (t_val t = ")" \/ t_val t = "]" \/ t_val t = "," \/ t_val t = ":"))
    as [E|[E Hv]].
  { unfold is_op in H. destruct (t_kind t); cbn in H; try done; [by left|right; split; [done|]].
    rewrite !orb_true_iff, !String.eqb_eq in H. naive_solver. }
  - unfold is_op. rewrite E. split_and!; [done..|]. intros ops Hops.
    enough (forall ops, accept_any ops t = None) by done. clear ops Hops.
    induction ops; cbn; [done|]. unfold is_op. by rewrite E.
  - destruct t as [k v p]; cbn in *; subst. split_and!; [by destruct_or!; subst..|].
    intros ops Hops. rewrite !elem_of_cons, elem_of_nil in Hops.
    by destruct_or!; subst.
Qed.

(** What a primary expression looks like to the levels above it. *)
Definition starts_primary (ts : list token) : Prop :=
  match ts with t :: _ => is_op t "!" = false /\ is_op t "-" = false | [] => False end.

Lemma print_starts n : starts_primary (pr n).
Proof. by destruct n as [[]| | | | | | | |]. Qed.

Section pe.
Variable pe : list token -> res expr_error (node * list token).

Lemma postfix_pass n ts t rest :
  parse_primary src pe (ts ++ t :: rest) = Ok (n, t :: rest) -> no_postfix t = true ->
  parse_postfix src pe (ts ++ t :: rest) = Ok (n, t :: rest).
Proof.
  intros H Ht. unfold parse_postfix. rewrite H. cbn [rbind postfix_loop accept].
  unfold no_postfix in Ht.
  destruct (is_op t "(") eqn:?, (is_op t ".") eqn:?, (is_op t "[") eqn:E; try done.
  cbn. by rewrite E.
Qed.

Lemma unary_pass n ts t rest :
  parse_primary src pe (ts ++ t :: rest) = Ok (n, t :: rest) -> starts_primary ts ->
  no_postfix t = true -> parse_unary src pe (ts ++ t :: rest) = Ok (n, t :: rest).
Proof.
  intros H Hs Ht. pose proof (postfix_pass _ _ _ _ H Ht) as Hp.
  destruct ts as [|u ts]; [done|]. destruct Hs as [H1 H2]. cbn in *. by rewrite H1, H2.
Qed.

Lemma level_pass sub ops n inp t rest :
  sub inp = Ok (n, t :: rest) -> accept_any ops t = None ->
  binary_level sub ops inp = Ok (n, t :: rest).
Proof. intros H Ht. unfold binary_level. rewrite H. cbn. by rewrite Ht. Qed.

Lemma level_take sub ops l r tl tr o t rest :
  sub (tl ++ op_tok o :: tr ++ t :: rest)%list = Ok (l, op_tok o :: tr ++ t :: rest)%list ->
  accept_any ops (op_tok o) = Some o ->
  sub (tr ++ t :: rest)%list = Ok (r, t :: rest) -> accept_any ops t = None ->
  binary_level sub ops (tl ++ op_tok o :: tr ++ t :: rest) = Ok (BinaryNode o l r, t :: rest).
Proof.
  intros Hl Ho Hr Ht. unfold binary_level. rewrite Hl. cbn [rbind binary_loop length].
  rewrite Ho, Hr. cbn [rbind]. rewrite length_app. cbn [length].
  destruct (length tr + S (length rest)) eqn:E; [lia|]. cbn [binary_loop]. by rewrite Ht.
Qed.

(** A primary followed by a closer, or by the question mark. *)
Lemma coalesce_pass n ts t rest :
  parse_primary src pe (ts ++ t :: rest) = Ok (n, t :: rest) -> starts_primary ts ->
  closer t = true \/ t = op_tok "?" ->
  parse_coalesce src pe (ts ++ t :: rest) = Ok (n, t :: rest).
Proof.
  intros H Hs Ht. destruct Ht as [Ht| ->].
  - apply closer_cases in Ht as (Hp & _ & Ha).
    do 6 (apply level_pass; [|apply Ha; set_solver]). by apply unary_pass.
  - do 6 (apply level_pass; [|done]). by apply unary_pass.
Qed.

Lemma ternary_of_unary n inp t rest :
  parse_unary src pe inp = Ok (n, t :: rest) -> closer t = true ->
  parse_ternary src pe inp = Ok (n, t :: rest).
Proof.
  intros H Ht. apply closer_cases in Ht as (_ & Hq & Ha). unfold parse_ternary.
  assert (parse_coalesce src pe inp = Ok (n, t :: rest)) as ->; [|cbn; by rewrite Hq].
  do 6 (apply level_pass; [|apply Ha; set_solver]). done.
Qed.

Lemma ternary_pass n ts t rest :
  parse_primary src pe (ts ++ t :: rest) = Ok (n, t :: rest) -> starts_primary ts ->
  closer t = true -> parse_ternary src pe (ts ++ t :: rest) = Ok (n, t :: rest).
Proof.
  intros H Hs Ht. apply ternary_of_unary; [|done]. apply unary_pass; [done..|].
  by apply closer_cases in Ht as [? _].
Qed.

Lemma binary_pass o l r tl tr t rest :
  existsb (String.eqb o) binary_ops = true -> closer t = true ->
  starts_primary tl -> starts_primary tr ->
  parse_primary src pe (tl ++ op_tok o :: tr ++ t :: rest) = Ok (l, op_tok o :: tr ++ t :: rest)%list ->
  parse_primary src pe (tr ++ t :: rest) = Ok (r, t :: rest) ->
  parse_ternary src pe (tl ++ op_tok o :: tr ++ t :: rest) = Ok (BinaryNode o l r, t :: rest).
Proof.
  intros Ho Ht Hsl Hsr Hl Hr. apply closer_cases in Ht as (Hp & Hq & Ha).
  unfold parse_ternary.
  assert (parse_coalesce src pe (tl ++ op_tok o :: tr ++ t :: rest) = Ok (BinaryNode o l r, t :: rest)) as ->.
  2:{ cbn. by rewrite Hq. }
  apply existsb_exists in Ho as (o' & Hin & Heq). apply String.eqb_eq in Heq as <-.
  assert (forall ops, ops ∈ [["*"; "/"; "%"]; ["+"; "-"]; cmp_ops; ["&&"]; ["||"]; ["??"]] ->
          accept_any ops t = None) as Hat by done.
  pose proof (Hat ["*"; "/"; "%"] ltac:(set_solver)). pose proof (Hat ["+"; "-"] ltac:(set_solver)).
  pose proof (Hat cmp_ops ltac:(set_solver)). pose proof (Hat ["&&"] ltac:(set_solver)).
  pose proof (Hat ["||"] ltac:(set_solver)). pose proof (Hat ["??"] ltac:(set_solver)).
  clear Hat Ha.
  pose proof (unary_pass _ _ _ _ Hr Hsr Hp) as Hur.
  assert (no_postfix (op_tok o) = true) as Hpo.
  { revert Hin. cbn. intros; destruct_or!; by subst. }
  pose proof (unary_pass _ _ _ _ Hl Hsl Hpo) as Hul.
  revert Hin. cbn [In binary_ops]. intros.
  destruct_or!; subst; try done;
    repeat first [ assumption | reflexivity
                 | apply level_take; [|reflexivity| |] | apply level_pass ].
Qed.

(** The items of a list or a call, up to the closing bracket. *)
Lemma items_pass l close rest fuel :
  (forall x t r, x ∈ l -> closer t = true -> pe (pr x ++ t :: r) = Ok (x, t :: r)) ->
  close = ")" \/ close = "]" -> l <> [] -> (length l <= fuel)%nat ->
  parse_items src pe fuel close (sep_toks (map pr l) ++ op_tok close :: rest) = Ok (l, rest).
Proof.
  intros Hx Hc Hl. revert fuel. induction l as [|x l IH]; intros fuel Hf; [done|].
  destruct fuel as [|fuel]; [cbn in Hf; lia|]. cbn [parse_items].
  assert (closer (op_tok close) = true) as Hcl by by destruct Hc; subst.
  destruct l as [|y l].
  - cbn [map sep_toks]. rewrite Hx by set_solver. cbn [rbind accept].
    unfold is_op; cbn. by rewrite String.eqb_refl.
  - change (sep_toks (map pr (x :: y :: l))) with (pr x ++ op_tok "," :: sep_toks (map pr (y :: l)))%list.
    rewrite <- (assoc_L (++))%list, <- app_comm_cons, Hx by (done || set_solver). cbn [rbind accept].
    replace (is_op (op_tok ",") close) with false by by destruct Hc; subst.
    cbn [rbind]. unfold expect. cbn [accept rbind]. change (is_op (op_tok ",") ",") with true.
    cbn [rbind]. rewrite IH; [done| |done|cbn in *; lia]. set_solver.
Qed.

Lemma seq_pass l close rest :
  (forall x t r, x ∈ l -> closer t = true -> pe (pr x ++ t :: r) = Ok (x, t :: r)) ->
  close = ")" \/ close = "]" ->
  parse_seq src pe close (sep_toks (map pr l) ++ op_tok close :: rest) = Ok (l, rest).
Proof.
  intros Hx Hc. unfold parse_seq.
  assert (is_op (op_tok close) close = true) as Hcl by (unfold is_op; cbn; apply String.eqb_refl).
  destruct l as [|x l]; [cbn [map sep_toks app accept]; rewrite Hcl; done|].
  assert (exists t r, sep_toks (map pr (x :: l)) = t :: r /\ is_op t close = false) as (t & r & E & Ht).
  { assert (exists t r, pr x = t :: r /\ is_op t close = false) as (t & r & Ex & Ht).
    { destruct x as [[]| | | | | | | |]; cbn [pr print_node lit_tok]; eexists _, _;
        (split; [reflexivity|]); by destruct Hc; subst. }
    exists t. destruct l; cbn [map sep_toks]; rewrite Ex; cbn [app]; eauto. }
  rewrite E. cbn [app accept rbind]. rewrite Ht. cbn [rbind].
  change (t :: r ++ op_tok close :: rest)%list with ((t :: r) ++ op_tok close :: rest)%list.
  rewrite <- E.
  apply items_pass; [done..|].
  enough (length (x :: l) <= length (sep_toks (map pr (x :: l))))%nat by (rewrite length_app; lia).
  clear. induction l as [|y l IH] in x |- *.
  - by destruct x as [[]| | | | | | | |]; cbn; rewrite ?length_app; cbn; lia.
  - change (sep_toks (map pr (x :: y :: l))) with (pr x ++ op_tok "," :: sep_toks (map pr (y :: l)))%list.
    rewrite length_app. specialize (IH y). cbn [length] in *. lia.
Qed.
End pe.

(** Lists of children, measured together. *)
Lemma nsize_In x l : x ∈ l -> (nsize x <= list_sum (map nsize l))%nat.
Proof. unfold list_sum. induction 1; cbn; lia. Qed.

Lemma nsize_pos n : (0 < nsize n)%nat.
Proof. destruct n; cbn; lia. Qed.

(** The parenthesised forms, one by one: what stands between the
    parentheses parses back. *)
Section bodies.
Variables (fuel : nat) (rest : list token).
#[local] Abbreviation pe := (parse_expr src fuel).

Definition reads (x : node) : Prop :=
  forall t r, is_op t "(" = false ->
    parse_primary src (parse_expr src fuel) (pr x ++ t :: r) = Ok (x, t :: r).

Lemma reads_expr x t r :
  reads x -> closer t = true -> parse_expr src (S fuel) (pr x ++ t :: r) = Ok (x, t :: r).
Proof.
  intros Hx Ht. cbn [parse_expr]. apply ternary_pass; [|apply print_starts|done].
  apply Hx. apply closer_cases in Ht as [Ht _]. unfold no_postfix in Ht. by destruct (is_op t "(").
Qed.

Lemma unary_body o x :
  (String.eqb o "!" || String.eqb o "-") = true -> reads x ->
  parse_expr src (S fuel) (op_tok o :: pr x ++ op_tok ")" :: rest) = Ok (UnaryNode o x, op_tok ")" :: rest).
Proof.
  intros Ho Hx. cbn [parse_expr]. apply ternary_of_unary; [|done]. cbn [parse_unary].
  assert (parse_unary src pe (pr x ++ op_tok ")" :: rest) = Ok (x, op_tok ")" :: rest)) as Hu.
  { apply unary_pass; [|apply print_starts|done]. by apply Hx. }
  apply orb_true_iff in Ho as [Ho|Ho]; apply String.eqb_eq in Ho as ->; cbn; by rewrite Hu.
Qed.

Lemma binary_body o l r :
  existsb (String.eqb o) binary_ops = true -> reads l -> reads r ->
  parse_expr src (S fuel) (pr l ++ op_tok o :: pr r ++ op_tok ")" :: rest)
  = Ok (BinaryNode o l r, op_tok ")" :: rest).
Proof.
  intros Ho Hl Hr. cbn [parse_expr]. apply binary_pass; [done|done|apply print_starts..| |by apply Hr].
  apply Hl. rewrite existsb_exists in Ho. destruct Ho as (o' & Ho & He).
  apply String.eqb_eq in He as <-. cbn in Ho. by destruct_or!; subst.
Qed.

Lemma ternary_body c th e :
  reads c -> (forall t r, closer t = true -> pe (pr th ++ t :: r) = Ok (th, t :: r)) ->
  (forall t r, closer t = true -> pe (pr e ++ t :: r) = Ok (e, t :: r)) ->
  parse_expr src (S fuel) (pr c ++ op_tok "?" :: pr th ++ op_tok ":" :: pr e ++ op_tok ")" :: rest)
  = Ok (TernaryNode c th e, op_tok ")" :: rest).
Proof.
  intros Hc Hth He. cbn [parse_expr]. unfold parse_ternary.
  rewrite (coalesce_pass _ c); [|by apply Hc|apply print_starts|by right].
  cbn [rbind accept]. change (is_op (op_tok "?") "?") with true. cbn [rbind].
  rewrite Hth by done.
  cbn [rbind]. unfold expect. cbn [accept]. change (is_op (op_tok ":") ":") with true. cbn [rbind].
  by rewrite He.
Qed.

Lemma member_body x s :
  reads x ->
  parse_expr src (S fuel) (pr x ++ op_tok "." :: Token TokIdent s 0 :: op_tok ")" :: rest)
  = Ok (MemberNode x s, op_tok ")" :: rest).
Proof.
  intros Hx. cbn [parse_expr]. apply ternary_of_unary; [|done].
  specialize (Hx (op_tok ".") (Token TokIdent s 0 :: op_tok ")" :: rest) eq_refl). revert Hx.
  pose proof (print_starts x) as Hst. destruct (pr x) as [|u us]; [done|].
  destruct Hst as [H1 H2]. cbn [app parse_unary]. rewrite H1, H2. intros Hx.
  unfold parse_postfix. rewrite Hx. done.
Qed.

Lemma index_body x i :
  reads x -> (forall t r, closer t = true -> pe (pr i ++ t :: r) = Ok (i, t :: r)) ->
  parse_expr src (S fuel) (pr x ++ op_tok "[" :: pr i ++ op_tok "]" :: op_tok ")" :: rest)
  = Ok (IndexNode x i, op_tok ")" :: rest).
Proof.
  intros Hx Hi. cbn [parse_expr]. apply ternary_of_unary; [|done].
  specialize (Hx (op_tok "[") (pr i ++ op_tok "]" :: op_tok ")" :: rest)%list eq_refl). revert Hx.
  pose proof (print_starts x) as Hst. destruct (pr x) as [|u us]; [done|].
  destruct Hst as [H1 H2]. cbn [app parse_unary]. rewrite H1, H2. intros Hx.
  unfold parse_postfix. rewrite Hx. cbn [rbind postfix_loop accept].
  change (is_op (op_tok "[") ".") with false. cbn [rbind accept].
  change (is_op (op_tok "[") "[") with true. cbn [rbind]. rewrite Hi by done.
  cbn [rbind]. unfold expect. cbn [accept]. change (is_op (op_tok "]") "]") with true. cbn [rbind].
  reflexivity.
Qed.
End bodies.

Ltac flat_app := repeat (rewrite <- (assoc_L (++))%list; cbn [app]).

Lemma print_primary n : forall fuel t rest,
  source_node num_text n = true -> (nsize n <= fuel)%nat -> is_op t "(" = false ->
  parse_primary src (parse_expr src fuel) (pr n ++ t :: rest) = Ok (n, t :: rest).
Proof.
  induction n as [n IH] using (induction_ltof1 _ nsize); unfold ltof in IH.
  intros [|fuel] t rest Hsrc Hsz Ht; [destruct n; cbn in Hsz; lia|].
  assert (forall x f, (nsize x < nsize n)%nat -> (nsize x <= f)%nat -> source_node num_text x = true ->
          reads f x) as Hr by (intros x f ??? u r Hu; by apply IH).
  assert (forall x f, (nsize x < nsize n)%nat -> (nsize x < f)%nat -> source_node num_text x = true ->
          forall u r, closer u = true -> parse_expr src f (pr x ++ u :: r) = Ok (x, u :: r)) as He.
  { intros x [|f] ? Hf ? u r Hu; [lia|]. apply reads_expr; [|done]. apply Hr; [done|lia|done]. }
  assert (forall l x u r, x ∈ l -> forallb (source_node num_text) l = true ->
          (list_sum (map nsize l) < nsize n)%nat -> closer u = true ->
          parse_expr src (S fuel) (pr x ++ u :: r) = Ok (x, u :: r)) as Hl.
  { intros l x u r Hx Hs Hn Hu. pose proof (nsize_In _ _ Hx). rewrite forallb_forall in Hs.
    apply He; [lia..| |done]. by apply Hs, list_elem_of_In. }
  destruct n as [v|s|items|o x|o l r|c th e|x s|x i|f args]; cbn [source_node nsize] in *;
    rewrite ?andb_true_iff in Hsrc; cbn [print_node app]; unfold parse_primary;
    cbn [next rbind t_kind t_val op_tok lit_tok];
    change (String.eqb "(" "(") with true; change (String.eqb "[" "(") with false;
    change (String.eqb "[" "[") with true; cbn [rbind]; flat_app.
  - destruct v as [|[]|f|s|l|m|tm|k z]; try done. cbn.
    apply bool_decide_eq_true in Hsrc. by rewrite Hsrc.
  - cbn [accept]. by rewrite Ht.
  - rewrite seq_pass; [done| |by right]. intros; eapply Hl; [done..|lia|done].
  - destruct Hsrc. rewrite unary_body; [done..|]. apply Hr; [lia..|done].
  - destruct Hsrc as [[]]. rewrite binary_body; [done..| |]; (apply Hr; [lia..|done]).
  - destruct Hsrc as [[]]. pose proof (nsize_pos c). pose proof (nsize_pos th). pose proof (nsize_pos e).
    rewrite ternary_body; [done|apply Hr|apply He|apply He]; (lia || done).
  - rewrite member_body; [done|]. apply Hr; [lia..|done].
  - destruct Hsrc. pose proof (nsize_pos x).
    rewrite index_body; [done|apply Hr|apply He]; (lia || done).
  - cbn [accept]. change (is_op (op_tok "(") "(") with true. cbn [rbind].
    rewrite seq_pass; [done| |by left]. intros; eapply Hl; [done..|lia|done].
Qed.
End roundtrip.

Section parser_properties.
Context {U : Unicode}.

(** C37: [Compile] always comes back, with a program or an error, on text in
    which every byte that opens an identifier starts an identifier character:
    neither the scanner nor the recursive-descent parser loops, and the
    parser never reads past the last token. *)
Theorem compile_returns src : ident_agrees_all src = true -> returns (compile src) = true.
Proof.
  intros H. unfold compile. apply (returns_bind (lex src)); [unfold lex; by apply lex_loop_returns|].
  intros ts Hts. unfold lex in Hts. by eapply parse_tokens_returns, lex_loop_ends.
Qed.

(** C38: the parser inverts printing: every tree built from scalar literals
    and the operators of the language is the parse of its fully
    parenthesised token sequence, whatever text stands for its numbers as
    long as it denotes them. *)
Theorem parse_print src num_text n :
  source_node num_text n = true ->
  parse_tokens src (print_node num_text n ++ [eof_tok]) = Ok n.
Proof.
  intros Hn. unfold parse_tokens.
  assert (nsize n <= length (print_node num_text n ++ [eof_tok]))%nat as Hsz
    by (rewrite length_app; pose proof (print_length num_text n); cbn; lia).
  cbn [parse_expr]. erewrite ternary_pass; [done| |apply print_starts|done].
  by apply print_primary.
Qed.
End parser_properties.

(** Termination at a concrete text with a member access, an operator and a call. *)
Example compile_returns_witness :
  @ident_agrees_all latin1_only "order.total * 2 > max(a, 1)" = true /\
  returns (@compile latin1_only "order.total * 2 > max(a, 1)") = true.
Proof.
  split; [vm_compute; reflexivity|].
  apply (@compile_returns latin1_only). vm_compute. reflexivity.
Defined.

(** The round trip at a tree with every kind of operator. *)
Definition sample_tree : node :=
  TernaryNode (UnaryNode "!" (VarNode "a"))
    (CallNode "f" [LitNode (VNum (f_of_Z 3)); ListNode [LitNode VNil; LitNode (VStr "s")]])
    (BinaryNode "in" (MemberNode (VarNode "b") "c") (IndexNode (VarNode "d") (LitNode (VBool true)))).

Example parse_print_witness :
  @parse_tokens latin1_only "" (print_node fmt_g sample_tree ++ [eof_tok]) = Ok sample_tree.
Proof. apply (@parse_print latin1_only). vm_compute. reflexivity. Defined.
