(* ===== verification/ExprDuration.v ===== *)
(** * Durations, timer cycles and times ([src/expr/duration.go], [ParseTime])

    An error is its message. *)
From Stdlib Require Import Ascii.
From S2P Require Import Prelude GoFloat GoUtf8 GoTime.
Local Open Scope go_scope.
Local Open Scope string_scope.
Local Open Scope Z_scope.

Definition is_byte (c : ascii) (s : string) : bool := existsb (Ascii.eqb c) (string_to_list s).

(** [strings.ContainsAny] of an ASCII set. *)
Definition contains_any (s set : string) : bool := existsb (fun c => is_byte c set) (string_to_list s).

Section duration.
Context {U : Unicode}.

(** The unit table of [consume]: the length of a unit in nanoseconds. *)
Definition unit_dur (in_time : bool) (c : ascii) : option Z :=
  if in_time then
    if is_byte c "Hh" then Some hour
    else if is_byte c "Mm" then Some minute
    else if is_byte c "Ss" then Some second
    else None
  else
    if is_byte c "Yy" then Some (365 * 24 * hour)
    else if is_byte c "M" then Some (30 * 24 * hour)
    else if is_byte c "Ww" then Some (7 * 24 * hour)
    else if is_byte c "Dd" then Some (24 * hour)
    else None.

(** The closure [consume]: the amount its unit adds to the total. *)
Definition consume (orig : string) (in_time : bool) (num : string) (c : ascii) : res string Z :=
  let unit := encode_rune (byte_val c) in
  if String.eqb num "" then
    Err ("expr: invalid ISO-8601 duration " ++ quote orig ++ ": missing number before " ++ quote unit)
  else match parse_float num with
       | None => Err ("expr: invalid number " ++ quote num ++ " in duration " ++ quote orig)
       | Some f =>
           match unit_dur in_time c with
           | None => Err ("expr: unexpected unit " ++ quote unit ++ " in duration " ++ quote orig)
           | Some u => Ok (f_to_int64 (fmul f (f_of_Z u)))
           end
       end.

(** The loop over the bytes after the [P]: the total and the unread number. *)
Fixpoint duration_loop (orig : string) (s : string) (total : Z) (in_time : bool) (num : string)
  : res string (Z * string) :=
  match s with
  | EmptyString => Ok (total, num)
  | String c s =>
      if is_byte c "Tt" then
        if in_time then Err ("expr: invalid ISO-8601 duration " ++ quote orig)
        else duration_loop orig s total true num
      else if is_digit c || Ascii.eqb c "." then
        duration_loop orig s total in_time (num ++ String c "")
      else
        let! d := consume orig in_time num c in
        duration_loop orig s (wrap64 (total + d)) in_time ""
  end.

(** The text after the sign. *)
Definition parse_unsigned (orig s : string) : res string Z :=
  match s with
  | String c (String _ _ as s) =>
      if is_byte c "Pp" then
        let! (total, num) := duration_loop orig s 0 false "" in
        if negb (String.eqb num "") then Err ("expr: trailing number in duration " ++ quote orig)
        else if (total =? 0) && negb (contains_any s "0") && negb (contains_any s "123456789")
        then Err ("expr: empty ISO-8601 duration " ++ quote orig)
        else Ok total
      else Err ("expr: invalid ISO-8601 duration " ++ quote orig)
  | _ => Err ("expr: invalid ISO-8601 duration " ++ quote orig)
  end.

(** [ParseISODuration]. *)
Definition parse_iso_duration (orig : string) : res string Z :=
  match trim_space orig with
  | String "-" s => let! total := parse_unsigned orig s in Ok (wrap64 (- total))
  | s => parse_unsigned orig s
  end.

(** [strconv.Atoi]. *)
Definition atoi (s : string) : option Z :=
  let '(neg, r) := split_sign s in
  match read_digits r 0 0 with
  | (_, 0, _) => None
  | (z, _, EmptyString) =>
      let z := if neg then - z else z in
      if (int64_min <=? z) && (z <=? int64_max) then Some z else None
  | _ => None
  end.

(** [strings.SplitN(s, sep, 2)] when the separator occurs. *)
Definition split_once (s sep : string) : option (string * string) :=
  i ← sindex s sep; Some (stake i s, sdrop (i + String.length sep) s).

(** [ParseTimerCycle]: the repetition count, -1 for no bound, and the
    interval. *)
Definition parse_timer_cycle (s0 : string) : res string (Z * Z) :=
  let s := trim_space s0 in
  match s with
  | String c r =>
      if is_byte c "Rr" then
        match split_once r "/" with
        | None => Err ("expr: invalid timer cycle " ++ quote s ++ " (want R<n>/<duration>)")
        | Some (n, d) =>
            let! repeats :=
              if String.eqb n "" then Ok (-1)
              else match atoi n with
                   | Some k => if k <? 0 then Err ("expr: invalid repeat count in " ++ quote s) else Ok k
                   | None => Err ("expr: invalid repeat count in " ++ quote s)
                   end in
            let! interval := parse_iso_duration d in
            Ok (repeats, interval)
        end
      else Err ("expr: invalid timer cycle " ++ quote s)
  | EmptyString => Err ("expr: invalid timer cycle " ++ quote s)
  end.

(** [ParseTime]: the first layout that accepts the text. *)
Definition parse_time (s : string) : res string Z :=
  let first := fold_right (fun l acc => match time_parse l s with Some t => Some t | None => acc end) None
                 [LRFC3339Nano; LRFC3339; LDateTimeT; LDateTimeSpace; LDate] in
  match first with
  | Some t => Ok t
  | None => Err ("cannot parse time " ++ quote s)
  end.
End duration.

(** ** Properties *)
Section properties.
Context {U : Unicode}.

Lemma duration_loop_range orig s total in_time num t n :
  int64_min <= total <= int64_max ->
  duration_loop orig s total in_time num = Ok (t, n) -> int64_min <= t <= int64_max.
Proof.
  revert total in_time num.
  induction s as [|c s IH]; intros total it num Ht H; cbn [duration_loop] in H; [naive_solver|].
  destruct (is_byte c "Tt"); [destruct it; [done|by eapply IH]|].
  destruct (is_digit c || Ascii.eqb c "."); [by eapply IH|].
  apply bind_Ok in H as (d & _ & H). eapply IH; [|done]. apply wrap64_range.
Qed.

Lemma parse_unsigned_range orig s d :
  parse_unsigned orig s = Ok d -> int64_min <= d <= int64_max.
Proof.
  unfold parse_unsigned. intros H. repeat case_match; simplify_eq.
  apply bind_Ok in H as ([t n] & Hl & H). repeat case_match; simplify_eq.
  eapply duration_loop_range; [|done]. unfold int64_min, int64_max. lia.
Qed.

Lemma parse_iso_duration_range_core s d :
  parse_iso_duration s = Ok d -> int64_min <= d <= int64_max.
Proof.
  unfold parse_iso_duration. repeat case_match; try apply parse_unsigned_range.
  rewrite bind_Ok. intros (t & _ & ?); simplify_eq. apply wrap64_range.
Qed.

(** A duration that parses is an [int64] count of nanoseconds, whatever the
    size of its numbers; a sign in front of it negates it. *)
Theorem parse_iso_duration_range s d :
  parse_iso_duration s = Ok d -> int64_min <= d <= int64_max.
Proof. apply parse_iso_duration_range_core. Qed.

Lemma duration_loop_returns orig s total in_time num :
  returns (duration_loop orig s total in_time num) = true.
Proof.
  revert total in_time num. induction s as [|c s IH]; intros; cbn [duration_loop]; [done|].
  repeat case_match; try done. apply returns_bind; [|done].
  unfold consume. by repeat case_match.
Qed.

Lemma parse_unsigned_returns orig s : returns (parse_unsigned orig s) = true.
Proof.
  unfold parse_unsigned. repeat case_match; try done.
  apply returns_bind; [apply duration_loop_returns|]. intros [] _. by repeat case_match.
Qed.

Lemma parse_iso_duration_returns s : returns (parse_iso_duration s) = true.
Proof.
  unfold parse_iso_duration. repeat case_match; try apply parse_unsigned_returns.
  apply returns_bind; [apply parse_unsigned_returns|done].
Qed.

Lemma parse_timer_cycle_returns s : returns (parse_timer_cycle s) = true.
Proof.
  unfold parse_timer_cycle. repeat case_match; try done.
  all: apply returns_bind; [done|]; intros r _;
    (apply returns_bind; [apply parse_iso_duration_returns|done]).
Qed.

(** A timer cycle that parses has the repetition count -1 or a
    non-negative one. *)
Theorem parse_timer_cycle_spec s n d :
  parse_timer_cycle s = Ok (n, d) ->
  -1 <= n <= int64_max /\ int64_min <= d <= int64_max.
Proof.
  unfold parse_timer_cycle. intros H. repeat case_match; try done;
    apply bind_Ok in H as (k & Hk & H); apply bind_Ok in H as (i & Hi & H); simplify_eq;
    (split; [unfold int64_max; try lia|by eapply parse_iso_duration_range_core]).
  match goal with H : atoi _ = Some _ |- _ => unfold atoi, int64_min, int64_max in H end.
  repeat case_match; simplify_eq; lia.
Qed.
End properties.

Example parse_iso_sample :
  let p := @parse_iso_duration latin1_only in
  p "P1DT2H30M" = Ok (95400 * second) /\ p "-PT1.5S" = Ok (-1500000000) /\
  p "P2W" = Ok (14 * 24 * hour) /\ is_ok (p "P") = false /\ is_ok (p "PT5") = false.
Proof. vm_compute. auto. Qed.

(** Three hundred years do not fit: the sum becomes the most negative
    duration, not an error. *)
Example parse_iso_overflow :
  @parse_iso_duration latin1_only "P300Y" = Ok int64_min /\
  @parse_iso_duration latin1_only "P200Y200Y" = Ok (wrap64 (2 * (200 * 365 * 24 * hour))).
Proof. vm_compute. auto. Qed.

Lemma parse_iso_duration_range_witness :
  @parse_iso_duration latin1_only "P1DT2H30M" = Ok (95400 * second) /\
  int64_min <= 95400 * second <= int64_max.
Proof.
  split; [vm_compute; reflexivity|].
  apply (@parse_iso_duration_range latin1_only "P1DT2H30M"). vm_compute. reflexivity.
Defined.

Lemma parse_timer_cycle_spec_witness :
  @parse_timer_cycle latin1_only "R3/PT10S" = Ok (3, 10 * second) /\
  (-1 <= 3 <= int64_max /\ int64_min <= 10 * second <= int64_max).
Proof.
  split; [vm_compute; reflexivity|].
  apply (@parse_timer_cycle_spec latin1_only "R3/PT10S"). vm_compute. reflexivity.
Defined.
