(* ===== verification/ExprFuncs.v ===== *)
(** * The built-in functions of expressions ([src/expr/funcs.go])

    A function takes its evaluated arguments and gives a value or an error
    message.  The regular-expression engine is Go's [regexp] package, a
    parameter; [now] reads the wall clock, also a parameter. *)
From Stdlib Require Import Ascii.
From S2P Require Import Prelude GoFloat GoUtf8 GoTime ExprValue ExprDuration.
Local Open Scope go_scope.
Local Open Scope string_scope.
Local Open Scope Z_scope.

(** [regexp.Compile] and [MatchString]: the error text of a bad pattern, or
    whether the pattern occurs in the text. *)
Class Regexp := regexp_match : string -> string -> string + bool.

Definition gofunc := list value -> res string value.

(** [arity]. *)
Definition arity (args : list value) (want : nat) : res string unit :=
  if Nat.eqb (length args) want then Ok ()
  else Err ("takes " ++ fmt_int (Z.of_nat want) ++ " argument(s), got "
            ++ fmt_int (Z.of_nat (length args))).

(** The arguments of a function of one and of two parameters, after the
    arity check. *)
Definition arg1 (args : list value) (f : value -> res string value) : res string value :=
  let! _ := arity args 1 in match args with [a] => f a | _ => Panic "index out of range" end.
Definition arg2 (args : list value) (f : value -> value -> res string value) : res string value :=
  let! _ := arity args 2 in match args with [a; b] => f a b | _ => Panic "index out of range" end.

(** [listArg]: nil is the empty list. *)
Definition list_arg (args : list value) (f : list value -> res string value) : res string value :=
  arg1 args (fun a => match a with
                      | VList l => f l
                      | VNil => f []
                      | _ => Err ("needs a list, got " ++ type_name a)
                      end).

Definition str_fn (f : string -> string) : gofunc := fun args =>
  arg1 args (fun a => match a with
                      | VStr s => Ok (VStr (f s))
                      | _ => Err ("needs a string, got " ++ type_name a)
                      end).
Definition str_fn2 (f : string -> string -> value) : gofunc := fun args =>
  arg2 args (fun a b => match a, b with
                        | VStr a, VStr b => Ok (f a b)
                        | _, _ => Err "needs two strings"
                        end).
Definition math_fn (f : f64 -> f64) : gofunc := fun args =>
  arg1 args (fun a => match to_float a with
                      | Some x => Ok (VNum (f x))
                      | None => Err ("needs a number, got " ++ type_name a)
                      end).

(** The numbers of a list, folded from the left. *)
Fixpoint num_fold (f : f64 -> f64 -> f64) (what : string) (acc : f64) (l : list value) : res string f64 :=
  match l with
  | [] => Ok acc
  | v :: l =>
      match to_float (normalize v) with
      | Some x => num_fold f what (f acc x) l
      | None => Err (what ++ type_name v)
      end
  end.
Definition var_math_fn (f : f64 -> f64 -> f64) : gofunc := fun args =>
  let vals := match args with [VList l] => l | _ => args end in
  match vals with
  | [] => Err "needs at least one number"
  | v :: rest =>
      match to_float (normalize v) with
      | None => Err ("non-numeric argument " ++ type_name v)
      | Some acc => let! r := num_fold f "non-numeric argument " acc rest in Ok (VNum r)
      end
  end.

(** [strings.Split]: an empty separator cuts into code points. *)
Fixpoint split_fuel (fuel : nat) (s sep : string) : list string :=
  match fuel with
  | O => [s]
  | S fuel =>
      match sindex s sep with
      | None => [s]
      | Some i => stake i s :: split_fuel fuel (sdrop (i + String.length sep) s) sep
      end
  end.
Definition str_split (s sep : string) : list string :=
  if String.eqb sep "" then map snd (runes s) else split_fuel (String.length s) s sep.

(** [strings.ReplaceAll]: an empty pattern matches before every code point
    and at the end. *)
Definition str_replace_all (s old new : string) : string :=
  if String.eqb old "" then new ++ fold_right (fun x acc => x.2 ++ new ++ acc) "" (runes s)
  else sjoin new (str_split s old).

(** The order [sort] compares with: numbers or strings, nothing mixed. *)
Definition sort_less (a b : value) : option bool :=
  match to_float (normalize a), to_float (normalize b) with
  | Some x, Some y => Some (flt x y)
  | _, _ => match normalize a, normalize b with
            | VStr x, VStr y => Some (str_lt x y)
            | _, _ => None
            end
  end.
(** One insertion of [sort.SliceStable]: [acc] is the sorted prefix, last
    element first. *)
Fixpoint sort_insert (x : value) (acc : list value) : option (list value) :=
  match acc with
  | [] => Some [x]
  | y :: acc' =>
      match sort_less x y with
      | None => None
      | Some true => l ← sort_insert x acc'; Some (y :: l)
      | Some false => Some (x :: acc)
      end
  end.
Fixpoint sort_values (acc l : list value) : option (list value) :=
  match l with
  | [] => Some (rev acc)
  | x :: l => acc ← sort_insert x acc; sort_values acc l
  end.

(** The loop of [range]: [i] counts up by one, in floating point. *)
Fixpoint range_loop (fuel : nat) (i to : f64) : res string (list value) :=
  if fle i to then
    match fuel with
    | O => OutOfFuel
    | S fuel => let! l := range_loop fuel (fadd i f_one) to in Ok (VNum i :: l)
    end
  else Ok [].
Definition f_1e6 : f64 := f_of_Z 1000000.
(** [make([]any, 0, n)] panics on a negative capacity.  The fuel is the
    capacity and a spare step. *)
Definition range_fn (from to : f64) : res string value :=
  if flt to from then Ok (VList [])
  else if flt f_1e6 (fsub to from) then Err "range too large"
  else
    let cap := wrap64 (f_to_int64 (fsub to from) + 1) in
    if cap <? 0 then Panic "makeslice: cap out of range"
    else let! l := range_loop (Z.to_nat cap + 1) from to in Ok (VList l).

Section builtins.
Context {U : Unicode} {R : Regexp}.
Variable now : Z.

Definition fn_len : gofunc := fun args =>
  arg1 args (fun a => match a with
                      | VNil => Ok (vnum 0)
                      | VStr s => Ok (vnum (slen s))
                      | VList l => Ok (vnum (Z.of_nat (length l)))
                      | VMap m => Ok (vnum (Z.of_nat (size m)))
                      | _ => Err ("unsupported type " ++ type_name a)
                      end).
Definition fn_number : gofunc := fun args =>
  arg1 args (fun a =>
    match to_float a, a with
    | Some f, _ => Ok (VNum f)
    | None, VStr s =>
        match parse_float (trim_space s) with
        | Some f => Ok (VNum f)
        | None => Err ("cannot parse " ++ quote s ++ " as number")
        end
    | None, _ => Err ("cannot convert " ++ type_name a ++ " to number")
    end).
Definition fn_replace : gofunc := fun args =>
  let! _ := arity args 3 in
  match args with
  | [VStr s; VStr old; VStr nw] => Ok (VStr (str_replace_all s old nw))
  | _ => Err "needs three strings"
  end.
Definition fn_matches : gofunc := fun args =>
  arg2 args (fun a b =>
    match a, b with
    | VStr s, VStr pat =>
        match regexp_match pat s with
        | inl e => Err ("bad pattern: " ++ e)
        | inr b => Ok (VBool b)
        end
    | _, _ => Err "needs two strings"
    end).
Definition fn_join : gofunc := fun args =>
  arg2 args (fun a b =>
    match a, b with
    | VList l, VStr sep => Ok (VStr (sjoin sep (map stringify l)))
    | _, _ => Err "needs a list and a string"
    end).
Definition fn_sum : gofunc := fun args =>
  list_arg args (fun l => let! t := num_fold fadd "non-numeric element " f_zero l in Ok (VNum t)).
Definition fn_avg : gofunc := fun args =>
  list_arg args (fun l =>
    match l with
    | [] => Err "empty list"
    | _ => let! t := num_fold fadd "non-numeric element " f_zero l in
           Ok (VNum (fdiv t (f_of_Z (Z.of_nat (length l)))))
    end).
Definition fn_first : gofunc := fun args =>
  list_arg args (fun l => Ok match l with [] => VNil | v :: _ => normalize v end).
Definition fn_last : gofunc := fun args =>
  list_arg args (fun l => Ok match last l with None => VNil | Some v => normalize v end).
Definition fn_sort : gofunc := fun args =>
  list_arg args (fun l => match sort_values [] l with
                          | Some l => Ok (VList l)
                          | None => Err "cannot sort mixed types"
                          end).
Definition fn_keys : gofunc := fun args =>
  arg1 args (fun a => match a with
                      | VMap m => Ok (VList (map VStr (sort_strings (map fst (map_to_list m)))))
                      | _ => Err ("needs a map, got " ++ type_name a)
                      end).
Definition fn_range : gofunc := fun args =>
  arg2 args (fun a b => match to_float a, to_float b with
                        | Some from, Some to => range_fn from to
                        | _, _ => Err "needs two numbers"
                        end).
Definition fn_now : gofunc := fun args => let! _ := arity args 0 in Ok (VTime now).
Definition fn_date : gofunc := fun args =>
  arg1 args (fun a => match a with
                      | VStr s => let! t := parse_time s in Ok (VTime t)
                      | _ => Err "needs a string"
                      end).
Definition fn_duration : gofunc := fun args =>
  arg1 args (fun a => match a with
                      | VStr s => let! d := parse_iso_duration s in Ok (VNum (dur_seconds d))
                      | _ => Err "needs an ISO-8601 string"
                      end).
Definition fn_add_duration : gofunc := fun args =>
  arg2 args (fun a b =>
    match a, b with
    | VTime t, VStr s => let! d := parse_iso_duration s in Ok (VTime (time_add t d))
    | VTime _, _ => Err "second argument must be an ISO-8601 duration"
    | _, _ => Err "first argument must be a time"
    end).

(** The table [builtins]. *)
Definition builtin_table : list (string * gofunc) :=
  [ ("len", fn_len);
    ("string", fun args => arg1 args (fun a => Ok (VStr (stringify a))));
    ("number", fn_number);
    ("bool", fun args => arg1 args (fun a => Ok (VBool (truthy a))));
    ("upper", str_fn str_upper);
    ("lower", str_fn str_lower);
    ("trim", str_fn trim_space);
    ("contains", str_fn2 (fun s sub => VBool (scontains s sub)));
    ("startsWith", str_fn2 (fun s p => VBool (has_prefix s p)));
    ("endsWith", str_fn2 (fun s p => VBool (has_suffix s p)));
    ("split", str_fn2 (fun s sep => VList (map VStr (str_split s sep))));
    ("replace", fn_replace);
    ("matches", fn_matches);
    ("join", fn_join);
    ("abs", math_fn f_abs);
    ("floor", math_fn f_floor);
    ("ceil", math_fn f_ceil);
    ("round", math_fn f_round);
    ("min", var_math_fn f_min);
    ("max", var_math_fn f_max);
    ("sum", fn_sum);
    ("avg", fn_avg);
    ("first", fn_first);
    ("last", fn_last);
    ("sort", fn_sort);
    ("keys", fn_keys);
    ("range", fn_range);
    ("now", fn_now);
    ("date", fn_date);
    ("duration", fn_duration);
    ("addDuration", fn_add_duration) ].

Definition builtin (name : string) : option gofunc :=
  snd <$> List.find (fun e => String.eqb e.1 name) builtin_table.
End builtins.

(** ** Splitting and joining *)
Lemma split_fuel_ne fuel s sep : split_fuel fuel s sep <> [].
Proof. destruct fuel; cbn; [done|]. by case_match. Qed.

Lemma split_fuel_join fuel s sep : sjoin sep (split_fuel fuel s sep) = s.
Proof.
  revert s; induction fuel as [|fuel IH]; intros s; cbn [split_fuel]; [done|].
  destruct (sindex s sep) as [i|] eqn:E; [|done]. apply sindex_Some in E.
  specialize (IH (sdrop (i + String.length sep) s)).
  pose proof (split_fuel_ne fuel (sdrop (i + String.length sep) s) sep).
  destruct (split_fuel fuel _ sep) as [|y l]; [done|].
  change (stake i s ++ sep ++ sjoin sep (y :: l) = s)%string. by rewrite IH, <- E.
Qed.

(** Joining the parts of a split with the separator they were cut at gives
    the text back, and replacing a text by itself changes nothing. *)
Theorem split_join_roundtrip s sep :
  sep <> "" -> sjoin sep (str_split s sep) = s /\ str_replace_all s sep sep = s.
Proof.
  intros H. unfold str_replace_all, str_split. destruct (String.eqb_spec sep ""); [done|].
  split; apply split_fuel_join.
Qed.

(** ** Sorting *)

(** The values [sort] takes: a list of numbers, or a list of strings. *)
Definition is_number (v : value) : bool := match to_float v with Some _ => true | None => false end.
Definition is_vstr (v : value) : bool := match v with VStr _ => true | _ => false end.
Definition sortable (l : list value) : bool := forallb is_number l || forallb is_vstr l.

Lemma sort_less_some x y :
  is_Some (sort_less x y) <-> sortable [x; y] = true.
Proof. unfold sortable. destruct x, y; cbn; split; (done || by intros [] || by eauto). Qed.

Lemma sort_less_asym x y : sort_less x y = Some true -> sort_less y x = Some false.
Proof.
  unfold sort_less. destruct x, y; cbn; try done; intros [= H];
    by rewrite ?(flt_asym _ _ H), ?(str_lt_antisym _ _ H).
Qed.

Lemma sort_insert_perm x acc acc' : sort_insert x acc = Some acc' -> acc' ≡ₚ x :: acc.
Proof.
  revert acc'; induction acc as [|y acc IH]; intros acc'; cbn; [naive_solver|].
  destruct (sort_less x y) as [[]|]; [|naive_solver|done].
  destruct (sort_insert x acc) as [l|]; cbn; [|done]. intros [= <-].
  rewrite (IH l eq_refl). constructor.
Qed.

Lemma sort_values_perm acc l l' : sort_values acc l = Some l' -> l' ≡ₚ acc ++ l.
Proof.
  revert acc; induction l as [|x l IH]; intros acc; cbn.
  - intros [= <-]. by rewrite <- Permutation_rev, app_nil_r.
  - destruct (sort_insert x acc) as [acc'|] eqn:E; cbn; [|done]. intros H.
    rewrite (IH _ H), (sort_insert_perm _ _ _ E). by rewrite <- Permutation_middle.
Qed.

(** In a reversed prefix no element is less than the next one. *)
Abbreviation not_less := (fun x y => sort_less x y = Some false).

Lemma sort_insert_sorted x acc acc' :
  Sorted not_less acc -> sort_insert x acc = Some acc' ->
  Sorted not_less acc' /\ (head acc' = Some x \/ head acc' = head acc).
Proof.
  intros H. revert acc'; induction H as [|y acc H IH Hy]; intros acc'; cbn.
  { intros [= <-]. auto. }
  destruct (sort_less x y) as [[]|] eqn:E; [|intros [= <-]; auto|done].
  destruct (sort_insert x acc) as [l|]; cbn; [|done]. intros [= <-].
  destruct (IH l eq_refl) as [Hl Hh]. split; [|by right]. constructor; [done|].
  destruct l as [|z l]; constructor. cbn in Hh. destruct Hh as [[= ->]|Hh].
  - by apply sort_less_asym.
  - destruct Hy; cbn in Hh; [done|]. by injection Hh as ->.
Qed.

Lemma Sorted_snoc {A} (R : A -> A -> Prop) l x :
  Sorted R l -> (forall y, last l = Some y -> R y x) -> Sorted R (l ++ [x]).
Proof.
  induction 1 as [|y l Hl IH Hy]; intros Hx; cbn; [auto|].
  constructor; [apply IH; destruct l; naive_solver|].
  destruct Hy; cbn; constructor; [by apply Hx|done].
Qed.

Lemma Sorted_rev {A} (R : A -> A -> Prop) l : Sorted R l -> Sorted (flip R) (rev l).
Proof.
  induction 1 as [|x l Hl IH Hx]; cbn; [done|]. apply Sorted_snoc; [done|].
  destruct Hx; cbn; [done|]. intros y. rewrite last_snoc. by intros [= <-].
Qed.

Lemma sort_values_sorted acc l l' :
  Sorted not_less acc -> sort_values acc l = Some l' -> Sorted (flip not_less) l'.
Proof.
  revert acc; induction l as [|x l IH]; intros acc Hacc; cbn.
  - intros [= <-]. by apply Sorted_rev.
  - destruct (sort_insert x acc) as [acc'|] eqn:E; cbn; [|done].
    apply IH. by eapply sort_insert_sorted.
Qed.

(** What [sort] accepts is decided by the kinds of the elements alone. *)
Definition kind_of (v : value) : option bool :=
  if is_number v then Some true else if is_vstr v then Some false else None.

Lemma sort_less_kind x y :
  is_Some (sort_less x y) <-> exists k, kind_of x = Some k /\ kind_of y = Some k.
Proof.
  unfold kind_of.
  destruct x, y; cbn; (split; [intros [? ?]; simplify_eq; eauto|intros (? & ? & ?); simplify_eq; eauto]).
Qed.

Lemma sort_insert_kind x acc k :
  Forall (fun y => kind_of y = Some k) acc ->
  is_Some (sort_insert x acc) <-> acc = [] \/ kind_of x = Some k.
Proof.
  induction 1 as [|y acc Hy Hacc IH]; cbn; [naive_solver|].
  pose proof (sort_less_kind x y) as Hk. destruct (sort_less x y) as [[]|] eqn:E.
  - assert (kind_of x = Some k) as Hx by (destruct Hk as [Hk _]; destruct Hk; naive_solver).
    split; [by right|]. intros _. destruct IH as [_ IH]. destruct IH as [? ->]; [by right|]. eauto.
  - destruct Hk as [Hk _]. destruct Hk as (k' & ? & ?); [done|]. split; [right; congruence|eauto].
  - split; [by intros []|]. intros [?|Hx]; [done|]. destruct Hk as [_ Hk]. destruct Hk; naive_solver.
Qed.

Lemma sort_values_kind acc l k :
  acc <> [] -> Forall (fun y => kind_of y = Some k) acc ->
  is_Some (sort_values acc l) <-> Forall (fun y => kind_of y = Some k) l.
Proof.
  revert acc; induction l as [|x l IH]; intros acc Hne Hacc; cbn; [split; eauto|].
  pose proof (sort_insert_kind x acc k Hacc) as Hx. rewrite Forall_cons.
  destruct (sort_insert x acc) as [acc'|] eqn:E; cbn.
  - destruct Hx as [Hx _]. destruct Hx as [?|Hx]; [eauto|done|].
    pose proof (sort_insert_perm _ _ _ E) as Hp. rewrite (IH acc').
    + naive_solver.
    + intros ->. by apply Permutation_nil_cons in Hp.
    + rewrite Hp. by constructor.
  - split; [by intros []|]. intros [H _]. destruct Hx as [_ Hx]. destruct Hx; [by right|done].
Qed.

Lemma sortable_kind l :
  sortable l = true <-> l = [] \/ exists k, Forall (fun y => kind_of y = Some k) l.
Proof.
  unfold sortable. rewrite orb_true_iff, !forallb_forall. setoid_rewrite Forall_forall.
  setoid_rewrite <- list_elem_of_In. unfold kind_of. split.
  - intros [H|H]; right; [exists true|exists false]; intros x Hx; rewrite (H x Hx); [done|].
    specialize (H x Hx). by destruct x.
  - intros [->|[[] H]]; [left; set_solver|left|right]; intros x Hx; specialize (H x Hx); by destruct x.
Qed.

(** [sort] gives a permutation of its list in which no element is less than
    the one before it, when the elements are all numbers or all strings (or
    there is at most one); any other list is the error. *)
Theorem sort_spec l :
  if Nat.leb (length l) 1 || sortable l
  then exists l', fn_sort [VList l] = Ok (VList l') /\ l' ≡ₚ l /\
                  Sorted (fun x y => sort_less y x = Some false) l'
  else fn_sort [VList l] = Err "cannot sort mixed types".
Proof.
  change (fn_sort [VList l]) with
    (match sort_values [] l with Some l => Ok (VList l) | None => Err "cannot sort mixed types" end).
  assert (is_Some (sort_values [] l) <-> Nat.leb (length l) 1 || sortable l = true) as Hk.
  { rewrite orb_true_iff, Nat.leb_le, sortable_kind. destruct l as [|x [|y l]]; cbn [length].
    - split; [intros _; left; lia|by intros _].
    - split; [intros _; left; lia|by intros _].
    - cbn [sort_values sort_insert mbind option_bind].
      destruct (kind_of x) as [k|] eqn:Ex.
      + rewrite (sort_values_kind [x] (y :: l) k); [|done|by repeat constructor].
        split; [right; right; exists k; by constructor|].
        intros [?|[?|[k' Hk]]]; [lia|done|]. inv Hk; by simplify_eq.
      + cbn. pose proof (sort_less_kind y x) as Hyx. destruct (sort_less y x) eqn:E.
        * exfalso. destruct Hyx as [Hyx _]. destruct Hyx as (? & ? & ?); [done|congruence].
        * cbn. split; [by intros []|]. intros [?|[?|[k Hk]]]; [lia|done|]. inv Hk; congruence. }
  destruct (_ || _) eqn:E.
  - destruct Hk as [_ [l' Hl]]; [done|]. rewrite Hl. exists l'. split_and!; [done| |].
    + apply (sort_values_perm _ _ _ Hl).
    + by eapply (sort_values_sorted [] l).
  - destruct (sort_values [] l); [|done]. destruct Hk as [Hk _]. discriminate Hk; eauto.
Qed.

(** ** [range] and floating-point counting *)

(** A counter that adding one does not move never leaves the loop: from 2^53
    on, [range(n, n)] does not return. *)
Theorem range_stuck i to :
  fadd i f_one = i -> fle i to = true -> forall fuel, range_loop fuel i to = OutOfFuel.
Proof. intros Hi Hle fuel. induction fuel; cbn [range_loop]; rewrite Hle; [done|]. by rewrite Hi, IHfuel. Qed.

Definition f_2p53 : f64 := f_of_Z (2 ^ 53).

Lemma range_stuck_witness :
  fadd f_2p53 f_one = f_2p53 /\ fle f_2p53 f_2p53 = true /\
  range_fn f_2p53 f_2p53 = OutOfFuel /\ range_loop 7 f_2p53 f_2p53 = OutOfFuel.
Proof.
  split_and!; [vm_compute; reflexivity..|]. apply range_stuck; vm_compute; reflexivity.
Defined.

(** A bound that is not a number makes the capacity negative. *)
Example range_nan_panics :
  @fn_range [VNum S754_nan; vnum 1] = Panic "makeslice: cap out of range" /\
  fn_range [vnum 1; vnum 4] = Ok (VList [vnum 1; vnum 2; vnum 3; vnum 4]) /\
  fn_range [vnum 4; vnum 1] = Ok (VList []) /\
  fn_range [vnum 0; vnum 1000001] = Err "range too large".
Proof. vm_compute. auto. Qed.

(** ** Every built-in but [range] comes back *)
Section builtin_returns.
Context {U : Unicode} {R : Regexp}.
Variable now : Z.

Lemma arg1_returns args f :
  (forall a, returns (f a) = true) -> returns (arg1 args f) = true.
Proof. intros H. by destruct args as [|a [|b l]]; cbn; rewrite ?H. Qed.
Lemma arg2_returns args f :
  (forall a b, returns (f a b) = true) -> returns (arg2 args f) = true.
Proof. intros H. by destruct args as [|a [|b [|c l]]]; cbn; rewrite ?H. Qed.
Lemma list_arg_returns args f :
  (forall l, returns (f l) = true) -> returns (list_arg args f) = true.
Proof. intros H. apply arg1_returns. intros []; auto. Qed.
Lemma num_fold_returns f what acc l : returns (num_fold f what acc l) = true.
Proof. revert acc; induction l as [|v l IH]; intros; cbn; [done|]. by case_match. Qed.
Lemma var_math_fn_returns f args : returns (var_math_fn f args) = true.
Proof.
  unfold var_math_fn. repeat case_match; try done;
    (apply returns_bind; [apply num_fold_returns|done]).
Qed.
Lemma parse_time_returns s : returns (parse_time s) = true.
Proof. unfold parse_time. by case_match. Qed.

#[local] Hint Resolve arg1_returns arg2_returns list_arg_returns num_fold_returns
  var_math_fn_returns parse_time_returns parse_iso_duration_returns : go.

Ltac fn_case :=
  repeat first
    [ progress intros
    | done
    | apply arg1_returns | apply arg2_returns | apply list_arg_returns | apply var_math_fn_returns
    | apply returns_bind; [solve [auto with go]|]
    | case_match ].

Lemma builtin_returns name f args :
  builtin now name = Some f -> name <> "range" -> returns (f args) = true.
Proof.
  unfold builtin. intros H Hn.
  destruct (List.find _ _) as [[n g]|] eqn:E; cbn in H; [|done]. injection H as ->.
  apply List.find_some in E as [Hin He]. cbn in He. apply String.eqb_eq in He as ->.
  unfold builtin_table in Hin. cbn [In] in Hin.
  destruct_or! Hin; try done; injection Hin as ? ?; subst; try done;
    unfold fn_len, fn_number, fn_matches, fn_join, fn_sum, fn_avg, fn_first, fn_last, fn_sort,
      fn_keys, fn_date, fn_duration, fn_add_duration, str_fn, str_fn2, math_fn; fn_case.
  - unfold fn_replace, arity. by destruct args as [|[] [|[] [|[] []]]].
  - unfold fn_now, arity. by destruct args.
Qed.
End builtin_returns.
