(* ===== verification/ExprEval.v ===== *)
(** * Evaluation of expressions ([src/expr/eval.go])

    [eval] is the method [eval] of the node types.  Errors carry the source
    text and the formatted message. *)
From Stdlib Require Import Ascii.
From S2P Require Import Prelude GoFloat GoUtf8 GoTime ExprValue ExprLexer ExprParser ExprDuration ExprFuncs.
Local Open Scope go_scope.
Local Open Scope string_scope.
Local Open Scope Z_scope.

(** [Program]: the source text and its tree. *)
Record program := { p_src : string; p_root : node }.

(** [envFrame]; [e_funcs] are the functions layered over the built-ins. *)
Record env := { e_vars : vars; e_funcs : string -> option gofunc; e_src : string }.

(** [progCache], by source text. *)
Abbreviation prog_cache := (gmap string program).

Section eval.
Context {U : Unicode} {R : Regexp}.
Variable now : Z.

Definition errf (e : env) {A} (msg : string) : res expr_error A := Err (EvalError (e_src e) msg).

(** [timeMember]. *)
Definition time_member (e : env) (t : Z) (name : string) : res expr_error value :=
  if String.eqb name "year" then Ok (vnum (time_year t))
  else if String.eqb name "month" then Ok (vnum (time_month t))
  else if String.eqb name "day" then Ok (vnum (time_day t))
  else if String.eqb name "hour" then Ok (vnum (time_hour t))
  else if String.eqb name "minute" then Ok (vnum (time_minute t))
  else if String.eqb name "second" then Ok (vnum (time_second t))
  else if String.eqb name "weekday" then Ok (vnum (time_weekday t))
  else if String.eqb name "unix" then Ok (vnum (unix_seconds t))
  else errf e ("unknown time property " ++ quote name).

(** The member access of an evaluated value. *)
Definition member (e : env) (x : value) (name : string) : res expr_error value :=
  match x with
  | VNil => Ok VNil
  | VMap m => Ok (normalize (vget m name))
  | VTime t => time_member e t name
  | _ => errf e ("cannot access property " ++ quote name ++ " on " ++ type_name x)
  end.

(** The position [int(f)] counts from the end when it is negative. *)
Definition index_pos (f : f64) (len : nat) : option nat :=
  let i := f_to_int64 f in
  let i := if i <? 0 then i + Z.of_nat len else i in
  if (i <? 0) || (Z.of_nat len <=? i) then None else Some (Z.to_nat i).

Definition index (e : env) (x i : value) : res expr_error value :=
  match x with
  | VNil => Ok VNil
  | VList l =>
      match to_float i with
      | None => errf e ("list index must be a number, got " ++ type_name i)
      | Some f => Ok match index_pos f (length l) with
                     | Some n => normalize (default VNil (l !! n))
                     | None => VNil
                     end
      end
  | VMap m =>
      match i with
      | VStr k => Ok (normalize (vget m k))
      | _ => errf e ("map key must be a string, got " ++ type_name i)
      end
  | VStr s =>
      match to_float i with
      | None => errf e ("string index must be a number, got " ++ type_name i)
      | Some f => Ok match index_pos f (String.length s) with
                     | Some n => match String.get n s with
                                 | Some c => VStr (encode_rune (byte_val c))
                                 | None => VNil
                                 end
                     | None => VNil
                     end
      end
  | _ => errf e ("cannot index " ++ type_name x)
  end.

(** [contains]: the operator [in]. *)
Definition contains (e : env) (container item : value) : res expr_error value :=
  match container with
  | VNil => Ok (VBool false)
  | VList l => Ok (VBool (existsb (fun v => equal (normalize v) item) l))
  | VMap m => Ok (VBool match item with
                        | VStr k => match m !! k with Some _ => true | None => false end
                        | _ => false
                        end)
  | VStr s => Ok (VBool match item with VStr sub => scontains s sub | _ => false end)
  | _ => errf e ("'in' needs a list, map or string on the right, got " ++ type_name container)
  end.

(** [arith]. *)
Definition arith (e : env) (op : string) (l r : value) : res expr_error value :=
  match to_float l, to_float r with
  | Some a, Some b =>
      if String.eqb op "+" then Ok (VNum (fadd a b))
      else if String.eqb op "-" then Ok (VNum (fsub a b))
      else if String.eqb op "*" then Ok (VNum (fmul a b))
      else if String.eqb op "/" then
        if feq b f_zero then errf e "division by zero" else Ok (VNum (fdiv a b))
      else if String.eqb op "%" then
        if feq b f_zero then errf e "division by zero" else Ok (VNum (f_mod a b))
      else errf e ("unknown arithmetic operator " ++ quote op)
  | _, _ =>
      match l, r with
      | VTime a, VTime b =>
          if String.eqb op "-" then Ok (VNum (dur_seconds (time_sub a b)))
          else errf e ("operator " ++ quote op ++ " needs numbers, got " ++ type_name l ++ " and " ++ type_name r)
      | _, _ => errf e ("operator " ++ quote op ++ " needs numbers, got " ++ type_name l ++ " and " ++ type_name r)
      end
  end.

(** The four comparisons, given the strict and the weak order. *)
Definition by_op (op : string) (lt le gt ge : bool) : option bool :=
  if String.eqb op "<" then Some lt
  else if String.eqb op "<=" then Some le
  else if String.eqb op ">" then Some gt
  else if String.eqb op ">=" then Some ge
  else None.
(** [compare]. *)
Definition compare (e : env) (op : string) (l r : value) : res expr_error value :=
  let b :=
    match to_float l, to_float r with
    | Some a, Some b => by_op op (flt a b) (fle a b) (flt b a) (fle b a)
    | _, _ =>
        match l, r with
        | VStr a, VStr b => by_op op (str_lt a b) (str_le a b) (str_lt b a) (str_le b a)
        | VTime a, VTime b => by_op op (a <? b) (negb (b <? a)) (b <? a) (negb (a <? b))
        | _, _ => None
        end
    end in
  match b with
  | Some b => Ok (VBool b)
  | None => errf e ("cannot compare " ++ type_name l ++ " with " ++ type_name r)
  end.

(** The strict operators, on evaluated sides. *)
Definition binary (e : env) (op : string) (l r : value) : res expr_error value :=
  if String.eqb op "==" then Ok (VBool (equal l r))
  else if String.eqb op "!=" then Ok (VBool (negb (equal l r)))
  else if existsb (String.eqb op) ["<"; "<="; ">"; ">="] then compare e op l r
  else if String.eqb op "in" then contains e r l
  else if String.eqb op "+" then
    match l, r with
    | VStr a, _ => Ok (VStr (a ++ stringify r))
    | _, VStr b => Ok (VStr (stringify l ++ b))
    | VList a, VList b => Ok (VList (a ++ b))
    | _, _ => arith e op l r
    end
  else if existsb (String.eqb op) ["-"; "*"; "/"; "%"] then arith e op l r
  else errf e ("unknown operator " ++ quote op).

(** [unaryNode.eval] on the evaluated operand. *)
Definition unary (e : env) (op : string) (v : value) : res expr_error value :=
  if String.eqb op "!" then Ok (VBool (negb (truthy v)))
  else if String.eqb op "-" then
    match to_float v with
    | Some f => Ok (VNum (fneg f))
    | None => errf e ("cannot negate " ++ type_name v)
    end
  else errf e ("unknown unary operator " ++ quote op).

(** The function a call names: an extra function wins over a built-in. *)
Definition find_func (e : env) (name : string) : option gofunc :=
  match e_funcs e name with Some f => Some f | None => builtin now name end.

(** The call of a function on evaluated arguments. *)
Definition apply_func (e : env) (name : string) (f : gofunc) (args : list value) : res expr_error value :=
  match f args with
  | Ok v => Ok (normalize v)
  | Err m => errf e (name ++ "(): " ++ m)
  | Panic w => Panic w
  | OutOfFuel => OutOfFuel
  end.

Definition is_nil (v : value) : bool := match v with VNil => true | _ => false end.

Fixpoint eval (e : env) (n : node) : res expr_error value :=
  match n with
  | LitNode v => Ok v
  | VarNode name =>
      Ok match e_vars e !! name with Some v => normalize v | None => VNil end
  | ListNode items =>
      let! l := (fix evals ns := match ns with
                                 | [] => Ok []
                                 | n :: ns => let! v := eval e n in let! l := evals ns in Ok (v :: l)
                                 end) items in
      Ok (VList l)
  | UnaryNode op x => let! v := eval e x in unary e op v
  | TernaryNode c t f => let! v := eval e c in if truthy v then eval e t else eval e f
  | MemberNode x name => let! v := eval e x in member e v name
  | IndexNode x i => let! v := eval e x in let! j := eval e i in index e v j
  | CallNode name args =>
      match find_func e name with
      | None => errf e ("unknown function " ++ quote name)
      | Some f =>
          let! l := (fix evals ns := match ns with
                                     | [] => Ok []
                                     | n :: ns => let! v := eval e n in let! l := evals ns in Ok (v :: l)
                                     end) args in
          apply_func e name f l
      end
  | BinaryNode op l r =>
      if String.eqb op "&&" then
        let! a := eval e l in
        if truthy a then let! b := eval e r in Ok (VBool (truthy b)) else Ok (VBool false)
      else if String.eqb op "||" then
        let! a := eval e l in
        if truthy a then Ok (VBool true) else let! b := eval e r in Ok (VBool (truthy b))
      else if String.eqb op "??" then
        let! a := eval e l in
        if is_nil a then eval e r else Ok a
      else
        let! a := eval e l in let! b := eval e r in binary e op a b
  end.

(** [Program.EvalWith], [Eval], [EvalBool]. *)
Definition eval_with (p : program) (v : vars) (funcs : string -> option gofunc) : res expr_error value :=
  eval {| e_vars := v; e_funcs := funcs; e_src := p_src p |} (p_root p).
Definition no_funcs : string -> option gofunc := fun _ => None.
Definition program_eval (p : program) (v : vars) : res expr_error value := eval_with p v no_funcs.
Definition program_eval_bool (p : program) (v : vars) : res expr_error bool :=
  let! x := program_eval p v in Ok (truthy x).

(** [Cached]: the program cache is threaded through. *)
Definition cached (c : prog_cache) (src : string) : res expr_error (program * prog_cache) :=
  match c !! src with
  | Some p => Ok (p, c)
  | None => let! n := compile src in
            let p := {| p_src := src; p_root := n |} in
            Ok (p, <[src := p]> c)
  end.

(** The package functions [Eval] and [EvalBool]; the cache after a failed
    call is the one before it unless the text compiled. *)
Definition cache_after (c : prog_cache) (src : string) : prog_cache :=
  match cached c src with Ok (_, c') => c' | _ => c end.
Definition eval_cached (c : prog_cache) (src : string) (v : vars) : res expr_error value :=
  let! (p, _) := cached c src in program_eval p v.
Definition eval_bool_cached (c : prog_cache) (src : string) (v : vars) : res expr_error bool :=
  let! (p, _) := cached c src in program_eval_bool p v.

(** What the package function computes, without the cache. *)
Definition eval_src (src : string) (v : vars) : res expr_error value :=
  let! n := compile src in program_eval {| p_src := src; p_root := n |} v.
Definition eval_bool_src (src : string) (v : vars) : res expr_error bool :=
  let! x := eval_src src v in Ok (truthy x).
End eval.

(** ** The evaluator on lists of nodes *)
Section eval_properties.
Context {U : Unicode} {R : Regexp}.
Variable now : Z.
Abbreviation eval := (eval now).

Definition evals (e : env) : list node -> res expr_error (list value) :=
  fix evals ns := match ns with
                  | [] => Ok []
                  | n :: ns => let! v := eval e n in let! l := evals ns in Ok (v :: l)
                  end.

Lemma eval_ListNode e items : eval e (ListNode items) = (let! l := evals e items in Ok (VList l)).
Proof. reflexivity. Qed.
Lemma eval_CallNode e name args :
  eval e (CallNode name args) =
  match find_func now e name with
  | None => errf e ("unknown function " ++ quote name)
  | Some f => let! l := evals e args in apply_func e name f l
  end.
Proof. reflexivity. Qed.

Lemma node_nested_ind (P : node -> Prop) :
  (forall v, P (LitNode v)) -> (forall x, P (VarNode x)) ->
  (forall l, Forall P l -> P (ListNode l)) ->
  (forall op x, P x -> P (UnaryNode op x)) ->
  (forall op l r, P l -> P r -> P (BinaryNode op l r)) ->
  (forall c t f, P c -> P t -> P f -> P (TernaryNode c t f)) ->
  (forall x m, P x -> P (MemberNode x m)) -> (forall x i, P x -> P i -> P (IndexNode x i)) ->
  (forall f l, Forall P l -> P (CallNode f l)) ->
  forall n, P n.
Proof.
  intros Hv Hx Hl Hu Hb Ht Hm Hi Hc.
  fix IH 1.
  assert (forall l, Forall P l) as IHs.
  { fix IHs 1. intros [|n l]; constructor; [apply IH|apply IHs]. }
  intros [v|x|l|op x|op l r|c t f|x m|x i|f l].
  - apply Hv.
  - apply Hx.
  - apply Hl, IHs.
  - apply Hu, IH.
  - apply Hb; apply IH.
  - apply Ht; apply IH.
  - apply Hm, IH.
  - apply Hi; apply IH.
  - apply Hc, IHs.
Qed.

(** *** Termination *)

(** No node of the tree calls [name]. *)
Fixpoint no_call (name : string) (n : node) : bool :=
  match n with
  | LitNode _ | VarNode _ => true
  | ListNode l => forallb (no_call name) l
  | UnaryNode _ x | MemberNode x _ => no_call name x
  | BinaryNode _ l r => no_call name l && no_call name r
  | TernaryNode c t f => no_call name c && no_call name t && no_call name f
  | IndexNode x i => no_call name x && no_call name i
  | CallNode f l => negb (String.eqb f name) && forallb (no_call name) l
  end.

(** An extra function that comes back on all arguments. *)
Definition func_returns (f : gofunc) : Prop := forall args, returns (f args) = true.

Lemma evals_returns e ns :
  Forall (fun n => returns (eval e n) = true) ns -> returns (evals e ns) = true.
Proof.
  induction 1; cbn; [done|]. apply returns_bind; [done|]. intros v _.
  by apply returns_bind.
Qed.

Lemma unary_returns e op v : returns (unary e op v) = true.
Proof. unfold unary. by repeat case_match. Qed.
Lemma arith_returns e op l r : returns (arith e op l r) = true.
Proof. unfold arith. by repeat case_match. Qed.
Lemma compare_returns e op l r : returns (compare e op l r) = true.
Proof. unfold compare. by case_match. Qed.
Lemma contains_returns e c i : returns (contains e c i) = true.
Proof. unfold contains. by case_match. Qed.
Lemma binary_returns e op l r : returns (binary e op l r) = true.
Proof.
  unfold binary. repeat case_match; try done; auto using arith_returns, compare_returns, contains_returns.
Qed.
Lemma member_returns e v m : returns (member e v m) = true.
Proof. unfold member, time_member. by repeat case_match. Qed.
Lemma index_returns e v i : returns (index e v i) = true.
Proof. unfold index. by repeat case_match. Qed.
Lemma apply_func_returns e name f args :
  returns (f args) = true -> returns (apply_func e name f args) = true.
Proof. unfold apply_func. by case_match. Qed.

Lemma forallb_Forall' {A} (P : A -> bool) (Q : A -> Prop) l :
  forallb P l = true -> Forall (fun x => P x = true -> Q x) l -> Forall Q l.
Proof.
  intros H HF. induction HF; [done|]. cbn in H. apply andb_true_iff in H as []. auto.
Qed.


(** *** Only the variables that occur matter *)

Fixpoint free_vars (n : node) : gset string :=
  match n with
  | LitNode _ => ∅
  | VarNode x => {[x]}
  | ListNode l => ⋃ (map free_vars l)
  | UnaryNode _ x | MemberNode x _ => free_vars x
  | BinaryNode _ l r => free_vars l ∪ free_vars r
  | TernaryNode c t f => free_vars c ∪ free_vars t ∪ free_vars f
  | IndexNode x i => free_vars x ∪ free_vars i
  | CallNode _ l => ⋃ (map free_vars l)
  end.

(** Evaluation reads the variables that occur in the expression and no
    others; a variable that is not set reads as nil, like one set to nil. *)
Theorem eval_frame e v n :
  (forall x, x ∈ free_vars n -> vget (e_vars e) x = vget v x) ->
  eval e n = eval {| e_vars := v; e_funcs := e_funcs e; e_src := e_src e |} n.
Proof.
  set (e2 := {| e_vars := v; e_funcs := e_funcs e; e_src := e_src e |}).
  assert (forall l, Forall (fun n => (forall x, x ∈ free_vars n -> vget (e_vars e) x = vget v x) -> eval e n = eval e2 n) l ->
          (forall x, x ∈ ⋃ (map free_vars l) -> vget (e_vars e) x = vget v x) -> evals e l = evals e2 l) as Hl.
  { induction 1 as [|n' ns Hn _ IH]; intros H; [done|]. cbn [evals map union_list] in *.
    rewrite Hn by set_solver. rewrite IH by set_solver. done. }
  induction n as [w|x|l IH|op x IH|op l r IHl IHr|c t f IHc IHt IHf|x m IH|x i IHx IHi|f l IH]
    using node_nested_ind; cbn [free_vars]; intros H.
  - done.
  - specialize (H x ltac:(set_solver)). unfold vget in H. cbn [ExprEval.eval].
    change (e_vars e2) with v. by destruct (e_vars e !! x), (v !! x); subst.
  - by rewrite !eval_ListNode, Hl.
  - cbn [ExprEval.eval]. by rewrite IH.
  - cbn [ExprEval.eval]. rewrite IHl, IHr by set_solver. done.
  - cbn [ExprEval.eval]. rewrite IHc, IHt, IHf by set_solver. done.
  - cbn [ExprEval.eval]. by rewrite IH.
  - cbn [ExprEval.eval]. rewrite IHx, IHi by set_solver. done.
  - by rewrite !eval_CallNode, Hl.
Qed.

(** *** Laziness and navigation *)

(** The right side of [&&], [||] and [??] and the unchosen branch of a
    conditional are not evaluated: the result is decided by the left side,
    whatever the other one would do, a run-time error included. *)
Theorem eval_lazy e l r v w :
  eval e l = Ok v ->
  (truthy v = false -> eval e (BinaryNode "&&" l r) = Ok (VBool false)
                       /\ eval e (TernaryNode l r w) = eval e w) /\
  (truthy v = true -> eval e (BinaryNode "||" l r) = Ok (VBool true)
                      /\ eval e (TernaryNode l r w) = eval e r) /\
  (v <> VNil -> eval e (BinaryNode "??" l r) = Ok v).
Proof.
  intros H. cbn. rewrite H. cbn. split_and!; try (intros ->; done).
  by destruct v.
Qed.

(** A chain of member and index steps. *)
Inductive step_nav := SMember (name : string) | SIndex (i : node).
Definition navigate (x : node) (path : list step_nav) : node :=
  fold_left (fun x s => match s with SMember m => MemberNode x m | SIndex i => IndexNode x i end) path x.

(** Navigation from nil stays nil: any chain of member and index steps
    from an expression that evaluates to nil gives nil, when the index
    expressions evaluate. *)
Theorem eval_safe_navigation e x path :
  eval e x = Ok VNil ->
  Forall (fun s => match s with SMember _ => True | SIndex i => exists v, eval e i = Ok v end) path ->
  eval e (navigate x path) = Ok VNil.
Proof.
  intros Hx HF. revert x Hx. induction HF as [|s path Hs _ IH]; intros x Hx; [done|].
  apply IH. destruct s as [m|i]; cbn; rewrite Hx; cbn; [done|].
  destruct Hs as [v ->]. done.
Qed.

(** *** Results are normalised *)
Definition normal (v : value) : Prop := normalize v = v.
Lemma normal_normalize v : normal (normalize v).
Proof. by destruct v. Qed.

(** Literals of a parsed tree are scalars of the language. *)
Fixpoint literals_normal (n : node) : bool :=
  match n with
  | LitNode v => match v with VInt _ _ => false | _ => true end
  | VarNode _ => true
  | ListNode l | CallNode _ l => forallb literals_normal l
  | UnaryNode _ x | MemberNode x _ => literals_normal x
  | BinaryNode _ l r | IndexNode l r => literals_normal l && literals_normal r
  | TernaryNode c t f => literals_normal c && literals_normal t && literals_normal f
  end.

Lemma arith_normal e op l r v : arith e op l r = Ok v -> normal v.
Proof. unfold arith. intros H. by repeat case_match; simplify_eq. Qed.
Lemma compare_normal e op l r v : compare e op l r = Ok v -> normal v.
Proof. unfold compare. intros H. by repeat case_match; simplify_eq. Qed.
Lemma contains_normal e c i v : contains e c i = Ok v -> normal v.
Proof. unfold contains. intros H. by repeat case_match; simplify_eq. Qed.
Lemma binary_normal e op l r v : binary e op l r = Ok v -> normal v.
Proof.
  unfold binary. intros H. repeat case_match; simplify_eq; try done;
    eauto using arith_normal, compare_normal, contains_normal.
Qed.
Lemma member_normal e x m v : member e x m = Ok v -> normal v.
Proof.
  unfold member, time_member. intros H. repeat case_match; simplify_eq; done || apply normal_normalize.
Qed.
Lemma index_normal e x i v : index e x i = Ok v -> normal v.
Proof. unfold index. intros H. repeat case_match; simplify_eq; done || apply normal_normalize. Qed.
Lemma apply_func_normal e name f args v : apply_func e name f args = Ok v -> normal v.
Proof. unfold apply_func. intros H. case_match; simplify_eq. apply normal_normalize. Qed.


(** *** The program cache *)

(** Every cached program is what its key compiles to. *)
Definition cache_ok (c : prog_cache) : Prop :=
  forall src p, c !! src = Some p -> exists n, compile src = Ok n /\ p = {| p_src := src; p_root := n |}.

(** The package-level [Eval] and [EvalBool] behave as if there were no
    cache, and keep it consistent. *)
Theorem cache_transparent c src v :
  cache_ok c ->
  eval_cached now c src v = eval_src now src v /\
  eval_bool_cached now c src v = eval_bool_src now src v /\
  cache_ok (cache_after c src).
Proof.
  intros Hc. unfold eval_cached, eval_bool_cached, eval_bool_src, eval_src, cache_after, cached.
  destruct (c !! src) as [p|] eqn:E.
  - destruct (Hc _ _ E) as (n & Hn & ->). by rewrite Hn.
  - destruct (compile src) as [n| | |] eqn:En; cbn; try done. split_and!; [done..|].
    intros s p. rewrite lookup_insert_Some. intros [[<- <-]|[_ H]]; eauto.
Qed.

(** *** Order *)

(** Two numbers that are not NaN, two strings or two times. *)
Definition comparable (l r : value) : bool :=
  match l, r with
  | VNum a, VNum b => negb (is_nan a) && negb (is_nan b)
  | VStr _, VStr _ | VTime _, VTime _ => true
  | _, _ => false
  end.

Lemma SFcompare_some a b : is_nan a = false -> is_nan b = false -> is_Some (SFcompare a b).
Proof. destruct a as [|[]| |[]], b as [|[]| |[]]; cbn; try done; intros; repeat case_match; eauto. Qed.

(** On comparable values exactly one of [<], [==] and [>] holds, and
    [<=], [>=] and [!=] are what they say. *)
Theorem compare_trichotomy e l r :
  comparable l r = true ->
  exists c : comparison,
    binary e "<" l r = Ok (VBool (match c with Lt => true | _ => false end)) /\
    binary e "==" l r = Ok (VBool (match c with Eq => true | _ => false end)) /\
    binary e ">" l r = Ok (VBool (match c with Gt => true | _ => false end)) /\
    binary e "<=" l r = Ok (VBool (match c with Gt => false | _ => true end)) /\
    binary e ">=" l r = Ok (VBool (match c with Lt => false | _ => true end)) /\
    binary e "!=" l r = Ok (VBool (match c with Eq => false | _ => true end)).
Proof.
  destruct l as [|p|a|a|p|p|a|p], r as [|q|b|b|q|q|b|q]; try done; cbn; intros H.
  - apply andb_true_iff in H as [Ha%negb_true_iff Hb%negb_true_iff].
    destruct (SFcompare_some a b Ha Hb) as [c Hc]. exists c.
    unfold compare. cbn. unfold flt, fle, feq, SFltb, SFleb, SFeqb.
    rewrite (SFcompare_antisym b a), Hc. by destruct c.
  - exists (String.compare a b). unfold compare. cbn. unfold str_lt, str_le.
    rewrite (String.compare_antisym b a). pose proof (String.compare_eq_iff a b) as Hc.
    destruct (String.eqb_spec a b) as [->|Hne];
      [by rewrite str_compare_refl|by destruct (String.compare a b); [naive_solver|..]].
  - exists (a ?= b). unfold compare. cbn. rewrite !Z.ltb_compare, Z.eqb_compare, (Z.compare_antisym b a).
    by destruct (b ?= a).
Qed.
End eval_properties.

(** ** Instances *)

(** Patterns without metacharacters, for evaluating the model. *)
Definition literal_regexp : Regexp := fun pat s => inr (scontains s pat).

Definition sample_env : env :=
  {| e_vars := {[ "amount" := vnum 120; "n" := VInt KInt64 7; "o" := VMap {["total" := vnum 3]} ]};
     e_funcs := no_funcs; e_src := "sample" |}.
Abbreviation sample_eval := (@eval latin1_only literal_regexp 0).
Abbreviation sample_src := (@eval_src latin1_only literal_regexp 0).

Example eval_samples :
  sample_src "amount >= 100 && approved != false" (e_vars sample_env) = Ok (VBool true) /\
  sample_src "o.total * 2 + len('abc')" (e_vars sample_env) = Ok (vnum 9) /\
  sample_src "missing.a.b ?? 'none'" (e_vars sample_env) = Ok (VStr "none") /\
  sample_src "n in [1, 7] ? upper('yes') : 'no'" (e_vars sample_env) = Ok (VStr "YES") /\
  sample_src "1 / 0" ∅ = Err (EvalError "1 / 0" "division by zero") /\
  sample_src "nope(1)" ∅ = Err (EvalError "nope(1)" ("unknown function " ++ @quote latin1_only "nope")).
Proof. vm_compute. split_and!; reflexivity. Qed.

Definition sample_node : node :=
  BinaryNode "&&" (BinaryNode ">" (VarNode "amount") (LitNode (vnum 100)))
    (CallNode "contains" [LitNode (VStr "abc"); LitNode (VStr "b")]).


Lemma eval_frame_witness :
  sample_eval sample_env sample_node =
  sample_eval {| e_vars := {["amount" := vnum 120]}; e_funcs := no_funcs; e_src := "sample" |} sample_node.
Proof.
  apply (@eval_frame latin1_only literal_regexp 0 sample_env {["amount" := vnum 120]} sample_node).
  intros x Hx. assert (x = "amount") as -> by (cbn in Hx; set_solver). reflexivity.
Defined.

Lemma eval_lazy_witness :
  sample_eval sample_env (BinaryNode "&&" (VarNode "missing") (CallNode "nope" [])) = Ok (VBool false) /\
  sample_eval sample_env (BinaryNode "||" (VarNode "amount") (CallNode "nope" [])) = Ok (VBool true).
Proof.
  split.
  - exact (proj1 (proj1 (@eval_lazy latin1_only literal_regexp 0 sample_env (VarNode "missing") (CallNode "nope" []) VNil (LitNode VNil)
             ltac:(vm_compute; reflexivity)) eq_refl)).
  - exact (proj1 (proj1 (proj2 (@eval_lazy latin1_only literal_regexp 0 sample_env (VarNode "amount") (CallNode "nope" []) (vnum 120)
             (LitNode VNil) ltac:(vm_compute; reflexivity))) ltac:(vm_compute; reflexivity))).
Defined.

Lemma eval_safe_navigation_witness :
  sample_eval sample_env
    (IndexNode (MemberNode (VarNode "missing") "a") (LitNode (vnum 0))) = Ok VNil.
Proof.
  apply (@eval_safe_navigation latin1_only literal_regexp 0 sample_env (VarNode "missing") [SMember "a"; SIndex (LitNode (vnum 0))]);
    [reflexivity|]. repeat constructor. by eexists.
Defined.


Lemma cache_transparent_witness :
  let c : prog_cache := @cache_after latin1_only ∅ "amount * 2" in
  c !! "amount * 2" <> None /\
  @eval_cached latin1_only literal_regexp 0 c "amount * 2" (e_vars sample_env)
  = sample_src "amount * 2" (e_vars sample_env).
Proof.
  assert (@cache_ok latin1_only ∅) as H0 by (intros ? ? [=]).
  pose proof (proj2 (proj2 (@cache_transparent latin1_only literal_regexp 0 ∅ "amount * 2" ∅ H0))) as H.
  split; [vm_compute; discriminate|].
  apply (@cache_transparent latin1_only literal_regexp 0 _ "amount * 2" (e_vars sample_env) H).
Defined.

Lemma compare_trichotomy_witness :
  comparable (VStr "abc") (VStr "abd") = true /\
  exists c, @binary latin1_only sample_env "<" (VStr "abc") (VStr "abd")
            = Ok (VBool match c with Lt => true | _ => false end).
Proof.
  split; [reflexivity|].
  destruct (@compare_trichotomy latin1_only sample_env (VStr "abc") (VStr "abd") eq_refl) as (c & H & _).
  by exists c.
Defined.
