(* ===== verification/StoreTypes.v ===== *)
(** * Persistence records ([src/store/types.go])

    The records of the store, with the setters the program uses.  A nil map
    or slice is the empty one; an absent time is [zero_time]. *)
From S2P Require Import Prelude GoFloat GoTime ExprValue.

(** [InstanceState], [TokenState] and the other string enumerations. *)
Inductive InstanceState := InstanceActive | InstanceCompleted | InstanceTerminated.
Inductive TokenState :=
| TokenActive | TokenWaitTask | TokenWaitTimer | TokenWaitMessage | TokenWaitSignal
| TokenWaitExternal | TokenWaitAgent | TokenWaitChild | TokenWaitMulti | TokenJoining
| TokenWaitRetry | TokenWaitEvents.
Inductive TaskState := TaskCreated | TaskCompleted | TaskCanceled.
Inductive JobKind := JobTimer | JobAsync | JobRetry.
Inductive ExternalState := ExternalPending | ExternalDone | ExternalFailed.
Inductive AgentState := AgentPending | AgentApproval | AgentDone | AgentFailed.
Inductive SubKind := SubMessage | SubSignal.

#[export] Instance InstanceState_eq_dec : EqDecision InstanceState.
Proof. solve_decision. Defined.
#[export] Instance TokenState_eq_dec : EqDecision TokenState.
Proof. solve_decision. Defined.
#[export] Instance TaskState_eq_dec : EqDecision TaskState.
Proof. solve_decision. Defined.
#[export] Instance JobKind_eq_dec : EqDecision JobKind.
Proof. solve_decision. Defined.
#[export] Instance ExternalState_eq_dec : EqDecision ExternalState.
Proof. solve_decision. Defined.
#[export] Instance AgentState_eq_dec : EqDecision AgentState.
Proof. solve_decision. Defined.
#[export] Instance SubKind_eq_dec : EqDecision SubKind.
Proof. solve_decision. Defined.

(** A deployed process definition: deploying a key again makes a new version. *)
Record ProcDef := {
  pd_id : string;
  pd_tenant : string;
  pd_key : string;
  pd_version : Z;
  pd_name : string;
  pd_xml : string;
  pd_deployed : Z;
}.

(** An execution pointer inside an instance. *)
Record Token := {
  tk_id : string;
  tk_element : string;
  tk_state : TokenState;
  tk_scope : list string;
  tk_owners : list string;
  tk_flow : string;
  tk_wait : string;
  tk_parent : string;
  tk_locals : vars;
}.
Definition set_tk_element (v : string) (r : Token) : Token :=
  {| tk_id := tk_id r; tk_element := v; tk_state := tk_state r; tk_scope := tk_scope r;
     tk_owners := tk_owners r; tk_flow := tk_flow r; tk_wait := tk_wait r;
     tk_parent := tk_parent r; tk_locals := tk_locals r |}.
Definition set_tk_state (v : TokenState) (r : Token) : Token :=
  {| tk_id := tk_id r; tk_element := tk_element r; tk_state := v; tk_scope := tk_scope r;
     tk_owners := tk_owners r; tk_flow := tk_flow r; tk_wait := tk_wait r;
     tk_parent := tk_parent r; tk_locals := tk_locals r |}.
Definition set_tk_scope (v : list string) (r : Token) : Token :=
  {| tk_id := tk_id r; tk_element := tk_element r; tk_state := tk_state r; tk_scope := v;
     tk_owners := tk_owners r; tk_flow := tk_flow r; tk_wait := tk_wait r;
     tk_parent := tk_parent r; tk_locals := tk_locals r |}.
Definition set_tk_owners (v : list string) (r : Token) : Token :=
  {| tk_id := tk_id r; tk_element := tk_element r; tk_state := tk_state r;
     tk_scope := tk_scope r; tk_owners := v; tk_flow := tk_flow r; tk_wait := tk_wait r;
     tk_parent := tk_parent r; tk_locals := tk_locals r |}.
Definition set_tk_flow (v : string) (r : Token) : Token :=
  {| tk_id := tk_id r; tk_element := tk_element r; tk_state := tk_state r;
     tk_scope := tk_scope r; tk_owners := tk_owners r; tk_flow := v; tk_wait := tk_wait r;
     tk_parent := tk_parent r; tk_locals := tk_locals r |}.
Definition set_tk_wait (v : string) (r : Token) : Token :=
  {| tk_id := tk_id r; tk_element := tk_element r; tk_state := tk_state r;
     tk_scope := tk_scope r; tk_owners := tk_owners r; tk_flow := tk_flow r; tk_wait := v;
     tk_parent := tk_parent r; tk_locals := tk_locals r |}.
Definition set_tk_locals (v : vars) (r : Token) : Token :=
  {| tk_id := tk_id r; tk_element := tk_element r; tk_state := tk_state r;
     tk_scope := tk_scope r; tk_owners := tk_owners r; tk_flow := tk_flow r;
     tk_wait := tk_wait r; tk_parent := tk_parent r; tk_locals := v |}.

(** One running multi-instance activity. *)
Record MultiState := {
  mi_token : string;
  mi_total : Z;
  mi_completed : Z;
  mi_next : Z;
  mi_items : list value;
  mi_outputs : list value;
}.
Definition set_mi_completed (v : Z) (r : MultiState) : MultiState :=
  {| mi_token := mi_token r; mi_total := mi_total r; mi_completed := v; mi_next := mi_next r;
     mi_items := mi_items r; mi_outputs := mi_outputs r |}.
Definition set_mi_next (v : Z) (r : MultiState) : MultiState :=
  {| mi_token := mi_token r; mi_total := mi_total r; mi_completed := mi_completed r;
     mi_next := v; mi_items := mi_items r; mi_outputs := mi_outputs r |}.
Definition set_mi_outputs (v : list value) (r : MultiState) : MultiState :=
  {| mi_token := mi_token r; mi_total := mi_total r; mi_completed := mi_completed r;
     mi_next := mi_next r; mi_items := mi_items r; mi_outputs := v |}.

(** A process instance, running or finished. *)
Record Instance := {
  in_id : string;
  in_tenant : string;
  in_def_id : string;
  in_def_key : string;
  in_bkey : string;
  in_state : InstanceState;
  in_suspended : bool;
  in_parent : string;
  in_parent_tok : string;
  in_vars : vars;
  in_tokens : gmap string Token;
  in_multi : gmap string MultiState;
  in_started : Z;
  in_ended : Z;
  in_end_elem : string;
  in_rev : Z;
}.
Definition set_in_def_id (v : string) (r : Instance) : Instance :=
  {| in_id := in_id r; in_tenant := in_tenant r; in_def_id := v; in_def_key := in_def_key r;
     in_bkey := in_bkey r; in_state := in_state r; in_suspended := in_suspended r;
     in_parent := in_parent r; in_parent_tok := in_parent_tok r; in_vars := in_vars r;
     in_tokens := in_tokens r; in_multi := in_multi r; in_started := in_started r;
     in_ended := in_ended r; in_end_elem := in_end_elem r; in_rev := in_rev r |}.
Definition set_in_state (v : InstanceState) (r : Instance) : Instance :=
  {| in_id := in_id r; in_tenant := in_tenant r; in_def_id := in_def_id r;
     in_def_key := in_def_key r; in_bkey := in_bkey r; in_state := v;
     in_suspended := in_suspended r; in_parent := in_parent r;
     in_parent_tok := in_parent_tok r; in_vars := in_vars r; in_tokens := in_tokens r;
     in_multi := in_multi r; in_started := in_started r; in_ended := in_ended r;
     in_end_elem := in_end_elem r; in_rev := in_rev r |}.
Definition set_in_suspended (v : bool) (r : Instance) : Instance :=
  {| in_id := in_id r; in_tenant := in_tenant r; in_def_id := in_def_id r;
     in_def_key := in_def_key r; in_bkey := in_bkey r; in_state := in_state r;
     in_suspended := v; in_parent := in_parent r; in_parent_tok := in_parent_tok r;
     in_vars := in_vars r; in_tokens := in_tokens r; in_multi := in_multi r;
     in_started := in_started r; in_ended := in_ended r; in_end_elem := in_end_elem r;
     in_rev := in_rev r |}.
Definition set_in_vars (v : vars) (r : Instance) : Instance :=
  {| in_id := in_id r; in_tenant := in_tenant r; in_def_id := in_def_id r;
     in_def_key := in_def_key r; in_bkey := in_bkey r; in_state := in_state r;
     in_suspended := in_suspended r; in_parent := in_parent r;
     in_parent_tok := in_parent_tok r; in_vars := v; in_tokens := in_tokens r;
     in_multi := in_multi r; in_started := in_started r; in_ended := in_ended r;
     in_end_elem := in_end_elem r; in_rev := in_rev r |}.
Definition set_in_tokens (v : gmap string Token) (r : Instance) : Instance :=
  {| in_id := in_id r; in_tenant := in_tenant r; in_def_id := in_def_id r;
     in_def_key := in_def_key r; in_bkey := in_bkey r; in_state := in_state r;
     in_suspended := in_suspended r; in_parent := in_parent r;
     in_parent_tok := in_parent_tok r; in_vars := in_vars r; in_tokens := v;
     in_multi := in_multi r; in_started := in_started r; in_ended := in_ended r;
     in_end_elem := in_end_elem r; in_rev := in_rev r |}.
Definition set_in_multi (v : gmap string MultiState) (r : Instance) : Instance :=
  {| in_id := in_id r; in_tenant := in_tenant r; in_def_id := in_def_id r;
     in_def_key := in_def_key r; in_bkey := in_bkey r; in_state := in_state r;
     in_suspended := in_suspended r; in_parent := in_parent r;
     in_parent_tok := in_parent_tok r; in_vars := in_vars r; in_tokens := in_tokens r;
     in_multi := v; in_started := in_started r; in_ended := in_ended r;
     in_end_elem := in_end_elem r; in_rev := in_rev r |}.
Definition set_in_ended (v : Z) (r : Instance) : Instance :=
  {| in_id := in_id r; in_tenant := in_tenant r; in_def_id := in_def_id r;
     in_def_key := in_def_key r; in_bkey := in_bkey r; in_state := in_state r;
     in_suspended := in_suspended r; in_parent := in_parent r;
     in_parent_tok := in_parent_tok r; in_vars := in_vars r; in_tokens := in_tokens r;
     in_multi := in_multi r; in_started := in_started r; in_ended := v;
     in_end_elem := in_end_elem r; in_rev := in_rev r |}.
Definition set_in_end_elem (v : string) (r : Instance) : Instance :=
  {| in_id := in_id r; in_tenant := in_tenant r; in_def_id := in_def_id r;
     in_def_key := in_def_key r; in_bkey := in_bkey r; in_state := in_state r;
     in_suspended := in_suspended r; in_parent := in_parent r;
     in_parent_tok := in_parent_tok r; in_vars := in_vars r; in_tokens := in_tokens r;
     in_multi := in_multi r; in_started := in_started r; in_ended := in_ended r;
     in_end_elem := v; in_rev := in_rev r |}.
Definition set_in_rev (v : Z) (r : Instance) : Instance :=
  {| in_id := in_id r; in_tenant := in_tenant r; in_def_id := in_def_id r;
     in_def_key := in_def_key r; in_bkey := in_bkey r; in_state := in_state r;
     in_suspended := in_suspended r; in_parent := in_parent r;
     in_parent_tok := in_parent_tok r; in_vars := in_vars r; in_tokens := in_tokens r;
     in_multi := in_multi r; in_started := in_started r; in_ended := in_ended r;
     in_end_elem := in_end_elem r; in_rev := v |}.

(** A user task. *)
Record Task := {
  ta_id : string;
  ta_tenant : string;
  ta_inst : string;
  ta_token : string;
  ta_element : string;
  ta_def_key : string;
  ta_name : string;
  ta_state : TaskState;
  ta_assignee : string;
  ta_users : list string;
  ta_groups : list string;
  ta_form : string;
  ta_priority : Z;
  ta_due : Z;
  ta_created : Z;
  ta_completed : Z;
  ta_by : string;
}.
Definition set_ta_state (v : TaskState) (r : Task) : Task :=
  {| ta_id := ta_id r; ta_tenant := ta_tenant r; ta_inst := ta_inst r; ta_token := ta_token r;
     ta_element := ta_element r; ta_def_key := ta_def_key r; ta_name := ta_name r;
     ta_state := v; ta_assignee := ta_assignee r; ta_users := ta_users r;
     ta_groups := ta_groups r; ta_form := ta_form r; ta_priority := ta_priority r;
     ta_due := ta_due r; ta_created := ta_created r; ta_completed := ta_completed r;
     ta_by := ta_by r |}.
Definition set_ta_assignee (v : string) (r : Task) : Task :=
  {| ta_id := ta_id r; ta_tenant := ta_tenant r; ta_inst := ta_inst r; ta_token := ta_token r;
     ta_element := ta_element r; ta_def_key := ta_def_key r; ta_name := ta_name r;
     ta_state := ta_state r; ta_assignee := v; ta_users := ta_users r;
     ta_groups := ta_groups r; ta_form := ta_form r; ta_priority := ta_priority r;
     ta_due := ta_due r; ta_created := ta_created r; ta_completed := ta_completed r;
     ta_by := ta_by r |}.
Definition set_ta_completed (v : Z) (r : Task) : Task :=
  {| ta_id := ta_id r; ta_tenant := ta_tenant r; ta_inst := ta_inst r; ta_token := ta_token r;
     ta_element := ta_element r; ta_def_key := ta_def_key r; ta_name := ta_name r;
     ta_state := ta_state r; ta_assignee := ta_assignee r; ta_users := ta_users r;
     ta_groups := ta_groups r; ta_form := ta_form r; ta_priority := ta_priority r;
     ta_due := ta_due r; ta_created := ta_created r; ta_completed := v; ta_by := ta_by r |}.
Definition set_ta_by (v : string) (r : Task) : Task :=
  {| ta_id := ta_id r; ta_tenant := ta_tenant r; ta_inst := ta_inst r; ta_token := ta_token r;
     ta_element := ta_element r; ta_def_key := ta_def_key r; ta_name := ta_name r;
     ta_state := ta_state r; ta_assignee := ta_assignee r; ta_users := ta_users r;
     ta_groups := ta_groups r; ta_form := ta_form r; ta_priority := ta_priority r;
     ta_due := ta_due r; ta_created := ta_created r; ta_completed := ta_completed r;
     ta_by := v |}.

(** A unit of work due at some time: a timer, an asynchronous continuation, a retry. *)
Record Job := {
  jb_id : string;
  jb_tenant : string;
  jb_kind : JobKind;
  jb_inst : string;
  jb_def_key : string;
  jb_token : string;
  jb_element : string;
  jb_due : Z;
  jb_repeats : Z;
  jb_interval : Z;
  jb_retries : Z;
  jb_created : Z;
}.
Definition set_jb_id (v : string) (r : Job) : Job :=
  {| jb_id := v; jb_tenant := jb_tenant r; jb_kind := jb_kind r; jb_inst := jb_inst r;
     jb_def_key := jb_def_key r; jb_token := jb_token r; jb_element := jb_element r;
     jb_due := jb_due r; jb_repeats := jb_repeats r; jb_interval := jb_interval r;
     jb_retries := jb_retries r; jb_created := jb_created r |}.
Definition set_jb_due (v : Z) (r : Job) : Job :=
  {| jb_id := jb_id r; jb_tenant := jb_tenant r; jb_kind := jb_kind r; jb_inst := jb_inst r;
     jb_def_key := jb_def_key r; jb_token := jb_token r; jb_element := jb_element r;
     jb_due := v; jb_repeats := jb_repeats r; jb_interval := jb_interval r;
     jb_retries := jb_retries r; jb_created := jb_created r |}.
Definition set_jb_repeats (v : Z) (r : Job) : Job :=
  {| jb_id := jb_id r; jb_tenant := jb_tenant r; jb_kind := jb_kind r; jb_inst := jb_inst r;
     jb_def_key := jb_def_key r; jb_token := jb_token r; jb_element := jb_element r;
     jb_due := jb_due r; jb_repeats := v; jb_interval := jb_interval r;
     jb_retries := jb_retries r; jb_created := jb_created r |}.
Definition set_jb_retries (v : Z) (r : Job) : Job :=
  {| jb_id := jb_id r; jb_tenant := jb_tenant r; jb_kind := jb_kind r; jb_inst := jb_inst r;
     jb_def_key := jb_def_key r; jb_token := jb_token r; jb_element := jb_element r;
     jb_due := jb_due r; jb_repeats := jb_repeats r; jb_interval := jb_interval r;
     jb_retries := v; jb_created := jb_created r |}.
Definition set_jb_created (v : Z) (r : Job) : Job :=
  {| jb_id := jb_id r; jb_tenant := jb_tenant r; jb_kind := jb_kind r; jb_inst := jb_inst r;
     jb_def_key := jb_def_key r; jb_token := jb_token r; jb_element := jb_element r;
     jb_due := jb_due r; jb_repeats := jb_repeats r; jb_interval := jb_interval r;
     jb_retries := jb_retries r; jb_created := v |}.

(** A unit of work for polling workers. *)
Record ExternalTask := {
  ex_id : string;
  ex_inst : string;
  ex_token : string;
  ex_element : string;
  ex_topic : string;
  ex_state : ExternalState;
  ex_vars : vars;
  ex_locked_by : string;
  ex_lock_until : Z;
  ex_retries : Z;
  ex_created : Z;
}.
Definition set_ex_state (v : ExternalState) (r : ExternalTask) : ExternalTask :=
  {| ex_id := ex_id r; ex_inst := ex_inst r; ex_token := ex_token r;
     ex_element := ex_element r; ex_topic := ex_topic r; ex_state := v; ex_vars := ex_vars r;
     ex_locked_by := ex_locked_by r; ex_lock_until := ex_lock_until r;
     ex_retries := ex_retries r; ex_created := ex_created r |}.
Definition set_ex_locked_by (v : string) (r : ExternalTask) : ExternalTask :=
  {| ex_id := ex_id r; ex_inst := ex_inst r; ex_token := ex_token r;
     ex_element := ex_element r; ex_topic := ex_topic r; ex_state := ex_state r;
     ex_vars := ex_vars r; ex_locked_by := v; ex_lock_until := ex_lock_until r;
     ex_retries := ex_retries r; ex_created := ex_created r |}.
Definition set_ex_lock_until (v : Z) (r : ExternalTask) : ExternalTask :=
  {| ex_id := ex_id r; ex_inst := ex_inst r; ex_token := ex_token r;
     ex_element := ex_element r; ex_topic := ex_topic r; ex_state := ex_state r;
     ex_vars := ex_vars r; ex_locked_by := ex_locked_by r; ex_lock_until := v;
     ex_retries := ex_retries r; ex_created := ex_created r |}.
Definition set_ex_retries (v : Z) (r : ExternalTask) : ExternalTask :=
  {| ex_id := ex_id r; ex_inst := ex_inst r; ex_token := ex_token r;
     ex_element := ex_element r; ex_topic := ex_topic r; ex_state := ex_state r;
     ex_vars := ex_vars r; ex_locked_by := ex_locked_by r; ex_lock_until := ex_lock_until r;
     ex_retries := v; ex_created := ex_created r |}.

(** A tool descriptor for an agent worker. *)
Record ToolSpec := {
  ts_name : string;
  ts_desc : string;
  ts_schema : string;
  ts_server : string;
}.

(** A unit of agent work. *)
Record AgentJob := {
  ag_id : string;
  ag_tenant : string;
  ag_inst : string;
  ag_token : string;
  ag_element : string;
  ag_agent : string;
  ag_topic : string;
  ag_prompt : string;
  ag_system : string;
  ag_tools : list ToolSpec;
  ag_model : string;
  ag_effort : string;
  ag_max_tokens : Z;
  ag_vars : vars;
  ag_state : AgentState;
  ag_locked_by : string;
  ag_lock_until : Z;
  ag_retries : Z;
  ag_created : Z;
}.
Definition set_ag_state (v : AgentState) (r : AgentJob) : AgentJob :=
  {| ag_id := ag_id r; ag_tenant := ag_tenant r; ag_inst := ag_inst r; ag_token := ag_token r;
     ag_element := ag_element r; ag_agent := ag_agent r; ag_topic := ag_topic r;
     ag_prompt := ag_prompt r; ag_system := ag_system r; ag_tools := ag_tools r;
     ag_model := ag_model r; ag_effort := ag_effort r; ag_max_tokens := ag_max_tokens r;
     ag_vars := ag_vars r; ag_state := v; ag_locked_by := ag_locked_by r;
     ag_lock_until := ag_lock_until r; ag_retries := ag_retries r; ag_created := ag_created r |}.
Definition set_ag_locked_by (v : string) (r : AgentJob) : AgentJob :=
  {| ag_id := ag_id r; ag_tenant := ag_tenant r; ag_inst := ag_inst r; ag_token := ag_token r;
     ag_element := ag_element r; ag_agent := ag_agent r; ag_topic := ag_topic r;
     ag_prompt := ag_prompt r; ag_system := ag_system r; ag_tools := ag_tools r;
     ag_model := ag_model r; ag_effort := ag_effort r; ag_max_tokens := ag_max_tokens r;
     ag_vars := ag_vars r; ag_state := ag_state r; ag_locked_by := v;
     ag_lock_until := ag_lock_until r; ag_retries := ag_retries r; ag_created := ag_created r |}.
Definition set_ag_lock_until (v : Z) (r : AgentJob) : AgentJob :=
  {| ag_id := ag_id r; ag_tenant := ag_tenant r; ag_inst := ag_inst r; ag_token := ag_token r;
     ag_element := ag_element r; ag_agent := ag_agent r; ag_topic := ag_topic r;
     ag_prompt := ag_prompt r; ag_system := ag_system r; ag_tools := ag_tools r;
     ag_model := ag_model r; ag_effort := ag_effort r; ag_max_tokens := ag_max_tokens r;
     ag_vars := ag_vars r; ag_state := ag_state r; ag_locked_by := ag_locked_by r;
     ag_lock_until := v; ag_retries := ag_retries r; ag_created := ag_created r |}.
Definition set_ag_retries (v : Z) (r : AgentJob) : AgentJob :=
  {| ag_id := ag_id r; ag_tenant := ag_tenant r; ag_inst := ag_inst r; ag_token := ag_token r;
     ag_element := ag_element r; ag_agent := ag_agent r; ag_topic := ag_topic r;
     ag_prompt := ag_prompt r; ag_system := ag_system r; ag_tools := ag_tools r;
     ag_model := ag_model r; ag_effort := ag_effort r; ag_max_tokens := ag_max_tokens r;
     ag_vars := ag_vars r; ag_state := ag_state r; ag_locked_by := ag_locked_by r;
     ag_lock_until := ag_lock_until r; ag_retries := v; ag_created := ag_created r |}.

(** A small named payload of the layers above the engine. *)
Record Blob := {
  bl_kind : string;
  bl_key : string;
  bl_tenant : string;
  bl_data : string;
  bl_updated : Z;
}.

(** Interest in a message or a signal. *)
Record Subscription := {
  sb_id : string;
  sb_tenant : string;
  sb_kind : SubKind;
  sb_name : string;
  sb_ckey : string;
  sb_inst : string;
  sb_token : string;
  sb_element : string;
  sb_start : bool;
  sb_def_key : string;
  sb_created : Z;
}.

(** An error that waits for intervention. *)
Record Incident := {
  ic_id : string;
  ic_inst : string;
  ic_token : string;
  ic_element : string;
  ic_message : string;
  ic_code : string;
  ic_created : Z;
  ic_resolved : bool;
  ic_resolved_at : Z;
}.
Definition set_ic_resolved (v : bool) (r : Incident) : Incident :=
  {| ic_id := ic_id r; ic_inst := ic_inst r; ic_token := ic_token r;
     ic_element := ic_element r; ic_message := ic_message r; ic_code := ic_code r;
     ic_created := ic_created r; ic_resolved := v; ic_resolved_at := ic_resolved_at r |}.
Definition set_ic_resolved_at (v : Z) (r : Incident) : Incident :=
  {| ic_id := ic_id r; ic_inst := ic_inst r; ic_token := ic_token r;
     ic_element := ic_element r; ic_message := ic_message r; ic_code := ic_code r;
     ic_created := ic_created r; ic_resolved := ic_resolved r; ic_resolved_at := v |}.

(** An entry of the audit trail. *)
Record HistoryEvent := {
  hv_seq : Z;
  hv_inst : string;
  hv_time : Z;
  hv_type : string;
  hv_element : string;
  hv_detail : vars;
}.
Definition set_hv_seq (v : Z) (r : HistoryEvent) : HistoryEvent :=
  {| hv_seq := v; hv_inst := hv_inst r; hv_time := hv_time r; hv_type := hv_type r;
     hv_element := hv_element r; hv_detail := hv_detail r |}.
