(* ===== verification/StoreQuery.v ===== *)
(** * Queries over records ([src/store/query.go], the filters of
    [src/store/store.go])

    Variable predicates, the filters of the listing operations, ordering by
    ID and keyset pagination. *)
From S2P Require Import Prelude GoFloat GoTime ExprValue StoreTypes.
Local Open Scope string_scope.
Local Open Scope Z_scope.
Local Open Scope list_scope.

(** [toF]: unlike the expression language, the narrow and the unsigned
    integer types do not count as numbers here. *)
Definition to_f (v : value) : option f64 :=
  match v with
  | VNum f => Some f
  | VInt KInt z | VInt KInt64 z | VInt KInt32 z => Some (f_of_Z z)
  | _ => None
  end.

(** [VarMatch]. *)
Record VarMatch := { vm_name : string; vm_op : string; vm_value : value }.

Definition loose_equal (a b : value) : bool :=
  match to_f a, to_f b with
  | Some x, Some y => feq x y
  | _, _ => match a, b with
            | VStr x, VStr y => String.eqb x y
            | VBool x, VBool y => Bool.eqb x y
            | VNil, VNil => true
            | _, _ => false
            end
  end.

Definition order_result (op : string) (gt eq : bool) : bool :=
  if String.eqb op "lt" then negb gt && negb eq
  else if String.eqb op "lte" then negb gt
  else if String.eqb op "gt" then gt
  else if String.eqb op "gte" then gt || eq
  else false.

Definition compare_order (op : string) (a b : value) : bool :=
  match to_f a, to_f b with
  | Some x, Some y => order_result op (flt y x) (feq x y)
  | _, _ => match a, b with
            | VStr x, VStr y => order_result op (str_lt y x) (String.eqb x y)
            | _, _ => false
            end
  end.

Definition match_one (v : value) (m : VarMatch) : bool :=
  let op := vm_op m in
  if String.eqb op "exists" then match v with VNil => false | _ => true end
  else if String.eqb op "" || String.eqb op "eq" then loose_equal v (vm_value m)
  else if String.eqb op "ne" then negb (loose_equal v (vm_value m))
  else if String.eqb op "contains" then
    match v, vm_value m with VStr s, VStr sub => scontains s sub | _, _ => false end
  else if existsb (String.eqb op) ["lt"; "lte"; "gt"; "gte"] then compare_order op v (vm_value m)
  else false.

(** [MatchVars]. *)
Definition match_vars (vs : vars) (ms : list VarMatch) : bool :=
  forallb (fun m => match_one (vget vs (vm_name m)) m) ms.

(** [afterCursor], [inTimeWindow]. *)
Definition after_cursor (id cursor : string) (desc : bool) : bool :=
  if String.eqb cursor "" then true
  else if desc then str_lt id cursor else str_lt cursor id.
Definition in_time_window (t after before : Z) : bool :=
  (is_zero_time after || (after <=? t)) && (is_zero_time before || (t <=? before)).

(** A filter field that is empty accepts everything. *)
Definition str_field (f v : string) : bool := String.eqb f "" || String.eqb v f.
Definition opt_field {A} `{EqDecision A} (f : option A) (v : A) : bool :=
  match f with None => true | Some x => bool_decide (v = x) end.

(** [InstanceFilter] and [matchInstance]. *)
Record InstanceFilter := {
  if_tenant : string; if_def_key : string; if_def_id : string; if_bkey : string;
  if_state : option InstanceState; if_parent : string; if_vars : list VarMatch;
  if_started_after : Z; if_started_before : Z; if_ended_after : Z; if_ended_before : Z;
  if_cursor : string; if_desc : bool; if_limit : Z;
}.
Definition match_instance (f : InstanceFilter) (i : Instance) : bool :=
  str_field (if_tenant f) (in_tenant i) && str_field (if_def_key f) (in_def_key i)
  && str_field (if_def_id f) (in_def_id i) && str_field (if_bkey f) (in_bkey i)
  && opt_field (if_state f) (in_state i) && str_field (if_parent f) (in_parent i)
  && in_time_window (in_started i) (if_started_after f) (if_started_before f)
  && (is_zero_time (if_ended_after f) && is_zero_time (if_ended_before f)
      || in_time_window (in_ended i) (if_ended_after f) (if_ended_before f))
  && match_vars (in_vars i) (if_vars f)
  && after_cursor (in_id i) (if_cursor f) (if_desc f).

(** [TaskFilter] and [matchTask]; the variables are those of the task's
    instance, when it exists. *)
Record TaskFilter := {
  tf_tenant : string; tf_inst : string; tf_assignee : string; tf_unassigned : bool;
  tf_user : string; tf_group : string; tf_state : option TaskState; tf_def_key : string;
  tf_element : string; tf_vars : list VarMatch; tf_created_after : Z; tf_created_before : Z;
  tf_due_before : Z; tf_cursor : string; tf_desc : bool; tf_limit : Z;
}.
Definition contains_str (l : list string) (s : string) : bool := existsb (fun v => String.eqb v s) l.
Definition match_task (f : TaskFilter) (t : Task) (inst_vars : option vars) : bool :=
  str_field (tf_tenant f) (ta_tenant t) && str_field (tf_inst f) (ta_inst t)
  && str_field (tf_assignee f) (ta_assignee t)
  && negb (tf_unassigned f && negb (String.eqb (ta_assignee t) ""))
  && (String.eqb (tf_user f) "" || contains_str (ta_users t) (tf_user f))
  && (String.eqb (tf_group f) "" || contains_str (ta_groups t) (tf_group f))
  && opt_field (tf_state f) (ta_state t) && str_field (tf_def_key f) (ta_def_key t)
  && str_field (tf_element f) (ta_element t)
  && in_time_window (ta_created t) (tf_created_after f) (tf_created_before f)
  && (is_zero_time (tf_due_before f)
      || (negb (is_zero_time (ta_due t)) && (ta_due t <=? tf_due_before f)))
  && match tf_vars f with
     | [] => true
     | ms => match inst_vars with Some vs => match_vars vs ms | None => false end
     end
  && after_cursor (ta_id t) (tf_cursor f) (tf_desc f).

(** ** Ordering and limits *)

(** The entries a loop with a [continue] guard keeps. *)
Definition keep {A} (p : A -> bool) (l : list A) : list A := filter (fun x => p x = true) l.

Lemma keep_all {A} (p : A -> bool) l : (forall x, x ∈ l -> p x = true) -> keep p l = l.
Proof.
  unfold keep. induction l as [|x l IH]; intros H; [done|].
  rewrite filter_cons, decide_True by (apply H; set_solver). f_equal. apply IH. set_solver.
Qed.
Lemma keep_none {A} (p : A -> bool) l : (forall x, x ∈ l -> p x = false) -> keep p l = [].
Proof.
  unfold keep. induction l as [|x l IH]; intros H; [done|].
  rewrite filter_cons, decide_False by (rewrite H by set_solver; done). apply IH. set_solver.
Qed.
Lemma keep_app {A} (p : A -> bool) l1 l2 : keep p (l1 ++ l2) = (keep p l1 ++ keep p l2).
Proof. apply filter_app. Qed.
Lemma keep_sorted {A} (R : A -> A -> Prop) p l : StronglySorted R l -> StronglySorted R (keep p l).
Proof.
  unfold keep. induction 1 as [|x l Hl IH Hx]; [constructor|]. rewrite filter_cons.
  case_decide; [|done]. constructor; [done|]. rewrite Forall_forall in *. intros y Hy.
  apply list_elem_of_filter in Hy as [_ Hy]. auto.
Qed.

Section select.
Context {A : Type} (id : A -> string).

Definition id_le (desc : bool) (a b : A) : Prop :=
  (if desc then str_le (id b) (id a) else str_le (id a) (id b)) = true.
#[export] Instance id_le_dec desc : RelDecision (id_le desc).
Proof. intros a b. unfold id_le. solve_decision. Defined.

(** [sortByID]. *)
Definition sort_by_id (desc : bool) (l : list A) : list A := merge_sort (id_le desc) l.

(** [if f.Limit > 0 && len(out) > f.Limit { out = out[:f.Limit] }]. *)
Definition limited (limit : Z) (l : list A) : list A :=
  if 0 <? limit then take (Z.to_nat limit) l else l.

(** The common shape of the listing operations: scan the map, keep what
    matches, order by ID, cut. *)
Definition select (p : A -> bool) (desc : bool) (limit : Z) (m : gmap string A) : list A :=
  limited limit (sort_by_id desc (keep p (map snd (map_to_list m)))).

#[export] Instance id_le_total desc : Total (id_le desc).
Proof. intros a b. unfold id_le. destruct desc; apply str_le_total. Qed.
#[export] Instance id_le_trans desc : Transitive (id_le desc).
Proof. intros a b c. unfold id_le. destruct desc; intros; by eapply str_le_transitive. Qed.

(** Every record is stored under its ID. *)
Definition keyed (m : gmap string A) : Prop := forall k x, m !! k = Some x -> id x = k.

Lemma sort_by_id_perm desc l : sort_by_id desc l ≡ₚ l.
Proof. apply merge_sort_Permutation. Qed.

Lemma sort_by_id_sorted desc l : StronglySorted (id_le desc) (sort_by_id desc l).
Proof. apply StronglySorted_merge_sort; apply _. Qed.

Lemma elem_of_values (m : gmap string A) x : x ∈ map snd (map_to_list m) <-> exists k, m !! k = Some x.
Proof.
  rewrite list_elem_of_fmap. split.
  - intros ([k y] & -> & H). exists k. by apply elem_of_map_to_list.
  - intros [k H]. exists (k, x). split; [done|]. by apply elem_of_map_to_list.
Qed.

Lemma elem_of_select_all p desc (m : gmap string A) x :
  x ∈ select p desc 0 m <-> p x = true /\ exists k, m !! k = Some x.
Proof.
  unfold select, limited, keep. cbn. by rewrite sort_by_id_perm, list_elem_of_filter, elem_of_values.
Qed.

Lemma NoDup_ids (m : gmap string A) : keyed m -> NoDup (map id (map snd (map_to_list m))).
Proof.
  intros Hk. rewrite map_map.
  assert (map (fun x => id (x.2)) (map_to_list m) = map fst (map_to_list m)) as ->.
  { apply map_ext_in. intros [k x] H. apply list_elem_of_In, elem_of_map_to_list in H. by apply Hk. }
  apply NoDup_fst_map_to_list.
Qed.

Lemma NoDup_keep_ids p l : NoDup (map id l) -> NoDup (map id (keep p l)).
Proof. intros H. eapply sublist_NoDup; [exact H|]. apply fmap_sublist, sublist_filter. Qed.

Lemma select_all_NoDup p desc (m : gmap string A) : keyed m -> NoDup (map id (select p desc 0 m)).
Proof.
  intros Hk. unfold select, limited. cbn. rewrite sort_by_id_perm. by apply NoDup_keep_ids, NoDup_ids.
Qed.

Lemma select_limit p desc limit (m : gmap string A) :
  select p desc limit m = limited limit (select p desc 0 m).
Proof. unfold select, limited at 3. done. Qed.
End select.

(** ** Keyset pagination *)
Section pages.
Context {A : Type} (id : A -> string).

(** The client's loop: ask for the page after the last ID seen, until a page
    is empty. *)
Fixpoint all_pages (fuel : nat) (fetch : string -> list A) (cursor : string) : list A :=
  match fuel with
  | O => []
  | S fuel =>
      let p := fetch cursor in
      match last p with
      | None => []
      | Some x => p ++ all_pages fuel fetch (id x)
      end
  end.

Lemma after_cursor_mono desc a b c :
  after_cursor (id a) c desc = true -> id_le id desc a b -> after_cursor (id b) c desc = true.
Proof.
  unfold after_cursor, id_le. destruct (String.eqb c ""); [done|]. rewrite !str_le_lt.
  destruct desc; rewrite negb_true_iff; intros H1 H2.
  - destruct (str_lt_total (id b) c) as [E|[E|E]]; [congruence|done|].
    rewrite (str_lt_trans _ _ _ H1 E) in H2. done.
  - destruct (str_lt_total c (id b)) as [E|[E|E]]; [congruence|done|].
    rewrite (str_lt_trans _ _ _ E H1) in H2. done.
Qed.

(** In a listing without duplicates, what stands after a prefix is what the
    cursor at the end of the prefix selects. *)
Lemma filter_after_prefix desc l1 x l2 :
  StronglySorted (id_le id desc) ((l1 ++ [x]) ++ l2) -> NoDup (map id ((l1 ++ [x]) ++ l2)) ->
  id x <> "" ->
  keep (fun y => after_cursor (id y) (id x) desc) ((l1 ++ [x]) ++ l2) = l2.
Proof.
  intros Hs Hnd Hx.
  assert (forall y, y ∈ l1 ++ [x] -> after_cursor (id y) (id x) desc = false) as H1.
  { intros y Hy. assert (id_le id desc y x) as Hle.
    { rewrite <- (assoc_L (++)) in Hs. apply elem_of_app in Hy as [Hy|Hy].
      - apply (StronglySorted_app_1_elem_of _ l1 ([x] ++ l2) y x Hs); set_solver.
      - apply list_elem_of_singleton in Hy as ->. unfold id_le. destruct desc; rewrite str_le_lt, str_lt_irrefl; done. }
    unfold after_cursor, id_le in *. apply String.eqb_neq in Hx as ->.
    destruct desc; rewrite str_le_lt in Hle; by apply negb_true_iff. }
  assert (forall y, y ∈ l2 -> after_cursor (id y) (id x) desc = true) as H2.
  { intros y Hy. assert (id_le id desc x y) as Hle.
    { eapply (StronglySorted_app_1_elem_of _ (l1 ++ [x]) l2); set_solver. }
    assert (id x <> id y) as Hne.
    { intros He. rewrite fmap_app in Hnd. apply NoDup_app in Hnd as (_ & Hd & _).
      apply (Hd (id x)); [rewrite fmap_app; set_solver|]. rewrite He. by apply list_elem_of_fmap_2. }
    unfold after_cursor, id_le in *. apply String.eqb_neq in Hx as ->.
    destruct desc; rewrite str_le_lt in Hle; apply negb_true_iff in Hle;
      destruct (str_lt_total (id x) (id y)) as [?|[?|?]]; congruence. }
  by rewrite keep_app, keep_none, keep_all.
Qed.

Lemma all_pages_suffix desc limit l : forall fuel l1 l2 cursor,
  l = l1 ++ l2 -> StronglySorted (id_le id desc) l -> NoDup (map id l) ->
  (forall x, x ∈ l -> id x <> "") -> (0 < limit)%nat -> (length l2 < fuel)%nat ->
  cursor = match last l1 with Some x => id x | None => "" end ->
  all_pages fuel (fun c => take limit (keep (fun y => after_cursor (id y) c desc) l)) cursor = l2.
Proof.
  intros fuel. induction fuel as [|fuel IH]; intros l1 l2 cursor Hl Hs Hnd Hne Hlim Hf Hc; [lia|].
  cbn [all_pages].
  assert (keep (fun y => after_cursor (id y) cursor desc) l = l2) as ->.
  { subst cursor l. destruct l1 as [|x l1 _] using rev_ind.
    - cbn. by apply keep_all.
    - rewrite last_snoc. apply filter_after_prefix; [done|done|]. apply Hne. set_solver. }
  destruct (last (take limit l2)) as [x|] eqn:El.
  - apply last_Some in El as [p Hp].
    rewrite (IH (l1 ++ take limit l2) (drop limit l2)); [by apply take_drop|..]; try done.
    + by rewrite <- (assoc_L (++)), take_drop.
    + rewrite length_drop. assert (l2 <> []) by (intros ->; by destruct limit, p). destruct l2; cbn in *; [done|lia].
    + rewrite Hp, (assoc_L (++)), last_snoc. done.
  - apply last_None in El. destruct l2; [done|]. by destruct limit; [lia|].
Qed.

(** Fetching page after page through a listing gives the listing. *)
Lemma pages_complete p desc limit (m : gmap string A) :
  keyed id m -> (forall k x, m !! k = Some x -> k <> "") -> 0 < limit ->
  all_pages (S (size m)) (fun c => select id (fun x => p x && after_cursor (id x) c desc) desc limit m) ""
  = select id p desc 0 m.
Proof.
  intros Hk Hne Hlim.
  assert (forall c, select id (fun x => p x && after_cursor (id x) c desc) desc limit m
          = take (Z.to_nat limit) (keep (fun y => after_cursor (id y) c desc) (select id p desc 0 m))) as E.
  { intros c. rewrite select_limit. unfold limited. destruct (Z.ltb_spec 0 limit); [|lia]. f_equal.
    eapply (StronglySorted_unique_strong (id_le id desc)).
    - intros x y Hx Hy H1 H2. apply elem_of_select_all in Hx as [_ [k Hx]].
      apply list_elem_of_filter in Hy as [_ Hy]. apply elem_of_select_all in Hy as [_ [k' Hy]].
      assert (id x = id y) as He.
      { unfold id_le in *. destruct desc; rewrite str_le_lt in *; apply negb_true_iff in H1, H2;
          destruct (str_lt_total (id x) (id y)) as [?|[?|?]]; congruence. }
      rewrite (Hk _ _ Hx), (Hk _ _ Hy) in He. congruence.
    - apply sort_by_id_sorted.
    - apply keep_sorted, sort_by_id_sorted.
    - unfold select, limited. cbn. rewrite sort_by_id_perm.
      unfold keep. rewrite sort_by_id_perm, list_filter_filter. apply reflexive_eq.
      apply list_filter_iff. intros x. rewrite andb_true_iff. naive_solver. }
  transitivity (all_pages (S (size m))
    (fun c => take (Z.to_nat limit) (keep (fun y => after_cursor (id y) c desc) (select id p desc 0 m))) "").
  { generalize "" as c. induction (S (size m)) as [|n IH]; intros c; cbn [all_pages]; [done|].
    rewrite E. case_match; [|done]. by rewrite IH. }
  eapply (all_pages_suffix desc _ _ _ []); try done.
  - apply sort_by_id_sorted.
  - by apply select_all_NoDup.
  - intros x Hx. apply elem_of_select_all in Hx as [_ [k Hx]]. rewrite (Hk _ _ Hx). by eapply Hne.
  - lia.
  - unfold select, limited. cbn. rewrite (Permutation_length (sort_by_id_perm id desc _)).
    enough (length (keep p (map snd (map_to_list m))) <= size m)%nat by lia.
    etransitivity; [apply length_filter|]. by rewrite length_map, length_map_to_list.
Qed.
End pages.
