(* ===== verification/StoreMemory.v ===== *)
(** * The in-memory store ([src/store/memory.go])

    [Memory] is the Go struct.  Its operations are atomic (each holds the
    lock), so an operation is a function of the whole state.  Reads return
    deep copies; records are values here.  [None] is [ErrNotFound]. *)
From stdpp Require Import sorting.
From S2P Require Import Prelude GoFloat GoTime ExprValue StoreTypes StoreQuery.
Local Open Scope string_scope.
Local Open Scope Z_scope.

Record Memory := {
  m_definitions : gmap string ProcDef;
  m_instances : gmap string Instance;
  m_tasks : gmap string Task;
  m_jobs : gmap string Job;
  m_externals : gmap string ExternalTask;
  m_agent_jobs : gmap string AgentJob;
  m_subs : gmap string Subscription;
  m_incidents : gmap string Incident;
  m_blobs : gmap string Blob;
  m_history : gmap string (list HistoryEvent);
  m_hist_seq : gmap string Z;
}.
Definition new_memory : Memory :=
  {| m_definitions := ∅; m_instances := ∅; m_tasks := ∅; m_jobs := ∅; m_externals := ∅;
     m_agent_jobs := ∅; m_subs := ∅; m_incidents := ∅; m_blobs := ∅; m_history := ∅; m_hist_seq := ∅ |}.
Definition set_m_definitions (v : gmap string ProcDef) (m : Memory) : Memory :=
  {| m_definitions := v; m_instances := m_instances m; m_tasks := m_tasks m;
     m_jobs := m_jobs m; m_externals := m_externals m; m_agent_jobs := m_agent_jobs m;
     m_subs := m_subs m; m_incidents := m_incidents m; m_blobs := m_blobs m;
     m_history := m_history m; m_hist_seq := m_hist_seq m |}.
Definition set_m_instances (v : gmap string Instance) (m : Memory) : Memory :=
  {| m_definitions := m_definitions m; m_instances := v; m_tasks := m_tasks m;
     m_jobs := m_jobs m; m_externals := m_externals m; m_agent_jobs := m_agent_jobs m;
     m_subs := m_subs m; m_incidents := m_incidents m; m_blobs := m_blobs m;
     m_history := m_history m; m_hist_seq := m_hist_seq m |}.
Definition set_m_tasks (v : gmap string Task) (m : Memory) : Memory :=
  {| m_definitions := m_definitions m; m_instances := m_instances m; m_tasks := v;
     m_jobs := m_jobs m; m_externals := m_externals m; m_agent_jobs := m_agent_jobs m;
     m_subs := m_subs m; m_incidents := m_incidents m; m_blobs := m_blobs m;
     m_history := m_history m; m_hist_seq := m_hist_seq m |}.
Definition set_m_jobs (v : gmap string Job) (m : Memory) : Memory :=
  {| m_definitions := m_definitions m; m_instances := m_instances m; m_tasks := m_tasks m;
     m_jobs := v; m_externals := m_externals m; m_agent_jobs := m_agent_jobs m;
     m_subs := m_subs m; m_incidents := m_incidents m; m_blobs := m_blobs m;
     m_history := m_history m; m_hist_seq := m_hist_seq m |}.
Definition set_m_externals (v : gmap string ExternalTask) (m : Memory) : Memory :=
  {| m_definitions := m_definitions m; m_instances := m_instances m; m_tasks := m_tasks m;
     m_jobs := m_jobs m; m_externals := v; m_agent_jobs := m_agent_jobs m; m_subs := m_subs m;
     m_incidents := m_incidents m; m_blobs := m_blobs m; m_history := m_history m;
     m_hist_seq := m_hist_seq m |}.
Definition set_m_agent_jobs (v : gmap string AgentJob) (m : Memory) : Memory :=
  {| m_definitions := m_definitions m; m_instances := m_instances m; m_tasks := m_tasks m;
     m_jobs := m_jobs m; m_externals := m_externals m; m_agent_jobs := v; m_subs := m_subs m;
     m_incidents := m_incidents m; m_blobs := m_blobs m; m_history := m_history m;
     m_hist_seq := m_hist_seq m |}.
Definition set_m_subs (v : gmap string Subscription) (m : Memory) : Memory :=
  {| m_definitions := m_definitions m; m_instances := m_instances m; m_tasks := m_tasks m;
     m_jobs := m_jobs m; m_externals := m_externals m; m_agent_jobs := m_agent_jobs m;
     m_subs := v; m_incidents := m_incidents m; m_blobs := m_blobs m;
     m_history := m_history m; m_hist_seq := m_hist_seq m |}.
Definition set_m_incidents (v : gmap string Incident) (m : Memory) : Memory :=
  {| m_definitions := m_definitions m; m_instances := m_instances m; m_tasks := m_tasks m;
     m_jobs := m_jobs m; m_externals := m_externals m; m_agent_jobs := m_agent_jobs m;
     m_subs := m_subs m; m_incidents := v; m_blobs := m_blobs m; m_history := m_history m;
     m_hist_seq := m_hist_seq m |}.
Definition set_m_blobs (v : gmap string Blob) (m : Memory) : Memory :=
  {| m_definitions := m_definitions m; m_instances := m_instances m; m_tasks := m_tasks m;
     m_jobs := m_jobs m; m_externals := m_externals m; m_agent_jobs := m_agent_jobs m;
     m_subs := m_subs m; m_incidents := m_incidents m; m_blobs := v; m_history := m_history m;
     m_hist_seq := m_hist_seq m |}.
Definition set_m_history (v : gmap string (list HistoryEvent)) (m : Memory) : Memory :=
  {| m_definitions := m_definitions m; m_instances := m_instances m; m_tasks := m_tasks m;
     m_jobs := m_jobs m; m_externals := m_externals m; m_agent_jobs := m_agent_jobs m;
     m_subs := m_subs m; m_incidents := m_incidents m; m_blobs := m_blobs m; m_history := v;
     m_hist_seq := m_hist_seq m |}.
Definition set_m_hist_seq (v : gmap string Z) (m : Memory) : Memory :=
  {| m_definitions := m_definitions m; m_instances := m_instances m; m_tasks := m_tasks m;
     m_jobs := m_jobs m; m_externals := m_externals m; m_agent_jobs := m_agent_jobs m;
     m_subs := m_subs m; m_incidents := m_incidents m; m_blobs := m_blobs m;
     m_history := m_history m; m_hist_seq := v |}.

Definition nonempty (s : string) : bool := negb (String.eqb s "").

Section operations.
Context `{MO : MapOrder}.
Implicit Types m : Memory.

(** ** Definitions *)
Definition PutDefinition (d : ProcDef) m : Memory :=
  set_m_definitions (<[pd_id d := d]> (m_definitions m)) m.
Definition GetDefinition (id : string) m : option ProcDef := m_definitions m !! id.

(** The loop of [LatestDefinitionForTenant]. *)
Definition latest_of (tenant key : string) (ds : list ProcDef) : option ProcDef :=
  fold_left (fun best d =>
    if String.eqb (pd_key d) key && String.eqb (pd_tenant d) tenant
       && match best with None => true | Some b => pd_version b <? pd_version d end
    then Some d else best) ds None.
Definition LatestDefinitionForTenant (tenant key : string) m : option ProcDef :=
  latest_of tenant key (map snd (map_range 0 (m_definitions m))).
Definition LatestDefinition (key : string) m : option ProcDef := LatestDefinitionForTenant "" key m.

(** The map [byKey] of [ListDefinitions]. *)
Definition by_key (ds : list ProcDef) : gmap string ProcDef :=
  fold_left (fun acc d =>
    match acc !! pd_key d with
    | Some cur => if pd_version cur <? pd_version d then <[pd_key d := d]> acc else acc
    | None => <[pd_key d := d]> acc
    end) ds ∅.
Definition def_le (a b : ProcDef) : bool :=
  if String.eqb (pd_key a) (pd_key b) then pd_version a <=? pd_version b
  else str_lt (pd_key a) (pd_key b).
#[export] Instance def_le_dec : RelDecision (fun a b => def_le a b = true).
Proof. intros a b. solve_decision. Defined.
Definition ListDefinitions (latest_only : bool) m : list ProcDef :=
  let ds := map snd (map_range 0 (m_definitions m)) in
  merge_sort (fun a b => def_le a b = true)
    (if latest_only then map snd (map_range 1 (by_key ds)) else ds).

(** ** Instances *)

(** [PutInstance] also stores the new revision in the caller's record. *)
Definition PutInstance (i : Instance) m : Instance * Memory :=
  let i' := set_in_rev (in_rev i + 1) i in
  (i', set_m_instances (<[in_id i := i']> (m_instances m)) m).
Definition GetInstance (id : string) m : option Instance := m_instances m !! id.
Definition ListInstances (f : InstanceFilter) m : list Instance :=
  select in_id (match_instance f) (if_desc f) (if_limit f) (m_instances m).

(** [delete] of every entry whose instance is [id]. *)
Definition drop_of {A} (inst : A -> string) (id : string) (t : gmap string A) : gmap string A :=
  filter (fun kx => String.eqb (inst kx.2) id = false) t.
Definition PurgeInstance (id : string) m : Memory :=
  {| m_definitions := m_definitions m;
     m_instances := delete id (m_instances m);
     m_tasks := drop_of ta_inst id (m_tasks m);
     m_jobs := drop_of jb_inst id (m_jobs m);
     m_externals := drop_of ex_inst id (m_externals m);
     m_agent_jobs := drop_of ag_inst id (m_agent_jobs m);
     m_subs := drop_of sb_inst id (m_subs m);
     m_incidents := drop_of ic_inst id (m_incidents m);
     m_blobs := m_blobs m;
     m_history := delete id (m_history m);
     m_hist_seq := delete id (m_hist_seq m) |}.

(** ** Tasks *)
Definition PutTask (t : Task) m : Memory := set_m_tasks (<[ta_id t := t]> (m_tasks m)) m.
Definition GetTask (id : string) m : option Task := m_tasks m !! id.
Definition ListTasks (f : TaskFilter) m : list Task :=
  select ta_id (fun t => match_task f t (in_vars <$> m_instances m !! ta_inst t))
    (tf_desc f) (tf_limit f) (m_tasks m).

(** ** Jobs *)
Definition PutJob (j : Job) m : Memory := set_m_jobs (<[jb_id j := j]> (m_jobs m)) m.
Definition GetJob (id : string) m : option Job := m_jobs m !! id.
Definition DeleteJob (id : string) m : Memory := set_m_jobs (delete id (m_jobs m)) m.

(** Due date first, then ID. *)
Definition job_le (a b : Job) : bool :=
  if jb_due a =? jb_due b then str_le (jb_id a) (jb_id b) else jb_due a <? jb_due b.
#[export] Instance job_le_dec : RelDecision (fun a b => job_le a b = true).
Proof. intros a b. solve_decision. Defined.
Definition is_due (now : Z) (j : Job) : bool := jb_due j <=? now.
Definition DueJobs (now limit : Z) m : list Job * Memory :=
  let due := limited limit (merge_sort (fun a b => job_le a b = true)
               (keep (is_due now) (map snd (map_to_list (m_jobs m))))) in
  (due, set_m_jobs (fold_left (fun js j => delete (jb_id j) js) due (m_jobs m)) m).
Definition ListJobs (inst : string) m : list Job :=
  select jb_id (fun j => str_field inst (jb_inst j)) false 0 (m_jobs m).

(** ** Work for external workers and agents *)

(** The scan, the lock and the copies out, for either kind of work. *)
Definition fetch_and_lock {A} (id : A -> string) (avail : A -> bool) (lock : A -> A) (limit : Z)
    (t : gmap string A) : list A * gmap string A :=
  let l := select id avail false limit t in
  (map lock l, fold_left (fun t x => <[id x := lock x]> t) l t).
Definition free_at (locked_by : string) (lock_until now : Z) : bool :=
  negb (nonempty locked_by && (now <? lock_until)).

Definition PutExternalTask (t : ExternalTask) m : Memory :=
  set_m_externals (<[ex_id t := t]> (m_externals m)) m.
Definition GetExternalTask (id : string) m : option ExternalTask := m_externals m !! id.
Definition ext_avail (topic : string) (now : Z) (t : ExternalTask) : bool :=
  String.eqb (ex_topic t) topic && bool_decide (ex_state t = ExternalPending)
  && free_at (ex_locked_by t) (ex_lock_until t) now.
Definition ext_lock (worker : string) (until : Z) (t : ExternalTask) : ExternalTask :=
  set_ex_lock_until until (set_ex_locked_by worker t).
Definition FetchAndLockExternalTasks (topic worker : string) (until now limit : Z) m
  : list ExternalTask * Memory :=
  let '(l, t) := fetch_and_lock ex_id (ext_avail topic now) (ext_lock worker until) limit (m_externals m) in
  (l, set_m_externals t m).
Definition ListExternalTasks (inst : string) m : list ExternalTask :=
  select ex_id (fun t => str_field inst (ex_inst t)) false 0 (m_externals m).

Definition PutAgentJob (j : AgentJob) m : Memory :=
  set_m_agent_jobs (<[ag_id j := j]> (m_agent_jobs m)) m.
Definition GetAgentJob (id : string) m : option AgentJob := m_agent_jobs m !! id.
Definition ag_avail (topic : string) (now : Z) (j : AgentJob) : bool :=
  String.eqb (ag_topic j) topic && bool_decide (ag_state j = AgentPending)
  && free_at (ag_locked_by j) (ag_lock_until j) now.
Definition ag_lock (worker : string) (until : Z) (j : AgentJob) : AgentJob :=
  set_ag_lock_until until (set_ag_locked_by worker j).
Definition FetchAndLockAgentJobs (topic worker : string) (until now limit : Z) m
  : list AgentJob * Memory :=
  let '(l, t) := fetch_and_lock ag_id (ag_avail topic now) (ag_lock worker until) limit (m_agent_jobs m) in
  (l, set_m_agent_jobs t m).
Definition ListAgentJobs (inst : string) m : list AgentJob :=
  select ag_id (fun j => str_field inst (ag_inst j)) false 0 (m_agent_jobs m).

(** ** Subscriptions *)
Definition PutSubscription (s : Subscription) m : Memory := set_m_subs (<[sb_id s := s]> (m_subs m)) m.
Definition DeleteSubscription (id : string) m : Memory := set_m_subs (delete id (m_subs m)) m.
Record SubscriptionFilter := {
  sf_kind : option SubKind; sf_name : string; sf_ckey : string; sf_inst : string;
  sf_start : option bool;
}.
Definition match_sub (f : SubscriptionFilter) (s : Subscription) : bool :=
  opt_field (sf_kind f) (sb_kind s) && str_field (sf_name f) (sb_name s)
  && str_field (sf_ckey f) (sb_ckey s) && str_field (sf_inst f) (sb_inst s)
  && opt_field (sf_start f) (sb_start s).
Definition ListSubscriptions (f : SubscriptionFilter) m : list Subscription :=
  select sb_id (match_sub f) false 0 (m_subs m).

(** ** Incidents *)
Definition PutIncident (i : Incident) m : Memory := set_m_incidents (<[ic_id i := i]> (m_incidents m)) m.
Definition GetIncident (id : string) m : option Incident := m_incidents m !! id.
Record IncidentFilter := { nf_inst : string; nf_resolved : option bool; nf_limit : Z }.
Definition match_incident (f : IncidentFilter) (i : Incident) : bool :=
  str_field (nf_inst f) (ic_inst i) && opt_field (nf_resolved f) (ic_resolved i).
Definition ListIncidents (f : IncidentFilter) m : list Incident :=
  select ic_id (match_incident f) false (nf_limit f) (m_incidents m).

(** ** Blobs *)
Definition nul : string := String (Ascii.ascii_of_nat 0) "".
Definition blob_key (kind key : string) : string := kind ++ nul ++ key.
Definition PutBlob (b : Blob) m : Memory :=
  set_m_blobs (<[blob_key (bl_kind b) (bl_key b) := b]> (m_blobs m)) m.
Definition GetBlob (kind key : string) m : option Blob := m_blobs m !! blob_key kind key.
Definition DeleteBlob (kind key : string) m : Memory :=
  set_m_blobs (delete (blob_key kind key) (m_blobs m)) m.
Definition blob_le (a b : Blob) : bool :=
  if String.eqb (bl_kind a) (bl_kind b) then str_le (bl_key a) (bl_key b)
  else str_lt (bl_kind a) (bl_kind b).
#[export] Instance blob_le_dec : RelDecision (fun a b => blob_le a b = true).
Proof. intros a b. solve_decision. Defined.
Definition ListBlobs (kind : string) m : list Blob :=
  merge_sort (fun a b => blob_le a b = true)
    (keep (fun b => str_field kind (bl_kind b)) (map snd (map_to_list (m_blobs m)))).

(** ** History *)
Definition hist_seq_of (inst : string) m : Z := default 0 (m_hist_seq m !! inst).
Definition hist_of (inst : string) m : list HistoryEvent := default [] (m_history m !! inst).

(** [AppendHistory] gives an unnumbered event the next number; the number
    also goes into the caller's record. *)
Definition AppendHistory (ev : HistoryEvent) m : HistoryEvent * Memory :=
  let inst := hv_inst ev in
  let cur := hist_seq_of inst m in
  let ev' := if hv_seq ev =? 0 then set_hv_seq (cur + 1) ev else ev in
  let seqs := if hv_seq ev =? 0 then <[inst := cur + 1]> (m_hist_seq m)
              else if cur <? hv_seq ev then <[inst := hv_seq ev]> (m_hist_seq m)
              else m_hist_seq m in
  (ev', set_m_hist_seq seqs (set_m_history (<[inst := (hist_of inst m ++ [ev'])%list]> (m_history m)) m)).
Record HistoryFilter := { hf_type : string; hf_after : Z; hf_limit : Z }.
Definition match_history (f : HistoryFilter) (ev : HistoryEvent) : bool :=
  (String.eqb (hf_type f) "" || has_prefix (hv_type ev) (hf_type f)) && (hf_after f <? hv_seq ev).
Definition ListHistory (inst : string) (f : HistoryFilter) m : list HistoryEvent :=
  limited (hf_limit f) (keep (match_history f) (hist_of inst m)).
End operations.

(** ** Invariant

    Every record is stored under its own ID; the events of an instance are
    numbered in increasing order from a positive number, and the counter is
    the number of the last one. *)
Definition seqs_ok (l : list HistoryEvent) : Prop :=
  StronglySorted (fun a b => hv_seq a < hv_seq b) l /\ Forall (fun ev => 0 < hv_seq ev) l.
Definition last_seq (l : list HistoryEvent) : Z :=
  match last l with Some ev => hv_seq ev | None => 0 end.

Record memory_ok (m : Memory) : Prop := {
  ok_definitions : keyed pd_id (m_definitions m);
  ok_instances : keyed in_id (m_instances m);
  ok_tasks : keyed ta_id (m_tasks m);
  ok_jobs : keyed jb_id (m_jobs m);
  ok_externals : keyed ex_id (m_externals m);
  ok_agent_jobs : keyed ag_id (m_agent_jobs m);
  ok_subs : keyed sb_id (m_subs m);
  ok_incidents : keyed ic_id (m_incidents m);
  ok_blobs : keyed (fun b => blob_key (bl_kind b) (bl_key b)) (m_blobs m);
  ok_history : forall i l, m_history m !! i = Some l ->
    l <> [] /\ seqs_ok l /\ Forall (fun ev => hv_inst ev = i) l;
  ok_seq : forall i, m_hist_seq m !! i = last_seq <$> m_history m !! i;
}.

Lemma keyed_empty {A} (id : A -> string) : keyed id ∅.
Proof. intros k x. by rewrite lookup_empty. Qed.
Lemma keyed_insert {A} (id : A -> string) x t : keyed id t -> keyed id (<[id x := x]> t).
Proof. intros H k y. rewrite lookup_insert_Some. intros [[? ?]|[? ?]]; subst; auto. Qed.
Lemma keyed_delete {A} (id : A -> string) k t : keyed id t -> keyed id (delete k t).
Proof. intros H k' y. rewrite lookup_delete_Some. intros []. auto. Qed.
Lemma keyed_filter {A} (id : A -> string) (P : string * A -> Prop) `{!forall x, Decision (P x)} t :
  keyed id t -> keyed id (filter P t).
Proof. intros Hk k y. rewrite map_lookup_filter_Some. intros []. auto. Qed.
Lemma keyed_fold_insert {A B} (id : A -> string) (f : B -> A) l t :
  keyed id t -> keyed id (fold_left (fun t x => <[id (f x) := f x]> t) l t).
Proof. revert t. induction l; intros t H; cbn; auto using keyed_insert. Qed.
Lemma keyed_fold_delete {A B} (id : A -> string) (f : B -> string) l t :
  keyed id t -> keyed id (fold_left (fun t x => delete (f x) t) l t).
Proof. revert t. induction l; intros t H; cbn; auto using keyed_delete. Qed.

#[export] Hint Resolve keyed_empty keyed_insert keyed_delete keyed_filter keyed_fold_insert
  keyed_fold_delete : go.

Lemma new_memory_ok : memory_ok new_memory.
Proof. split; cbn; auto with go; intros *; by rewrite lookup_empty. Qed.

(** *** Purging *)
Lemma drop_of_Some {A} (inst : A -> string) id (t : gmap string A) k x :
  drop_of inst id t !! k = Some x <-> t !! k = Some x /\ inst x <> id.
Proof. unfold drop_of. rewrite map_lookup_filter_Some. cbn. by rewrite String.eqb_neq. Qed.

Lemma drop_of_None {A} (inst : A -> string) id (t : gmap string A) :
  drop_of inst id (drop_of inst id t) = drop_of inst id t.
Proof.
  apply map_eq. intros k. apply option_eq. intros x. rewrite !drop_of_Some. naive_solver.
Qed.

(** *** Appending history *)
Lemma seqs_ok_snoc l ev : seqs_ok l -> last_seq l < hv_seq ev -> seqs_ok (l ++ [ev])%list.
Proof.
  intros [Hs Hp] Hlt.
  assert (Forall (fun a => hv_seq a < hv_seq ev) l) as Hall.
  { unfold last_seq in Hlt. destruct l as [|y l _] using rev_ind; [constructor|].
    rewrite last_snoc in Hlt. apply Forall_app. split; [|by constructor].
    apply Forall_forall. intros x Hx.
    enough (hv_seq x < hv_seq y) by lia.
    apply (StronglySorted_app_1_elem_of (fun a b => hv_seq a < hv_seq b) l [y] x y Hs); set_solver. }
  split.
  - apply StronglySorted_app_2; [|done|by repeat constructor].
    intros a b Ha Hb. apply list_elem_of_singleton in Hb as ->. rewrite Forall_forall in Hall. auto.
  - apply Forall_app. split; [done|]. constructor; [|done].
    unfold last_seq in Hlt. destruct (last l) as [y|] eqn:E; [|lia].
    apply last_Some_elem_of in E. rewrite Forall_forall in Hp. specialize (Hp y E). lia.
Qed.

Lemma hist_seq_of_last m i : memory_ok m -> hist_seq_of i m = last_seq (hist_of i m).
Proof. intros H. unfold hist_seq_of, hist_of. rewrite (ok_seq m H). by destruct (_ !! i). Qed.

Lemma last_seq_nonneg l : seqs_ok l -> 0 <= last_seq l.
Proof.
  intros [_ H]. unfold last_seq. destruct (last l) eqn:E; [|lia].
  apply last_Some_elem_of in E. rewrite Forall_forall in H. specialize (H _ E). lia.
Qed.

Lemma hist_of_ok m i : memory_ok m -> seqs_ok (hist_of i m) /\ Forall (fun ev => hv_inst ev = i) (hist_of i m).
Proof.
  intros H. unfold hist_of. destruct (_ !! i) eqn:E; cbn; [by apply (ok_history m H) in E as (_ & ? & ?)|].
  split; [|done]. split; constructor.
Qed.

(** ** Operations that change the store *)
Inductive store_op :=
| OPutDefinition (d : ProcDef)
| OPutInstance (i : Instance)
| OPurgeInstance (id : string)
| OPutTask (t : Task)
| OPutJob (j : Job)
| ODeleteJob (id : string)
| ODueJobs (now limit : Z)
| OPutExternalTask (t : ExternalTask)
| OFetchExternalTasks (topic worker : string) (until now limit : Z)
| OPutAgentJob (j : AgentJob)
| OFetchAgentJobs (topic worker : string) (until now limit : Z)
| OPutSubscription (s : Subscription)
| ODeleteSubscription (id : string)
| OPutIncident (i : Incident)
| OPutBlob (b : Blob)
| ODeleteBlob (kind key : string)
| OAppendHistory (ev : HistoryEvent).

Definition run_op (o : store_op) (m : Memory) : Memory :=
  match o with
  | OPutDefinition d => PutDefinition d m
  | OPutInstance i => (PutInstance i m).2
  | OPurgeInstance id => PurgeInstance id m
  | OPutTask t => PutTask t m
  | OPutJob j => PutJob j m
  | ODeleteJob id => DeleteJob id m
  | ODueJobs now limit => (DueJobs now limit m).2
  | OPutExternalTask t => PutExternalTask t m
  | OFetchExternalTasks topic w u n l => (FetchAndLockExternalTasks topic w u n l m).2
  | OPutAgentJob j => PutAgentJob j m
  | OFetchAgentJobs topic w u n l => (FetchAndLockAgentJobs topic w u n l m).2
  | OPutSubscription s => PutSubscription s m
  | ODeleteSubscription id => DeleteSubscription id m
  | OPutIncident i => PutIncident i m
  | OPutBlob b => PutBlob b m
  | ODeleteBlob kind key => DeleteBlob kind key m
  | OAppendHistory ev => (AppendHistory ev m).2
  end.

(** The callers append unnumbered events; a replay appends numbered ones in
    their order. *)
Definition op_pre (o : store_op) (m : Memory) : Prop :=
  match o with
  | OAppendHistory ev => hv_seq ev = 0 \/ hist_seq_of (hv_inst ev) m < hv_seq ev
  | _ => True
  end.

Lemma append_history_seq ev m :
  memory_ok m -> op_pre (OAppendHistory ev) m ->
  hist_seq_of (hv_inst ev) m < hv_seq (AppendHistory ev m).1 /\
  m_history (AppendHistory ev m).2 =
    <[hv_inst ev := (hist_of (hv_inst ev) m ++ [(AppendHistory ev m).1])%list]> (m_history m) /\
  m_hist_seq (AppendHistory ev m).2 = <[hv_inst ev := hv_seq (AppendHistory ev m).1]> (m_hist_seq m) /\
  hv_inst (AppendHistory ev m).1 = hv_inst ev.
Proof.
  intros Hm Hpre. cbn in *. destruct (Z.eqb_spec (hv_seq ev) 0) as [E|E].
  - cbn. split_and!; [lia|done|done|by destruct ev].
  - destruct (Z.ltb_spec (hist_seq_of (hv_inst ev) m) (hv_seq ev)); [|lia].
    split_and!; [lia|done|done|done].
Qed.

(** Locking keeps the ID. *)
Lemma fetch_and_lock_keyed {A} (id : A -> string) avail lock limit t :
  (forall x, id (lock x) = id x) -> keyed id t -> keyed id (fetch_and_lock id avail lock limit t).2.
Proof.
  intros Hl. unfold fetch_and_lock. cbn. generalize (select id avail false limit t) as l.
  intros l. revert t. induction l as [|x l IH]; intros t H; cbn; [done|].
  apply IH. rewrite <- (Hl x). by apply keyed_insert.
Qed.

Ltac split_ok H := destruct H; split; cbn; auto with go.

Lemma run_op_ok_core o m : memory_ok m -> op_pre o m -> memory_ok (run_op o m).
Proof.
  intros Hm Hpre. destruct o; cbn [run_op]; try (by split_ok Hm).
  - destruct Hm; split; cbn; auto with go.
    apply (keyed_insert in_id (set_in_rev (in_rev i + 1) i)). done.
  - destruct Hm; split; cbn; unfold drop_of; auto with go.
    + intros i l [_ H]%lookup_delete_Some. eauto.
    + intros i. rewrite !lookup_delete. case_decide; [done|]. auto.
  - unfold FetchAndLockExternalTasks.
    pose proof (fetch_and_lock_keyed ex_id (ext_avail topic now) (ext_lock worker until) limit
      (m_externals m) ltac:(done) (ok_externals m Hm)) as Hk.
    destruct (fetch_and_lock _ _ _ _ _) as [l t]. by split_ok Hm.
  - unfold FetchAndLockAgentJobs.
    pose proof (fetch_and_lock_keyed ag_id (ag_avail topic now) (ag_lock worker until) limit
      (m_agent_jobs m) ltac:(done) (ok_agent_jobs m Hm)) as Hk.
    destruct (fetch_and_lock _ _ _ _ _) as [l t]. by split_ok Hm.
  - destruct Hm; split; cbn; auto with go.
    by apply (keyed_insert (fun b => blob_key (bl_kind b) (bl_key b))).
  - destruct (append_history_seq ev m Hm Hpre) as (Hlt & Hh & Hs & Hi).
    destruct (hist_of_ok m (hv_inst ev) Hm) as [Hok Hin].
    rewrite (hist_seq_of_last _ _ Hm) in Hlt.
    set (r := AppendHistory ev m) in *. destruct r as [ev' m'] eqn:Er. cbn in Hlt, Hh, Hs, Hi |- *.
    assert (m' = set_m_hist_seq (m_hist_seq m') (set_m_history (m_history m') m)) as Em by
      (unfold r in Er; injection Er as _ <-; done).
    destruct Hm; rewrite Em; split; cbn; auto.
    + intros i l. rewrite Hh, lookup_insert_Some. intros [[<- <-]|[_ H]]; [|eauto].
      split_and!; [by destruct (hist_of _ _)|by apply seqs_ok_snoc|].
      apply Forall_app. split; [done|by constructor].
    + intros i. rewrite Hh, Hs, !lookup_insert. case_decide; [|done].
      cbn. unfold last_seq. by rewrite last_snoc.
Qed.

(** Every operation of the store keeps the invariant. *)
Theorem run_op_ok o m : memory_ok m -> op_pre o m -> memory_ok (run_op o m).
Proof. apply run_op_ok_core. Qed.

(** ** Claiming jobs *)
#[export] Instance job_le_total : Total (fun a b => job_le a b = true).
Proof.
  intros a b. unfold job_le. rewrite (Z.eqb_sym (jb_due b)).
  destruct (Z.eqb_spec (jb_due a) (jb_due b)) as [E|E]; [apply str_le_total|].
  destruct (Z.ltb_spec (jb_due a) (jb_due b)); [by left|right]. apply Z.ltb_lt. lia.
Qed.
#[export] Instance job_le_trans : Transitive (fun a b => job_le a b = true).
Proof.
  intros a b c. unfold job_le. intros H1 H2.
  destruct (Z.eqb_spec (jb_due a) (jb_due b)) as [E1|E1], (Z.eqb_spec (jb_due b) (jb_due c)) as [E2|E2].
  - rewrite E1, E2, Z.eqb_refl. by eapply str_le_transitive.
  - rewrite E1. destruct (Z.eqb_spec (jb_due b) (jb_due c)); [done|]. done.
  - rewrite <- E2. destruct (Z.eqb_spec (jb_due a) (jb_due b)); [done|]. done.
  - apply Z.ltb_lt in H1, H2. destruct (Z.eqb_spec (jb_due a) (jb_due c)); [lia|]. apply Z.ltb_lt. lia.
Qed.

Lemma lookup_fold_delete {A} (id : A -> string) l (t : gmap string A) k :
  fold_left (fun t x => delete (id x) t) l t !! k =
  if decide (k ∈ map id l) then None else t !! k.
Proof.
  revert t. induction l as [|x l IH]; intros t; cbn [fold_left map].
  - by rewrite decide_False by set_solver.
  - rewrite IH, lookup_delete. repeat case_decide; set_solver.
Qed.

Lemma limited_elem_of {A} limit (l : list A) x : x ∈ limited limit l -> x ∈ l.
Proof. unfold limited. case_match; [|done]. rewrite elem_of_take; naive_solver eauto using list_elem_of_lookup_2. Qed.

Lemma limited_prefix {A} limit (l : list A) : exists r, l = (limited limit l ++ r)%list.
Proof.
  unfold limited. case_match; [eexists; symmetry; apply take_drop|exists []; by rewrite app_nil_r].
Qed.

Lemma due_jobs_spec_core now limit m js m' :
  memory_ok m -> DueJobs now limit m = (js, m') ->
  StronglySorted (fun a b => job_le a b = true) js /\
  (forall j, j ∈ js -> m_jobs m !! jb_id j = Some j /\ jb_due j <= now) /\
  (0 < limit -> Z.of_nat (length js) <= limit) /\
  (forall k, m_jobs m' !! k = if decide (k ∈ map jb_id js) then None else m_jobs m !! k) /\
  (forall k j, m_jobs m' !! k = Some j -> jb_due j <= now ->
     0 < limit /\ Z.of_nat (length js) = limit /\ forall j', j' ∈ js -> job_le j' j = true) /\
  set_m_jobs (m_jobs m) m' = m.
Proof.
  intros Hm. unfold DueJobs. intros [= <- <-]. cbn [m_jobs set_m_jobs].
  set (all := merge_sort (fun a b => job_le a b = true) (keep (is_due now) (map snd (map_to_list (m_jobs m))))).
  assert (Hin : forall j, j ∈ all <-> m_jobs m !! jb_id j = Some j /\ jb_due j <= now).
  { intros j. unfold all. rewrite merge_sort_Permutation. unfold keep.
    rewrite list_elem_of_filter, elem_of_values. unfold is_due. rewrite Z.leb_le. split.
    - intros [? [k Hk]]. by rewrite (ok_jobs m Hm k j Hk).
    - intros []. eauto. }
  assert (Hs : StronglySorted (fun a b => job_le a b = true) all) by (apply StronglySorted_merge_sort; apply _).
  destruct (limited_prefix limit all) as [r Hr].
  split_and!.
  - rewrite Hr in Hs. by eapply StronglySorted_app_1_l.
  - intros j Hj. apply limited_elem_of in Hj. by apply Hin.
  - intros Hl. unfold limited. destruct (Z.ltb_spec 0 limit); [|lia]. rewrite length_take. lia.
  - apply lookup_fold_delete.
  - intros k j. rewrite lookup_fold_delete. case_decide as Hk; [done|]. intros Hj Hd.
    pose proof (ok_jobs m Hm k j Hj) as <-.
    assert (j ∈ all) as Hall by by apply Hin.
    assert (j ∉ limited limit all) as Hno by (intros ?; apply Hk; by apply list_elem_of_fmap_2).
    assert (Hj2 : j ∈ r) by (rewrite Hr in Hall; apply elem_of_app in Hall as [?|?]; done).
    unfold limited in *. destruct (Z.ltb_spec 0 limit); [|done]. split_and!; [done| |].
    + rewrite length_take. apply (f_equal length) in Hr. rewrite length_app, length_take in Hr.
      destruct r; [by apply elem_of_nil in Hj2|]. cbn in Hr. lia.
    + intros j' Hj'. rewrite Hr in Hs.
      apply (StronglySorted_app_1_elem_of (fun a b => job_le a b = true) _ _ j' j Hs Hj' Hj2).
  - by destruct m.
Qed.

(** [DueJobs] returns due jobs of the store in order of due date, at most
    [limit] of them, removes exactly those from the store, and leaves no due
    job behind that comes before a claimed one, or any at all when there is
    no limit. *)
Theorem due_jobs_spec now limit m js m' :
  memory_ok m -> DueJobs now limit m = (js, m') ->
  StronglySorted (fun a b => job_le a b = true) js /\
  (forall j, j ∈ js -> m_jobs m !! jb_id j = Some j /\ jb_due j <= now) /\
  (0 < limit -> Z.of_nat (length js) <= limit) /\
  (forall k, m_jobs m' !! k = if decide (k ∈ map jb_id js) then None else m_jobs m !! k) /\
  (forall k j, m_jobs m' !! k = Some j -> jb_due j <= now ->
     0 < limit /\ Z.of_nat (length js) = limit /\ forall j', j' ∈ js -> job_le j' j = true) /\
  set_m_jobs (m_jobs m) m' = m.
Proof. apply due_jobs_spec_core. Qed.

(** ** Locking work *)
Section lock.
Context {A : Type} (id : A -> string) (lock : A -> A).
Hypothesis lock_id : forall x, id (lock x) = id x.

Lemma fetch_lookup l (t : gmap string A) k :
  keyed id t -> (forall x, x ∈ l -> t !! id x = Some x) ->
  fold_left (fun t x => <[id x := lock x]> t) l t !! k =
  if decide (k ∈ map id l) then lock <$> t !! k else t !! k.
Proof.
  intros Hk. revert t Hk. induction l as [|x l IH] using rev_ind; intros t Hk Hl; cbn.
  - by rewrite decide_False by set_solver.
  - rewrite fold_left_app. cbn. destruct (decide (id x = k)) as [E|E].
    + subst k. rewrite lookup_insert_eq. rewrite decide_True by (rewrite fmap_app; set_solver).
      by rewrite (Hl x) by set_solver.
    + rewrite lookup_insert_ne by done. rewrite IH by (done || set_solver). rewrite fmap_app. cbn.
      assert (k ∈ map id l <-> k ∈ map id l ++ [id x])%list as Hiff by set_solver.
      repeat case_decide; naive_solver.
Qed.

(** After a fetch, the returned work is the locked form of work that was
    available, and the rest is untouched. *)
Lemma fetch_and_lock_spec avail limit t :
  keyed id t ->
  let '(l, t') := fetch_and_lock id avail lock limit t in
  (forall y, y ∈ l -> exists x, t !! id y = Some x /\ avail x = true /\ y = lock x /\ t' !! id y = Some y) /\
  (forall k, k ∉ map id l -> t' !! k = t !! k) /\ NoDup (map id l).
Proof.
  intros Hk. unfold fetch_and_lock.
  set (s := select id avail false limit t).
  assert (Hs : forall x, x ∈ s -> t !! id x = Some x /\ avail x = true).
  { intros x Hx. unfold s in Hx. rewrite select_limit in Hx. apply limited_elem_of in Hx.
    apply elem_of_select_all in Hx as [Ha [k Hx]]. by rewrite (Hk _ _ Hx). }
  assert (Hid : map id (map lock s) = map id s) by (rewrite map_map; apply map_ext; auto).
  assert (NoDup (map id s)) as Hnd.
  { unfold s. rewrite select_limit. destruct (limited_prefix limit (select id avail false 0 t)) as [r Hr].
    pose proof (select_all_NoDup id avail false t Hk) as H. rewrite Hr, fmap_app in H. by apply NoDup_app in H as []. }
  split_and!.
  - intros y Hy. apply list_elem_of_fmap in Hy as (x & -> & Hx). destruct (Hs x Hx) as [Ht Ha].
    rewrite lock_id. exists x. split_and!; try done.
    rewrite fetch_lookup; [|done|naive_solver].
    rewrite decide_True by by apply list_elem_of_fmap_2.
    by rewrite Ht.
  - intros k Hno. rewrite Hid in Hno. rewrite fetch_lookup; [|done|naive_solver]. by rewrite decide_False.
  - by rewrite Hid.
Qed.

(** Work locked by one fetch is not handed out by the next one as long as
    the lock makes it unavailable. *)
Lemma fetch_exclusive avail1 avail2 lock2 limit1 limit2 t l1 t1 l2 t2 :
  (forall x, id (lock2 x) = id x) ->
  keyed id t -> fetch_and_lock id avail1 lock limit1 t = (l1, t1) ->
  fetch_and_lock id avail2 lock2 limit2 t1 = (l2, t2) ->
  (forall x, avail2 (lock x) = false) ->
  forall x, x ∈ map id l1 -> x ∈ map id l2 -> False.
Proof.
  intros Hl2 Hk H1 H2 Hun k Hk1 Hk2.
  pose proof (fetch_and_lock_spec avail1 limit1 t Hk) as S1. rewrite H1 in S1. destruct S1 as (S1 & _).
  apply list_elem_of_fmap in Hk1 as (y & -> & Hy). destruct (S1 y Hy) as (x & Hx & _ & -> & Ht1).
  apply list_elem_of_fmap in Hk2 as (z & He & Hz).
  unfold fetch_and_lock in H2. injection H2 as <- <-.
  apply list_elem_of_fmap in Hz as (w & -> & Hw). rewrite select_limit in Hw.
  apply limited_elem_of, elem_of_select_all in Hw as [Ha [k' Hw]].
  assert (keyed id t1) as Hkt by (pose proof (fetch_and_lock_keyed id avail1 lock limit1 t lock_id Hk) as K; by rewrite H1 in K).
  rewrite (Hl2 w) in He. pose proof (Hkt _ _ Hw) as Hkw. rewrite <- He in Hkw. subst k'.
  rewrite Hw in Ht1. injection Ht1 as ->. by rewrite Hun in Ha.
Qed.
End lock.

(** C36: two fetches never hand out the same work while the first lock holds:
    an external task or agent job locked until [until] by a named worker is
    not returned to anyone before that time. *)
Theorem fetch_lock_exclusive m topic w1 w2 u1 u2 n1 n2 lim1 lim2 :
  memory_ok m -> w1 <> "" -> n2 < u1 ->
  (forall l1 m1 l2 m2, FetchAndLockExternalTasks topic w1 u1 n1 lim1 m = (l1, m1) ->
     FetchAndLockExternalTasks topic w2 u2 n2 lim2 m1 = (l2, m2) ->
     forall k, k ∈ map ex_id l1 -> k ∈ map ex_id l2 -> False) /\
  (forall l1 m1 l2 m2, FetchAndLockAgentJobs topic w1 u1 n1 lim1 m = (l1, m1) ->
     FetchAndLockAgentJobs topic w2 u2 n2 lim2 m1 = (l2, m2) ->
     forall k, k ∈ map ag_id l1 -> k ∈ map ag_id l2 -> False).
Proof.
  intros Hm Hw Hu.
  assert (forall b, b && free_at w1 u1 n2 = false) as Hf.
  { intros b. unfold free_at, nonempty. apply String.eqb_neq in Hw as ->.
    apply Z.ltb_lt in Hu as ->. by rewrite andb_false_r. }
  split; intros l1 m1 l2 m2 H1 H2.
  - unfold FetchAndLockExternalTasks in H1, H2.
    destruct (fetch_and_lock _ (ext_avail topic n1) _ _ _) as [a1 t1] eqn:E1. injection H1 as <- <-.
    cbn [set_m_externals m_externals] in H2.
    destruct (fetch_and_lock _ (ext_avail topic n2) _ _ _) as [a2 t2] eqn:E2. injection H2 as <- <-.
    eapply (fetch_exclusive ex_id (ext_lock w1 u1)) with (lock2 := ext_lock w2 u2); [done|done|apply Hm|exact E1|exact E2|].
    intros x. apply Hf.
  - unfold FetchAndLockAgentJobs in H1, H2.
    destruct (fetch_and_lock _ (ag_avail topic n1) _ _ _) as [a1 t1] eqn:E1. injection H1 as <- <-.
    cbn [set_m_agent_jobs m_agent_jobs] in H2.
    destruct (fetch_and_lock _ (ag_avail topic n2) _ _ _) as [a2 t2] eqn:E2. injection H2 as <- <-.
    eapply (fetch_exclusive ag_id (ag_lock w1 u1)) with (lock2 := ag_lock w2 u2); [done|done|apply Hm|exact E1|exact E2|].
    intros x. apply Hf.
Qed.

(** ** Purging an instance *)

(** The instance a record of each table belongs to. *)
Definition mentions (id : string) (m : Memory) : Prop :=
  is_Some (m_instances m !! id) \/ is_Some (m_history m !! id) \/ is_Some (m_hist_seq m !! id) \/
  (exists k x, m_tasks m !! k = Some x /\ ta_inst x = id) \/
  (exists k x, m_jobs m !! k = Some x /\ jb_inst x = id) \/
  (exists k x, m_externals m !! k = Some x /\ ex_inst x = id) \/
  (exists k x, m_agent_jobs m !! k = Some x /\ ag_inst x = id) \/
  (exists k x, m_subs m !! k = Some x /\ sb_inst x = id) \/
  (exists k x, m_incidents m !! k = Some x /\ ic_inst x = id).

(** Purging an instance leaves nothing of it in any table, and keeps
    every record of every other instance, the definitions and the blobs. *)
Theorem purge_complete id m :
  ~ mentions id (PurgeInstance id m) /\
  m_definitions (PurgeInstance id m) = m_definitions m /\ m_blobs (PurgeInstance id m) = m_blobs m /\
  (forall k, k <> id -> m_instances (PurgeInstance id m) !! k = m_instances m !! k /\
                        m_history (PurgeInstance id m) !! k = m_history m !! k) /\
  (forall k x, ta_inst x <> id -> m_tasks (PurgeInstance id m) !! k = Some x <-> m_tasks m !! k = Some x) /\
  (forall k x, jb_inst x <> id -> m_jobs (PurgeInstance id m) !! k = Some x <-> m_jobs m !! k = Some x) /\
  (forall k x, sb_inst x <> id -> m_subs (PurgeInstance id m) !! k = Some x <-> m_subs m !! k = Some x) /\
  (forall k x, ic_inst x <> id -> m_incidents (PurgeInstance id m) !! k = Some x <-> m_incidents m !! k = Some x) /\
  (forall k x, ex_inst x <> id -> m_externals (PurgeInstance id m) !! k = Some x <-> m_externals m !! k = Some x) /\
  (forall k x, ag_inst x <> id -> m_agent_jobs (PurgeInstance id m) !! k = Some x <-> m_agent_jobs m !! k = Some x).
Proof.
  unfold mentions, PurgeInstance. cbn. rewrite !lookup_delete_eq. setoid_rewrite drop_of_Some.
  split_and!; try done.
  - intros H. destruct_or! H; try (by destruct H); by destruct H as (k & x & [_ ?] & ?).
  - intros k Hk. by rewrite !lookup_delete_ne.
  - naive_solver.
  - naive_solver.
  - naive_solver.
  - naive_solver.
  - naive_solver.
  - naive_solver.
Qed.

(** ** History *)

(** A run of operations from the empty store. *)
Inductive reachable : Memory -> Prop :=
| reach_new : reachable new_memory
| reach_op m o : reachable m -> op_pre o m -> reachable (run_op o m).

Lemma reachable_ok m : reachable m -> memory_ok m.
Proof. induction 1; [apply new_memory_ok|by apply run_op_ok_core]. Qed.

(** The audit trail of an instance is numbered without repetition, an
    appended event gets a number above all earlier ones and comes last in the
    listing, and reading on from the number of the last event seen gives
    exactly the events appended since. *)
Theorem history_append_read m ev since :
  reachable m -> hv_seq ev = 0 ->
  let '(ev', m') := AppendHistory ev m in
  (forall e, e ∈ hist_of (hv_inst ev) m -> hv_seq e < hv_seq ev') /\
  hist_of (hv_inst ev) m' = (hist_of (hv_inst ev) m ++ [ev'])%list /\
  (since < hv_seq ev' ->
   ListHistory (hv_inst ev) {| hf_type := ""; hf_after := since; hf_limit := 0 |} m'
   = (ListHistory (hv_inst ev) {| hf_type := ""; hf_after := since; hf_limit := 0 |} m ++ [ev'])%list) /\
  (forall i, i <> hv_inst ev -> hist_of i m' = hist_of i m).
Proof.
  intros Hr Hz. pose proof (reachable_ok m Hr) as Hm.
  destruct (append_history_seq ev m Hm) as (Hlt & Hh & _ & _); [by left|].
  destruct (AppendHistory ev m) as [ev' m'] eqn:E. cbn in Hlt, Hh.
  destruct (hist_of_ok m (hv_inst ev) Hm) as [[Hs _] _].
  rewrite (hist_seq_of_last _ _ Hm) in Hlt.
  assert (hist_of (hv_inst ev) m' = (hist_of (hv_inst ev) m ++ [ev'])%list) as Hnew.
  { unfold hist_of at 1. by rewrite Hh, lookup_insert_eq. }
  split_and!; [|done| |].
  - intros e He. unfold last_seq in Hlt.
    destruct (hist_of (hv_inst ev) m) as [|y l _] using rev_ind; [by apply elem_of_nil in He|].
    rewrite last_snoc in Hlt. apply elem_of_app in He as [He|He].
    + enough (hv_seq e < hv_seq y) by lia.
      apply (StronglySorted_app_1_elem_of (fun a b => hv_seq a < hv_seq b) l [y] e y Hs He). set_solver.
    + apply list_elem_of_singleton in He as ->. done.
  - intros Hsince. unfold ListHistory, limited. cbn. rewrite Hnew, keep_app. f_equal.
    apply keep_all. intros x Hx. apply list_elem_of_singleton in Hx as ->. cbn. by apply Z.ltb_lt.
  - intros i Hi. unfold hist_of at 1. by rewrite Hh, lookup_insert_ne.
Qed.

(** ** Listings *)

(** A filter with another cursor and limit. *)
Definition if_with (f : InstanceFilter) (cursor : string) (limit : Z) : InstanceFilter :=
  {| if_tenant := if_tenant f; if_def_key := if_def_key f; if_def_id := if_def_id f;
     if_bkey := if_bkey f; if_state := if_state f; if_parent := if_parent f; if_vars := if_vars f;
     if_started_after := if_started_after f; if_started_before := if_started_before f;
     if_ended_after := if_ended_after f; if_ended_before := if_ended_before f;
     if_cursor := cursor; if_desc := if_desc f; if_limit := limit |}.
Definition tf_with (f : TaskFilter) (cursor : string) (limit : Z) : TaskFilter :=
  {| tf_tenant := tf_tenant f; tf_inst := tf_inst f; tf_assignee := tf_assignee f;
     tf_unassigned := tf_unassigned f; tf_user := tf_user f; tf_group := tf_group f;
     tf_state := tf_state f; tf_def_key := tf_def_key f; tf_element := tf_element f;
     tf_vars := tf_vars f; tf_created_after := tf_created_after f;
     tf_created_before := tf_created_before f; tf_due_before := tf_due_before f;
     tf_cursor := cursor; tf_desc := tf_desc f; tf_limit := limit |}.

Lemma all_pages_ext {A} (id : A -> string) fuel f g c :
  (forall c, f c = g c) -> all_pages id fuel f c = all_pages id fuel g c.
Proof.
  intros H. revert c. induction fuel as [|n IH]; intros c; cbn; [done|].
  rewrite H. case_match; [by rewrite IH|done].
Qed.

Lemma select_ext {A} (id : A -> string) p q desc limit m :
  (forall x, p x = q x) -> select id p desc limit m = select id q desc limit m.
Proof.
  intros H. unfold select, keep. do 2 f_equal. apply list_filter_iff. intros x. by rewrite H.
Qed.

(** A client that pages through instances or tasks with a cursor sees
    every matching record exactly once, in the order of the unpaged
    listing. *)
Theorem list_pages_complete m fi ft limit :
  memory_ok m -> 0 < limit ->
  m_instances m !! "" = None -> m_tasks m !! "" = None ->
  all_pages in_id (S (size (m_instances m))) (fun c => ListInstances (if_with fi c limit) m) ""
  = ListInstances (if_with fi "" 0) m /\
  all_pages ta_id (S (size (m_tasks m))) (fun c => ListTasks (tf_with ft c limit) m) ""
  = ListTasks (tf_with ft "" 0) m.
Proof.
  intros Hm Hl Hi Ht. split.
  - set (p := fun i => match_instance (if_with fi "" 0) i).
    rewrite (all_pages_ext in_id _ _ (fun c => select in_id (fun x => p x && after_cursor (in_id x) c (if_desc fi))
              (if_desc fi) limit (m_instances m))).
    + rewrite (pages_complete in_id); [done|apply Hm| |done]. intros k x Hk ->. congruence.
    + intros c. apply select_ext. intros x. unfold p, match_instance. cbn.
      change (after_cursor (in_id x) "" (if_desc fi)) with true. by rewrite andb_true_r.
  - set (p := fun t => match_task (tf_with ft "" 0) t (in_vars <$> m_instances m !! ta_inst t)).
    rewrite (all_pages_ext ta_id _ _ (fun c => select ta_id (fun x => p x && after_cursor (ta_id x) c (tf_desc ft))
              (tf_desc ft) limit (m_tasks m))).
    + rewrite (pages_complete ta_id); [done|apply Hm| |done]. intros k x Hk ->. congruence.
    + intros c. apply select_ext. intros x. unfold p, match_task. cbn.
      change (after_cursor (ta_id x) "" (tf_desc ft)) with true. by rewrite andb_true_r.
Qed.

(** ** Latest definitions *)
Section latest.
Context `{MO : MapOrder}.

Definition is_def (tenant key : string) (d : ProcDef) : bool :=
  String.eqb (pd_key d) key && String.eqb (pd_tenant d) tenant.

Lemma latest_of_spec tenant key ds :
  match latest_of tenant key ds with
  | Some d => d ∈ ds /\ is_def tenant key d = true /\
              forall d', d' ∈ ds -> is_def tenant key d' = true -> pd_version d' <= pd_version d
  | None => forall d, d ∈ ds -> is_def tenant key d = false
  end.
Proof.
  unfold latest_of. induction ds as [|d ds IH] using rev_ind; [set_solver|].
  rewrite fold_left_app. cbn. unfold is_def in *.
  destruct (fold_left _ ds None) as [b|].
  - destruct IH as (Hb & Hp & Hmax).
    destruct (String.eqb (pd_key d) key && String.eqb (pd_tenant d) tenant) eqn:Ed; cbn.
    + destruct (Z.ltb_spec (pd_version b) (pd_version d)).
      * split_and!; [set_solver|done|]. intros d' Hd' He. apply elem_of_app in Hd' as [Hd'|Hd'].
        -- specialize (Hmax d' Hd' He). lia.
        -- apply list_elem_of_singleton in Hd' as ->. lia.
      * split_and!; [set_solver|done|]. intros d' Hd' He. apply elem_of_app in Hd' as [Hd'|Hd'].
        -- auto.
        -- apply list_elem_of_singleton in Hd' as ->. done.
    + split_and!; [set_solver|done|]. intros d' Hd' He. apply elem_of_app in Hd' as [Hd'|Hd']; [auto|].
      apply list_elem_of_singleton in Hd' as ->. congruence.
  - destruct (String.eqb (pd_key d) key && String.eqb (pd_tenant d) tenant) eqn:Ed; cbn.
    + split_and!; [set_solver|done|]. intros d' Hd' He. apply elem_of_app in Hd' as [Hd'|Hd'].
      * rewrite IH in He; done.
      * by apply list_elem_of_singleton in Hd' as ->.
    + intros d' Hd'. apply elem_of_app in Hd' as [Hd'|Hd']; [auto|].
      by apply list_elem_of_singleton in Hd' as ->.
Qed.

Lemma latest_definition_core tenant key m :
  match LatestDefinitionForTenant tenant key m with
  | Some d => (exists k, m_definitions m !! k = Some d) /\ pd_key d = key /\ pd_tenant d = tenant /\
      forall k d', m_definitions m !! k = Some d' -> pd_key d' = key -> pd_tenant d' = tenant ->
        pd_version d' <= pd_version d
  | None => forall k d, m_definitions m !! k = Some d -> ~ (pd_key d = key /\ pd_tenant d = tenant)
  end.
Proof.
  unfold LatestDefinitionForTenant.
  assert (forall d, d ∈ map snd (map_range 0 (m_definitions m)) <-> exists k, m_definitions m !! k = Some d) as Hin.
  { intros d. rewrite list_elem_of_fmap. split.
    - intros ([k x] & -> & H). apply elem_of_map_range in H. eauto.
    - intros [k H]. exists (k, d). by rewrite elem_of_map_range. }
  pose proof (latest_of_spec tenant key (map snd (map_range 0 (m_definitions m)))) as H.
  destruct (latest_of _ _ _) as [d|].
  - destruct H as (Hd & Hp & Hmax). unfold is_def in *.
    apply andb_true_iff in Hp as [Hk%String.eqb_eq Ht%String.eqb_eq].
    split_and!; [by apply Hin|done|done|]. intros k d' Hd' E1 E2. apply Hmax; [apply Hin; eauto|].
    by rewrite E1, E2, !String.eqb_refl.
  - intros k d Hd [E1 E2]. specialize (H d). unfold is_def in H.
    rewrite E1, E2, !String.eqb_refl in H. discriminate H. apply Hin. eauto.
Qed.

(** The latest definition of a key in a tenant is a stored definition of
    that key and tenant with the highest version, in whatever order the map
    is scanned; none is reported only when there is none. *)
Theorem latest_definition_max tenant key m :
  match LatestDefinitionForTenant tenant key m with
  | Some d => (exists k, m_definitions m !! k = Some d) /\ pd_key d = key /\ pd_tenant d = tenant /\
      forall k d', m_definitions m !! k = Some d' -> pd_key d' = key -> pd_tenant d' = tenant ->
        pd_version d' <= pd_version d
  | None => forall k d, m_definitions m !! k = Some d -> ~ (pd_key d = key /\ pd_tenant d = tenant)
  end.
Proof. apply latest_definition_core. Qed.
End latest.

(** ** Instances *)
Definition sample_job (id inst : string) (due : Z) : Job :=
  {| jb_id := id; jb_tenant := ""; jb_kind := JobTimer; jb_inst := inst; jb_def_key := "";
     jb_token := "t"; jb_element := "e"; jb_due := due; jb_repeats := 0; jb_interval := 0;
     jb_retries := 3; jb_created := 0 |}.
Definition sample_ext (id inst : string) : ExternalTask :=
  {| ex_id := id; ex_inst := inst; ex_token := "t"; ex_element := "e"; ex_topic := "mail";
     ex_state := ExternalPending; ex_vars := ∅; ex_locked_by := ""; ex_lock_until := zero_time;
     ex_retries := 3; ex_created := 0 |}.
Definition sample_event (inst : string) : HistoryEvent :=
  {| hv_seq := 0; hv_inst := inst; hv_time := 0; hv_type := "task.created"; hv_element := "e"; hv_detail := ∅ |}.
Definition sample_ops : list store_op :=
  [OPutJob (sample_job "j2" "a" 20); OPutJob (sample_job "j1" "a" 10); OPutJob (sample_job "j3" "b" 30);
   OPutExternalTask (sample_ext "x1" "a"); OPutExternalTask (sample_ext "x2" "b");
   OAppendHistory (sample_event "a"); OAppendHistory (sample_event "a")].
Definition sample_store : Memory := fold_left (fun m o => run_op o m) sample_ops new_memory.

Lemma sample_reachable : reachable sample_store.
Proof.
  unfold sample_store, sample_ops. cbn [fold_left].
  do 7 (apply reach_op; [|first [exact I | by left]]). apply reach_new.
Qed.

Example due_jobs_sample :
  map jb_id (DueJobs 25 0 sample_store).1 = ["j1"; "j2"] /\
  map jb_id (DueJobs 25 1 sample_store).1 = ["j1"] /\
  map ex_id (FetchAndLockExternalTasks "mail" "w" 50 10 1 sample_store).1 = ["x1"].
Proof. vm_compute. auto. Qed.

Lemma run_op_ok_witness :
  memory_ok sample_store /\ memory_ok (run_op (OAppendHistory (sample_event "a")) sample_store).
Proof.
  pose proof (reachable_ok _ sample_reachable) as H. split; [exact H|].
  apply (run_op_ok (OAppendHistory (sample_event "a")) sample_store H). left. reflexivity.
Defined.

Lemma due_jobs_spec_witness :
  map jb_id (DueJobs 25 1 sample_store).1 = ["j1"] /\
  m_jobs (DueJobs 25 1 sample_store).2 !! "j2" = Some (sample_job "j2" "a" 20).
Proof.
  destruct (due_jobs_spec 25 1 sample_store _ _ (reachable_ok _ sample_reachable)
              (surjective_pairing (DueJobs 25 1 sample_store))) as (_ & _ & _ & H & _).
  split; [vm_compute; reflexivity|]. rewrite H. vm_compute. reflexivity.
Defined.

Lemma fetch_lock_exclusive_witness :
  let s1 := FetchAndLockExternalTasks "mail" "w" 50 10 1 sample_store in
  let s2 := FetchAndLockExternalTasks "mail" "v" 90 20 0 s1.2 in
  map ex_id s1.1 = ["x1"] /\ map ex_id s2.1 = ["x2"] /\
  ("x1" ∈ map ex_id s1.1 -> "x1" ∈ map ex_id s2.1 -> False).
Proof.
  split; [vm_compute; reflexivity|]. split; [vm_compute; reflexivity|].
  apply (proj1 (fetch_lock_exclusive sample_store "mail" "w" "v" 50 90 10 20 1 0
           (reachable_ok _ sample_reachable) ltac:(discriminate) ltac:(lia)) _ _ _ _
           (surjective_pairing _) (surjective_pairing _)).
Defined.

Lemma history_append_read_witness :
  hv_seq (AppendHistory (sample_event "a") sample_store).1 = 3 /\
  hist_of "a" (AppendHistory (sample_event "a") sample_store).2
  = (hist_of "a" sample_store ++ [(AppendHistory (sample_event "a") sample_store).1])%list.
Proof.
  pose proof (history_append_read sample_store (sample_event "a") 0 sample_reachable eq_refl) as H.
  split; [vm_compute; reflexivity|]. exact (proj1 (proj2 H)).
Defined.

Definition no_inst_filter : InstanceFilter :=
  {| if_tenant := ""; if_def_key := ""; if_def_id := ""; if_bkey := ""; if_state := None;
     if_parent := ""; if_vars := []; if_started_after := zero_time; if_started_before := zero_time;
     if_ended_after := zero_time; if_ended_before := zero_time; if_cursor := ""; if_desc := false;
     if_limit := 0 |}.
Definition no_task_filter : TaskFilter :=
  {| tf_tenant := ""; tf_inst := ""; tf_assignee := ""; tf_unassigned := false; tf_user := "";
     tf_group := ""; tf_state := None; tf_def_key := ""; tf_element := ""; tf_vars := [];
     tf_created_after := zero_time; tf_created_before := zero_time; tf_due_before := zero_time;
     tf_cursor := ""; tf_desc := false; tf_limit := 0 |}.
Definition sample_instance (id : string) : Instance :=
  {| in_id := id; in_tenant := ""; in_def_id := "d"; in_def_key := "k"; in_bkey := "";
     in_state := InstanceActive; in_suspended := false; in_parent := ""; in_parent_tok := "";
     in_vars := {["amount" := vnum 5]}; in_tokens := ∅; in_multi := ∅; in_started := 0;
     in_ended := zero_time; in_end_elem := ""; in_rev := 0 |}.
Definition paged_store : Memory :=
  fold_left (fun m o => run_op o m)
    [OPutInstance (sample_instance "i3"); OPutInstance (sample_instance "i1"); OPutInstance (sample_instance "i2")]
    new_memory.

Lemma list_pages_complete_witness :
  map in_id (ListInstances (if_with no_inst_filter "i1" 1) paged_store) = ["i2"] /\
  all_pages in_id (S (size (m_instances paged_store)))
    (fun c => ListInstances (if_with no_inst_filter c 1) paged_store) ""
  = ListInstances (if_with no_inst_filter "" 0) paged_store.
Proof.
  assert (memory_ok paged_store) as H.
  { apply reachable_ok. unfold paged_store. cbn [fold_left].
    do 3 (apply reach_op; [|exact I]). apply reach_new. }
  split; [vm_compute; reflexivity|].
  apply (list_pages_complete paged_store no_inst_filter no_task_filter 1 H); [lia|vm_compute; reflexivity..].
Defined.
