(* ===== verification/StoreAlias.v ===== *)
(** * Copies and aliasing in the in-memory store ([src/store/memory.go])

    The other files take the records of the store as values.  In Go they are
    structures with maps, slices and pointers in them, and the engine and the
    store would see each other's changes if they shared one.  Here memory is a
    heap: the [clone] functions of the store walk it, and a table of the store
    is a map from identifiers to addresses.  The theorem [table_isolated] says
    that a table behaves as a map of values, whatever its users do with what
    they gave to the store or got from it.

    The users of a table are the engine, the server and the other tables: they
    make new objects, change any object they can reach, in any order. *)
From S2P Require Import Prelude GoFloat GoUtf8 GoTime ExprValue StoreTypes StoreQuery StoreMemory.
Local Open Scope string_scope.

(** ** The heap *)
Abbreviation loc := nat.
(** A slice: its array, where it starts in it, and its length. *)
Record slice := { sl_array : loc; sl_off : nat; sl_len : nat }.
(** What an [any] holds.  [AScalar] is a value without pointers, [ATyped] a
    slice of another type than [[]any] ([[]string] for example), which the
    functions below leave alone as they do every type they do not know. *)
Inductive any :=
| ANil
| AScalar (v : value)
| AMap (m : option loc)
| AList (s : option slice)
| ATyped (s : option slice).
(** The elements of arrays without pointers. *)
Inductive array_item := PStr (s : string) | PByte (c : Ascii.ascii) | PTool (t : ToolSpec).
(** The structures of the store: the slices and the maps of a record are
    pointers, next to its other fields; those of [r] are not looked at. *)
Inductive struct :=
| SDefinition (r : ProcDef) (xml : option slice)
| SInstance (r : Instance) (variables tokens multi : option loc)
| SToken (r : Token) (path owners : option slice) (locals : option loc)
| SLoop (r : MultiState) (items outputs : option slice)
| STask (r : Task) (users groups : option slice)
| SJob (r : Job)
| SExternal (r : ExternalTask) (variables : option loc)
| SAgentJob (r : AgentJob) (tools : option slice) (variables : option loc)
| SSub (r : Subscription)
| SIncident (r : Incident)
| SBlob (r : Blob) (data : option slice)
| SEvent (r : HistoryEvent) (detail : option loc).
Inductive cell :=
| CMap (m : gmap string any)
| CAnys (a : list any)
| CPlain (a : list array_item)
| CPtrs (m : gmap string loc)
| CStruct (s : struct).
Abbreviation heap := (gmap loc cell).

(** *** Programs over the heap

    [None] is a step that Go would not make: following an address of nothing or
    of something else, or no fuel. *)
Definition HM (A : Type) := heap -> option (A * heap).
#[export] Instance HM_ret : MRet HM := fun _ a h => Some (a, h).
#[export] Instance HM_bind : MBind HM := fun _ _ k m h => '(a, h) ← m h; k a h.
Definition stuck {A} : HM A := fun _ => None.
Definition deref (l : loc) : HM cell := fun h => c ← h !! l; Some (c, h).
Definition alloc (c : cell) : HM loc := fun h => let l := fresh (dom h) in Some (l, <[l := c]> h).
Definition the_heap : HM heap := fun h => Some (h, h).
Fixpoint mapH {A B} (f : A -> HM B) (l : list A) : HM (list B) :=
  match l with [] => mret [] | a :: l => b ← f a; bs ← mapH f l; mret (b :: bs) end.
Definition within {A} (s : slice) (a : list A) : list A := take (sl_len s) (drop (sl_off s) a).

(** ** Cloning *)
Section clone.
Context {MO : MapOrder}.

(** A loop over a Go map that makes another one; nobody sees the new map before
    it has its entries. *)
Definition range_map {A} (m : gmap string A) : HM (list (string * A)) := h ← the_heap; mret (map_range (size h) m).
Definition copy_entries {A B} (f : A -> HM B) (m : gmap string A) : HM (gmap string B) :=
  es ← range_map m;
  es ← mapH (fun ka => b ← f ka.2; mret (ka.1, b)) es;
  mret (list_to_map es).
(** [cloneValue].  A nil map gives an empty one, and a nil slice too. *)
Fixpoint clone_value (fuel : nat) (v : any) : HM any :=
  match fuel with
  | 0%nat => stuck
  | S fuel =>
      match v with
      | AMap None => l ← alloc (CMap ∅); mret (AMap (Some l))
      | AMap (Some l) =>
          c ← deref l;
          match c with
          | CMap m => out ← copy_entries (clone_value fuel) m; l ← alloc (CMap out); mret (AMap (Some l))
          | _ => stuck
          end
      | AList None => l ← alloc (CAnys []); mret (AList (Some {| sl_array := l; sl_off := 0; sl_len := 0 |}))
      | AList (Some s) =>
          c ← deref (sl_array s);
          match c with
          | CAnys a =>
              out ← mapH (clone_value fuel) (within s a);
              l ← alloc (CAnys out); mret (AList (Some {| sl_array := l; sl_off := 0; sl_len := length out |}))
          | _ => stuck
          end
      | ANil | AScalar _ | ATyped _ => mret v
      end
  end.
(** [cloneMap], [cloneSlice]: they do the same, but a nil slice stays nil. *)
Definition clone_map (fuel : nat) (m : option loc) : HM (option loc) :=
  v ← clone_value fuel (AMap m); match v with AMap m => mret m | _ => stuck end.
Definition clone_slice (fuel : nat) (s : option slice) : HM (option slice) :=
  match s with
  | None => mret None
  | Some _ => v ← clone_value fuel (AList s); match v with AList s => mret s | _ => stuck end
  end.
(** [if m != nil { ... = cloneMap(m) }] *)
Definition clone_set (fuel : nat) (m : option loc) : HM (option loc) := match m with None => mret None | Some _ => clone_map fuel m end.
(** [append([]T(nil), s...)]: nil when there is nothing to append. *)
Definition append_nil (s : option slice) : HM (option slice) :=
  match s with
  | None => mret None
  | Some s =>
      c ← deref (sl_array s);
      match c with
      | CPlain a =>
          match within s a with
          | [] => mret None
          | out => l ← alloc (CPlain out); mret (Some {| sl_array := l; sl_off := 0; sl_len := length out |})
          end
      | _ => stuck
      end
  end.
(** The loops of [cloneInstance]. *)
Definition clone_token (fuel : nat) (p : loc) : HM loc :=
  c ← deref p;
  match c with
  | CStruct (SToken r path owners locals) =>
      path ← append_nil path; owners ← append_nil owners; locals ← clone_set fuel locals;
      alloc (CStruct (SToken r path owners locals))
  | _ => stuck
  end.
Definition clone_loop (fuel : nat) (p : loc) : HM loc :=
  c ← deref p;
  match c with
  | CStruct (SLoop r items outputs) =>
      items ← clone_slice fuel items; outputs ← clone_slice fuel outputs;
      alloc (CStruct (SLoop r items outputs))
  | _ => stuck
  end.
Definition clone_ptrs (f : loc -> HM loc) (m : option loc) : HM (option loc) :=
  out ← match m with
        | None => mret ∅
        | Some l => c ← deref l; match c with CPtrs m => copy_entries f m | _ => stuck end
        end;
  l ← alloc (CPtrs out); mret (Some l).
(** The fields that [cp := *r] leaves shared, which the clone functions then
    replace: [cloneDefinition], [cloneInstance], [cloneTask], [cloneExternal],
    [cloneAgentJob], [cloneBlob] and the copy in [AppendHistory]; the other
    records have no such fields. *)
Definition clone_fields (fuel : nat) (s : struct) : HM struct :=
  match s with
  | SDefinition r xml => xml ← append_nil xml; mret (SDefinition r xml)
  | SInstance r variables tokens multi =>
      variables ← clone_map fuel variables;
      tokens ← clone_ptrs (clone_token fuel) tokens;
      multi ← match multi with None => mret None | Some _ => clone_ptrs (clone_loop fuel) multi end;
      mret (SInstance r variables tokens multi)
  | STask r users groups => users ← append_nil users; groups ← append_nil groups; mret (STask r users groups)
  | SExternal r variables => variables ← clone_set fuel variables; mret (SExternal r variables)
  | SAgentJob r tools variables => tools ← append_nil tools; variables ← clone_set fuel variables; mret (SAgentJob r tools variables)
  | SBlob r data => data ← append_nil data; mret (SBlob r data)
  | SEvent r detail => detail ← clone_set fuel detail; mret (SEvent r detail)
  | SJob _ | SSub _ | SIncident _ => mret s
  | SToken _ _ _ _ | SLoop _ _ _ => stuck
  end.
Definition clone (fuel : nat) (p : loc) : HM loc :=
  c ← deref p; match c with CStruct s => s ← clone_fields fuel s; alloc (CStruct s) | _ => stuck end.
End clone.

(** ** What the heap holds

    [reads R h v x]: following the pointers of [v] in [h], which leads through
    addresses of [R] only, gives the value [x].  A value with a typed slice in it
    reads as nothing. *)
Definition scalar (v : value) : bool := match v with VBool _ | VNum _ | VStr _ | VTime _ | VInt _ _ => true | _ => false end.
Inductive reads (R : gset loc) (h : heap) : any -> value -> Prop :=
| reads_nil : reads R h ANil VNil
| reads_scalar v : scalar v = true -> reads R h (AScalar v) v
| reads_map_nil : reads R h (AMap None) (VMap ∅)
| reads_map l m xs : l ∈ R -> h !! l = Some (CMap m) -> dom m = dom xs ->
    (forall k v x, m !! k = Some v -> xs !! k = Some x -> reads R h v x) -> reads R h (AMap (Some l)) (VMap xs)
| reads_list_nil : reads R h (AList None) (VList [])
| reads_list s a xs : sl_array s ∈ R -> h !! sl_array s = Some (CAnys a) -> length (within s a) = length xs ->
    (forall i v x, within s a !! i = Some v -> xs !! i = Some x -> reads R h v x) -> reads R h (AList (Some s)) (VList xs).
Definition reads_plain (R : gset loc) (h : heap) (s : option slice) (xs : list array_item) : Prop :=
  match s with
  | None => xs = []
  | Some s => sl_array s ∈ R /\ exists a, h !! sl_array s = Some (CPlain a) /\ within s a = xs
  end.
Definition reads_vars R h (m : option loc) (xs : vars) : Prop := reads R h (AMap m) (VMap xs).
Definition reads_values R h (s : option slice) (xs : list value) : Prop := reads R h (AList s) (VList xs).
(** The fields of a record without its slices and maps. *)
Definition bare_token (t : Token) : Token := set_tk_scope [] (set_tk_owners [] (set_tk_locals ∅ t)).
Definition bare_loop (l : MultiState) : MultiState :=
  {| mi_token := mi_token l; mi_total := mi_total l; mi_completed := mi_completed l; mi_next := mi_next l;
     mi_items := []; mi_outputs := [] |}.
Definition reads_token R h (l : loc) (t : Token) : Prop :=
  l ∈ R /\ exists r path owners locals, h !! l = Some (CStruct (SToken r path owners locals)) /\ bare_token r = bare_token t /\
    reads_plain R h path (map PStr (tk_scope t)) /\ reads_plain R h owners (map PStr (tk_owners t)) /\ reads_vars R h locals (tk_locals t).
Definition reads_loop R h (l : loc) (s : MultiState) : Prop :=
  l ∈ R /\ exists r items outputs, h !! l = Some (CStruct (SLoop r items outputs)) /\ bare_loop r = bare_loop s /\
    reads_values R h items (mi_items s) /\ reads_values R h outputs (mi_outputs s).
Definition reads_ptrs {A} (P : gset loc -> heap -> loc -> A -> Prop) R h (m : option loc) (xs : gmap string A) : Prop :=
  match m with
  | None => xs = ∅
  | Some l => l ∈ R /\ exists m, h !! l = Some (CPtrs m) /\ dom m = dom xs /\
                forall k p x, m !! k = Some p -> xs !! k = Some x -> P R h p x
  end.

(** The addresses in a cell. *)
Definition at_slice (s : option slice) : gset loc := match s with Some s => {[sl_array s]} | None => ∅ end.
Definition at_loc (l : option loc) : gset loc := match l with Some l => {[l]} | None => ∅ end.
Definition at_any (v : any) : gset loc :=
  match v with AMap m => at_loc m | AList s | ATyped s => at_slice s | ANil | AScalar _ => ∅ end.
Definition at_struct (s : struct) : gset loc :=
  match s with
  | SDefinition _ s | SBlob _ s => at_slice s
  | SInstance _ l1 l2 l3 => at_loc l1 ∪ at_loc l2 ∪ at_loc l3
  | SToken _ s1 s2 l => at_slice s1 ∪ at_slice s2 ∪ at_loc l
  | SLoop _ s1 s2 | STask _ s1 s2 => at_slice s1 ∪ at_slice s2
  | SAgentJob _ s l => at_slice s ∪ at_loc l
  | SExternal _ l | SEvent _ l => at_loc l
  | SJob _ | SSub _ | SIncident _ => ∅
  end.
Definition map_locs {A} (f : A -> gset loc) (m : gmap string A) : gset loc := ⋃ (map (fun ka => f ka.2) (map_to_list m)).
Definition at_cell (c : cell) : gset loc :=
  match c with
  | CMap m => map_locs at_any m
  | CAnys a => ⋃ (map at_any a)
  | CPlain _ => ∅
  | CPtrs m => map_locs singleton m
  | CStruct s => at_struct s
  end.
Lemma map_locs_subset {A} f (m : gmap string A) C : (forall k a, m !! k = Some a -> f a ⊆ C) -> map_locs f m ⊆ C.
Proof.
  intros H l. unfold map_locs. rewrite elem_of_union_list. intros (X & (ka & -> & Hin)%list_elem_of_fmap & Hl).
  destruct ka as [k a]. apply elem_of_map_to_list in Hin. by eapply H.
Qed.
Lemma list_locs_subset (a : list any) C : (forall i v, a !! i = Some v -> at_any v ⊆ C) -> ⋃ (map at_any a) ⊆ C.
Proof.
  intros H l. rewrite elem_of_union_list. intros (X & (v & -> & Hin)%list_elem_of_fmap & Hl).
  apply list_elem_of_lookup in Hin as [i Hi]. by eapply H.
Qed.

(** ** Frame properties *)
Definition keeps (R : gset loc) (h h' : heap) : Prop := forall l c, l ∈ R -> h !! l = Some c -> h' !! l = Some c.
Lemma keeps_weaken R h h' : h ⊆ h' -> keeps R h h'.
Proof. intros H l c _ Hc. by eapply lookup_weaken. Qed.
Lemma reads_frame R R' h h' v x : reads R h v x -> R ⊆ R' -> keeps R h h' -> reads R' h' v x.
Proof. intros H HR Hk. induction H; econstructor; eauto. Qed.
Lemma reads_at R h v x : reads R h v x -> at_any v ⊆ R.
Proof. intros []; cbn; set_solver. Qed.
(** Reading a value does not come by a structure. *)
Lemma reads_avoid R h v x l s : reads R h v x -> h !! l = Some (CStruct s) -> reads (R ∖ {[l]}) h v x.
Proof.
  intros H Hs. induction H; econstructor; eauto.
  - apply elem_of_difference. split; [done|]. intros E%elem_of_singleton. congruence.
  - apply elem_of_difference. split; [done|]. intros E%elem_of_singleton. congruence.
Qed.

(** ** Running a program that only makes new objects

    [runs B m h Q]: the program ends, leaves what was there as it is, and what
    it made has pointers only to objects outside of [B]. *)
Definition new (B : gset loc) (h : heap) : gset loc := dom h ∖ B.
Definition runs {A} (B : gset loc) (m : HM A) (h : heap) (Q : A -> heap -> Prop) : Prop :=
  exists a h', m h = Some (a, h') /\ h ⊆ h' /\
    (forall l c, h !! l = None -> h' !! l = Some c -> at_cell c ⊆ new B h') /\ Q a h'.
Lemma new_mono B h h' : h ⊆ h' -> new B h ⊆ new B h'.
Proof. intros H. unfold new. pose proof (subseteq_dom _ _ H). set_solver. Qed.
Lemma runs_ret {A} B (a : A) h (Q : A -> heap -> Prop) : Q a h -> runs B (mret a) h Q.
Proof. intros H. exists a, h. split_and!; [done|done| |done]. intros l c H1 H2. congruence. Qed.
Lemma runs_bind {A C} B (m : HM A) (k : A -> HM C) h Q :
  runs B m h (fun a h1 => runs B (k a) h1 Q) -> runs B (m ≫= k) h Q.
Proof.
  intros (a & h1 & H1 & Hs1 & Ht1 & c & h2 & H2 & Hs2 & Ht2 & HQ). exists c, h2.
  split_and!; [unfold mbind, HM_bind; by rewrite H1|by etrans| |done]. intros l cl Hn Hl.
  destruct (h1 !! l) as [cl'|] eqn:E.
  - pose proof (lookup_weaken _ _ _ _ E Hs2). assert (cl' = cl) as -> by congruence. etrans; [by eapply Ht1|by apply new_mono].
  - by eapply Ht2.
Qed.
Lemma runs_grow {A} B (m : HM A) h (Q Q' : A -> heap -> Prop) :
  runs B m h Q -> (forall a h', h ⊆ h' -> Q a h' -> Q' a h') -> runs B m h Q'.
Proof. intros (a & h' & H & Hs & Ht & HQ) HQ'. exists a, h'. eauto 10. Qed.
Lemma runs_deref B l c h (Q : cell -> heap -> Prop) : h !! l = Some c -> Q c h -> runs B (deref l) h Q.
Proof. intros Hl H. exists c, h. unfold deref. rewrite Hl. split_and!; [done|done| |done]. intros ? ? ? ?. congruence. Qed.
Lemma runs_alloc B c h (Q : loc -> heap -> Prop) : B ⊆ dom h -> at_cell c ⊆ new B h ->
  (forall l, l ∉ dom h -> Q l (<[l := c]> h)) -> runs B (alloc c) h Q.
Proof.
  intros HB Hc HQ. unfold alloc. pose proof (is_fresh (dom h)) as Hl. set (l := fresh (dom h)) in *.
  assert (h ⊆ <[l := c]> h) as Hs by (apply insert_subseteq; by apply not_elem_of_dom).
  exists l, (<[l := c]> h). split_and!; [done|done| |by apply HQ].
  intros l' c' Hn H'. destruct (decide (l' = l)) as [->|Hne]; [|rewrite lookup_insert_ne in H' by done; congruence].
  rewrite lookup_insert_eq in H'. injection H' as <-. etrans; [exact Hc|by apply new_mono].
Qed.
Lemma runs_new B l c h : B ⊆ dom h -> l ∉ dom h -> l ∈ new B (<[l := c]> h).
Proof. intros HB Hl. unfold new. rewrite dom_insert. set_solver. Qed.
Lemma runs_mapH {A C X} B (f : A -> HM C) (Q : C -> heap -> X -> Prop) h0 l xs :
  (forall c x h h', Q c h x -> h ⊆ h' -> Q c h' x) ->
  Forall2 (fun a x => forall h, h0 ⊆ h -> B ⊆ dom h -> runs B (f a) h (fun c h' => Q c h' x)) l xs ->
  forall h, h0 ⊆ h -> B ⊆ dom h -> runs B (mapH f l) h (fun out h' => Forall2 (fun c x => Q c h' x) out xs).
Proof.
  intros Hmono H. induction H as [|a x l xs Ha _ IH]; intros h Hs HB; cbn [mapH]; [by apply runs_ret|].
  apply runs_bind. eapply runs_grow; [by apply Ha|]. intros c h1 Hs1 Hc.
  apply runs_bind. eapply runs_grow; [apply IH; [by etrans|]|].
  { etrans; [exact HB|by apply subseteq_dom]. }
  intros out h2 Hs2 Hout. apply runs_ret. constructor; [exact (Hmono _ _ _ _ Hc Hs2)|done].
Qed.

(** ** Clones *)
Section clones.
Context {MO : MapOrder}.

(** With enough fuel [f] copies [a]: what [Q] says of the copy holds whatever
    was made meanwhile. *)
Definition copies {A C} (f : nat -> A -> HM C) (Q : gset loc -> C -> heap -> Prop) (h : heap) (a : A) : Prop :=
  exists n, forall fuel, (n <= fuel)%nat -> forall B h0, h ⊆ h0 -> B ⊆ dom h0 -> runs B (f fuel a) h0 (Q B).
Lemma enough_fuel {A} (l : list A) (T : A -> nat -> Prop) :
  (forall a, a ∈ l -> exists n, forall fuel, (n <= fuel)%nat -> T a fuel) ->
  exists n, forall fuel, (n <= fuel)%nat -> forall a, a ∈ l -> T a fuel.
Proof.
  induction l as [|a l IH]; intros H; [exists 0%nat; intros ? _ a Ha; by apply not_elem_of_nil in Ha|].
  destruct (H a (list_elem_of_here _ _)) as [n Hn], IH as [n' Hn']; [intros; apply H; by right|].
  exists (n + n')%nat. intros fuel Hf b [->|Hb]%elem_of_cons; [apply Hn; lia|apply Hn'; [lia|done]].
Qed.
(** A copy of the entries of a map has the same keys. *)
Definition entries_read {X C} (P : C -> heap -> X -> Prop) (xs : gmap string X) (out : gmap string C) (h : heap) : Prop :=
  dom out = dom xs /\ forall k c x, out !! k = Some c -> xs !! k = Some x -> P c h x.
Lemma runs_entries {A C X} B (f : A -> HM C) (P : C -> heap -> X -> Prop) (m : gmap string A) xs h0 :
  (forall c h h' x, P c h x -> h ⊆ h' -> P c h' x) -> dom m = dom xs ->
  (forall k a x, m !! k = Some a -> xs !! k = Some x -> forall h, h0 ⊆ h -> B ⊆ dom h -> runs B (f a) h (fun c h' => P c h' x)) ->
  forall h, h0 ⊆ h -> B ⊆ dom h -> runs B (copy_entries f m) h (entries_read P xs).
Proof.
  intros Hmono Hd Hf h Hs HB. unfold copy_entries, range_map, the_heap. apply runs_bind.
  exists (map_range (size h) m), h. split_and!; [done|done|intros; congruence|]. apply runs_bind.
  eapply runs_grow; [apply (runs_mapH B _ (fun kc h' (ka : string * A) => kc.1 = ka.1 /\ forall x, xs !! ka.1 = Some x -> P kc.2 h' x) h0 _ (map_range (size h) m))|..]; [| |done|done|].
  - intros kc ka h1 h2 [E HP] Hs12. split; [done|]. eauto.
  - apply Forall_Forall2_diag, Forall_forall. intros [k a] Hin%elem_of_map_range h1 Hs1 HB1. apply runs_bind. cbn.
    destruct (xs !! k) as [x|] eqn:Ex; [|apply (elem_of_dom_2 m) in Hin; rewrite Hd in Hin; by apply elem_of_dom in Hin as [? ?]; congruence].
    eapply runs_grow; [by eapply Hf|]. intros c h2 _ HP. apply runs_ret. split; [done|]. cbn. intros ? [= <-]. done.
  - intros es h1 _ Hes. apply runs_ret.
    assert (es.*1 = (map_range (size h) m).*1) as Hk by (clear -Hes; induction Hes as [|? ? ? ? [E _] _ IH]; cbn; congruence).
    split.
    + apply set_eq. intros k. rewrite dom_list_to_map_L, elem_of_list_to_set, Hk, <- Hd, list_elem_of_fmap, elem_of_dom. split.
      * intros ([? a] & -> & Ha%elem_of_map_range). by exists a.
      * intros [a Ha]. exists (k, a). split; [done|]. by apply elem_of_map_range.
    + intros k c x Hc%elem_of_list_to_map_2 Hx. clear Hk. induction Hes as [|ka kc ? ? [E HP] _ IH]; [by apply elem_of_nil in Hc|].
      apply elem_of_cons in Hc as [<-|Hc]; [cbn in *; subst; by apply HP|by apply IH].
Qed.

Lemma elem_of_within {A} s (a : list A) v i : within s a !! i = Some v -> v ∈ within s a.
Proof. apply list_elem_of_lookup_2. Qed.
Lemma clone_value_copies R h v x : reads R h v x -> copies clone_value (fun B v' h' => reads (new B h') h' v' x) h v.
Proof.
  intros H. induction H as [|v Hv| |l m xs Hl Hm Hd H IH| |s a xs Hl Ha Hlen H IH].
  - exists 1%nat. intros [|f] Hf B h0 Hs HB; [lia|]. apply runs_ret. constructor.
  - exists 1%nat. intros [|f] Hf B h0 Hs HB; [lia|]. apply runs_ret. by constructor.
  - exists 1%nat. intros [|f] Hf B h0 Hs HB; [lia|]. cbn [clone_value].
    apply runs_bind, runs_alloc; [done|apply map_locs_subset; intros k v Hk; by rewrite lookup_empty in Hk|].
    intros l Hl. apply runs_ret. apply reads_map with (m := ∅); [by apply runs_new|by rewrite lookup_insert_eq|by rewrite !dom_empty_L|].
    intros k v x Hk. by rewrite lookup_empty in Hk.
  - destruct (enough_fuel (map_to_list m) (fun kv fuel => forall x, xs !! kv.1 = Some x -> forall B h0, h ⊆ h0 -> B ⊆ dom h0 ->
      runs B (clone_value fuel kv.2) h0 (fun v' h' => reads (new B h') h' v' x))) as [n Hn].
    { intros [k v] Hin%elem_of_map_to_list. cbn. destruct (xs !! k) as [x|] eqn:Ex; [|by exists 0%nat].
      destruct (IH k v x Hin Ex) as [n Hn]. exists n. intros fuel Hf y [= <-]. by apply Hn. }
    exists (S n). intros [|f] Hf B h0 Hs HB; [lia|]. cbn [clone_value].
    apply runs_bind, (runs_deref _ _ (CMap m)); [by eapply lookup_weaken|]. cbn beta iota. apply runs_bind.
    eapply runs_grow; [apply (runs_entries B _ (fun v' h' x => reads (new B h') h' v' x) m xs h0); try done|].
    + intros v' h1 h2 x Hr Hs12. eapply reads_frame; [done|by apply new_mono|by apply keeps_weaken].
    + intros k v x Hv Hx h1 Hs1 HB1. apply (Hn f ltac:(lia) (k, v)); [by apply elem_of_map_to_list|done|by etrans|done].
    + intros out h1 Hs1 [Hdo Ho]. assert (B ⊆ dom h1) as HB1 by (etrans; [exact HB|by apply subseteq_dom]).
      assert (forall k c, out !! k = Some c -> exists x, xs !! k = Some x /\ reads (new B h1) h1 c x) as Hread.
      { intros k c Hc. assert (k ∈ dom xs) as [x Hx]%elem_of_dom by (rewrite <- Hdo; by eapply elem_of_dom_2). exists x. eauto. }
      apply runs_bind, runs_alloc; [done|cbn; apply map_locs_subset; intros k c (x & _ & Hr)%Hread; by apply reads_at in Hr|].
      intros l' Hl'. apply runs_ret. apply reads_map with (m := out); [by apply runs_new|by rewrite lookup_insert_eq|done|].
      intros k c x Hc Hx. destruct (Hread k c Hc) as (x' & Hx' & Hr). assert (x' = x) as -> by congruence.
      eapply reads_frame; [exact Hr|apply new_mono|apply keeps_weaken]; apply insert_subseteq; by apply not_elem_of_dom.
  - exists 1%nat. intros [|f] Hf B h0 Hs HB; [lia|]. cbn [clone_value]. apply runs_bind, runs_alloc; [done|cbn; set_solver|].
    intros l Hl. apply runs_ret. eapply reads_list; [by apply runs_new|by rewrite lookup_insert_eq|done|]. intros i v x Hi. by destruct i.
  - destruct (enough_fuel (zip (within s a) xs) (fun vx fuel => forall B h0, h ⊆ h0 -> B ⊆ dom h0 ->
      runs B (clone_value fuel vx.1) h0 (fun v' h' => reads (new B h') h' v' vx.2))) as [n Hn].
    { intros [v x] Hin. apply list_elem_of_lookup in Hin as [i Hi]. apply lookup_zip_Some in Hi as [Hv Hx]. by apply (IH i v x). }
    exists (S n). intros [|f] Hf B h0 Hs HB; [lia|]. cbn [clone_value].
    apply runs_bind, (runs_deref _ _ (CAnys a)); [by eapply lookup_weaken|]. cbn beta iota. apply runs_bind.
    eapply runs_grow; [apply (runs_mapH B _ (fun v' h' x => reads (new B h') h' v' x) h0 _ xs); try done|].
    + intros v' x h1 h2 Hr Hs12. eapply reads_frame; [done|by apply new_mono|by apply keeps_weaken].
    + apply Forall2_same_length_lookup. split; [done|]. intros i v x Hv Hx h1 Hs1 HB1.
      apply (Hn f ltac:(lia) (v, x)); [|by etrans|done]. apply (list_elem_of_lookup_2 _ i). apply lookup_zip_Some. done.
    + intros out h1 Hs1 Ho. assert (B ⊆ dom h1) as HB1 by (etrans; [exact HB|by apply subseteq_dom]).
      apply runs_bind, runs_alloc; [done|cbn; apply list_locs_subset; intros i c Hc;
        destruct (Forall2_lookup_l _ _ _ _ _ Ho Hc) as (x & _ & Hr); by apply reads_at in Hr|].
      intros l' Hl'. apply runs_ret. pose proof (Forall2_length _ _ _ Ho) as Hlo.
      assert (forall a, within {| sl_array := l'; sl_off := 0; sl_len := length a |} a = (a : list any)) as Hw by (intros; apply firstn_all).
      apply (reads_list _ _ _ out); [by apply runs_new|by rewrite lookup_insert_eq|by rewrite Hw|].
      rewrite Hw. intros i c x Hc Hx. destruct (Forall2_lookup_l _ _ _ _ _ Ho Hc) as (x' & Hx' & Hr). assert (x' = x) as -> by congruence.
      eapply reads_frame; [exact Hr|apply new_mono|apply keeps_weaken]; apply insert_subseteq; by apply not_elem_of_dom.
Qed.

(** *** Slices and maps of the records *)
Lemma clone_map_copies R h m xs : reads_vars R h m xs -> copies clone_map (fun B m' h' => reads_vars (new B h') h' m' xs) h m.
Proof.
  intros H. destruct (clone_value_copies _ _ _ _ H) as [n Hn]. exists n. intros fuel Hf B h0 Hs HB. apply runs_bind.
  eapply runs_grow; [by apply Hn|]. intros v h1 _ Hr. inversion Hr; subst; try discriminate; by apply runs_ret.
Qed.
Lemma clone_set_copies R h m xs : reads_vars R h m xs -> copies clone_set (fun B m' h' => reads_vars (new B h') h' m' xs) h m.
Proof.
  intros H. destruct m as [m|]; [by eapply clone_map_copies|]. exists 0%nat. intros fuel _ B h0 Hs HB. apply runs_ret.
  inversion H; subst. constructor.
Qed.
Lemma clone_slice_copies R h s xs : reads_values R h s xs -> copies clone_slice (fun B s' h' => reads_values (new B h') h' s' xs) h s.
Proof.
  intros H. destruct s as [s|].
  - destruct (clone_value_copies _ _ _ _ H) as [n Hn]. exists n. intros fuel Hf B h0 Hs HB. apply runs_bind.
    eapply runs_grow; [by apply Hn|]. intros v h1 _ Hr. inversion Hr; subst; try discriminate; by apply runs_ret.
  - exists 0%nat. intros fuel _ B h0 Hs HB. apply runs_ret. inversion H; subst. constructor.
Qed.
Lemma append_nil_runs R h s xs : reads_plain R h s xs ->
  forall B h0, h ⊆ h0 -> B ⊆ dom h0 -> runs B (append_nil s) h0 (fun s' h' => reads_plain (new B h') h' s' xs).
Proof.
  destruct s as [s|]; [|intros ->; intros; by apply runs_ret]. intros (Hs & a & Ha & <-) B h0 Hh HB. cbn [append_nil].
  apply runs_bind, (runs_deref _ _ (CPlain a)); [by eapply lookup_weaken|]. cbn beta iota.
  destruct (within s a) as [|e es] eqn:E; [by apply runs_ret|]. apply runs_bind, runs_alloc; [done|cbn; set_solver|].
  intros l Hl. apply runs_ret. cbn. split; [by apply runs_new|]. eexists. split; [by rewrite lookup_insert_eq|].
  unfold within. cbn. by rewrite firstn_all.
Qed.

(** What is read of new objects stays so while others are made. *)
Definition stable (P : gset loc -> heap -> Prop) : Prop := forall R R' h h', P R h -> R ⊆ R' -> keeps R h h' -> P R' h'.
Lemma stable_grow P B h h' : stable P -> P (new B h) h -> h ⊆ h' -> P (new B h') h'.
Proof. intros HP H Hs. eapply HP; [exact H|by apply new_mono|by apply keeps_weaken]. Qed.
Lemma stable_vars m xs : stable (fun R h => reads_vars R h m xs).
Proof. intros R R' h h'. apply reads_frame. Qed.
Lemma stable_values s xs : stable (fun R h => reads_values R h s xs).
Proof. intros R R' h h'. apply reads_frame. Qed.
Lemma stable_plain s xs : stable (fun R h => reads_plain R h s xs).
Proof. intros R R' h h'. destruct s as [s|]; [|done]. intros (Hs & a & Ha & E) HR Hk. split; [set_solver|eauto]. Qed.
Lemma stable_token l t : stable (fun R h => reads_token R h l t).
Proof.
  intros R R' h h' (Hl & r & p & o & v & Hc & Hb & Hp & Ho & Hv) HR Hk. split; [set_solver|]. exists r, p, o, v.
  split_and!; [by apply Hk|done|by eapply stable_plain|by eapply stable_plain|by eapply stable_vars].
Qed.
Lemma stable_loop l s : stable (fun R h => reads_loop R h l s).
Proof.
  intros R R' h h' (Hl & r & i & o & Hc & Hb & Hi & Ho) HR Hk. split; [set_solver|]. exists r, i, o.
  split_and!; [by apply Hk|done|by eapply stable_values|by eapply stable_values].
Qed.
Lemma stable_ptrs {A} (P : gset loc -> heap -> loc -> A -> Prop) m xs :
  (forall l x, stable (fun R h => P R h l x)) -> stable (fun R h => reads_ptrs P R h m xs).
Proof.
  intros HP R R' h h'. destruct m as [l|]; [|done]. intros (Hl & m & Hm & Hd & Hr) HR Hk. split; [set_solver|]. exists m.
  split_and!; [by apply Hk|done|]. intros k p x Hp Hx. eapply HP; eauto.
Qed.
Lemma at_plain R h s xs : reads_plain R h s xs -> at_slice s ⊆ R.
Proof. destruct s as [s|]; cbn; [intros [? _]; set_solver|set_solver]. Qed.
Lemma at_vars R h m xs : reads_vars R h m xs -> at_loc m ⊆ R.
Proof. apply reads_at. Qed.
Lemma at_values R h s xs : reads_values R h s xs -> at_slice s ⊆ R.
Proof. apply reads_at. Qed.
Lemma at_ptrs {A} (P : gset loc -> heap -> loc -> A -> Prop) R h m xs : reads_ptrs P R h m xs -> at_loc m ⊆ R.
Proof. destruct m as [l|]; cbn; [intros [? _]; set_solver|set_solver]. Qed.

(** *** Structures *)
Lemma grow_dom B (h h' : heap) : B ⊆ dom h -> h ⊆ h' -> B ⊆ dom h'.
Proof. intros HB Hs. etrans; [exact HB|by apply subseteq_dom]. Qed.
Lemma grow_insert (h : heap) l c : l ∉ dom h -> h ⊆ <[l := c]> h.
Proof. intros Hl. apply insert_subseteq. by apply not_elem_of_dom. Qed.
Ltac grows :=
  repeat first [done | by apply grow_insert | match goal with H : ?a ⊆ _ |- ?a ⊆ _ => etrans; [exact H|clear H] end].
Ltac kept :=
  (first [eapply (stable_grow _ _ _ _ (stable_plain _ _))|eapply (stable_grow _ _ _ _ (stable_vars _ _))
         |eapply (stable_grow _ _ _ _ (stable_values _ _))]; [eassumption|grows]).
(** The next call makes its copies, in the heap as it is then. *)
Ltac next lem h Hs H :=
  apply runs_bind; eapply runs_grow;
    [eapply lem; first [lia | solve [grows] | eapply grow_dom; [eassumption|solve [grows]]]|]; intros ? h Hs H; cbv beta in H.
Lemma clone_token_copies R h l t : reads_token R h l t -> copies clone_token (fun B l' h' => reads_token (new B h') h' l' t) h l.
Proof.
  intros (Hl & r & path & owners & locals & Hc & Hb & Hp & Ho & Hv). destruct (clone_set_copies _ _ _ _ Hv) as [n Hn].
  exists n. intros fuel Hf B h0 Hs HB. apply runs_bind, (runs_deref _ _ _ _ _ (lookup_weaken _ _ _ _ Hc Hs)). cbn beta iota.
  next (append_nil_runs _ _ _ _ Hp) h1 Hs1 Hp1. next (append_nil_runs _ _ _ _ Ho) h2 Hs2 Ho2. next Hn h3 Hs3 Hv3.
  apply runs_alloc; [eapply grow_dom; [exact HB|grows]|cbn|].
  - repeat apply union_least; [eapply at_plain; kept|eapply at_plain; kept|by eapply at_vars].
  - intros l' Hl'. split; [apply runs_new; [eapply grow_dom; [exact HB|grows]|done]|]. do 4 eexists.
    split_and!; [by rewrite lookup_insert_eq|done|kept|kept|kept].
Qed.
Lemma clone_loop_copies R h l s : reads_loop R h l s -> copies clone_loop (fun B l' h' => reads_loop (new B h') h' l' s) h l.
Proof.
  intros (Hl & r & items & outputs & Hc & Hb & Hi & Ho).
  destruct (clone_slice_copies _ _ _ _ Hi) as [n1 H1], (clone_slice_copies _ _ _ _ Ho) as [n2 H2].
  exists (n1 + n2)%nat. intros fuel Hf B h0 Hs HB. apply runs_bind, (runs_deref _ _ _ _ _ (lookup_weaken _ _ _ _ Hc Hs)). cbn beta iota.
  next H1 h1 Hs1 Hi1. next H2 h2 Hs2 Ho2.
  apply runs_alloc; [eapply grow_dom; [exact HB|grows]|cbn|].
  - apply union_least; [eapply at_values; kept|by eapply at_values].
  - intros l' Hl'. split; [apply runs_new; [eapply grow_dom; [exact HB|grows]|done]|]. do 3 eexists.
    split_and!; [by rewrite lookup_insert_eq|done|kept|kept].
Qed.
Lemma clone_ptrs_copies {A} (P : gset loc -> heap -> loc -> A -> Prop) f R h m xs :
  (forall l x, stable (fun R h => P R h l x)) -> (forall B h l x, P B h l x -> l ∈ B) ->
  (forall l x, P R h l x -> copies f (fun B l' h' => P (new B h') h' l' x) h l) ->
  reads_ptrs P R h m xs -> copies (fun fuel => clone_ptrs (f fuel)) (fun B m' h' => reads_ptrs P (new B h') h' m' xs) h m.
Proof.
  intros HP Hin Hf H.
  assert (copies (fun fuel m => match m with
                       | None => mret ∅
                       | Some l => c ← deref l; match c with CPtrs m => copy_entries (f fuel) m | _ => stuck end
                       end) (fun B => entries_read (fun l h x => P (new B h) h l x) xs) h m) as [n Hn].
  { destruct m as [l|]; cbn in H.
    - destruct H as (Hl & m & Hm & Hd & Hr).
      destruct (enough_fuel (map_to_list m) (fun kp fuel => forall x, xs !! kp.1 = Some x -> forall B h0, h ⊆ h0 -> B ⊆ dom h0 ->
        runs B (f fuel kp.2) h0 (fun l' h' => P (new B h') h' l' x))) as [n Hn].
      { intros [k p] Hkp%elem_of_map_to_list. cbn. destruct (xs !! k) as [x|] eqn:Ex; [|by exists 0%nat].
        destruct (Hf p x (Hr k p x Hkp Ex)) as [n Hn]. exists n. intros fuel Hfu y [= <-]. by apply Hn. }
      exists n. intros fuel Hfu B h0 Hs HB. apply runs_bind, (runs_deref _ _ _ _ _ (lookup_weaken _ _ _ _ Hm Hs)). cbn beta iota.
      apply (runs_entries B _ (fun l h x => P (new B h) h l x) m xs h0); [|done| |done|done].
      + intros l' h1 h2 x HPx Hs12. eapply (stable_grow (fun R h => P R h l' x)); eauto.
      + intros k p x Hp Hx h1 Hs1 HB1. apply (Hn fuel Hfu (k, p)); [by apply elem_of_map_to_list|done|grows|done].
    - subst xs. exists 0%nat. intros fuel _ B h0 Hs HB. apply runs_ret. split; [by rewrite !dom_empty_L|]. intros k c x Hc. by rewrite lookup_empty in Hc. }
  exists n. intros fuel Hfu B h0 Hs HB. unfold clone_ptrs. apply runs_bind. eapply runs_grow; [by apply Hn|]. intros out h1 Hs1 [Hd Hr].
  assert (forall k p, out !! k = Some p -> exists x, xs !! k = Some x /\ P (new B h1) h1 p x) as Hread.
  { intros k p Hp. assert (k ∈ dom xs) as [x Hx]%elem_of_dom by (rewrite <- Hd; by eapply elem_of_dom_2). exists x. eauto. }
  apply runs_bind, runs_alloc; [by eapply grow_dom| |].
  - cbn. apply map_locs_subset. intros k p (x & _ & HPx)%Hread. apply Hin in HPx. set_solver.
  - intros l' Hl'. apply runs_ret. cbn. split; [apply runs_new; [by eapply grow_dom|done]|]. exists out.
    split_and!; [by rewrite lookup_insert_eq|done|]. intros k p x Hp Hx. destruct (Hread k p Hp) as (x' & Hx' & HPx).
    assert (x' = x) as -> by congruence. eapply (stable_grow (fun R h => P R h p x)); [done|done|]. by apply grow_insert.
Qed.

(** *** The kinds of records

    What the table of a kind needs of it: its structures, the fields of a record
    that stand in the structure itself ([kp_bare] leaves out the others), what
    the others read as, the change of the former in place. *)
Class Kept (A : Type) := {
  kp_of : struct -> option A;
  kp_bare : A -> A;
  kp_fields : gset loc -> heap -> struct -> A -> Prop;
  kp_edit : (A -> A) -> struct -> struct;
  kp_stable s x : stable (fun R h => kp_fields R h s x);
  kp_at R h s x : kp_fields R h s x -> at_struct s ⊆ R;
  kp_clone R h s r x : kp_of s = Some r -> kp_fields R h s x ->
    copies clone_fields (fun B s' h' => kp_of s' = Some r /\ kp_fields (new B h') h' s' x) h s;
  kp_avoid R h s x s0 r0 l : kp_of s0 = Some r0 -> h !! l = Some (CStruct s0) -> kp_fields R h s x -> kp_fields (R ∖ {[l]}) h s x;
  kp_edit_of f s : kp_of (kp_edit f s) = f <$> kp_of s;
  kp_edit_at f s : at_struct (kp_edit f s) = at_struct s;
  kp_edit_fields f R h s x : kp_fields R h s x -> kp_fields R h (kp_edit f s) x;
}.
(** The structure at [l] is the record [x]. *)
Definition reads_record {A} `{Kept A} R h (l : loc) (x : A) : Prop :=
  l ∈ R /\ exists s r, h !! l = Some (CStruct s) /\ kp_of s = Some r /\ kp_bare r = kp_bare x /\ kp_fields R h s x.
Lemma stable_record {A} `{Kept A} l (x : A) : stable (fun R h => reads_record R h l x).
Proof.
  intros R R' h h' (Hl & s & r & Hc & Ho & Hb & Hf) HR Hk. split; [set_solver|]. exists s, r.
  split_and!; [by apply Hk|done|done|by eapply kp_stable].
Qed.
Lemma clone_copies {A} `{Kept A} R h l (x : A) : reads_record R h l x -> copies clone (fun B l' h' => reads_record (new B h') h' l' x) h l.
Proof.
  intros (Hl & s & r & Hc & Ho & Hb & Hf). destruct (kp_clone _ _ _ _ _ Ho Hf) as [n Hn].
  exists n. intros fuel Hfu B h0 Hs HB. apply runs_bind, (runs_deref _ _ _ _ _ (lookup_weaken _ _ _ _ Hc Hs)). cbn beta iota.
  apply runs_bind. eapply runs_grow; [by apply Hn|]. intros s' h1 Hs1 [Ho1 Hf1].
  apply runs_alloc; [by eapply grow_dom|by eapply kp_at|]. intros l' Hl'.
  split; [apply runs_new; [by eapply grow_dom|done]|]. exists s', r. split_and!; [by rewrite lookup_insert_eq|done|done|].
  eapply (stable_grow (fun R h => kp_fields R h s' x)); [apply kp_stable|exact Hf1|by apply grow_insert].
Qed.

(** Reading slices and maps does not come by a structure of a table. *)
Lemma avoid_plain R h s xs l s0 : reads_plain R h s xs -> h !! l = Some (CStruct s0) -> reads_plain (R ∖ {[l]}) h s xs.
Proof.
  destruct s as [s|]; [|done]. intros (Hs & a & Ha & E) Hl. split; [|eauto]. apply elem_of_difference. split; [done|].
  intros Hx%elem_of_singleton. congruence.
Qed.
Lemma avoid_ptrs {A} (P : gset loc -> heap -> loc -> A -> Prop) R h m xs l s0 :
  (forall p x, P R h p x -> P (R ∖ {[l]}) h p x) -> reads_ptrs P R h m xs -> h !! l = Some (CStruct s0) -> reads_ptrs P (R ∖ {[l]}) h m xs.
Proof.
  intros HP H Hl. destruct m as [p|]; [|done]. destruct H as (Hp & m & Hm & Hd & Hr). split.
  - apply elem_of_difference. split; [done|]. intros Hx%elem_of_singleton. congruence.
  - exists m. split_and!; [done..|]. eauto.
Qed.
Definition inner (s : struct) : bool := match s with SToken _ _ _ _ | SLoop _ _ _ => true | _ => false end.
Lemma avoid_token R h p t l s0 : inner s0 = false -> h !! l = Some (CStruct s0) -> reads_token R h p t -> reads_token (R ∖ {[l]}) h p t.
Proof.
  intros Hn Hl (Hp & r & path & owners & locals & Hc & Hb & H1 & H2 & H3). split.
  - apply elem_of_difference. split; [done|]. intros ->%elem_of_singleton. assert (s0 = SToken r path owners locals) as -> by congruence. done.
  - exists r, path, owners, locals. split_and!; [done|done|by eapply avoid_plain|by eapply avoid_plain|by eapply reads_avoid].
Qed.
Lemma avoid_loop R h p t l s0 : inner s0 = false -> h !! l = Some (CStruct s0) -> reads_loop R h p t -> reads_loop (R ∖ {[l]}) h p t.
Proof.
  intros Hn Hl (Hp & r & items & outputs & Hc & Hb & H1 & H2). split.
  - apply elem_of_difference. split; [done|]. intros ->%elem_of_singleton. assert (s0 = SLoop r items outputs) as -> by congruence. done.
  - exists r, items, outputs. split_and!; [done|done|by eapply reads_avoid|by eapply reads_avoid].
Qed.

(** *** The kinds *)
Definition bytes_of (s : string) : list array_item := map PByte (String.list_ascii_of_string s).
Definition bare_definition (d : ProcDef) : ProcDef :=
  {| pd_id := pd_id d; pd_tenant := pd_tenant d; pd_key := pd_key d; pd_version := pd_version d; pd_name := pd_name d;
     pd_xml := ""; pd_deployed := pd_deployed d |}.
Definition bare_instance (i : Instance) : Instance := set_in_vars ∅ (set_in_tokens ∅ (set_in_multi ∅ i)).
Definition bare_task (t : Task) : Task :=
  {| ta_id := ta_id t; ta_tenant := ta_tenant t; ta_inst := ta_inst t; ta_token := ta_token t; ta_element := ta_element t;
     ta_def_key := ta_def_key t; ta_name := ta_name t; ta_state := ta_state t; ta_assignee := ta_assignee t; ta_users := [];
     ta_groups := []; ta_form := ta_form t; ta_priority := ta_priority t; ta_due := ta_due t; ta_created := ta_created t;
     ta_completed := ta_completed t; ta_by := ta_by t |}.
Definition bare_external (t : ExternalTask) : ExternalTask :=
  {| ex_id := ex_id t; ex_inst := ex_inst t; ex_token := ex_token t; ex_element := ex_element t; ex_topic := ex_topic t;
     ex_state := ex_state t; ex_vars := ∅; ex_locked_by := ex_locked_by t; ex_lock_until := ex_lock_until t;
     ex_retries := ex_retries t; ex_created := ex_created t |}.
Definition bare_agent_job (j : AgentJob) : AgentJob :=
  {| ag_id := ag_id j; ag_tenant := ag_tenant j; ag_inst := ag_inst j; ag_token := ag_token j; ag_element := ag_element j;
     ag_agent := ag_agent j; ag_topic := ag_topic j; ag_prompt := ag_prompt j; ag_system := ag_system j; ag_tools := [];
     ag_model := ag_model j; ag_effort := ag_effort j; ag_max_tokens := ag_max_tokens j; ag_vars := ∅; ag_state := ag_state j;
     ag_locked_by := ag_locked_by j; ag_lock_until := ag_lock_until j; ag_retries := ag_retries j; ag_created := ag_created j |}.
Definition bare_blob (b : Blob) : Blob :=
  {| bl_kind := bl_kind b; bl_key := bl_key b; bl_tenant := bl_tenant b; bl_data := ""; bl_updated := bl_updated b |}.
Definition bare_event (ev : HistoryEvent) : HistoryEvent :=
  {| hv_seq := hv_seq ev; hv_inst := hv_inst ev; hv_time := hv_time ev; hv_type := hv_type ev; hv_element := hv_element ev; hv_detail := ∅ |}.

Ltac kinds := intros; repeat match goal with s : struct |- _ => destruct s; try done end.
#[local] Obligation Tactic := idtac.
Ltac keeps_fields :=
  intros s x R R' h h' HF HR Hk; destruct s; try done; cbn in *; repeat match goal with H : _ /\ _ |- _ => destruct H end; split_and?;
  first [by eapply stable_plain|by eapply stable_vars|idtac].
Ltac at_fields := kinds; cbn in *; repeat match goal with H : _ /\ _ |- _ => destruct H end;
  repeat match goal with H : reads_plain _ _ _ _ |- _ => apply at_plain in H | H : reads_vars _ _ _ _ |- _ => apply at_vars in H end; set_solver.
Ltac avoids := intros R h s x s0 r0 l Ho Hl HF; destruct s; try done; cbn in *; repeat match goal with H : _ /\ _ |- _ => destruct H end; split_and?;
  first [by eapply avoid_plain|by eapply reads_avoid|done].
Definition of_definition (s : struct) : option ProcDef := match s with SDefinition r _ => Some r | _ => None end.
Definition fields_definition (R : gset loc) (h : heap) (s : struct) (x : ProcDef) : Prop :=
  match s with SDefinition _ xml => reads_plain R h xml (bytes_of (pd_xml x)) | _ => False end.
Definition edit_definition (f : ProcDef -> ProcDef) (s : struct) : struct := match s with SDefinition r xml => SDefinition (f r) xml | _ => s end.
#[export] Program Instance kept_definition : Kept ProcDef :=
  {| kp_of := of_definition; kp_bare := bare_definition; kp_fields := fields_definition; kp_edit := edit_definition |}.
Next Obligation. keeps_fields. Qed.
Next Obligation. at_fields. Qed.
Next Obligation.
  intros R h [] r0 x; try done. intros [= <-] Hx. exists 0%nat. intros fuel Hf B h0 Hs HB. cbn [clone_fields].
  next (append_nil_runs _ _ _ _ Hx) h1 Hs1 H1. by apply runs_ret.
Qed.
Next Obligation. avoids. Qed.
Solve Obligations with kinds.
Definition of_instance (s : struct) : option Instance := match s with SInstance r _ _ _ => Some r | _ => None end.
Definition fields_instance (R : gset loc) (h : heap) (s : struct) (x : Instance) : Prop :=
  match s with SInstance _ variables tokens multi => reads_vars R h variables (in_vars x) /\ reads_ptrs reads_token R h tokens (in_tokens x) /\ reads_ptrs reads_loop R h multi (in_multi x) | _ => False end.
Definition edit_instance (f : Instance -> Instance) (s : struct) : struct := match s with SInstance r variables tokens multi => SInstance (f r) variables tokens multi | _ => s end.
#[export] Program Instance kept_instance : Kept Instance :=
  {| kp_of := of_instance; kp_bare := bare_instance; kp_fields := fields_instance; kp_edit := edit_instance |}.
Next Obligation.
  intros s x R R' h h' HF HR Hk. destruct s; try done. destruct HF as (H1 & H2 & H3). split_and!; [by eapply stable_vars|..].
  - eapply (stable_ptrs reads_token); eauto using stable_token.
  - eapply (stable_ptrs reads_loop); eauto using stable_loop.
Qed.
Next Obligation.
  kinds. destruct H as (H1 & H2 & H3). cbn. apply at_vars in H1. apply at_ptrs in H2, H3. set_solver.
Qed.
Next Obligation.
  intros R h [] r0 x; try done. intros [= <-] (H1 & H2 & H3). destruct (clone_map_copies _ _ _ _ H1) as [n1 Hn1].
  destruct (clone_ptrs_copies _ clone_token _ _ _ _ stable_token (fun _ _ _ _ H => proj1 H) (clone_token_copies _ _) H2) as [n2 Hn2].
  destruct (clone_ptrs_copies _ clone_loop _ _ _ _ stable_loop (fun _ _ _ _ H => proj1 H) (clone_loop_copies _ _) H3) as [n3 Hn3].
  exists (n1 + n2 + n3)%nat. intros fuel Hf B h0 Hs HB. cbn [clone_fields]. next Hn1 h1 Hs1 H4. next Hn2 h2 Hs2 H5.
  apply runs_bind. eapply runs_grow with (Q := fun m' h' => reads_ptrs reads_loop (new B h') h' m' (in_multi x)).
  { destruct multi as [m|]; [|by apply runs_ret]. apply Hn3; [lia|grows|eapply grow_dom; [exact HB|grows]]. }
  intros m h3 Hs3 H6. apply runs_ret. split; [done|]. split_and!; [kept| |done].
  eapply (stable_grow (fun R h => reads_ptrs reads_token R h _ _)); [by apply stable_ptrs, stable_token|done|grows].
Qed.
Next Obligation.
  intros R h s x s0 r0 l Ho Hl HF. destruct s; try done. destruct HF as (H1 & H2 & H3). assert (inner s0 = false) by (by destruct s0).
  split_and!; [by eapply reads_avoid|eapply avoid_ptrs; eauto using avoid_token|eapply avoid_ptrs; eauto using avoid_loop].
Qed.
Solve Obligations with kinds.
Definition of_task (s : struct) : option Task := match s with STask r _ _ => Some r | _ => None end.
Definition fields_task (R : gset loc) (h : heap) (s : struct) (x : Task) : Prop :=
  match s with STask _ users groups => reads_plain R h users (map PStr (ta_users x)) /\ reads_plain R h groups (map PStr (ta_groups x)) | _ => False end.
Definition edit_task (f : Task -> Task) (s : struct) : struct := match s with STask r users groups => STask (f r) users groups | _ => s end.
#[export] Program Instance kept_task : Kept Task :=
  {| kp_of := of_task; kp_bare := bare_task; kp_fields := fields_task; kp_edit := edit_task |}.
Next Obligation. keeps_fields. Qed.
Next Obligation. at_fields. Qed.
Next Obligation.
  intros R h [] r0 x; try done. intros [= <-] [H1 H2]. exists 0%nat. intros fuel Hf B h0 Hs HB. cbn [clone_fields].
  next (append_nil_runs _ _ _ _ H1) h1 Hs1 H3. next (append_nil_runs _ _ _ _ H2) h2 Hs2 H4.
  apply runs_ret. split; [done|]. split; [kept|done].
Qed.
Next Obligation. avoids. Qed.
Solve Obligations with kinds.
Definition of_job (s : struct) : option Job := match s with SJob r => Some r | _ => None end.
Definition fields_job (R : gset loc) (h : heap) (s : struct) (x : Job) : Prop :=
  match s with SJob _ => True | _ => False end.
Definition edit_job (f : Job -> Job) (s : struct) : struct := match s with SJob r => SJob (f r) | _ => s end.
#[export] Program Instance kept_job : Kept Job :=
  {| kp_of := of_job; kp_bare := id; kp_fields := fields_job; kp_edit := edit_job |}.
Next Obligation. keeps_fields. Qed.
Next Obligation. at_fields. Qed.
Next Obligation.
  intros R h [] r0 x; try done. intros [= <-] _. exists 0%nat. intros fuel _ B h0 Hs HB. by apply runs_ret.
Qed.
Next Obligation. avoids. Qed.
Solve Obligations with kinds.
Definition of_external (s : struct) : option ExternalTask := match s with SExternal r _ => Some r | _ => None end.
Definition fields_external (R : gset loc) (h : heap) (s : struct) (x : ExternalTask) : Prop :=
  match s with SExternal _ variables => reads_vars R h variables (ex_vars x) | _ => False end.
Definition edit_external (f : ExternalTask -> ExternalTask) (s : struct) : struct := match s with SExternal r variables => SExternal (f r) variables | _ => s end.
#[export] Program Instance kept_external : Kept ExternalTask :=
  {| kp_of := of_external; kp_bare := bare_external; kp_fields := fields_external; kp_edit := edit_external |}.
Next Obligation. keeps_fields. Qed.
Next Obligation. at_fields. Qed.
Next Obligation.
  intros R h [] r0 x; try done. intros [= <-] Hx. destruct (clone_set_copies _ _ _ _ Hx) as [n Hn].
  exists n. intros fuel Hf B h0 Hs HB. cbn [clone_fields]. next Hn h1 Hs1 H1. by apply runs_ret.
Qed.
Next Obligation. avoids. Qed.
Solve Obligations with kinds.
Definition of_agent_job (s : struct) : option AgentJob := match s with SAgentJob r _ _ => Some r | _ => None end.
Definition fields_agent_job (R : gset loc) (h : heap) (s : struct) (x : AgentJob) : Prop :=
  match s with SAgentJob _ tools variables => reads_plain R h tools (map PTool (ag_tools x)) /\ reads_vars R h variables (ag_vars x) | _ => False end.
Definition edit_agent_job (f : AgentJob -> AgentJob) (s : struct) : struct := match s with SAgentJob r tools variables => SAgentJob (f r) tools variables | _ => s end.
#[export] Program Instance kept_agent_job : Kept AgentJob :=
  {| kp_of := of_agent_job; kp_bare := bare_agent_job; kp_fields := fields_agent_job; kp_edit := edit_agent_job |}.
Next Obligation. keeps_fields. Qed.
Next Obligation. at_fields. Qed.
Next Obligation.
  intros R h [] r0 x; try done. intros [= <-] [H1 H2]. destruct (clone_set_copies _ _ _ _ H2) as [n Hn].
  exists n. intros fuel Hf B h0 Hs HB. cbn [clone_fields]. next (append_nil_runs _ _ _ _ H1) h1 Hs1 H3. next Hn h2 Hs2 H4.
  apply runs_ret. split; [done|]. split; [kept|done].
Qed.
Next Obligation. avoids. Qed.
Solve Obligations with kinds.
Definition of_sub (s : struct) : option Subscription := match s with SSub r => Some r | _ => None end.
Definition fields_sub (R : gset loc) (h : heap) (s : struct) (x : Subscription) : Prop :=
  match s with SSub _ => True | _ => False end.
Definition edit_sub (f : Subscription -> Subscription) (s : struct) : struct := match s with SSub r => SSub (f r) | _ => s end.
#[export] Program Instance kept_sub : Kept Subscription :=
  {| kp_of := of_sub; kp_bare := id; kp_fields := fields_sub; kp_edit := edit_sub |}.
Next Obligation. keeps_fields. Qed.
Next Obligation. at_fields. Qed.
Next Obligation.
  intros R h [] r0 x; try done. intros [= <-] _. exists 0%nat. intros fuel _ B h0 Hs HB. by apply runs_ret.
Qed.
Next Obligation. avoids. Qed.
Solve Obligations with kinds.
Definition of_incident (s : struct) : option Incident := match s with SIncident r => Some r | _ => None end.
Definition fields_incident (R : gset loc) (h : heap) (s : struct) (x : Incident) : Prop :=
  match s with SIncident _ => True | _ => False end.
Definition edit_incident (f : Incident -> Incident) (s : struct) : struct := match s with SIncident r => SIncident (f r) | _ => s end.
#[export] Program Instance kept_incident : Kept Incident :=
  {| kp_of := of_incident; kp_bare := id; kp_fields := fields_incident; kp_edit := edit_incident |}.
Next Obligation. keeps_fields. Qed.
Next Obligation. at_fields. Qed.
Next Obligation.
  intros R h [] r0 x; try done. intros [= <-] _. exists 0%nat. intros fuel _ B h0 Hs HB. by apply runs_ret.
Qed.
Next Obligation. avoids. Qed.
Solve Obligations with kinds.
Definition of_blob (s : struct) : option Blob := match s with SBlob r _ => Some r | _ => None end.
Definition fields_blob (R : gset loc) (h : heap) (s : struct) (x : Blob) : Prop :=
  match s with SBlob _ data => reads_plain R h data (bytes_of (bl_data x)) | _ => False end.
Definition edit_blob (f : Blob -> Blob) (s : struct) : struct := match s with SBlob r data => SBlob (f r) data | _ => s end.
#[export] Program Instance kept_blob : Kept Blob :=
  {| kp_of := of_blob; kp_bare := bare_blob; kp_fields := fields_blob; kp_edit := edit_blob |}.
Next Obligation. keeps_fields. Qed.
Next Obligation. at_fields. Qed.
Next Obligation.
  intros R h [] r0 x; try done. intros [= <-] Hx. exists 0%nat. intros fuel Hf B h0 Hs HB. cbn [clone_fields].
  next (append_nil_runs _ _ _ _ Hx) h1 Hs1 H1. by apply runs_ret.
Qed.
Next Obligation. avoids. Qed.
Solve Obligations with kinds.
Definition of_event (s : struct) : option HistoryEvent := match s with SEvent r _ => Some r | _ => None end.
Definition fields_event (R : gset loc) (h : heap) (s : struct) (x : HistoryEvent) : Prop :=
  match s with SEvent _ detail => reads_vars R h detail (hv_detail x) | _ => False end.
Definition edit_event (f : HistoryEvent -> HistoryEvent) (s : struct) : struct := match s with SEvent r detail => SEvent (f r) detail | _ => s end.
#[export] Program Instance kept_event : Kept HistoryEvent :=
  {| kp_of := of_event; kp_bare := bare_event; kp_fields := fields_event; kp_edit := edit_event |}.
Next Obligation. keeps_fields. Qed.
Next Obligation. at_fields. Qed.
Next Obligation.
  intros R h [] r0 x; try done. intros [= <-] Hx. destruct (clone_set_copies _ _ _ _ Hx) as [n Hn].
  exists n. intros fuel Hf B h0 Hs HB. cbn [clone_fields]. next Hn h1 Hs1 H1. by apply runs_ret.
Qed.
Next Obligation. avoids. Qed.
Solve Obligations with kinds.

(** *** More fuel changes nothing *)
Definition below_of {A} (m m' : HM A) : Prop := forall h r, m h = Some r -> m' h = Some r.
Lemma below_refl {A} (m : HM A) : below_of m m.
Proof. by intros h r. Qed.
Lemma below_bind {A C} (m m' : HM A) (k k' : A -> HM C) :
  below_of m m' -> (forall a, below_of (k a) (k' a)) -> below_of (m ≫= k) (m' ≫= k').
Proof.
  intros Hm Hk h r. unfold mbind, HM_bind. destruct (m h) as [[a h1]|] eqn:E; [|done]. rewrite (Hm _ _ E). cbn. apply Hk.
Qed.
Lemma below_mapH {A C} (f f' : A -> HM C) l : (forall a, below_of (f a) (f' a)) -> below_of (mapH f l) (mapH f' l).
Proof.
  intros Hf. induction l as [|a l IH]; cbn [mapH]; [apply below_refl|]. apply below_bind; [done|]. intros c.
  apply below_bind; [done|]. intros; apply below_refl.
Qed.
Lemma below_entries {A C} (f f' : A -> HM C) m : (forall a, below_of (f a) (f' a)) -> below_of (copy_entries f m) (copy_entries f' m).
Proof.
  intros Hf. apply below_bind; [apply below_refl|]. intros es. apply below_bind; [|intros; apply below_refl].
  apply below_mapH. intros ka. apply below_bind; [apply Hf|]. intros; apply below_refl.
Qed.
Ltac fueled := intros; repeat first
  [apply below_refl | match goal with H : forall _, below_of _ _ |- _ => apply H end | by intros ? ? [=] | apply below_bind; [|intros ?] | apply below_mapH; intros ? | apply below_entries; intros ? | case_match | done].
Lemma clone_value_fuel n : forall fuel v, (n <= fuel)%nat -> below_of (clone_value n v) (clone_value fuel v).
Proof.
  induction n as [|n IH]; intros [|fuel] v Hf; try lia; [by intros h r| by intros h r|]. cbn [clone_value].
  assert (forall v, below_of (clone_value n v) (clone_value fuel v)) as Hc by (intros; apply IH; lia). fueled.
Qed.
Lemma clone_map_fuel n fuel m : (n <= fuel)%nat -> below_of (clone_map n m) (clone_map fuel m).
Proof. intros Hf. unfold clone_map. apply below_bind; [by apply clone_value_fuel|]. fueled. Qed.
Lemma clone_set_fuel n fuel m : (n <= fuel)%nat -> below_of (clone_set n m) (clone_set fuel m).
Proof. intros Hf. unfold clone_set. case_match; [by apply clone_map_fuel|]. fueled. Qed.
Lemma clone_slice_fuel n fuel m : (n <= fuel)%nat -> below_of (clone_slice n m) (clone_slice fuel m).
Proof. intros Hf. unfold clone_slice. case_match; [|fueled]. apply below_bind; [by apply clone_value_fuel|]. fueled. Qed.
Lemma clone_fields_fuel n fuel s : (n <= fuel)%nat -> below_of (clone_fields n s) (clone_fields fuel s).
Proof.
  intros Hf. pose proof (fun m => clone_map_fuel n fuel m Hf) as Hm. pose proof (fun m => clone_set_fuel n fuel m Hf) as Hs.
  pose proof (fun m => clone_slice_fuel n fuel m Hf) as Hl.
  assert (forall p, below_of (clone_token n p) (clone_token fuel p)) as Ht by (intros; unfold clone_token; fueled).
  assert (forall p, below_of (clone_loop n p) (clone_loop fuel p)) as Ho by (intros; unfold clone_loop; fueled).
  unfold clone_fields, clone_ptrs. fueled.
Qed.
Lemma clone_fuel n fuel p : (n <= fuel)%nat -> below_of (clone n p) (clone fuel p).
Proof. intros Hf. unfold clone. pose proof (fun s => clone_fields_fuel n fuel s Hf). fueled. Qed.
End clones.

(** ** A table of the store *)

(** What a [Put] does besides cloning: [row_stamp] changes the clone
    ([PutInstance] counts the revision), [row_back] writes that to the record of
    the caller. *)
Definition plain_edit {A} `{Kept A} (key : A -> string) (f : A -> A) : Prop :=
  (forall r x, kp_bare r = kp_bare x -> kp_bare (f r) = kp_bare (f x)) /\
  (forall R h s x, kp_fields R h s x -> kp_fields R h s (f x)) /\ forall x, key (f x) = key x.
Class Row (A : Type) `{Kept A} := {
  row_key : A -> string;
  row_stamp : A -> A;
  row_back : struct -> struct -> struct;
  row_key_bare r x : kp_bare r = kp_bare x -> row_key r = row_key x;
  row_stamp_plain : plain_edit row_key row_stamp;
  row_back_at s s' : at_struct (row_back s s') = at_struct s';
}.
(** [tb_known] are the addresses that the users of the table have. *)
Record table := { tb_heap : heap; tb_rows : gmap string loc; tb_known : gset loc }.
Definition set_struct (l : loc) (s : struct) (h : heap) : heap := <[l := CStruct s]> h.

Section table.
Context {MO : MapOrder} {A : Type} {K : Kept A} {W : Row A}.
Implicit Types (t : table) (M : gmap string A).

(** [PutInstance] and its kin. *)
Definition put (fuel : nat) (p : loc) t : option table :=
  '(l, h) ← clone fuel p (tb_heap t);
  match h !! l, h !! p with
  | Some (CStruct s), Some (CStruct s0) =>
      r ← kp_of s;
      let s := kp_edit row_stamp s in
      Some {| tb_heap := set_struct p (row_back s s0) (set_struct l s h); tb_rows := <[row_key r := l]> (tb_rows t);
              tb_known := tb_known t |}
  | _, _ => None
  end.
(** [GetInstance] and its kin; a list is such a clone for each of its records. *)
Definition get (fuel : nat) (id : string) t : option (option loc * table) :=
  match tb_rows t !! id with
  | None => Some (None, t)
  | Some l =>
      '(p, h) ← clone fuel l (tb_heap t);
      Some (Some p, {| tb_heap := h; tb_rows := tb_rows t; tb_known := {[p]} ∪ tb_known t |})
  end.
(** A change of a stored record in its place, as [FetchAndLockExternalTasks]
    makes. *)
Definition edit (f : A -> A) (id : string) t : table :=
  match tb_rows t !! id with
  | None => t
  | Some l =>
      match tb_heap t !! l with
      | Some (CStruct s) => {| tb_heap := set_struct l (kp_edit f s) (tb_heap t); tb_rows := tb_rows t; tb_known := tb_known t |}
      | _ => t
      end
  end.
Definition remove (id : string) t : table := {| tb_heap := tb_heap t; tb_rows := delete id (tb_rows t); tb_known := tb_known t |}.

(** What the users do: make an object, change one that they have, and follow
    the addresses in it. *)
Inductive uses t : table -> Prop :=
| uses_alloc c : at_cell c ⊆ tb_known t ->
    uses t {| tb_heap := <[fresh (dom (tb_heap t)) := c]> (tb_heap t); tb_rows := tb_rows t;
              tb_known := {[fresh (dom (tb_heap t))]} ∪ tb_known t |}
| uses_write l c : l ∈ tb_known t -> at_cell c ⊆ tb_known t ->
    uses t {| tb_heap := <[l := c]> (tb_heap t); tb_rows := tb_rows t; tb_known := tb_known t |}
| uses_follow l c : l ∈ tb_known t -> tb_heap t !! l = Some c ->
    uses t {| tb_heap := tb_heap t; tb_rows := tb_rows t; tb_known := at_cell c ∪ tb_known t |}.
(** The table and the map of values that it stands for, from an empty table on;
    what is put is a record without typed slices in it. *)
Inductive history : table -> gmap string A -> Prop :=
| history_new h K : K ⊆ dom h -> (forall l c, h !! l = Some c -> at_cell c ⊆ dom h) ->
    history {| tb_heap := h; tb_rows := ∅; tb_known := K |} ∅
| history_uses t t' M : history t M -> uses t t' -> history t' M
| history_put fuel p x t t' M : history t M -> p ∈ tb_known t -> reads_record (dom (tb_heap t)) (tb_heap t) p x ->
    put fuel p t = Some t' -> history t' (<[row_key x := row_stamp x]> M)
| history_get fuel id p t t' M : history t M -> get fuel id t = Some (p, t') -> history t' M
| history_edit f id t M : history t M -> plain_edit row_key f -> history (edit f id t) (alter f id M)
| history_remove id t M : history t M -> history (remove id t) (delete id M).

(** *** The region of the table *)

(** [S] is what the table owns: its rows are read there, and no address leads
    into it from outside. *)
Record owned (S : gset loc) t M : Prop := {
  ow_dom : S ⊆ dom (tb_heap t);
  ow_known : tb_known t ⊆ dom (tb_heap t) ∖ S;
  ow_closed l c : l ∉ S -> tb_heap t !! l = Some c -> at_cell c ⊆ dom (tb_heap t) ∖ S;
  ow_rows id : match tb_rows t !! id, M !! id with
               | Some l, Some x => reads_record S (tb_heap t) l x /\ row_key x = id
               | None, None => True
               | _, _ => False
               end;
}.

Lemma clone_result R h l x fuel p h' : reads_record R h l x -> clone fuel l h = Some (p, h') ->
  h ⊆ h' /\ (forall l' c, h !! l' = None -> h' !! l' = Some c -> at_cell c ⊆ dom h' ∖ dom h) /\ reads_record (dom h' ∖ dom h) h' p x.
Proof.
  intros Hx Hc. destruct (clone_copies _ _ _ _ Hx) as [n Hn].
  destruct (Hn (n + fuel)%nat ltac:(lia) (dom h) h) as (p' & h2 & H1 & Hs & Ht & Hr); [done|done|].
  apply (clone_fuel fuel (n + fuel)) in Hc; [|lia]. rewrite Hc in H1. injection H1 as <- <-. done.
Qed.
(** A record changes in its place, and another one does not. *)
Lemma record_edit key f R h l s x : plain_edit key f -> reads_record R h l x -> h !! l = Some (CStruct s) ->
  reads_record R (set_struct l (kp_edit f s) h) l (f x).
Proof.
  intros (Hb & Hf & _) (Hl & s0 & r & Hc & Ho & Hbare & Hfields) Hs. assert (s0 = s) as -> by congruence.
  split; [done|]. exists (kp_edit f s), (f r). split_and!; [apply lookup_insert_eq|by rewrite kp_edit_of, Ho|by apply Hb|].
  apply Hf, kp_edit_fields. eapply kp_stable; [exact (kp_avoid R h s x s r l Ho Hc Hfields)|set_solver|].
  intros l' c Hl' Hc'. unfold set_struct. rewrite lookup_insert_ne by set_solver. done.
Qed.
Lemma record_other R h l l' s r s' (x : A) : l <> l' -> h !! l = Some (CStruct s) -> kp_of s = Some r -> reads_record R h l' x ->
  reads_record R (set_struct l s' h) l' x.
Proof.
  intros Hne Hs Hr (Hl & s0 & r0 & Hc & Ho & Hbare & Hfields). split; [done|]. exists s0, r0. unfold set_struct.
  split_and!; [by rewrite lookup_insert_ne|done|done|]. eapply kp_stable; [exact (kp_avoid R h s0 x s r l Hr Hs Hfields)|set_solver|].
  intros l2 c Hl2 Hc2. rewrite lookup_insert_ne by set_solver. done.
Qed.
(** Changes outside of its region leave the table alone. *)
Lemma rows_frame S t M h' : owned S t M -> keeps S (tb_heap t) h' ->
  forall id, match tb_rows t !! id, M !! id with
             | Some l, Some x => reads_record S h' l x /\ row_key x = id
             | None, None => True
             | _, _ => False
             end.
Proof.
  intros Ho Hk id. pose proof (ow_rows _ _ _ Ho id) as Hr. destruct (tb_rows t !! id), (M !! id); try done.
  destruct Hr as [Hr He]. split; [|done]. by eapply stable_record.
Qed.
Lemma owned_uses S t t' M : owned S t M -> uses t t' -> owned S t' M.
Proof.
  intros Ho Hu. pose proof (ow_dom _ _ _ Ho) as Hd. pose proof (ow_known _ _ _ Ho) as Hk. pose proof (ow_closed _ _ _ Ho) as Hc.
  destruct Hu as [c Hat|l c Hl Hat|l c Hl Hcl].
  - pose proof (is_fresh (dom (tb_heap t))) as Hf. set (l := fresh (dom (tb_heap t))) in *. split; cbn.
    + rewrite dom_insert_L. set_solver.
    + rewrite dom_insert_L. set_solver.
    + intros l' c' Hl' Hc'. rewrite dom_insert_L. apply lookup_insert_Some in Hc' as [[<- <-]|[_ Hc']]; [set_solver|].
      specialize (Hc _ _ Hl' Hc'). set_solver.
    + apply (rows_frame S t M); [done|]. intros l' c' Hl' Hc'. rewrite lookup_insert_ne by set_solver. done.
  - assert (l ∈ dom (tb_heap t) ∖ S) as Hld by set_solver.
    assert (dom (<[l := c]> (tb_heap t)) = dom (tb_heap t)) as Hdom by (rewrite dom_insert_L; set_solver).
    split; cbn; rewrite ?Hdom; [done|done| |].
    + intros l' c' Hl' Hc'. apply lookup_insert_Some in Hc' as [[<- <-]|[_ Hc']]; [set_solver|by eapply Hc].
    + apply (rows_frame S t M); [done|]. intros l' c' Hl' Hc'. rewrite lookup_insert_ne by set_solver. done.
  - assert (at_cell c ⊆ dom (tb_heap t) ∖ S) by (apply (Hc l); set_solver).
    split; cbn; [done|set_solver|done|by apply (ow_rows _ _ _ Ho)].
Qed.
Lemma owned_get S t M fuel id p t' : owned S t M -> get fuel id t = Some (p, t') -> owned S t' M.
Proof.
  intros Ho. unfold get. pose proof (ow_rows _ _ _ Ho id) as Hr. destruct (tb_rows t !! id) as [l|]; [|by intros [= <- <-]].
  destruct (M !! id) as [x|]; [|done]. destruct Hr as [Hr _].
  destruct (clone fuel l (tb_heap t)) as [[q h]|] eqn:E; [|done]. intros [= <- <-].
  destruct (clone_result _ _ _ _ _ _ _ Hr E) as (Hs & Hnew & Hq & _). pose proof (subseteq_dom _ _ Hs) as Hds.
  pose proof (ow_dom _ _ _ Ho) as Hd. pose proof (ow_known _ _ _ Ho) as Hk. split; cbn; [set_solver|set_solver| |].
  - intros l' c Hl' Hc. destruct (tb_heap t !! l') as [c'|] eqn:E'.
    + pose proof (lookup_weaken _ _ _ _ E' Hs). assert (c' = c) as -> by congruence. pose proof (ow_closed _ _ _ Ho _ _ Hl' E'). set_solver.
    + specialize (Hnew _ _ E' Hc). set_solver.
  - apply (rows_frame S t M); [done|]. by apply keeps_weaken.
Qed.
(** What [put] does, once the clone is there. *)
Lemma put_result R t p x fuel : reads_record R (tb_heap t) p x -> p ∈ dom (tb_heap t) ->
  forall t', put fuel p t = Some t' ->
  exists l h s0 s0', clone fuel p (tb_heap t) = Some (l, h) /\ (l ∉ dom (tb_heap t)) /\ tb_heap t !! p = Some (CStruct s0) /\
    at_struct s0' = at_struct s0 /\ tb_rows t' = <[row_key x := l]> (tb_rows t) /\ tb_known t' = tb_known t /\
    dom (tb_heap t') = dom h /\ (forall l', l' <> l -> l' <> p -> tb_heap t' !! l' = h !! l') /\
    tb_heap t' !! p = Some (CStruct s0') /\ reads_record (dom h ∖ dom (tb_heap t)) (tb_heap t') l (row_stamp x).
Proof.
  intros Hx Hp t'. unfold put. destruct (clone fuel p (tb_heap t)) as [[l h]|] eqn:E; [|done]. cbn.
  destruct (clone_result _ _ _ _ _ _ _ Hx E) as (Hs & _ & Hl). pose proof Hl as (Hld & s & r & Hc & Ho & Hbare & _). rewrite Hc.
  destruct Hx as (_ & s0 & _ & Hc0 & _). rewrite (lookup_weaken _ _ _ _ Hc0 Hs), Ho. intros [= <-].
  assert (l <> p) as Hne by set_solver. exists l, h, s0, (row_back (kp_edit row_stamp s) s0). cbn. unfold set_struct.
  pose proof (subseteq_dom _ _ Hs) as Hds. split_and!; try done.
  - set_solver.
  - apply row_back_at.
  - by rewrite (row_key_bare _ _ Hbare).
  - rewrite !dom_insert_L. set_solver.
  - intros l' H1 H2. by rewrite !lookup_insert_ne.
  - apply lookup_insert_eq.
  - eapply stable_record; [eapply (record_edit row_key row_stamp); [apply row_stamp_plain|exact Hl|exact Hc]|done|].
    intros l' c Hl' Hc'. rewrite lookup_insert_ne by set_solver. done.
Qed.
Lemma owned_put S t M fuel p x t' : owned S t M -> p ∈ tb_known t -> reads_record (dom (tb_heap t)) (tb_heap t) p x ->
  put fuel p t = Some t' -> exists S', owned S' t' (<[row_key x := row_stamp x]> M).
Proof.
  intros Ho Hp Hx Hput. pose proof (ow_dom _ _ _ Ho) as Hd. pose proof (ow_known _ _ _ Ho) as Hk.
  destruct (put_result _ _ _ _ _ Hx ltac:(set_solver) _ Hput) as (l & h & s0 & s0' & E & Hl & Hc0 & Hat & Hrows & Hkn & Hdom & Hsame & Hcp & Hr).
  destruct (clone_result _ _ _ _ _ _ _ Hx E) as (Hs & Hnew & _). pose proof (subseteq_dom _ _ Hs) as Hds.
  assert (keeps S (tb_heap t) (tb_heap t')) as Hkeep.
  { intros l' c Hl' Hc'. rewrite Hsame by set_solver. by eapply lookup_weaken. }
  exists (S ∪ (dom h ∖ dom (tb_heap t))). split; rewrite ?Hdom, ?Hkn.
  - set_solver.
  - set_solver.
  - intros l' c Hl' Hc'. destruct (decide (l' = p)) as [->|Hne].
    + assert (c = CStruct s0') as -> by congruence. cbn. rewrite Hat.
      pose proof (ow_closed _ _ _ Ho p _ ltac:(set_solver) Hc0) as H1. cbn in H1. set_solver.
    + rewrite Hsame in Hc' by (try done; intros ->; apply (elem_of_dom_2 _ _ _ ) in Hc'; set_solver).
      pose proof (elem_of_dom_2 _ _ _ Hc') as Hl2. destruct (tb_heap t !! l') as [c'|] eqn:E'; [|apply not_elem_of_dom in E'; set_solver].
      pose proof (lookup_weaken _ _ _ _ E' Hs). assert (c' = c) as -> by congruence.
      pose proof (ow_closed _ _ _ Ho l' _ ltac:(set_solver) E'). set_solver.
  - intros id. rewrite Hrows. destruct (decide (id = row_key x)) as [->|Hne].
    + rewrite !lookup_insert_eq. destruct row_stamp_plain as (_ & _ & Hkey). split; [|apply Hkey].
      eapply stable_record; [exact Hr|set_solver|by intros ? ? ?].
    + rewrite !lookup_insert_ne by done. pose proof (rows_frame S t M _ Ho Hkeep id) as Hrow.
      destruct (tb_rows t !! id), (M !! id); try done. destruct Hrow as [Hrow He]. split; [|done].
      eapply stable_record; [exact Hrow|set_solver|by intros ? ? ?].
Qed.
Lemma owned_edit S t M f id : owned S t M -> plain_edit row_key f -> owned S (edit f id t) (alter f id M).
Proof.
  intros Ho Hf. unfold edit. pose proof (ow_rows _ _ _ Ho id) as Hr. destruct (tb_rows t !! id) as [l|] eqn:El.
  2: { destruct (M !! id) eqn:EM; [done|]. destruct Ho as [H1 H2 H3 H4]. split; [done..|]. intros id'.
       destruct (decide (id = id')) as [<-|Hne]; [by rewrite lookup_alter_eq, El, EM|rewrite lookup_alter_ne by done; apply H4]. }
  destruct (M !! id) as [x|] eqn:EM; [|done]. destruct Hr as [Hr Hid]. pose proof Hr as (Hl & s & r & Hc & Hof & Hbare & _). rewrite Hc.
  pose proof (ow_dom _ _ _ Ho) as Hd. pose proof (ow_known _ _ _ Ho) as Hk.
  assert (dom (set_struct l (kp_edit f s) (tb_heap t)) = dom (tb_heap t)) as Hdom by (unfold set_struct; rewrite dom_insert_L; set_solver).
  split; cbn; rewrite ?Hdom; [done|done| |].
  - intros l' c Hl' Hc'. unfold set_struct in Hc'. rewrite lookup_insert_ne in Hc' by set_solver. by eapply (ow_closed _ _ _ Ho).
  - intros id'. destruct (decide (id = id')) as [<-|Hne].
    + rewrite El, lookup_alter_eq, EM. cbn. split; [by eapply record_edit|]. destruct Hf as (_ & _ & Hkey). by rewrite Hkey.
    + rewrite lookup_alter_ne by done. pose proof (ow_rows _ _ _ Ho id') as Hr'.
      destruct (tb_rows t !! id') as [l'|], (M !! id') as [x'|]; try done. destruct Hr' as [Hr' Hid']. split; [|done].
      eapply record_other; [|exact Hc|exact Hof|exact Hr']. intros ->. destruct Hr' as (_ & s' & r' & Hc' & Hof' & Hbare' & _).
      assert (r' = r) as -> by congruence. apply Hne. rewrite <- Hid, <- Hid'. apply row_key_bare. congruence.
Qed.
Lemma owned_remove S t M id : owned S t M -> owned S (remove id t) (delete id M).
Proof.
  intros [H1 H2 H3 H4]. split; [done..|]. intros id'. cbn. destruct (decide (id = id')) as [<-|Hne]; [by rewrite !lookup_delete_eq|].
  rewrite !lookup_delete_ne by done. apply H4.
Qed.
Lemma history_owned t M : history t M -> exists S, owned S t M.
Proof.
  intros Hh. induction Hh as [h Kn HK Hcl|t t' M _ [S IH] Hu|fuel p x t t' M _ [S IH] Hp Hx Hput|fuel id p t t' M _ [S IH] Hg|f id t M _ [S IH] Hf|id t M _ [S IH]].
  - exists ∅. split; cbn; [set_solver|set_solver|intros l c _ Hc; specialize (Hcl l c Hc); set_solver|]. intros id. by rewrite !lookup_empty.
  - exists S. by eapply owned_uses.
  - by eapply owned_put.
  - exists S. by eapply owned_get.
  - exists S. by apply owned_edit.
  - exists S. by apply owned_remove.
Qed.

(** C4: a table of the store behaves as a map of values.  Whatever its users
    write into the objects they have, those they put into it and those they got
    from it included, and in whatever order: an identifier gives the record
    that was put last, with the changes of the store, in memory that nobody has
    an address of, or nothing when there is none.  And every record without a
    typed slice in it can be put. *)
Theorem table_isolated t M : history t M ->
  (forall id, M !! id = None -> forall fuel, get fuel id t = Some (None, t)) /\
  (forall id x, M !! id = Some x -> exists n, forall fuel, (n <= fuel)%nat -> exists p t',
     get fuel id t = Some (Some p, t') /\ tb_heap t ⊆ tb_heap t' /\
     reads_record (dom (tb_heap t') ∖ dom (tb_heap t)) (tb_heap t') p x) /\
  (forall p x, p ∈ tb_known t -> reads_record (dom (tb_heap t)) (tb_heap t) p x ->
     exists n, forall fuel, (n <= fuel)%nat -> is_Some (put fuel p t)).
Proof.
  intros [S Ho]%history_owned. split_and!.
  - intros id Hid fuel. unfold get. pose proof (ow_rows _ _ _ Ho id) as Hr. rewrite Hid in Hr. by destruct (tb_rows t !! id).
  - intros id x Hid. unfold get. pose proof (ow_rows _ _ _ Ho id) as Hr. rewrite Hid in Hr. destruct (tb_rows t !! id) as [l|]; [|done].
    destruct Hr as [Hr _]. destruct (clone_copies _ _ _ _ Hr) as [n Hn]. exists n. intros fuel Hf.
    destruct (Hn fuel Hf (dom (tb_heap t)) (tb_heap t)) as (p & h & E & Hs & _ & Hp); [done|done|]. rewrite E.
    by exists p, {| tb_heap := h; tb_rows := tb_rows t; tb_known := {[p]} ∪ tb_known t |}.
  - intros p x Hp Hx. destruct (clone_copies _ _ _ _ Hx) as [n Hn]. exists n. intros fuel Hf.
    destruct (Hn fuel Hf (dom (tb_heap t)) (tb_heap t)) as (l & h & E & Hs & _ & _ & s & r & Hc & Hof & _); [done|done|].
    destruct Hx as (_ & s0 & _ & Hc0 & _). unfold put. rewrite E. cbn. rewrite Hc, (lookup_weaken _ _ _ _ Hc0 Hs), Hof. by eexists.
Qed.
End table.

(** ** The tables *)
Section rows.
Context {MO : MapOrder}.
Lemma plain_id {A} `{K : Kept A} (key : A -> string) : plain_edit key id.
Proof. by split_and!. Qed.
Ltac rows := first [by apply plain_id | by intros ? ? -> | intros [] [] [=]; cbn; congruence | done | idtac].
#[local] Obligation Tactic := rows.
#[export] Program Instance row_definition : Row ProcDef := {| row_key := pd_id; row_stamp := id; row_back _ s := s |}.
#[export] Program Instance row_instance : Row Instance := {|
  row_key := in_id; row_stamp i := set_in_rev (in_rev i + 1) i;
  row_back c s := match of_instance c with Some r => edit_instance (set_in_rev (in_rev r)) s | None => s end;
|}.
Next Obligation.
  split_and!; [|by intros R h []|done]. intros [] [] [=]; subst. by unfold bare_instance.
Qed.
Next Obligation. intros s s'. cbn. destruct (of_instance s); [by destruct s'|done]. Qed.
#[export] Program Instance row_task : Row Task := {| row_key := ta_id; row_stamp := id; row_back _ s := s |}.
#[export] Program Instance row_job : Row Job := {| row_key := jb_id; row_stamp := id; row_back _ s := s |}.
#[export] Program Instance row_external : Row ExternalTask := {| row_key := ex_id; row_stamp := id; row_back _ s := s |}.
#[export] Program Instance row_agent_job : Row AgentJob := {| row_key := ag_id; row_stamp := id; row_back _ s := s |}.
#[export] Program Instance row_sub : Row Subscription := {| row_key := sb_id; row_stamp := id; row_back _ s := s |}.
#[export] Program Instance row_incident : Row Incident := {| row_key := ic_id; row_stamp := id; row_back _ s := s |}.
#[export] Program Instance row_blob : Row Blob := {| row_key b := blob_key (bl_kind b) (bl_key b); row_stamp := id; row_back _ s := s |}.
End rows.

(** ** On concrete objects *)
#[local] Existing Instance key_order.
Definition make (c : cell) (t : table) : loc * table :=
  (fresh (dom (tb_heap t)), {| tb_heap := <[fresh (dom (tb_heap t)) := c]> (tb_heap t); tb_rows := tb_rows t;
                               tb_known := {[fresh (dom (tb_heap t))]} ∪ tb_known t |}).
Definition whole (l : loc) (n : nat) : option slice := Some {| sl_array := l; sl_off := 0; sl_len := n |}.
Definition empty_table : table := {| tb_heap := ∅; tb_rows := ∅; tb_known := ∅ |}.
(** An instance with a list in a variable. *)
Definition with_list : table :=
  let '(a, t) := make (CAnys [AScalar (vnum 1)]) empty_table in
  let '(m, t) := make (CMap {["items" := AList (whole a 1)]}) t in
  (make (CStruct (SInstance (sample_instance "a") (Some m) None None)) t).2.
Definition listed : Instance := set_in_vars {["items" := VList [vnum 1]]} (sample_instance "a").
Definition put_list : option table := put (A := Instance) 5 2%nat with_list.
Definition kept_list : table := default empty_table put_list.
Definition after_write : table :=
  {| tb_heap := <[0%nat := CAnys [AScalar (vnum 2)]]> (tb_heap kept_list); tb_rows := tb_rows kept_list; tb_known := tb_known kept_list |}.
Lemma listed_reads : reads_record (dom (tb_heap with_list)) (tb_heap with_list) 2%nat listed.
Proof.
  split; [set_solver|]. exists (SInstance (sample_instance "a") (Some 1%nat) None None), (sample_instance "a").
  split_and!; [reflexivity..|]. split_and!; [|done|done]. eapply reads_map; [set_solver|reflexivity|set_solver|].
  intros k v x [<- <-]%lookup_singleton_Some. change (in_vars listed) with ({["items" := VList [vnum 1]]} : vars).
  intros [_ <-]%lookup_singleton_Some. eapply reads_list; [set_solver|reflexivity|reflexivity|].
  intros [|i] v x [= <-] [= <-]. by apply reads_scalar.
Qed.
Ltac decided := apply (bool_decide_unpack _); vm_compute; exact I.
Lemma table_isolated_witness : exists n, forall fuel, (n <= fuel)%nat -> exists p t',
  get fuel "a" after_write = Some (Some p, t') /\
  reads_record (dom (tb_heap t') ∖ dom (tb_heap after_write)) (tb_heap t') p (set_in_rev 1 listed).
Proof.
  assert (history after_write (<[row_key listed := row_stamp listed]> ∅)) as H.
  { eapply history_uses; [|apply (uses_write kept_list 0%nat); [decided|set_solver]].
    eapply (history_put 5 2%nat listed with_list); [|decided|apply listed_reads|vm_compute; reflexivity].
    eapply history_uses; [|apply uses_alloc; decided].
    eapply history_uses; [|apply uses_alloc; decided].
    eapply history_uses; [|apply uses_alloc; decided].
    apply history_new; [set_solver|intros l c Hl; by rewrite lookup_empty in Hl]. }
  destruct (proj1 (proj2 (table_isolated _ _ H)) "a" (set_in_rev 1 listed)) as [n Hn]; [reflexivity|].
  exists n. intros fuel Hf. destruct (Hn fuel Hf) as (p & t' & E & _ & Hr). exists p, t'. split; [exact E|exact Hr].
Defined.
(** A typed slice in a variable is not copied: whoever put the instance goes on
    holding its array, and changes what the store gives out. *)
Definition with_strings : table :=
  let '(a, t) := make (CPlain [PStr "draft"]) empty_table in
  let '(m, t) := make (CMap {["tags" := ATyped (whole a 1)]}) t in
  (make (CStruct (SInstance (sample_instance "a") (Some m) None None)) t).2.
Definition tags_of (h : heap) (p : loc) : option (list array_item) :=
  match h !! p with
  | Some (CStruct (SInstance _ (Some m) _ _)) =>
      match h !! m with
      | Some (CMap m) => match m !! "tags" with
                         | Some (ATyped (Some s)) => match h !! sl_array s with Some (CPlain a) => Some (within s a) | _ => None end
                         | _ => None
                         end
      | _ => None
      end
  | _ => None
  end.
Definition tags_stored (h : heap) (t : table) : option (list array_item) :=
  match get 5 "a" {| tb_heap := h; tb_rows := tb_rows t; tb_known := tb_known t |} with
  | Some (Some p, t) => tags_of (tb_heap t) p
  | _ => None
  end.
Example typed_slice_shared :
  let t := default empty_table (put (A := Instance) 5 2%nat with_strings) in
  tags_stored (tb_heap t) t = Some [PStr "draft"] /\
  tags_stored (<[0%nat := CPlain [PStr "final"]]> (tb_heap t)) t = Some [PStr "final"].
Proof. vm_compute. auto. Qed.
