(* ===== verification/Vault.v ===== *)
(** * The secrets store ([src/vault/vault.go])

    Named secrets, sealed and kept as blobs of the store.  The cipher
    (AES-GCM), the stretching of the master key and the random numbers are the
    parameter [Aead]. *)
From S2P Require Import Prelude GoFloat GoUtf8 GoTime StoreTypes StoreMemory.
Local Open Scope go_scope.
Local Open Scope string_scope.
Local Open Scope Z_scope.

Class Aead := {
  stretch : string -> string;
  nonce_size : nat;
  seal : string -> string -> string -> string -> string;
  open_sealed : string -> string -> string -> string -> option string;
}.

Definition BlobKind := "secret".
(** [Vault]: the key of the cipher; the store is an argument. *)
Definition Vault := string.

Inductive vault_error := SecretNotFound | VaultMsg (msg : string).
Definition vault_error_text (e : vault_error) : string :=
  match e with SecretNotFound => "vault: secret not found" | VaultMsg m => m end.

Section vault.
Context {U : Unicode} {A : Aead} {MO : MapOrder}.

Definition New (master : string) : res vault_error Vault :=
  if String.eqb master "" then Err (VaultMsg "vault: empty master key") else Ok (stretch master).

(** [Set]; [nonce] is what the random source gives, or its error. *)
Definition Set_ (v : Vault) (name value : string) (nonce : string + string) (now : Z) (m : Memory) : res vault_error unit * Memory :=
  if String.eqb name "" then (Err (VaultMsg "vault: empty secret name"), m)
  else match nonce with
       | inl msg => (Err (VaultMsg msg), m)
       | inr n =>
           (Ok tt, PutBlob {| bl_kind := BlobKind; bl_key := name; bl_tenant := ""; bl_data := n ++ seal v n value name; bl_updated := now |} m)
       end.
Definition Get (v : Vault) (name : string) (m : Memory) : res vault_error string :=
  match GetBlob BlobKind name m with
  | None => Err SecretNotFound
  | Some b =>
      if (String.length (bl_data b) <? nonce_size)%nat then Err (VaultMsg ("vault: secret " ++ quote name ++ " is corrupt"))
      else match open_sealed v (stake nonce_size (bl_data b)) (sdrop nonce_size (bl_data b)) name with
           | None => Err (VaultMsg ("vault: cannot unseal " ++ quote name ++ " (wrong master key?)"))
           | Some plain => Ok plain
           end
  end.
Definition List (m : Memory) : list string := map bl_key (ListBlobs BlobKind m).
Definition Delete (name : string) (m : Memory) : Memory := DeleteBlob BlobKind name m.

(** ** What the cipher promises *)
Class AeadLaws := {
  opens_own k n p ad : open_sealed k n (seal k n p ad) ad = Some p;
  opens_only k n p ad ad' : ad <> ad' -> open_sealed k n (seal k n p ad) ad' = None;
}.
Context {L : AeadLaws}.

Lemma stake_app_exact a b : stake (String.length a) (a ++ b) = a.
Proof. induction a as [|c a IH]; cbn; [by destruct b|]. f_equal. exact IH. Qed.
Lemma sdrop_app_exact a b : sdrop (String.length a) (a ++ b) = b.
Proof. induction a as [|c a IH]; cbn; [by destruct b|]. exact IH. Qed.

(** C27: a secret that was set reads back as its value, until it is set or
    deleted again; setting or deleting one secret leaves the others; and a
    sealed secret that is copied onto another name does not open there. *)
Theorem vault_spec v name value n now m m' :
  String.length n = nonce_size -> Set_ v name value (inr n) now m = (Ok tt, m') ->
  Get v name m' = Ok value /\ Get v name (Delete name m') = Err SecretNotFound /\
  (forall other, other <> name ->
    Get v other m' = Get v other m /\ Get v other (Delete name m') = Get v other m) /\
  (forall other b moved m2, GetBlob BlobKind name m' = Some b -> other <> name ->
    GetBlob BlobKind other m2 = Some moved -> bl_data moved = bl_data b -> is_ok (Get v other m2) = false).
Proof.
  intros Hn H. unfold Set_ in H. destruct (String.eqb name ""); [done|]. injection H as <-.
  assert (forall b, (String.length (n ++ b) <? nonce_size)%nat = false) as Hlen.
  { intros b. rewrite string_app_length, Hn. apply Nat.ltb_ge. lia. }
  unfold Get, GetBlob, Delete, PutBlob, DeleteBlob. cbn [m_blobs set_m_blobs bl_kind bl_key].
  split_and!.
  - rewrite lookup_insert_eq. cbn [bl_data]. rewrite Hlen, <- Hn, stake_app_exact, sdrop_app_exact. by rewrite opens_own.
  - by rewrite lookup_delete_eq.
  - intros other Ho. assert (blob_key BlobKind name <> blob_key BlobKind other) as Hk by (intros E; by injection E as ->).
    by rewrite lookup_delete_ne, lookup_insert_ne.
  - intros other b moved m2. rewrite lookup_insert_eq. intros [= <-] Ho -> ->. cbn [bl_data].
    rewrite Hlen, <- Hn, stake_app_exact, sdrop_app_exact. by rewrite opens_only.
Qed.
End vault.

(** ** An instance: a cipher that writes the name in front, one byte at a
    time. *)
Fixpoint tag (ad : string) : string :=
  match ad with EmptyString => "0" | String c ad => "1" ++ String c (tag ad) end.
Definition plain_aead : Aead := {|
  stretch k := k;
  nonce_size := 2;
  seal _ _ p ad := tag ad ++ p;
  open_sealed _ _ c ad := strip_prefix (tag ad) c;
|}.
Lemma strip_tag ad ad' p : strip_prefix (tag ad') (tag ad ++ p) = if String.eqb ad ad' then Some p else None.
Proof.
  revert ad'. induction ad as [|c ad IH]; intros [|d ad']; try done. cbn [tag String.append strip_prefix String.eqb].
  rewrite Ascii.eqb_refl, Ascii.eqb_sym. destruct (Ascii.eqb c d); [apply IH|done].
Qed.
#[export] Instance plain_aead_laws : @AeadLaws plain_aead.
Proof.
  split; intros; cbn [open_sealed seal plain_aead]; rewrite strip_tag; [by rewrite String.eqb_refl|].
  by destruct (String.eqb_spec ad ad').
Qed.
Lemma vault_spec_witness :
  let m := (@Set_ plain_aead "key" "token" "s3cret" (inr "nn") 0 new_memory).2 in
  @Get latin1_only plain_aead "key" "token" m = Ok "s3cret" /\
  @Get latin1_only plain_aead "key" "token" (Delete "token" m) = Err SecretNotFound /\
  (forall b, GetBlob BlobKind "token" m = Some b ->
   is_ok (@Get latin1_only plain_aead "key" "other"
     (PutBlob {| bl_kind := BlobKind; bl_key := "other"; bl_tenant := ""; bl_data := bl_data b; bl_updated := 0 |} m)) = false).
Proof.
  intros m. destruct (@vault_spec latin1_only plain_aead plain_aead_laws "key" "token" "s3cret" "nn" 0 new_memory m) as (H1 & H2 & _ & H3);
    [reflexivity|reflexivity|].
  split; [exact H1|]. split; [exact H2|]. intros b Hb. eapply (H3 "other" b _ _ Hb); [discriminate|apply lookup_insert_eq|reflexivity].
Defined.
