(* ===== verification/StoreJournal.v ===== *)
(** * The durable store ([src/store/journal.go])

    [Journal] writes every change through to a [Memory] and appends it as a
    JSON line to a file; opening the store loads the snapshot file and replays
    the lines.  Go's [encoding/json] is the parameter [Codec]; files are byte
    strings, and writing to them succeeds. *)
From Stdlib Require Import Ascii.
From S2P Require Import Prelude GoFloat GoTime ExprValue StoreTypes StoreQuery StoreMemory.
Local Open Scope go_scope.
Local Open Scope string_scope.
Local Open Scope Z_scope.
Local Open Scope list_scope.

(** [journalEntry]: the operation with its record or its ID. *)
Inductive entry :=
| EDef (d : ProcDef)
| EInst (i : Instance)
| ETask (t : Task)
| EJob (j : Job)
| EDelJob (id : string)
| EPurge (id : string)
| EExt (t : ExternalTask)
| EAgent (a : AgentJob)
| ESub (s : Subscription)
| EDelSub (id : string)
| EInc (i : Incident)
| EBlob (b : Blob)
| EDelBlob (id : string)
| EHist (ev : HistoryEvent).

(** [snapshotFile]. *)
Record snapshot := {
  sn_definitions : list ProcDef;
  sn_instances : list Instance;
  sn_tasks : list Task;
  sn_jobs : list Job;
  sn_externals : list ExternalTask;
  sn_agent_jobs : list AgentJob;
  sn_subs : list Subscription;
  sn_incidents : list Incident;
  sn_blobs : list Blob;
  sn_history : gmap string (list HistoryEvent);
}.

(** [strings.Cut(s, "\x00")]. *)
Definition cut_nul (s : string) : string * string :=
  match sindex s nul with
  | Some i => (stake i s, sdrop (i + 1) s)
  | None => (s, EmptyString)
  end.

(** [Journal.apply]. *)
Definition apply_entry (m : Memory) (e : entry) : Memory :=
  match e with
  | EDef d => PutDefinition d m
  | EInst i => set_m_instances (<[in_id i := i]> (m_instances m)) m
  | ETask t => PutTask t m
  | EJob j => PutJob j m
  | EDelJob id => DeleteJob id m
  | EPurge id => PurgeInstance id m
  | EExt t => PutExternalTask t m
  | EAgent a => PutAgentJob a m
  | ESub s => PutSubscription s m
  | EDelSub id => DeleteSubscription id m
  | EInc i => PutIncident i m
  | EBlob b => PutBlob b m
  | EDelBlob id => let '(kind, key) := cut_nul id in DeleteBlob kind key m
  | EHist ev => (AppendHistory ev m).2
  end.
Definition replay (es : list entry) (m : Memory) : Memory := fold_left apply_entry es m.

(** The entries an operation appends, in the state before it. *)
Definition op_entries (o : store_op) (m : Memory) : list entry :=
  match o with
  | OPutDefinition d => [EDef d]
  | OPutInstance i => [EInst (PutInstance i m).1]
  | OPurgeInstance id => [EPurge id]
  | OPutTask t => [ETask t]
  | OPutJob j => [EJob j]
  | ODeleteJob id => [EDelJob id]
  | ODueJobs now limit => map (fun j => EDelJob (jb_id j)) (DueJobs now limit m).1
  | OPutExternalTask t => [EExt t]
  | OFetchExternalTasks topic w u n l => map EExt (FetchAndLockExternalTasks topic w u n l m).1
  | OPutAgentJob a => [EAgent a]
  | OFetchAgentJobs topic w u n l => map EAgent (FetchAndLockAgentJobs topic w u n l m).1
  | OPutSubscription s => [ESub s]
  | ODeleteSubscription id => [EDelSub id]
  | OPutIncident i => [EInc i]
  | OPutBlob b => [EBlob b]
  | ODeleteBlob kind key => [EDelBlob (blob_key kind key)]
  | OAppendHistory ev => [EHist (AppendHistory ev m).1]
  end.

(** ** The log captures every operation *)
Lemma blob_key_cut kind key : let '(k, x) := cut_nul (blob_key kind key) in blob_key k x = blob_key kind key.
Proof.
  generalize (eq_refl (blob_key kind key)). generalize (blob_key kind key) at 2 3 4 as s. intros s Hs.
  unfold cut_nul. destruct (sindex s nul) as [i|] eqn:E.
  - apply sindex_Some in E. symmetry. exact E.
  - exfalso. assert (scontains s nul = true) as H.
    { apply scontains_spec. exists kind, key. done. }
    unfold scontains in H. by rewrite E in H.
Qed.

Lemma replay_app es1 es2 m : replay (es1 ++ es2) m = replay es2 (replay es1 m).
Proof. apply fold_left_app. Qed.

Lemma replay_del_jobs js m :
  replay (map (fun j => EDelJob (jb_id j)) js) m
  = set_m_jobs (fold_left (fun t j => delete (jb_id j) t) js (m_jobs m)) m.
Proof.
  revert m. induction js as [|j js IH]; intros m; cbn; [by destruct m|].
  unfold replay in IH. rewrite IH. done.
Qed.

Lemma replay_exts f l m :
  (forall x, ex_id (f x) = ex_id x) ->
  replay (map EExt (map f l)) m
  = set_m_externals (fold_left (fun t x => <[ex_id x := f x]> t) l (m_externals m)) m.
Proof.
  intros Hf. revert m. induction l as [|x l IH]; intros m; cbn; [by destruct m|].
  unfold replay in IH. rewrite IH. unfold PutExternalTask, PutAgentJob. cbn. by rewrite Hf.
Qed.

Lemma replay_agents f l m :
  (forall x, ag_id (f x) = ag_id x) ->
  replay (map EAgent (map f l)) m
  = set_m_agent_jobs (fold_left (fun t x => <[ag_id x := f x]> t) l (m_agent_jobs m)) m.
Proof.
  intros Hf. revert m. induction l as [|x l IH]; intros m; cbn; [by destruct m|].
  unfold replay in IH. rewrite IH. unfold PutExternalTask, PutAgentJob. cbn. by rewrite Hf.
Qed.

Lemma append_history_again ev m :
  memory_ok m -> op_pre (OAppendHistory ev) m ->
  (AppendHistory (AppendHistory ev m).1 m).2 = (AppendHistory ev m).2.
Proof.
  intros Hm Hpre. pose proof (last_seq_nonneg _ (proj1 (hist_of_ok m (hv_inst ev) Hm))) as Hp.
  rewrite <- (hist_seq_of_last _ _ Hm) in Hp. unfold AppendHistory. cbn in Hpre |- *.
  destruct (Z.eqb_spec (hv_seq ev) 0) as [E|E]; cbn.
  - destruct (Z.eqb_spec (hist_seq_of (hv_inst ev) m + 1) 0); [lia|].
    destruct (Z.ltb_spec (hist_seq_of (hv_inst ev) m) (hist_seq_of (hv_inst ev) m + 1)); [done|lia].
  - by destruct (Z.eqb_spec (hv_seq ev) 0).
Qed.

Lemma op_entries_replay_core o m :
  memory_ok m -> op_pre o m -> replay (op_entries o m) m = run_op o m.
Proof.
  intros Hm Hpre. destruct o; cbn [op_entries run_op]; try done.
  - apply replay_del_jobs.
  - unfold FetchAndLockExternalTasks, fetch_and_lock. cbn. by apply replay_exts.
  - unfold FetchAndLockAgentJobs, fetch_and_lock. cbn. by apply replay_agents.
  - cbn. pose proof (blob_key_cut kind key) as H. destruct (cut_nul _) as [k x].
    unfold DeleteBlob. by rewrite H.
  - by apply append_history_again.
Qed.

(** Replaying the entries an operation wrote, in the state before it,
    gives the state after it, for every operation of the store. *)
Theorem op_entries_replay o m :
  memory_ok m -> op_pre o m -> replay (op_entries o m) m = run_op o m.
Proof. apply op_entries_replay_core. Qed.

(** ** Snapshots *)
Section snapshots.
Context `{MO : MapOrder}.

Definition values {A} (t : gmap string A) : list A := map snd (map_range 0 t).

(** [snapshotData] before it is marshalled. *)
Definition snapshot_of (m : Memory) : snapshot :=
  {| sn_definitions := values (m_definitions m); sn_instances := values (m_instances m);
     sn_tasks := values (m_tasks m); sn_jobs := values (m_jobs m);
     sn_externals := values (m_externals m); sn_agent_jobs := values (m_agent_jobs m);
     sn_subs := values (m_subs m); sn_incidents := values (m_incidents m);
     sn_blobs := values (m_blobs m); sn_history := m_history m |}.

(** The first half of [load]: tables by ID, counters from the greatest
    number of each history. *)
Definition by_id {A} (id : A -> string) (l : list A) : gmap string A :=
  fold_left (fun t x => <[id x := x]> t) l ∅.
Definition max_seq (l : list HistoryEvent) : Z := fold_left (fun n ev => Z.max n (hv_seq ev)) l 0.
Definition load_snapshot (s : snapshot) : Memory :=
  {| m_definitions := by_id pd_id (sn_definitions s); m_instances := by_id in_id (sn_instances s);
     m_tasks := by_id ta_id (sn_tasks s); m_jobs := by_id jb_id (sn_jobs s);
     m_externals := by_id ex_id (sn_externals s); m_agent_jobs := by_id ag_id (sn_agent_jobs s);
     m_subs := by_id sb_id (sn_subs s); m_incidents := by_id ic_id (sn_incidents s);
     m_blobs := by_id (fun b => blob_key (bl_kind b) (bl_key b)) (sn_blobs s);
     m_history := sn_history s; m_hist_seq := max_seq <$> sn_history s |}.

Lemma lookup_by_id {A} (id : A -> string) (t : gmap string A) k l :
  keyed id t -> (forall x, x ∈ l -> exists k, t !! k = Some x) ->
  by_id id l !! k = if decide (k ∈ map id l) then t !! k else None.
Proof.
  intros Hk. unfold by_id. induction l as [|x l IH] using rev_ind; intros Hin.
  - by rewrite decide_False by set_solver.
  - rewrite fold_left_app, fmap_app. cbn. destruct (Hin x) as [kx Hx]; [set_solver|].
    pose proof (Hk _ _ Hx) as Hid.
    destruct (decide (id x = k)) as [E|E].
    + subst k. rewrite lookup_insert_eq, decide_True by set_solver. congruence.
    + rewrite lookup_insert_ne, IH by (done || set_solver).
      assert (k ∈ map id l <-> k ∈ (id <$> l) ++ [id x]) as Hiff by set_solver.
      repeat case_decide; naive_solver.
Qed.

Lemma by_id_values {A} (id : A -> string) (t : gmap string A) :
  keyed id t -> by_id id (values t) = t.
Proof.
  intros Hk. apply map_eq. intros k.
  assert (forall x, x ∈ values t <-> exists k, t !! k = Some x) as Hv.
  { intros x. unfold values. rewrite map_range_perm. apply elem_of_values. }
  rewrite (lookup_by_id id t) by (done || (intros; by apply Hv)).
  case_decide as Hd; [done|]. destruct (t !! k) as [x|] eqn:E; [|done]. exfalso. apply Hd.
  rewrite <- (Hk _ _ E). apply list_elem_of_fmap_2, Hv. eauto.
Qed.

Lemma max_seq_last l : seqs_ok l -> max_seq l = last_seq l.
Proof.
  intros [Hs Hp]. unfold max_seq, last_seq. induction l as [|ev l IH] using rev_ind; [done|].
  rewrite fold_left_app, last_snoc. cbn.
  apply StronglySorted_app in Hs as (Hlt & Hs & _). apply Forall_app in Hp as [Hp Hev].
  rewrite IH by done. inv Hev. destruct (last l) as [y|] eqn:E; [|lia].
  apply last_Some_elem_of in E. specialize (Hlt y ev E ltac:(set_solver)). cbn in Hlt. lia.
Qed.

#[local] Arguments values : simpl never.
#[local] Arguments by_id : simpl never.

(** A snapshot holds the whole state. *)
Lemma load_snapshot_of m : memory_ok m -> load_snapshot (snapshot_of m) = m.
Proof.
  intros Hm. unfold load_snapshot, snapshot_of. cbn.
  rewrite !by_id_values by apply Hm.
  assert (max_seq <$> m_history m = m_hist_seq m) as ->; [|by destruct m].
  apply map_eq. intros i. rewrite lookup_fmap, (ok_seq m Hm).
  destruct (m_history m !! i) as [l|] eqn:E; [|done]. cbn. f_equal.
  apply max_seq_last. by apply (ok_history m Hm) in E as (_ & ? & _).
Qed.
End snapshots.

(** ** Files *)

(** What [json.Unmarshal] makes of a line: a line that is not JSON, an entry
    whose record or operation [apply] refuses, or an entry. *)
Inductive decoded := DBad | DErr (msg : string) | DEntry (e : entry).

(** [json.Marshal] and [json.Unmarshal]; marshalling fails on numbers that
    are not finite. *)
Class Codec := {
  enc_entry : entry -> option string;
  dec_line : string -> decoded;
  enc_snap : snapshot -> option string;
  dec_snap : string -> option snapshot;
}.

Definition newline : ascii := ascii_of_nat 10.
Definition carriage : ascii := ascii_of_nat 13.
Definition nl : string := String newline EmptyString.
(** The buffer of the scanner: [16<<20]. *)
Definition max_line : Z := 2 ^ 24.

(** [bufio.ScanLines]: an unterminated last line counts when it is not
    empty; a carriage return at the end of a line is dropped. *)
Fixpoint lines_from (acc s : string) : list string :=
  match s with
  | EmptyString => if String.eqb acc EmptyString then [] else [acc]
  | String c r => if Ascii.eqb c newline then acc :: lines_from EmptyString r
                  else lines_from (acc ++ String c EmptyString)%string r
  end.
Fixpoint drop_cr (s : string) : string :=
  match s with
  | EmptyString => EmptyString
  | String c EmptyString => if Ascii.eqb c carriage then EmptyString else s
  | String c r => String c (drop_cr r)
  end.

Section files.
Context `{MO : MapOrder} {C : Codec}.

(** The replay loop of [load]: it stops quietly at the first line that is not
    JSON. *)
Fixpoint replay_lines (ls : list string) (m : Memory) (n : Z) : res string (Memory * Z) :=
  match ls with
  | [] => Ok (m, n)
  | l :: ls =>
      if max_line <=? slen l then Err "bufio.Scanner: token too long"
      else let raw := drop_cr l in
        if String.eqb raw EmptyString then replay_lines ls m n
        else match dec_line raw with
             | DBad => Ok (m, n)
             | DErr msg => Err ("store: replay line: " ++ msg)%string
             | DEntry e => replay_lines ls (apply_entry m e) (n + 1)
             end
  end.

(** [load] on the contents of the snapshot file, if it exists, and of the
    journal. *)
Definition load (snap : option string) (file : string) : res string (Memory * Z) :=
  let! m := match snap with
            | None => Ok new_memory
            | Some data => match dec_snap data with
                           | Some s => Ok (load_snapshot s)
                           | None => Err "store: corrupt snapshot"
                           end
            end in
  replay_lines (lines_from EmptyString file) m 0.

(** [Journal]: the memory, the entry count and the two files. *)
Record Journal := {
  j_mem : Memory;
  j_n : Z;
  j_compact_every : Z;
  j_file : string;
  j_snap : option string;
}.

(** [OpenJournal] on the files of a directory. *)
Definition open_journal (compact_every : Z) (snap : option string) (file : string) : res string Journal :=
  let! (m, n) := load snap file in
  Ok {| j_mem := m; j_n := n;
        j_compact_every := if compact_every <=? 0 then 20000 else compact_every;
        j_file := file; j_snap := snap |}.

(** [compactLocked]: the snapshot replaces the journal. *)
Definition compact (j : Journal) : res string unit * Journal :=
  match enc_snap (snapshot_of (j_mem j)) with
  | None => (Err "store: marshal snapshot", j)
  | Some data =>
      (Ok (), {| j_mem := j_mem j; j_n := 0; j_compact_every := j_compact_every j;
                 j_file := EmptyString; j_snap := Some data |})
  end.

(** [append]. *)
Definition append (e : entry) (j : Journal) : res string unit * Journal :=
  match enc_entry e with
  | None => (Err "store: marshal", j)
  | Some line =>
      let j := {| j_mem := j_mem j; j_n := j_n j + 1; j_compact_every := j_compact_every j;
                  j_file := (j_file j ++ line ++ nl)%string; j_snap := j_snap j |} in
      if j_compact_every j <=? j_n j then compact j else (Ok (), j)
  end.

(** The appends of one operation, up to the first failure. *)
Fixpoint append_all (es : list entry) (j : Journal) : res string unit * Journal :=
  match es with
  | [] => (Ok (), j)
  | e :: es =>
      match append e j with
      | (Ok _, j) => append_all es j
      | r => r
      end
  end.

(** An operation of the journal store: the memory first, then the log. *)
Definition journal_op (o : store_op) (j : Journal) : res string unit * Journal :=
  append_all (op_entries o (j_mem j))
    {| j_mem := run_op o (j_mem j); j_n := j_n j; j_compact_every := j_compact_every j;
       j_file := j_file j; j_snap := j_snap j |}.
End files.

(** ** Documented behaviour of the codec

    An entry that is representable in JSON round-trips; an encoded line is a
    JSON object without control characters, no proper prefix of which is
    JSON, not even with another object after it. *)
Definition printable (s : string) : bool := forallb (fun c => 32 <=? byte_val c) (string_to_list s).

Class CodecLaws `{C : Codec} := {
  safe : entry -> Prop;
  safe_snap : snapshot -> Prop;
  enc_safe e : safe e -> exists l, enc_entry e = Some l /\ dec_line l = DEntry e;
  enc_printable e l : enc_entry e = Some l -> l <> EmptyString /\ printable l = true;
  enc_prefix e l t u : enc_entry e = Some l -> l = (t ++ u)%string -> u <> EmptyString ->
    t <> EmptyString -> dec_line t = DBad;
  enc_glued e l t u e' l' : enc_entry e = Some l -> l = (t ++ u)%string -> u <> EmptyString ->
    t <> EmptyString -> enc_entry e' = Some l' -> dec_line (t ++ l')%string = DBad;
  snap_safe s : safe_snap s -> exists d, enc_snap s = Some d /\ dec_snap d = Some s;
}.

Lemma lines_from_line acc l r :
  printable l = true ->
  lines_from acc (l ++ nl ++ r)%string = (acc ++ l)%string :: lines_from EmptyString r.
Proof.
  revert acc. induction l as [|c l IH]; intros acc; cbn [String.append].
  - intros _. cbn. by rewrite string_app_nil_r.
  - unfold printable. cbn [string_to_list forallb]. rewrite andb_true_iff, Z.leb_le. intros [Hc Hl].
    cbn [lines_from]. destruct (Ascii.eqb_spec c newline) as [->|]; [by vm_compute in Hc|].
    rewrite IH by done. by rewrite <- string_app_assoc.
Qed.

Lemma lines_from_last acc l :
  printable l = true ->
  lines_from acc l = if String.eqb (acc ++ l)%string EmptyString then [] else [(acc ++ l)%string].
Proof.
  revert acc. induction l as [|c l IH]; intros acc; cbn [lines_from].
  - intros _. by rewrite string_app_nil_r.
  - unfold printable. cbn [string_to_list forallb]. rewrite andb_true_iff, Z.leb_le. intros [Hc Hl].
    destruct (Ascii.eqb_spec c newline) as [->|]; [by vm_compute in Hc|].
    rewrite IH by done. by rewrite <- string_app_assoc.
Qed.

Lemma drop_cr_printable l : printable l = true -> drop_cr l = l.
Proof.
  induction l as [|c l IH]; [done|]. unfold printable. cbn [string_to_list forallb].
  rewrite andb_true_iff, Z.leb_le. intros [Hc Hl]. destruct l as [|d l].
  - cbn. destruct (Ascii.eqb_spec c carriage) as [->|]; [by vm_compute in Hc|done].
  - change (String c (drop_cr (String d l)) = String c (String d l)). by rewrite IH.
Qed.

Lemma printable_app a b : printable (a ++ b)%string = printable a && printable b.
Proof.
  induction a as [|c a IH]; [done|]. unfold printable in *. cbn. by rewrite IH, andb_assoc.
Qed.

(** The text of the lines of a journal file. *)
Fixpoint file_text (ls : list string) : string :=
  match ls with
  | [] => EmptyString
  | l :: ls => (l ++ nl ++ file_text ls)%string
  end.

Lemma file_text_app ls1 ls2 : file_text (ls1 ++ ls2) = (file_text ls1 ++ file_text ls2)%string.
Proof. induction ls1 as [|l ls1 IH]; cbn [app file_text]; [done|]. by rewrite IH, !string_app_assoc. Qed.

Section recovery.
Context `{MO : MapOrder} {C : Codec} {L : CodecLaws}.

(** An entry the journal can hold: JSON represents it, and its line fits the
    scanner's buffer. *)
Definition storable (e : entry) (l : string) : Prop :=
  enc_entry e = Some l /\ dec_line l = DEntry e /\ slen l < max_line.

Lemma storable_line e l : storable e l -> l <> EmptyString /\ printable l = true.
Proof. intros (H & _). by eapply enc_printable. Qed.

Lemma replay_line e l ls m n :
  storable e l -> replay_lines (l :: ls) m n = replay_lines ls (apply_entry m e) (n + 1).
Proof.
  intros H. destruct (storable_line e l H) as [Hne Hp]. destruct H as (_ & Hd & Hl). cbn.
  destruct (Z.leb_spec max_line (slen l)); [lia|]. rewrite drop_cr_printable by done.
  apply String.eqb_neq in Hne as ->. by rewrite Hd.
Qed.

Lemma lines_from_text ls r :
  Forall (fun l => printable l = true) ls ->
  lines_from EmptyString (file_text ls ++ r)%string = ls ++ lines_from EmptyString r.
Proof.
  induction 1 as [|l ls Hl _ IH]; [done|]. cbn [file_text app].
  rewrite <- !string_app_assoc, lines_from_line by done. cbn [String.append]. f_equal. exact IH.
Qed.

Lemma replay_stored es ls rest m n :
  Forall2 storable es ls ->
  replay_lines (ls ++ rest) m n = replay_lines rest (replay es m) (n + Z.of_nat (length es)).
Proof.
  intros H. revert m n. induction H as [|e l es ls He _ IH]; intros m n.
  - cbn. by rewrite Z.add_0_r.
  - cbn [app]. rewrite (replay_line e) by done. rewrite IH. cbn [replay fold_left length].
    f_equal. lia.
Qed.

(** What the snapshot file loads to. *)
Definition snap_base (snap : option string) (base : Memory) : Prop :=
  match snap with
  | None => base = new_memory
  | Some d => exists s, dec_snap d = Some s /\ load_snapshot s = base
  end.

Lemma load_text snap base es ls r :
  snap_base snap base -> Forall2 storable es ls ->
  load snap (file_text ls ++ r)%string
  = replay_lines (lines_from EmptyString r) (replay es base) (Z.of_nat (length es)).
Proof.
  intros Hb He. unfold load. rewrite lines_from_text.
  2:{ clear -He L. induction He as [|e l es ls H _ IH]; constructor; [by eapply storable_line|done]. }
  destruct snap as [d|]; cbn in Hb |- *.
  - destruct Hb as (s & -> & <-). cbn. by rewrite (replay_stored es).
  - subst. by rewrite (replay_stored es).
Qed.

(** ** The files always hold the memory *)

(** The snapshot and the lines of the journal account for the memory. *)
Record files_hold (j : Journal) (M : Memory) (base : Memory) (es : list entry) (ls : list string) : Prop := {
  fh_snap : snap_base (j_snap j) base;
  fh_lines : Forall2 storable es ls;
  fh_file : j_file j = file_text ls;
  fh_mem : replay es base = M;
  fh_n : j_n j = Z.of_nat (length es);
}.
Definition journal_inv (j : Journal) : Prop :=
  memory_ok (j_mem j) /\ exists base es ls, files_hold j (j_mem j) base es ls.

(** The codec handles what an operation writes. *)
Definition entry_storable (e : entry) : Prop :=
  safe e /\ forall l, enc_entry e = Some l -> slen l < max_line.
Definition op_storable (o : store_op) (m : Memory) : Prop :=
  Forall entry_storable (op_entries o m) /\ safe_snap (snapshot_of (run_op o m)).

Lemma entry_storable_line e : entry_storable e -> exists l, storable e l.
Proof. intros [Hs Hl]. destruct (enc_safe e Hs) as (l & He & Hd). exists l. by split; [|split; [|apply Hl]]. Qed.

Lemma append_step e todo j base es ls :
  files_hold j (replay es base) base es ls ->
  replay (es ++ e :: todo) base = j_mem j -> replay todo (j_mem j) = j_mem j ->
  entry_storable e -> memory_ok (j_mem j) -> safe_snap (snapshot_of (j_mem j)) ->
  exists j' base' es' ls', append e j = (Ok (), j') /\ j_mem j' = j_mem j /\
    files_hold j' (replay es' base') base' es' ls' /\ replay (es' ++ todo) base' = j_mem j.
Proof.
  intros H Hmem Habs He Hm Hs. destruct (entry_storable_line e He) as [l Hl].
  unfold append. rewrite (proj1 Hl). cbn.
  destruct (j_compact_every j <=? j_n j + 1).
  - unfold compact. cbn. destruct (snap_safe _ Hs) as (d & -> & Hd).
    eexists _, (j_mem j), [], []. split_and!; [reflexivity|done| |done].
    split; cbn; try done. exists (snapshot_of (j_mem j)). split; [done|]. by apply load_snapshot_of.
  - eexists _, base, (es ++ [e]), (ls ++ [l]). split_and!; [reflexivity|done| |].
    + destruct H as [H1 H2 H3 H4 H5]. split; cbn; try done.
      * by apply Forall2_app; [|repeat constructor; apply Hl].
      * rewrite file_text_app, H3. done.
      * rewrite length_app. cbn. lia.
    + by rewrite <- (assoc_L (++)).
Qed.

Lemma append_all_hold todo : forall j base es ls,
  files_hold j (replay es base) base es ls -> replay (es ++ todo) base = j_mem j ->
  (forall a b, todo = a ++ b -> a <> [] -> replay b (j_mem j) = j_mem j) ->
  Forall entry_storable todo -> memory_ok (j_mem j) -> safe_snap (snapshot_of (j_mem j)) ->
  exists j', append_all todo j = (Ok (), j') /\ j_mem j' = j_mem j /\ journal_inv j'.
Proof.
  induction todo as [|e todo IH]; intros j base es ls H Hmem Habs Hst Hm Hs.
  - exists j. split_and!; [done|done|]. split; [done|]. exists base, es, ls.
    rewrite app_nil_r in Hmem. by rewrite <- Hmem.
  - inv Hst. destruct (append_step e todo j base es ls) as (j1 & b1 & e1 & l1 & Ha & Hj & Hf & Hr); try done.
    { by apply (Habs [e]). }
    cbn. rewrite Ha. destruct (IH j1 b1 e1 l1) as (j' & ? & ? & ?); rewrite ?Hj; try done.
    + intros a b -> Hne. by apply (Habs (e :: a)).
    + exists j'. split_and!; congruence.
Qed.
End recovery.

(** Entries of one operation that come after others of it change nothing in
    its final state. *)
Lemma fold_insert_same {A} (id : A -> string) l (t : gmap string A) :
  (forall x, x ∈ l -> t !! id x = Some x) -> fold_left (fun t x => <[id x := x]> t) l t = t.
Proof.
  induction l as [|x l IH]; intros H; cbn; [done|]. rewrite insert_id by (apply H; set_solver).
  apply IH. set_solver.
Qed.
Lemma fold_delete_absent {A B} (id : B -> string) l (t : gmap string A) :
  (forall x, x ∈ l -> t !! id x = None) -> fold_left (fun t x => delete (id x) t) l t = t.
Proof.
  induction l as [|x l IH]; intros H; cbn; [done|]. rewrite delete_id by (apply H; set_solver).
  apply IH. set_solver.
Qed.

Lemma app_singleton_suffix {A} (x : A) a b : [x] = a ++ b -> a <> [] -> b = [].
Proof. destruct a as [|y [|]]; cbn; try done. by intros [= _ <-]. Qed.

Lemma op_entries_absorb o m a b :
  memory_ok m -> op_entries o m = a ++ b -> a <> [] -> replay b (run_op o m) = run_op o m.
Proof.
  intros Hm He Hne.
  destruct o; cbn [op_entries run_op] in *; try (by rewrite (app_singleton_suffix _ _ _ He Hne)).
  - destruct (DueJobs now limit m) as [js m'] eqn:E. cbn [fst snd] in *.
    apply map_eq_app in He as (l1 & l2 & -> & <- & <-).
    rewrite replay_del_jobs, fold_delete_absent; [by destruct m'|].
    intros j Hj. destruct (due_jobs_spec_core now limit m _ _ Hm E) as (_ & _ & _ & Hk & _).
    rewrite Hk, decide_True; [done|]. rewrite fmap_app. apply elem_of_app. right. by apply list_elem_of_fmap_2.
  - unfold FetchAndLockExternalTasks in *.
    pose proof (fetch_and_lock_spec ex_id (ext_lock worker until) ltac:(done) (ext_avail topic now) limit _ (ok_externals m Hm)) as S.
    destruct (fetch_and_lock _ _ _ _ _) as [l t]. destruct S as (S & _). cbn [fst snd] in *.
    apply map_eq_app in He as (l1 & l2 & -> & <- & <-).
    rewrite <- (map_id l2), (replay_exts (fun x => x)), fold_insert_same; [done| |done].
    intros y Hy. destruct (S y) as (? & _ & _ & _ & ?); [set_solver|]. done.
  - unfold FetchAndLockAgentJobs in *.
    pose proof (fetch_and_lock_spec ag_id (ag_lock worker until) ltac:(done) (ag_avail topic now) limit _ (ok_agent_jobs m Hm)) as S.
    destruct (fetch_and_lock _ _ _ _ _) as [l t]. destruct S as (S & _). cbn [fst snd] in *.
    apply map_eq_app in He as (l1 & l2 & -> & <- & <-).
    rewrite <- (map_id l2), (replay_agents (fun x => x)), fold_insert_same; [done| |done].
    intros y Hy. destruct (S y) as (? & _ & _ & _ & ?); [set_solver|]. done.
Qed.

Section durability.
Context `{MO : MapOrder} {C : Codec} {L : CodecLaws}.

(** Operations of a process on an open journal, with restarts in between. *)
Inductive journal_run (every : Z) : list store_op -> Journal -> Prop :=
| run_open j : open_journal every None EmptyString = Ok j -> journal_run every [] j
| run_op_step ops j o j' :
    journal_run every ops j -> op_pre o (j_mem j) -> op_storable o (j_mem j) ->
    journal_op o j = (Ok (), j') -> journal_run every (ops ++ [o]) j'
| run_reopen ops j j' :
    journal_run every ops j -> open_journal every (j_snap j) (j_file j) = Ok j' ->
    journal_run every ops j'.

Lemma journal_inv_load j : journal_inv j -> load (j_snap j) (j_file j) = Ok (j_mem j, j_n j).
Proof.
  intros [_ (base & es & ls & H)]. destruct H as [H1 H2 H3 H4 H5].
  pose proof (load_text (j_snap j) base es ls EmptyString H1 H2) as E.
  rewrite string_app_nil_r in E. rewrite H3, E, H4, H5. done.
Qed.

Lemma journal_op_inv o j :
  journal_inv j -> op_pre o (j_mem j) -> op_storable o (j_mem j) ->
  exists j', journal_op o j = (Ok (), j') /\ j_mem j' = run_op o (j_mem j) /\ journal_inv j'.
Proof.
  intros [Hm (base & es & ls & H)] Hpre [Hst Hsn]. unfold journal_op.
  assert (replay es base = j_mem j) as Hb by apply H.
  match goal with |- context [append_all _ ?j1] => pose proof (append_all_hold (op_entries o (j_mem j)) j1 base es ls) as A end.
  apply A; cbn; clear A.
  - destruct H. split; cbn; done.
  - rewrite replay_app, Hb. by apply op_entries_replay_core.
  - intros a b He Hne. by eapply op_entries_absorb.
  - done.
  - by apply run_op_ok_core.
  - done.
Qed.

Lemma open_inv every snap file j base es ls :
  open_journal every snap file = Ok j -> snap_base snap base -> Forall2 storable es ls ->
  file = file_text ls -> memory_ok (replay es base) ->
  j_mem j = replay es base /\ journal_inv j.
Proof.
  intros Ho Hb Hl -> Hm. unfold open_journal in Ho.
  pose proof (load_text snap base es ls EmptyString Hb Hl) as E. rewrite string_app_nil_r in E.
  rewrite E in Ho. cbn in Ho. injection Ho as <-. cbn. split; [done|]. split; [done|].
  exists base, es, ls. split; cbn; done.
Qed.

(** C2: the journal store refines the memory store: after any run of
    operations and restarts its memory is the one the operations build in a
    plain [Memory], and its files load to exactly that state. *)
Theorem journal_durable every ops j :
  journal_run every ops j ->
  j_mem j = fold_left (fun m o => run_op o m) ops new_memory /\
  load (j_snap j) (j_file j) = Ok (j_mem j, j_n j).
Proof.
  intros H.
  enough (journal_inv j /\ j_mem j = fold_left (fun m o => run_op o m) ops new_memory) as [Hi Hj].
  { split; [done|by apply journal_inv_load]. }
  induction H as [j Ho|ops j o j' _ [Hi IH] Hpre Hst Hop|ops j j' _ [Hi IH] Ho].
  - destruct (open_inv every None EmptyString j new_memory [] [] Ho) as [? ?]; try done.
  - destruct (journal_op_inv o j Hi Hpre Hst) as (j1 & E & Hm & Hi1).
    rewrite E in Hop. injection Hop as <-. split; [done|]. by rewrite fold_left_app, Hm, IH.
  - pose proof Hi as [Hm (base & es & ls & [H1 H2 H3 H4 H5])].
    destruct (open_inv every _ _ j' base es ls Ho) as [Hj' Hi']; try done.
    { by rewrite H4. }
    split; [done|]. by rewrite Hj', H4.
Qed.

(** ** Crashes *)
Lemma stake_app_le a b n : (n <= String.length a)%nat -> stake n (a ++ b) = stake n a.
Proof. revert n. induction a as [|c a IH]; intros [|n] H; cbn in *; try done; [lia|]. by rewrite IH by lia. Qed.
Lemma stake_app_ge a b n : (String.length a <= n)%nat -> stake n (a ++ b) = (a ++ stake (n - String.length a) b)%string.
Proof. revert n. induction a as [|c a IH]; intros n H; cbn in *; [by rewrite Nat.sub_0_r|]. destruct n; [lia|]. cbn. by rewrite IH by lia. Qed.
Lemma stake_nil n : stake n EmptyString = EmptyString.
Proof. by destruct n. Qed.

Lemma stake_printable n l : printable l = true -> printable (stake n l) = true.
Proof.
  rewrite <- (stake_sdrop n l) at 1. rewrite printable_app, andb_true_iff. by intros [].
Qed.

(** A file cut anywhere: whole lines, then the beginning of the next one. *)
Lemma cut_file ls n :
  exists k t, stake n (file_text ls) = (file_text (take k ls) ++ t)%string /\ (k <= length ls)%nat /\
    match ls !! k with
    | None => t = EmptyString
    | Some l => exists u, l = (t ++ u)%string
    end.
Proof.
  revert n. induction ls as [|l ls IH]; intros n.
  - exists 0%nat, EmptyString. cbn. by rewrite stake_nil.
  - cbn [file_text]. destruct (decide (n <= String.length l)%nat) as [Hn|Hn].
    + exists 0%nat, (stake n l). cbn. rewrite stake_app_le by done. split_and!; [done|lia|].
      exists (sdrop n l). by rewrite stake_sdrop.
    + destruct (IH (n - String.length l - 1)%nat) as (k & t & E & Hk & Ht).
      exists (S k), t. cbn [take file_text lookup list_lookup length].
      rewrite stake_app_ge by lia.
      rewrite (stake_app_ge nl) by (cbn; lia). change (String.length nl) with 1%nat. rewrite E.
      split_and!; [by rewrite !string_app_assoc|lia|done].
Qed.

Lemma stake_length n s : String.length (stake n s) = Nat.min n (String.length s).
Proof. revert n. induction s; intros [|n]; cbn; auto. Qed.
Lemma string_length_app a b : String.length (a ++ b)%string = (String.length a + String.length b)%nat.
Proof. apply string_app_length. Qed.

(** The cut keeps every line that was written in full. *)
Lemma cut_file_keeps ls n k t i :
  stake n (file_text ls) = (file_text (take k ls) ++ t)%string ->
  match ls !! k with None => t = EmptyString | Some l => exists u, l = (t ++ u)%string end ->
  (k <= length ls)%nat -> (i <= length ls)%nat ->
  (String.length (file_text (take i ls)) <= n)%nat -> (i <= k)%nat.
Proof.
  intros E Ht Hk Hi Hn. destruct (decide (i <= k)%nat) as [|Hik]; [done|exfalso].
  destruct (ls !! k) as [l|] eqn:El; [|apply lookup_ge_None in El; lia].
  destruct Ht as [u Hu].
  pose proof (take_drop i ls) as Hd. rewrite <- Hd in E at 1. rewrite file_text_app in E.
  apply (f_equal String.length) in E. rewrite stake_length, !string_length_app in E.
  assert (String.length (file_text (take (S k) ls)) <= String.length (file_text (take i ls)))%nat as Hle.
  { rewrite <- (firstn_skipn (S k) (take i ls)). rewrite file_text_app, string_length_app.
    assert (firstn (S k) (take i ls) = take (S k) ls) as ->; [|lia].
    rewrite take_take. f_equal. lia. }
  rewrite (take_S_r _ _ _ El), file_text_app, string_length_app in Hle. cbn in Hle.
  rewrite string_length_app in Hle. subst l. rewrite string_length_app in Hle. cbn in Hle. lia.
Qed.

(** C34: a crash that leaves any prefix of the journal file loses at most a
    tail: loading does not fail, and gives the state after a number of the
    logged entries that includes every entry whose line was written in
    full. *)
Theorem crash_prefix j base es ls n :
  files_hold j (j_mem j) base es ls ->
  exists k, (k <= length es)%nat /\
    load (j_snap j) (stake n (j_file j)) = Ok (replay (take k es) base, Z.of_nat k) /\
    forall i, (i <= length es)%nat -> (String.length (file_text (take i ls)) <= n)%nat -> (i <= k)%nat.
Proof.
  intros [H1 H2 H3 _ _]. rewrite H3. pose proof (Forall2_length _ _ _ H2) as Hlen.
  destruct (cut_file ls n) as (k & t & E & Hk & Ht). pose proof (cut_file_keeps ls n k t) as Hkeep.
  rewrite E in *.
  pose proof (Forall2_take _ _ _ k H2) as H2k.
  rewrite (load_text _ _ _ _ _ H1 H2k), length_take, Nat.min_l by lia.
  destruct (decide (t = EmptyString)) as [->|Hne].
  { exists k. split_and!; [lia|done|]. intros i Hi. apply Hkeep; [done..|lia]. }
  destruct (ls !! k) as [l|] eqn:El; [|done]. destruct Ht as [u Hu].
  destruct (Forall2_lookup_r _ _ _ _ _ H2 El) as (e & He & Hs).
  destruct (storable_line e l Hs) as [_ Hpl].
  assert (printable t = true) as Hpt by (subst l; rewrite printable_app in Hpl; by apply andb_true_iff in Hpl as []).
  rewrite lines_from_last by done. cbn [String.append].
  apply String.eqb_neq in Hne as Hne'. rewrite Hne'.
  destruct (decide (u = EmptyString)) as [->|Hu'].
  - rewrite string_app_nil_r in Hu. subst t. exists (S k).
    assert (k < length ls)%nat by by apply lookup_lt_Some in El.
    split_and!; [lia| |].
    + rewrite (replay_line e) by done. cbn [replay_lines]. rewrite (take_S_r _ _ _ He), replay_app.
      do 2 f_equal. lia.
    + intros i Hi Hin. assert (i <= k)%nat; [|lia]. apply Hkeep; [done| |lia|lia|done].
      exists EmptyString. by rewrite string_app_nil_r.
  - exists k. split_and!; [lia| |].
    + cbn [replay_lines]. rewrite drop_cr_printable, Hne' by done.
      assert (slen t < max_line) as Hmax.
      { destruct Hs as (_ & _ & Hs). unfold slen in *. subst l. rewrite string_length_app in Hs. lia. }
      destruct (Z.leb_spec max_line (slen t)); [lia|].
      by rewrite (enc_prefix e l t u (proj1 Hs) Hu Hu' Hne).
    + intros i Hi. apply Hkeep; [done|by exists u|lia..].
Qed.

(** Appends that do not trigger a compaction only extend the file. *)
Lemma append_all_file es ls j :
  Forall2 storable es ls -> j_n j + Z.of_nat (length es) < j_compact_every j ->
  exists j', append_all es j = (Ok (), j') /\ j_mem j' = j_mem j /\ j_snap j' = j_snap j /\
    j_file j' = (j_file j ++ file_text ls)%string.
Proof.
  intros H. revert j. induction H as [|e l es ls He _ IH]; intros j Hn.
  - exists j. cbn. by rewrite string_app_nil_r.
  - cbn [append_all length] in *. unfold append. rewrite (proj1 He). cbn.
    destruct (Z.leb_spec (j_compact_every j) (j_n j + 1)); [lia|].
    destruct (IH {| j_mem := j_mem j; j_n := j_n j + 1; j_compact_every := j_compact_every j;
                    j_file := (j_file j ++ l ++ nl)%string; j_snap := j_snap j |}) as (j' & E & ? & ? & Hf);
      [cbn; lia|].
    rewrite E. exists j'. cbn [j_mem j_snap j_file file_text] in *. split_and!; [done..|].
    rewrite Hf, !string_app_assoc. by rewrite <- (string_app_assoc _ nl).
Qed.

(** What is written after a torn write is lost.  The process crashes
    while the line of [e] is being written; the store reopens without an
    error, accepts further writes and confirms them; but the first of them
    lands on the torn line, so that the next restart stops there and recovers
    none of them. *)
Theorem torn_write_loses_later_writes every j base es ls e l t u es' ls' :
  files_hold j (j_mem j) base es ls -> storable e l ->
  l = (t ++ u)%string -> t <> EmptyString -> u <> EmptyString ->
  Forall2 storable es' ls' -> es' <> [] ->
  (forall l', head ls' = Some l' -> slen t + slen l' < max_line) ->
  Z.of_nat (length es + length es') < every ->
  exists j1, open_journal every (j_snap j) (j_file j ++ t)%string = Ok j1 /\ j_mem j1 = j_mem j /\
  exists j2, append_all es' j1 = (Ok (), j2) /\
    load (j_snap j2) (j_file j2) = Ok (j_mem j, Z.of_nat (length es)).
Proof.
  intros [H1 H2 H3 H4 _] He Hl Ht Hu Hes Hne Hmax Hev.
  destruct (storable_line e l He) as [_ Hp].
  assert (printable t = true) as Hpt by (rewrite Hl, printable_app in Hp; by apply andb_true_iff in Hp as []).
  apply String.eqb_neq in Ht as Ht'.
  assert (slen t < max_line) as Htmax.
  { destruct He as (_ & _ & Hs). unfold slen in *. subst l. rewrite string_length_app in Hs. lia. }
  unfold open_journal. rewrite H3, (load_text _ _ _ _ _ H1 H2), lines_from_last by done.
  cbn [String.append]. rewrite Ht'. cbn [replay_lines].
  destruct (Z.leb_spec max_line (slen t)); [lia|].
  rewrite drop_cr_printable, Ht', (enc_prefix e l t u (proj1 He) Hl Hu Ht) by done. cbn [rbind].
  eexists. split; [reflexivity|]. cbn [j_mem]. split; [done|].
  destruct (append_all_file es' ls'
    {| j_mem := replay es base; j_n := Z.of_nat (length es);
       j_compact_every := if every <=? 0 then 20000 else every;
       j_file := (file_text ls ++ t)%string; j_snap := j_snap j |} Hes) as (j2 & E & _ & Hs2 & Hf2).
  { cbn. destruct (Z.leb_spec every 0); lia. }
  exists j2. split; [done|]. rewrite Hs2, Hf2. cbn [j_snap j_file].
  destruct Hes as [|e1 y es1 ls1 He1 _]; [done|]. cbn [file_text]. rewrite <- string_app_assoc, (load_text _ _ _ _ _ H1 H2).
  destruct (storable_line _ _ He1) as [_ Hp'].
  rewrite (string_app_assoc t), lines_from_line by (rewrite printable_app; by apply andb_true_iff).
  cbn [String.append replay_lines].
  specialize (Hmax _ eq_refl). unfold slen at 1. rewrite string_length_app.
  destruct (Z.leb_spec max_line (Z.of_nat (String.length t + String.length y))); [unfold slen in *; lia|].
  rewrite drop_cr_printable by (rewrite printable_app; by apply andb_true_iff).
  destruct (String.eqb_spec (t ++ y)%string EmptyString) as [E0|_]; [by destruct t|].
  rewrite (enc_glued e l t u _ y (proj1 He) Hl Hu Ht (proj1 He1)). by rewrite H4.
Qed.
End durability.

(** ** A crash between the snapshot and the truncation

    [compactLocked] renames the new snapshot into place before it empties the
    journal.  A crash in between replays the old lines over a state that
    already has them. *)

(** What an entry does to one key of a table: it sets it, or it drops the
    record when a test on it holds, or leaves it. *)
Inductive key_effect (A : Type) := KSet (x : option A) | KKeep (p : A -> bool).
Arguments KSet {A} x.
Arguments KKeep {A} p.
Definition run_effect {A} (f : key_effect A) (x : option A) : option A :=
  match f with
  | KSet y => y
  | KKeep p => x ≫= fun v => if p v then Some v else None
  end.
Definition run_effects {A} (fs : list (key_effect A)) (x : option A) : option A :=
  fold_left (fun x f => run_effect f x) fs x.

Lemma run_effects_shape {A} (fs : list (key_effect A)) :
  exists f, forall x, run_effects fs x = run_effect f x.
Proof.
  unfold run_effects. induction fs as [|g fs IH] using rev_ind.
  - exists (KKeep (fun _ => true)). by intros [].
  - destruct IH as [f Hf]. destruct g as [y|q].
    + exists (KSet y). intros x. by rewrite fold_left_app.
    + destruct f as [y|p].
      * exists (KSet (run_effect (KKeep q) y)). intros x. by rewrite fold_left_app, Hf.
      * exists (KKeep (fun v => p v && q v)). intros x. rewrite fold_left_app, Hf. cbn.
        destruct x as [v|]; cbn; [|done]. destruct (p v); cbn; [|done]. by destruct (q v).
Qed.

Lemma run_effects_twice {A} (fs : list (key_effect A)) x :
  run_effects fs (run_effects fs x) = run_effects fs x.
Proof.
  destruct (run_effects_shape fs) as [f Hf]. rewrite !Hf. destruct f as [y|p]; cbn; [done|].
  destruct x as [v|]; cbn; [|done]. destruct (p v) eqn:E; cbn; [by rewrite E|done].
Qed.

(** A table whose keys are changed independently by each entry is the same
    after the second replay as after the first; [step] may treat entries that
    do not touch the table in its own way. *)
Lemma table_replay_twice {A} (step : Memory -> entry -> Memory) (T : Memory -> gmap string A)
    (eff : string -> entry -> key_effect A) es m :
  (forall m e, T (step m e) = T (apply_entry m e)) ->
  (forall m e k, T (apply_entry m e) !! k = run_effect (eff k e) (T m !! k)) ->
  T (fold_left step es (fold_left step es m)) = T (fold_left step es m).
Proof.
  intros Hs H. apply map_eq. intros k.
  assert (forall m, T (fold_left step es m) !! k = run_effects (map (eff k) es) (T m !! k)) as E.
  { clear -H Hs. unfold run_effects. induction es as [|e es IH]; intros m; cbn; [done|].
    by rewrite IH, Hs, H. }
  rewrite !E. apply run_effects_twice.
Qed.

Definition at_key {A} (k id : string) (x : option A) : key_effect A :=
  if String.eqb id k then KSet x else KKeep (fun _ => true).
Definition not_of {A} (inst : A -> string) (id : string) : key_effect A :=
  KKeep (fun v => negb (String.eqb (inst v) id)).
Definition no_effect {A} : key_effect A := KKeep (fun _ => true).

Lemma run_no_effect {A} (x : option A) : run_effect no_effect x = x.
Proof. by destruct x. Qed.
Lemma run_at_key {A} k id (x : A) (t : gmap string A) :
  <[id := x]> t !! k = run_effect (at_key k id (Some x)) (t !! k).
Proof.
  unfold at_key. destruct (String.eqb_spec id k) as [->|]; [by rewrite lookup_insert_eq|].
  rewrite lookup_insert_ne by done. symmetry. apply run_no_effect.
Qed.
Lemma run_at_key_del {A} k id (t : gmap string A) :
  delete id t !! k = run_effect (at_key k id None) (t !! k).
Proof.
  unfold at_key. destruct (String.eqb_spec id k) as [->|]; [by rewrite lookup_delete_eq|].
  rewrite lookup_delete_ne by done. symmetry. apply run_no_effect.
Qed.
Lemma run_not_of {A} (inst : A -> string) k id (t : gmap string A) :
  drop_of inst id t !! k = run_effect (not_of inst id) (t !! k).
Proof.
  apply option_eq. intros x. rewrite drop_of_Some. cbn. destruct (t !! k) as [y|]; cbn; [|naive_solver].
  destruct (String.eqb_spec (inst y) id); cbn; naive_solver.
Qed.

(** The tables other than the history. *)
Definition same_tables (m1 m2 : Memory) : Prop :=
  m_definitions m1 = m_definitions m2 /\ m_instances m1 = m_instances m2 /\
  m_tasks m1 = m_tasks m2 /\ m_jobs m1 = m_jobs m2 /\ m_externals m1 = m_externals m2 /\
  m_agent_jobs m1 = m_agent_jobs m2 /\ m_subs m1 = m_subs m2 /\
  m_incidents m1 = m_incidents m2 /\ m_blobs m1 = m_blobs m2.

Ltac effects :=
  let e := fresh "e" in
  intros ? e ?; destruct e; cbn;
  repeat match goal with |- context [let '(_, _) := cut_nul ?id in _] => destruct (cut_nul id) end;
  cbn; first [ apply run_at_key | apply run_at_key_del | apply run_not_of | symmetry; apply run_no_effect ].

Lemma twice_tables step es m :
  (forall m e, same_tables (step m e) (apply_entry m e)) ->
  same_tables (fold_left step es (fold_left step es m)) (fold_left step es m).
Proof.
  intros Hs. unfold same_tables. split_and!.
  - apply (table_replay_twice step m_definitions (fun k e =>
      match e with EDef d => at_key k (pd_id d) (Some d) | _ => no_effect end)); [intros ? ?; apply Hs|effects].
  - apply (table_replay_twice step m_instances (fun k e =>
      match e with EInst i => at_key k (in_id i) (Some i) | EPurge id => at_key k id None | _ => no_effect end));
    [intros ? ?; apply Hs|effects].
  - apply (table_replay_twice step m_tasks (fun k e =>
      match e with ETask t => at_key k (ta_id t) (Some t) | EPurge id => not_of ta_inst id | _ => no_effect end));
    [intros ? ?; apply Hs|effects].
  - apply (table_replay_twice step m_jobs (fun k e =>
      match e with EJob j => at_key k (jb_id j) (Some j) | EDelJob id => at_key k id None
              | EPurge id => not_of jb_inst id | _ => no_effect end));
    [intros ? ?; apply Hs|effects].
  - apply (table_replay_twice step m_externals (fun k e =>
      match e with EExt t => at_key k (ex_id t) (Some t) | EPurge id => not_of ex_inst id | _ => no_effect end));
    [intros ? ?; apply Hs|effects].
  - apply (table_replay_twice step m_agent_jobs (fun k e =>
      match e with EAgent t => at_key k (ag_id t) (Some t) | EPurge id => not_of ag_inst id | _ => no_effect end));
    [intros ? ?; apply Hs|effects].
  - apply (table_replay_twice step m_subs (fun k e =>
      match e with ESub s => at_key k (sb_id s) (Some s) | EDelSub id => at_key k id None
              | EPurge id => not_of sb_inst id | _ => no_effect end));
    [intros ? ?; apply Hs|effects].
  - apply (table_replay_twice step m_incidents (fun k e =>
      match e with EInc i => at_key k (ic_id i) (Some i) | EPurge id => not_of ic_inst id | _ => no_effect end));
    [intros ? ?; apply Hs|effects].
  - apply (table_replay_twice step m_blobs (fun k e =>
      match e with
      | EBlob b => at_key k (blob_key (bl_kind b) (bl_key b)) (Some b)
      | EDelBlob id => let '(kind, key) := cut_nul id in at_key k (blob_key kind key) None
      | _ => no_effect end));
    [intros ? ?; apply Hs|effects].
Qed.

(** The snapshot of a compaction with the journal it was to replace
    loads to the state of the compaction in every table but the history. *)
Theorem compaction_crash_tables `{MO : MapOrder} {C : Codec} {L : CodecLaws} j base es ls j' :
  files_hold j (j_mem j) base es ls -> memory_ok (j_mem j) ->
  safe_snap (snapshot_of (j_mem j)) -> compact j = (Ok (), j') ->
  exists m, load (j_snap j') (j_file j) = Ok (m, j_n j) /\ same_tables m (j_mem j).
Proof.
  intros [H1 H2 H3 H4 H5] Hm Hs Hc. unfold compact in Hc.
  destruct (snap_safe _ Hs) as (d & E & Hd). rewrite E in Hc. injection Hc as <-. cbn [j_snap].
  exists (replay es (j_mem j)). split.
  - pose proof (load_text (Some d) (j_mem j) es ls EmptyString) as Hl.
    rewrite string_app_nil_r in Hl. rewrite H3, Hl, H5; [done| |done].
    exists (snapshot_of (j_mem j)). split; [done|]. by apply load_snapshot_of.
  - rewrite <- H4. apply (twice_tables apply_entry). by intros; split_and!.
Qed.

(** In the history the events of the journal appear twice. *)
Example compaction_crash_history :
  let ev := set_hv_seq 1 (sample_event "a") in
  hist_of "a" (replay [EHist ev] new_memory) = [ev] /\
  hist_of "a" (replay [EHist ev] (replay [EHist ev] new_memory)) = [ev; ev].
Proof. vm_compute. auto. Qed.

(** ** Instances

    A codec of two entries, for evaluating the model. *)
#[export] Instance Job_eq_dec : EqDecision Job.
Proof. solve_decision. Defined.

Definition job1 : Job := sample_job "j1" "a" 10.
Definition with_job1 : Memory := PutJob job1 new_memory.

Definition two_entries : Codec := {|
  enc_entry e := match e with
                 | EJob j => if decide (j = job1) then Some "{1}" else None
                 | EDelJob id => if String.eqb id "j1" then Some "{2}" else None
                 | _ => None
                 end;
  dec_line s := if String.eqb s "{1}" then DEntry (EJob job1)
                else if String.eqb s "{2}" then DEntry (EDelJob "j1") else DBad;
  enc_snap s := match sn_jobs s with [] => Some "S0" | _ => Some "S1" end;
  dec_snap s := if String.eqb s "S0" then Some (@snapshot_of key_order new_memory)
                else if String.eqb s "S1" then Some (@snapshot_of key_order with_job1) else None;
|}.

Lemma two_entries_inv e l :
  @enc_entry two_entries e = Some l ->
  (e = EJob job1 /\ l = "{1}") \/ (e = EDelJob "j1" /\ l = "{2}").
Proof.
  destruct e; cbn; try done.
  - case_decide; [|done]. intros [= <-]. left. by subst.
  - destruct (String.eqb_spec id "j1"); [|done]. intros [= <-]. right. by subst.
Qed.

(** The prefixes of a text of three bytes. *)
Lemma split3 a b c t u :
  String a (String b (String c "")) = (t ++ u)%string -> t <> "" -> u <> "" ->
  t = String a "" \/ t = String a (String b "").
Proof.
  intros E Ht Hu. destruct t as [|x [|y [|z t]]]; cbn in E; try done.
  - injection E as -> _. by left.
  - injection E as -> -> _. by right.
  - injection E as -> -> -> E. by destruct t, u.
Qed.

#[export] Program Instance two_entries_laws : @CodecLaws two_entries := {|
  safe e := e = EJob job1 \/ e = EDelJob "j1";
  safe_snap s := s = @snapshot_of key_order new_memory \/ s = @snapshot_of key_order with_job1;
|}.
Next Obligation. intros e [->| ->]; eexists; split; vm_compute; reflexivity. Qed.
Next Obligation. intros e l H. by apply two_entries_inv in H as [[_ ->]|[_ ->]]. Qed.
Next Obligation.
  intros e l t u H E Hu Ht.
  apply two_entries_inv in H as [[_ ->]|[_ ->]]; by destruct (split3 _ _ _ _ _ E Ht Hu) as [->| ->].
Qed.
Next Obligation.
  intros e l t u e' l' H E Hu Ht H'.
  apply two_entries_inv in H as [[_ ->]|[_ ->]]; apply two_entries_inv in H' as [[_ ->]|[_ ->]];
    by destruct (split3 _ _ _ _ _ E Ht Hu) as [->| ->].
Qed.
Next Obligation. intros s [->| ->]; eexists; split; vm_compute; reflexivity. Qed.

Abbreviation journal_open := (@open_journal two_entries).
Definition journal0 : Journal :=
  {| j_mem := new_memory; j_n := 0; j_compact_every := 20000; j_file := ""; j_snap := None |}.
Definition journal1 : Journal :=
  {| j_mem := with_job1; j_n := 1; j_compact_every := 20000; j_file := ("{1}" ++ nl)%string; j_snap := None |}.

Lemma op_entries_replay_witness :
  replay (op_entries (ODueJobs 25 0) sample_store) sample_store = run_op (ODueJobs 25 0) sample_store /\
  length (op_entries (ODueJobs 25 0) sample_store) = 2%nat.
Proof.
  split; [|vm_compute; reflexivity].
  apply (op_entries_replay (ODueJobs 25 0) sample_store (reachable_ok _ sample_reachable) I).
Defined.

Lemma journal1_run : @journal_run key_order two_entries two_entries_laws 0 [OPutJob job1] journal1.
Proof.
  apply (run_op_step 0 [] journal0 (OPutJob job1) journal1).
  - apply run_open. reflexivity.
  - exact I.
  - split; [|by right]. constructor; [|constructor]. split; [by left|]. intros l [= <-]. by vm_compute.
  - vm_compute. reflexivity.
Qed.

Lemma journal_durable_witness :
  @load two_entries None ("{1}" ++ nl)%string = Ok (with_job1, 1) /\ with_job1 <> new_memory.
Proof.
  split; [|discriminate].
  exact (proj2 (@journal_durable key_order two_entries two_entries_laws 0 _ journal1 journal1_run)).
Defined.

Lemma job1_storable : @storable two_entries (EJob job1) "{1}".
Proof. split; [vm_compute; reflexivity|]. split; [vm_compute; reflexivity|]. by vm_compute. Qed.
Lemma del1_storable : @storable two_entries (EDelJob "j1") "{2}".
Proof. split; [vm_compute; reflexivity|]. split; [vm_compute; reflexivity|]. by vm_compute. Qed.

Lemma journal1_holds :
  @files_hold two_entries journal1 with_job1 new_memory [EJob job1] ["{1}"].
Proof.
  split; [reflexivity| |reflexivity|reflexivity|reflexivity]. constructor; [apply job1_storable|constructor].
Qed.

Lemma crash_prefix_witness :
  exists k, @load two_entries None (stake 2 ("{1}" ++ nl)%string)
            = Ok (replay (take k [EJob job1]) new_memory, Z.of_nat k).
Proof.
  destruct (@crash_prefix two_entries two_entries_laws journal1 new_memory
              [EJob job1] ["{1}"] 2 journal1_holds) as (k & _ & H & _).
  exists k. exact H.
Defined.

Lemma torn_write_loses_later_writes_witness :
  exists j1, journal_open 20000 None ("{1}" ++ nl ++ "{1")%string = Ok j1 /\
    exists j2, @append_all key_order two_entries [EDelJob "j1"] j1 = (Ok (), j2) /\
      @load two_entries (j_snap j2) (j_file j2) = Ok (with_job1, 1) /\ is_Some (m_jobs with_job1 !! "j1").
Proof.
  destruct (@torn_write_loses_later_writes key_order two_entries two_entries_laws 20000 journal1 new_memory
    [EJob job1] ["{1}"] (EJob job1) "{1}" "{1" "}" [EDelJob "j1"] ["{2}"] journal1_holds job1_storable)
    as (j1 & H1 & _ & j2 & H2 & H3); try done.
  - constructor; [apply del1_storable|constructor].
  - intros l [= <-]. by vm_compute.
  - exists j1. split; [exact H1|]. exists j2. split; [exact H2|]. split; [exact H3|]. by eexists.
Defined.

Lemma compaction_crash_tables_witness :
  exists m, @load two_entries (Some "S1") ("{1}" ++ nl)%string = Ok (m, 1) /\ same_tables m with_job1.
Proof.
  apply (@compaction_crash_tables key_order two_entries two_entries_laws journal1 new_memory
    [EJob job1] ["{1}"]
    {| j_mem := with_job1; j_n := 0; j_compact_every := 20000; j_file := ""; j_snap := Some "S1" |}
    journal1_holds).
  - apply reachable_ok. apply (reach_op new_memory (OPutJob job1)); [apply reach_new|exact I].
  - by right.
  - vm_compute. reflexivity.
Defined.
