(* ===== verification/BpmnModel.v ===== *)
(** * The process model ([src/bpmn/model.go])

    A flow node is one record with the fields of every kind of node; a scope
    (a process or an embedded sub-process) holds its nodes and flows in maps
    and the order of the nodes in a list.  An absent pointer is [None], an
    absent string the empty one. *)
From S2P Require Import Prelude.
Local Open Scope string_scope.

Inductive ElementType :=
| TypeStartEvent | TypeEndEvent | TypeIntermediateCatchEvent | TypeIntermediateThrowEvent
| TypeBoundaryEvent | TypeUserTask | TypeServiceTask | TypeScriptTask | TypeBusinessRuleTask
| TypeSendTask | TypeReceiveTask | TypeManualTask | TypeTask | TypeExclusiveGateway
| TypeParallelGateway | TypeInclusiveGateway | TypeEventBasedGateway | TypeSubProcess
| TypeCallActivity.
Inductive EventKind := KindNone | KindTimer | KindMessage | KindSignal | KindError | KindTerminate.
#[export] Instance ElementType_eq_dec : EqDecision ElementType.
Proof. solve_decision. Defined.
#[export] Instance EventKind_eq_dec : EqDecision EventKind.
Proof. solve_decision. Defined.

(** The string constants. *)
Definition type_string (t : ElementType) : string :=
  match t with
  | TypeStartEvent => "startEvent" | TypeEndEvent => "endEvent"
  | TypeIntermediateCatchEvent => "intermediateCatchEvent"
  | TypeIntermediateThrowEvent => "intermediateThrowEvent"
  | TypeBoundaryEvent => "boundaryEvent" | TypeUserTask => "userTask"
  | TypeServiceTask => "serviceTask" | TypeScriptTask => "scriptTask"
  | TypeBusinessRuleTask => "businessRuleTask" | TypeSendTask => "sendTask"
  | TypeReceiveTask => "receiveTask" | TypeManualTask => "manualTask" | TypeTask => "task"
  | TypeExclusiveGateway => "exclusiveGateway" | TypeParallelGateway => "parallelGateway"
  | TypeInclusiveGateway => "inclusiveGateway" | TypeEventBasedGateway => "eventBasedGateway"
  | TypeSubProcess => "subProcess" | TypeCallActivity => "callActivity"
  end.
Definition kind_string (k : EventKind) : string :=
  match k with
  | KindNone => "none" | KindTimer => "timer" | KindMessage => "message"
  | KindSignal => "signal" | KindError => "error" | KindTerminate => "terminate"
  end.

Record SequenceFlow := {
  sq_id : string; sq_name : string; sq_source : string; sq_target : string; sq_cond : string;
}.
Record EventDefinition := {
  ev_kind : EventKind;
  ev_date : string; ev_duration : string; ev_cycle : string;
  ev_message : string; ev_signal : string; ev_code : string;
}.
Record AgentTool := { at_name : string; at_desc : string; at_schema : string; at_server : string }.
Record AgentSpec := {
  as_agent : string; as_topic : string; as_prompt : string; as_system : string;
  as_out : string; as_tools : list AgentTool; as_model : string; as_max_tokens : Z;
  as_effort : string; as_approval : bool; as_groups : list string; as_retries : Z;
}.
Record MultiInstance := {
  ml_seq : bool; ml_card : string; ml_coll : string; ml_elem : string; ml_cond : string;
  ml_out_coll : string; ml_out_elem : string;
}.
Record IOMapping := { io_source : string; io_target : string }.

(** [Element] and [Container]. *)
Inductive Element := MkElement {
  el_id : string; el_name : string; el_type : ElementType;
  el_incoming : list string; el_outgoing : list string; el_doc : string;
  el_event : option EventDefinition; el_attached : string; el_cancel : bool; el_default : string;
  el_assignee : string; el_users : list string; el_groups : list string; el_form : string;
  el_due : string; el_priority : string; el_task_type : string; el_topic : string;
  el_retries : Z; el_expr : string; el_result : string; el_decision : string;
  el_called : string; el_sub : option Container; el_by_event : bool;
  el_multi : option MultiInstance; el_agent : option AgentSpec;
  el_inputs : list IOMapping; el_outputs : list IOMapping; el_async : bool;
}
with Container := MkContainer {
  c_elements : gmap string Element;
  c_flows : gmap string SequenceFlow;
  c_order : list string;
}.

Record Process := { pr_id : string; pr_name : string; pr_exec : bool; pr_container : Container }.
Record BpmnError := { er_id : string; er_name : string; er_code : string }.
Record Definitions := {
  df_id : string; df_ns : string; df_processes : list Process;
  df_messages : gmap string string; df_signals : gmap string string; df_errors : gmap string BpmnError;
}.

(** The nodes named by [ids] that are in the scope and satisfy [f]. *)
Definition pick (c : Container) (f : Element -> bool) (ids : list string) : list Element :=
  omap (fun id => match c_elements c !! id with
                  | Some el => if f el then Some el else None
                  | None => None
                  end) ids.

Definition is_start (el : Element) : bool := bool_decide (el_type el = TypeStartEvent).
Definition start_events (c : Container) : list Element := pick c is_start (c_order c).

Definition plain_event (el : Element) : bool :=
  match el_event el with None => true | Some ev => bool_decide (ev_kind ev = KindNone) end.
Definition none_start_event (c : Container) : option Element :=
  head (filter (fun el => plain_event el = true) (start_events c)).

Definition is_boundary_of (activity : string) (el : Element) : bool :=
  bool_decide (el_type el = TypeBoundaryEvent) && String.eqb (el_attached el) activity.
Definition boundary_events (c : Container) (activity : string) : list Element :=
  pick c (is_boundary_of activity) (c_order c).

Definition is_activity (el : Element) : bool :=
  match el_type el with
  | TypeUserTask | TypeServiceTask | TypeScriptTask | TypeBusinessRuleTask | TypeSendTask
  | TypeReceiveTask | TypeManualTask | TypeTask | TypeSubProcess | TypeCallActivity => true
  | _ => false
  end.
Definition is_gateway (el : Element) : bool :=
  match el_type el with
  | TypeExclusiveGateway | TypeParallelGateway | TypeInclusiveGateway | TypeEventBasedGateway => true
  | _ => false
  end.

Definition process_by_id (d : Definitions) (id : string) : option Process :=
  head (filter (fun p => String.eqb (pr_id p) id = true) (df_processes d)).
Definition first_executable (d : Definitions) : option Process :=
  head (filter (fun p => pr_exec p = true) (df_processes d)).

(** The first value of a list of optional results. *)
Fixpoint first_some {A} (l : list (option A)) : option A :=
  match l with
  | [] => None
  | Some x :: _ => Some x
  | None :: l => first_some l
  end.

Section search.
Context `{MO : MapOrder}.

(** [findScope]: the search of the nested scopes, in the order of the map. *)
Fixpoint find_scope (c : Container) (id : string) : option Container :=
  let nested := (fun el => match el_sub el with Some s => find_scope s id | None => None end)
                  <$> c_elements c in
  match c_elements c !! id with
  | Some _ => Some c
  | None => first_some (map snd (map_range 0 nested))
  end.
Definition FindScope (p : Process) (id : string) : option Container := find_scope (pr_container p) id.
Definition FindElement (p : Process) (id : string) : option Element :=
  match FindScope p id with Some s => c_elements s !! id | None => None end.
End search.

(** ** Scopes inside a scope *)

(** [inside c d]: [d] is [c] or is nested in it at some depth. *)
Inductive inside : Container -> Container -> Prop :=
| inside_refl c : inside c c
| inside_sub c k el s d :
    c_elements c !! k = Some el -> el_sub el = Some s -> inside s d -> inside c d.
#[export] Hint Constructors inside : go.

(** The depth of the nesting, for induction. *)
Fixpoint height (c : Container) : nat :=
  S (max_list (map snd (map_to_list
       ((fun el => match el_sub el with Some s => height s | None => 0 end) <$> c_elements c)))).
Lemma height_sub c k el s :
  c_elements c !! k = Some el -> el_sub el = Some s -> height s < height c.
Proof.
  intros Hk Hs. destruct c as [els fl ord]. cbn in *. apply Nat.lt_succ_r.
  apply max_list_elem_of_le. apply list_elem_of_fmap. exists (k, height s). split; [done|].
  apply elem_of_map_to_list. rewrite lookup_fmap, Hk. cbn. by rewrite Hs.
Qed.

Lemma container_ind (P : Container -> Prop) :
  (forall c, (forall k el s, c_elements c !! k = Some el -> el_sub el = Some s -> P s) -> P c) ->
  forall c, P c.
Proof.
  intros H c. remember (height c) as n eqn:E. revert c E.
  induction n as [n IH] using lt_wf_ind. intros c ->. apply H. intros k el s Hk Hs.
  eapply IH; [by eapply height_sub|done].
Qed.

Lemma pick_elem_of c f ids el :
  el ∈ pick c f ids <-> exists id, id ∈ ids /\ c_elements c !! id = Some el /\ f el = true.
Proof.
  unfold pick. rewrite list_elem_of_omap. split.
  - intros (id & Hin & Hm). exists id. repeat case_step_in Hm; simplify_eq. auto.
  - intros (id & Hin & He & Hf). exists id. by rewrite He, Hf.
Qed.

Lemma first_some_Some {A} (l : list (option A)) x : first_some l = Some x -> Some x ∈ l.
Proof. induction l as [|[y|] l IH]; cbn; [done|intros [= ->]; left|intros; right; auto]. Qed.
Lemma first_some_None {A} (l : list (option A)) : first_some l = None <-> forall x, Some x ∉ l.
Proof.
  induction l as [|[y|] l IH]; cbn; [split; [intros _ x Hx; set_solver|done]| |].
  - split; [done|]. intros H. exfalso. apply (H y). left.
  - rewrite IH. split; intros H x Hx; apply (H x); [|by right].
    apply elem_of_cons in Hx as [?|?]; [done|auto].
Qed.

Lemma find_scope_unfold `{MO : MapOrder} c id :
  find_scope c id =
    match c_elements c !! id with
    | Some _ => Some c
    | None => first_some (map snd (map_range 0
        ((fun el => match el_sub el with Some s => find_scope s id | None => None end) <$> c_elements c)))
    end.
Proof. by destruct c. Qed.

(** [find_scope] finds exactly the identifiers that some nested scope holds,
    and the scope it returns holds the identifier. *)
Lemma find_scope_sound `{MO : MapOrder} c id s :
  find_scope c id = Some s -> inside c s /\ is_Some (c_elements s !! id).
Proof.
  revert s. induction c as [c IH] using container_ind. intros s.
  rewrite find_scope_unfold. destruct (_ !! id) eqn:E; [intros [= <-]; eauto with go|].
  intros H%first_some_Some. apply list_elem_of_fmap in H as ([k r] & Hr0 & Hr). cbn in Hr0. subst r.
  apply elem_of_map_range, lookup_fmap_Some in Hr as (el & Hs & Hk). cbn in Hs.
  destruct (el_sub el) as [sub|] eqn:Esub; [|done].
  destruct (IH k el sub Hk Esub s Hs) as [? ?]. eauto with go.
Qed.

Lemma find_scope_complete `{MO : MapOrder} c d id :
  inside c d -> is_Some (c_elements d !! id) -> is_Some (find_scope c id).
Proof.
  intros Hin Hid. induction Hin as [c|c k el s d Hk Hs Hin IH]; rewrite find_scope_unfold.
  - by destruct Hid as [? ->].
  - destruct (c_elements c !! id); [eauto|].
    destruct (first_some _) eqn:E; [eauto|].
    rewrite first_some_None in E. destruct (IH Hid) as [x Hx].
    exfalso. apply (E x). apply list_elem_of_fmap. exists (k, Some x). split; [done|].
    apply elem_of_map_range. rewrite lookup_fmap.
    rewrite Hk. cbn. by rewrite Hs, Hx.
Qed.
