(* ===== verification/BpmnValidate.v ===== *)
(** * Structural validation of models ([src/bpmn/validate.go])

    The problems are collected in a list of messages, in the order of the
    calls of [addf]; the model is accepted when the list is empty. *)
From Stdlib Require Import Ascii.
From S2P Require Import Prelude GoFloat GoUtf8 GoTime ExprValue ExprLexer BpmnModel.
Local Open Scope go_scope.
Local Open Scope string_scope.
Local Open Scope list_scope.

(** [addf] under a condition. *)
Definition report (b : bool) (msg : string) : list string := if b then [msg] else [].
Definition known {A} (m : gmap string A) (id : string) : bool :=
  match m !! id with Some _ => true | None => false end.
Definition no_ids (l : list string) : bool := match l with [] => true | _ => false end.

(** The targets an event-based gateway may have. *)
Definition catches (c : Container) (target : string) : bool :=
  match c_elements c !! target with
  | Some t => bool_decide (el_type t = TypeIntermediateCatchEvent) || bool_decide (el_type t = TypeReceiveTask)
  | None => false
  end.

Definition typed_start (c : Container) : bool :=
  existsb (fun s => negb (plain_event s)) (start_events c).

Section validate.
Context {U : Unicode} `{MO : MapOrder}.

(** The checks of one node by its type; [nested] are the problems of its body. *)
Definition validate_by_type (c : Container) (el : Element) (loc : string) (nested : list string) : list string :=
  match el_type el with
  | TypeStartEvent =>
      report (negb (no_ids (el_incoming el))) (loc ++ " must not have incoming flows")
      ++ report (no_ids (el_outgoing el)) (loc ++ " has no outgoing flow")
  | TypeEndEvent => report (negb (no_ids (el_outgoing el))) (loc ++ " must not have outgoing flows")
  | TypeBoundaryEvent =>
      match c_elements c !! el_attached el with
      | None => [(loc ++ " attached to unknown activity " ++ quote (el_attached el))%string]
      | Some att => report (negb (is_activity att)) (loc ++ " attached to non-activity " ++ quote (el_attached el))
      end
      ++ report (no_ids (el_outgoing el)) (loc ++ " has no outgoing flow")
  | TypeExclusiveGateway | TypeInclusiveGateway =>
      report (negb (String.eqb (el_default el) "") && negb (known (c_flows c) (el_default el)))
        (loc ++ " default flow " ++ quote (el_default el) ++ " not found")
      ++ report (no_ids (el_outgoing el)) (loc ++ " has no outgoing flow")
  | TypeEventBasedGateway =>
      report (Nat.ltb (length (el_outgoing el)) 2) (loc ++ " needs at least two outgoing flows")
      ++ flat_map (fun fid =>
           match c_flows c !! fid with
           | None => []
           | Some f =>
               report (negb (catches c (sq_target f)))
                 (loc ++ " outgoing flow " ++ quote fid
                  ++ " must target an intermediate catch event or receive task")
           end) (el_outgoing el)
  | TypeParallelGateway => report (no_ids (el_outgoing el)) (loc ++ " has no outgoing flow")
  | TypeCallActivity => report (String.eqb (el_called el) "") (loc ++ " has no calledElement")
  | TypeBusinessRuleTask => report (String.eqb (el_decision el) "") (loc ++ " has no decisionRef")
  | TypeSubProcess =>
      match el_sub el with
      | None => [(loc ++ " is empty")%string]
      | Some s =>
          if bool_decide (c_elements s = ∅) then [(loc ++ " is empty")%string]
          else (if el_by_event el
                then report (negb (typed_start s)) (loc ++ ": event sub-process needs a typed start event")
                else report (match none_start_event s with None => true | _ => false end)
                       (loc ++ " has no none start event"))
               ++ nested
      end
  | _ => []
  end.

(** The node kinds whose missing outgoing flows are legal or reported above. *)
Definition may_end (t : ElementType) : bool :=
  match t with
  | TypeEndEvent | TypeIntermediateThrowEvent | TypeBoundaryEvent | TypeStartEvent => true
  | _ => false
  end.

Definition validate_element (c : Container) (scope : string) (el : Element) (nested : list string) : list string :=
  let loc := (scope ++ ": " ++ type_string (el_type el) ++ " " ++ quote (el_id el))%string in
  flat_map (fun fid => report (negb (known (c_flows c) fid))
                         (loc ++ " references unknown sequence flow " ++ quote fid))
    (el_incoming el ++ el_outgoing el)
  ++ validate_by_type c el loc nested
  ++ report (no_ids (el_outgoing el) && negb (el_by_event el) && negb (may_end (el_type el)))
       (loc ++ " is a dead end (no outgoing flow)").

Definition validate_flow (c : Container) (scope : string) (f : SequenceFlow) : list string :=
  report (negb (known (c_elements c) (sq_source f)))
    (scope ++ ": sequence flow " ++ quote (sq_id f) ++ " has unknown source " ++ quote (sq_source f))
  ++ report (negb (known (c_elements c) (sq_target f)))
       (scope ++ ": sequence flow " ++ quote (sq_id f) ++ " has unknown target " ++ quote (sq_target f)).

(** The loop over [c.Order]: an identifier without a node is a nil pointer. *)
Fixpoint each_in_order {A} (m : gmap string A) (f : A -> res string (list string)) (ids : list string)
  : res string (list string) :=
  match ids with
  | [] => Ok []
  | id :: ids =>
      match m !! id with
      | None => Panic "nil pointer dereference"
      | Some x => let! l := f x in let! l' := each_in_order m f ids in Ok (l ++ l')
      end
  end.

Fixpoint validate_container (c : Container) (scope : string) (is_process : bool) : res string (list string) :=
  let checked :=
    (fun el =>
       let! nested := match el_type el, el_sub el with
                      | TypeSubProcess, Some s => 
                          if bool_decide (c_elements s = ∅) then Ok []
                          else validate_container s (scope ++ "/" ++ el_id el)%string false
                      | _, _ => Ok []
                      end in
       Ok (validate_element c scope el nested)) <$> c_elements c in
  let! l := each_in_order checked (fun r => r) (c_order c) in
  Ok (report (is_process && match start_events c with [] => true | _ => false end)
        (scope ++ ": no start event")
      ++ l ++ flat_map (validate_flow c scope) (map snd (map_range 1 (c_flows c)))).

(** The loop over the processes; [seen] are the process IDs so far. *)
Fixpoint validate_processes (seen : list string) (ps : list Process) : res string (list string) :=
  match ps with
  | [] => Ok []
  | p :: ps =>
      if String.eqb (pr_id p) "" then
        let! l := validate_processes seen ps in Ok ("process without id" :: l)
      else
        let! l := if pr_exec p then validate_container (pr_container p) ("process " ++ pr_id p) true else Ok [] in
        let! l' := validate_processes (pr_id p :: seen) ps in
        Ok (report (existsb (String.eqb (pr_id p)) seen) ("duplicate process id " ++ quote (pr_id p)) ++ l ++ l')
  end.
Definition Validate (d : Definitions) : res string (list string) :=
  let! l := validate_processes [] (df_processes d) in
  Ok (report (match df_processes d with [] => true | _ => false end) "no process defined" ++ l).
End validate.

(** [ValidationError.Error]. *)
Definition validation_error_string (problems : list string) : string :=
  match problems with
  | [p] => "bpmn: " ++ p
  | _ => fold_left (fun msg p => (msg ++ String (ascii_of_nat 10) ("  - " ++ p))%string) problems
           ("bpmn: " ++ fmt_int (Z.of_nat (length problems)) ++ " problems found:")
  end%string.

(** ** What an accepted model satisfies

    The conditions the checks stand for, stated without messages. *)
Definition flows_known (c : Container) (el : Element) : Prop :=
  forall fid, fid ∈ el_incoming el ++ el_outgoing el -> is_Some (c_flows c !! fid).
Definition shape_sound (c : Container) (el : Element) : Prop :=
  match el_type el with
  | TypeStartEvent => el_incoming el = [] /\ el_outgoing el <> []
  | TypeEndEvent => el_outgoing el = []
  | TypeBoundaryEvent =>
      (exists att, c_elements c !! el_attached el = Some att /\ is_activity att = true)
      /\ el_outgoing el <> []
  | TypeExclusiveGateway | TypeInclusiveGateway =>
      (el_default el <> ""%string -> is_Some (c_flows c !! el_default el)) /\ el_outgoing el <> []
  | TypeEventBasedGateway =>
      2 <= length (el_outgoing el) /\
      forall fid f, fid ∈ el_outgoing el -> c_flows c !! fid = Some f ->
        exists t, c_elements c !! sq_target f = Some t
          /\ (el_type t = TypeIntermediateCatchEvent \/ el_type t = TypeReceiveTask)
  | TypeParallelGateway => el_outgoing el <> []
  | TypeCallActivity => el_called el <> ""%string
  | TypeBusinessRuleTask => el_decision el <> ""%string
  | TypeSubProcess =>
      exists s, el_sub el = Some s /\ c_elements s <> ∅ /\
        if el_by_event el then exists se, se ∈ start_events s /\ plain_event se = false
        else is_Some (none_start_event s)
  | _ => True
  end.
Record node_sound (c : Container) (el : Element) : Prop := {
  ns_flows : flows_known c el;
  ns_shape : shape_sound c el;
  ns_leads : el_outgoing el = [] -> el_by_event el = false -> may_end (el_type el) = true;
}.
Record scope_sound (c : Container) : Prop := {
  ss_order : forall id, id ∈ c_order c -> is_Some (c_elements c !! id);
  ss_nodes : forall id el, id ∈ c_order c -> c_elements c !! id = Some el -> node_sound c el;
  ss_flows : forall k f, c_flows c !! k = Some f ->
    is_Some (c_elements c !! sq_source f) /\ is_Some (c_elements c !! sq_target f);
}.

(** The scopes the validator descends to: bodies of listed sub-processes. *)
Inductive body : Container -> Container -> Prop :=
| body_here c : body c c
| body_sub c id el s d :
    id ∈ c_order c -> c_elements c !! id = Some el -> el_type el = TypeSubProcess ->
    el_sub el = Some s -> c_elements s <> ∅ -> body s d -> body c d.
#[export] Hint Constructors body : go.

Lemma Ok_inj {E A} (x y : A) : @Ok E A x = Ok y <-> x = y.
Proof. naive_solver. Qed.
Lemma report_nil b msg : report b msg = [] <-> b = false.
Proof. by destruct b. Qed.
Lemma flat_map_nil {A B} (f : A -> list B) l : flat_map f l = [] <-> forall x, x ∈ l -> f x = [].
Proof.
  induction l as [|x l IH]; cbn; [split; [|done]; intros _ x Hx; by apply not_elem_of_nil in Hx|].
  rewrite app_nil, IH. set_solver.
Qed.
Lemma known_spec {A} (m : gmap string A) id : known m id = true <-> is_Some (m !! id).
Proof. unfold known, is_Some. destruct (m !! id); naive_solver. Qed.
Lemma no_ids_spec l : no_ids l = true <-> l = [].
Proof. by destruct l. Qed.
Lemma no_ids_false l : no_ids l = false <-> l <> [].
Proof. by destruct l. Qed.

Lemma each_in_order_nil {A} (m : gmap string A) f ids :
  each_in_order m f ids = Ok [] <->
  forall id, id ∈ ids -> exists x, m !! id = Some x /\ f x = Ok [].
Proof.
  induction ids as [|id ids IH]; cbn; [set_solver|]. split.
  - destruct (m !! id) eqn:E; [|done]. intros (l & Hl & H)%bind_Ok.
    apply bind_Ok in H as (l' & Hl' & [= H]). apply app_nil in H as [-> ->].
    intros k [->|Hk]%elem_of_cons; [eauto|]. by apply IH.
  - intros H. destruct (H id) as (x & -> & ->); [set_solver|]. cbn.
    rewrite (proj2 IH); [done|]. intros k Hk. apply H. set_solver.
Qed.

Section soundness.
Context {U : Unicode} `{MO : MapOrder}.
Implicit Types c s : Container.

Lemma validate_container_unfold c scope b :
  validate_container c scope b =
    (let! l := each_in_order
       ((fun el =>
         let! nested := match el_type el, el_sub el with
                        | TypeSubProcess, Some s =>
                            if bool_decide (c_elements s = ∅) then Ok []
                            else validate_container s (scope ++ "/" ++ el_id el)%string false
                        | _, _ => Ok []
                        end in
         Ok (validate_element c scope el nested)) <$> c_elements c) (fun r => r) (c_order c) in
     Ok (report (b && match start_events c with [] => true | _ => false end) (scope ++ ": no start event")
         ++ l ++ flat_map (validate_flow c scope) (map snd (map_range 1 (c_flows c))))).
Proof. by destruct c. Qed.

Lemma typed_start_spec s :
  typed_start s = true <-> exists se, se ∈ start_events s /\ plain_event se = false.
Proof.
  unfold typed_start. rewrite existsb_exists. setoid_rewrite <- list_elem_of_In.
  by setoid_rewrite negb_true_iff.
Qed.

Lemma catches_spec c t :
  catches c t = true <-> exists x, c_elements c !! t = Some x
    /\ (el_type x = TypeIntermediateCatchEvent \/ el_type x = TypeReceiveTask).
Proof.
  unfold catches. destruct (_ !! t) as [x|]; [|naive_solver].
  rewrite orb_true_iff, !bool_decide_eq_true. naive_solver.
Qed.

(** The problems found below a node when it is a sub-process with a body. *)
Definition body_of (el : Element) : option Container :=
  match el_type el, el_sub el with
  | TypeSubProcess, Some s => if bool_decide (c_elements s = ∅) then None else Some s
  | _, _ => None
  end.
Lemma body_of_Some el s :
  body_of el = Some s <-> el_type el = TypeSubProcess /\ el_sub el = Some s /\ c_elements s <> ∅.
Proof.
  unfold body_of. destruct (el_type el); try naive_solver.
  destruct (el_sub el); [|naive_solver]. case_bool_decide; naive_solver.
Qed.

Lemma no_body (P Q : Prop) : P /\ (is_Some (@None Container) -> Q) <-> P.
Proof. split; [tauto|]. intros H. split; [done|]. by intros []. Qed.

Lemma validate_subprocess_nil el s loc nested :
  (if bool_decide (c_elements s = ∅) then [loc +:+ " is empty"]
   else (if el_by_event el
         then report (negb (typed_start s)) (loc +:+ ": event sub-process needs a typed start event")
         else report (match none_start_event s with None => true | _ => false end)
                (loc +:+ " has no none start event")) ++ nested) = [] <->
  (c_elements s <> ∅ /\
   (if el_by_event el then exists se, se ∈ start_events s /\ plain_event se = false
    else is_Some (none_start_event s))) /\ nested = [].
Proof.
  case_bool_decide; [naive_solver|]. rewrite app_nil. destruct (el_by_event el).
  - rewrite report_nil, negb_false_iff, typed_start_spec. tauto.
  - rewrite report_nil. unfold is_Some. destruct (none_start_event s); naive_solver.
Qed.

Lemma validate_by_type_nil c el loc nested :
  validate_by_type c el loc nested = [] <->
  shape_sound c el /\ (is_Some (body_of el) -> nested = []).
Proof.
  unfold validate_by_type, shape_sound, body_of.
  destruct (el_type el);
    rewrite ?no_body, ?app_nil, ?report_nil, ?negb_false_iff, ?no_ids_spec, ?no_ids_false,
      ?andb_false_iff, ?negb_false_iff, ?known_spec, ?String.eqb_eq, ?String.eqb_neq, ?flat_map_nil;
    try tauto.
  - destruct (c_elements c !! el_attached el) as [att|]; rewrite ?report_nil, ?negb_false_iff; naive_solver.
  - destruct (String.eq_dec (el_default el) ""); tauto.
  - destruct (String.eq_dec (el_default el) ""); tauto.
  - rewrite Nat.ltb_ge. apply and_iff_compat_l. split; intros H fid.
    + intros f Hin Hf. specialize (H fid Hin). rewrite Hf, report_nil, negb_false_iff in H.
      by apply catches_spec.
    + intros Hin. destruct (c_flows c !! fid) as [f|] eqn:Hf; [|done].
      rewrite report_nil, negb_false_iff. apply catches_spec. eauto.
  - destruct (el_sub el) as [s|]; [|naive_solver]. rewrite validate_subprocess_nil.
    case_bool_decide; [naive_solver|]. unfold is_Some at 2. naive_solver.
Qed.

Lemma validate_element_nil c scope el nested :
  validate_element c scope el nested = [] <->
  node_sound c el /\ (is_Some (body_of el) -> nested = []).
Proof.
  unfold validate_element. rewrite !app_nil, flat_map_nil, validate_by_type_nil, report_nil.
  setoid_rewrite report_nil. setoid_rewrite negb_false_iff. setoid_rewrite known_spec.
  split.
  - intros (Hf & (Hs & Hn) & Hl). split; [|done]. split; [done..|].
    intros Ho He. rewrite Ho, He in Hl. cbn in Hl. by destruct (may_end _).
  - intros [[Hf Hs Hl] Hn]. split; [done|]. split; [done|].
    destruct (el_outgoing el); [|done]. destruct (el_by_event el); [done|]. cbn. by rewrite Hl.
Qed.

Lemma validate_flow_nil c scope f :
  validate_flow c scope f = [] <->
  is_Some (c_elements c !! sq_source f) /\ is_Some (c_elements c !! sq_target f).
Proof. unfold validate_flow. by rewrite app_nil, !report_nil, !negb_false_iff, !known_spec. Qed.

Definition check_nested (scope : string) (el : Element) : res string (list string) :=
  match body_of el with
  | Some s => validate_container s (scope ++ "/" ++ el_id el)%string false
  | None => Ok []
  end.
Lemma nested_check scope el :
  match el_type el, el_sub el with
  | TypeSubProcess, Some s =>
      if bool_decide (c_elements s = ∅) then Ok []
      else validate_container s (scope ++ "/" ++ el_id el)%string false
  | _, _ => Ok []
  end = check_nested scope el.
Proof.
  unfold check_nested, body_of. destruct (el_type el); try done.
  destruct (el_sub el); [|done]. by case_bool_decide.
Qed.

Lemma validate_node_nil c scope el :
  (let! nested := check_nested scope el in Ok (validate_element c scope el nested)) = Ok [] <->
  node_sound c el /\ check_nested scope el = Ok [].
Proof.
  rewrite bind_Ok. split.
  - intros (l & Hl & [= H]). apply validate_element_nil in H as [Hn He]. split; [done|].
    unfold check_nested in *. destruct (body_of el); [|done]. rewrite Hl, He; eauto.
  - intros [Hn Hl]. exists []. split; [done|]. f_equal. by apply validate_element_nil.
Qed.

(** The validator reports nothing exactly when the scope and all the bodies
    nested in it are sound (and a process has a start event). *)
Lemma validate_container_nil c scope b :
  validate_container c scope b = Ok [] <->
  (b = true -> start_events c <> []) /\ (forall d, body c d -> scope_sound d).
Proof.
  revert scope b. induction c as [c IH] using container_ind. intros scope b.
  rewrite validate_container_unfold, bind_Ok.
  setoid_rewrite Ok_inj. setoid_rewrite app_nil. setoid_rewrite app_nil.
  setoid_rewrite report_nil. setoid_rewrite flat_map_nil.
  assert (b && match start_events c with [] => true | _ => false end = false
          <-> (b = true -> start_events c <> [])) as Hstart.
  { destruct b, (start_events c); naive_solver. }
  setoid_rewrite Hstart. clear Hstart.
  split.
  - intros (l & Hl & Hb & -> & Hf). split; [done|]. intros d Hd.
    rewrite each_in_order_nil in Hl.
    assert (forall id, id ∈ c_order c -> exists el, c_elements c !! id = Some el
              /\ node_sound c el /\ check_nested scope el = Ok []) as Hn.
    { intros id Hid. destruct (Hl id Hid) as (r & Hr & ->).
      rewrite lookup_fmap_Some in Hr. destruct Hr as (el & Hr & He). exists el.
      rewrite nested_check in Hr. by apply validate_node_nil in Hr. }
    inversion Hd as [|? id el s ? Hid He Ht Hs Hne Hsd]; subst.
    + split.
      * intros id Hid. destruct (Hn id Hid) as (el & ? & _). eauto.
      * intros id el Hid He. destruct (Hn id Hid) as (el' & ? & ? & _). congruence.
      * intros k f Hk. eapply validate_flow_nil, Hf. apply list_elem_of_fmap.
        exists (k, f). split; [done|]. by apply elem_of_map_range.
    + destruct (Hn id Hid) as (el' & He' & _ & Hc). simplify_eq.
      unfold check_nested in Hc. rewrite (proj2 (body_of_Some el s)) in Hc by done.
      eapply IH in Hc as [_ Hc]; eauto.
  - intros [Hb Hd]. exists []. destruct (Hd c (body_here c)) as [Ho Hn Hf].
    split_and?; [|done..|].
    + apply each_in_order_nil. intros id Hid. destruct (Ho id Hid) as [el He].
      eexists. rewrite lookup_fmap, He. cbn. split; [done|].
      rewrite nested_check. apply validate_node_nil. split; [eauto|].
      unfold check_nested. destruct (body_of el) as [s|] eqn:Es; [|done].
      apply body_of_Some in Es as (? & ? & ?). eapply IH; eauto. split; [done|].
      intros d' Hd'. eapply Hd, body_sub; eauto.
    + intros f Hin. apply list_elem_of_fmap in Hin as ([k f'] & -> & Hin).
      apply elem_of_map_range in Hin. by apply validate_flow_nil, (Hf k).
Qed.
Definition process_sound (p : Process) : Prop :=
  pr_exec p = true ->
  start_events (pr_container p) <> [] /\ forall s, body (pr_container p) s -> scope_sound s.

Lemma validate_processes_nil seen ps :
  validate_processes seen ps = Ok [] <->
  NoDup (map pr_id ps) /\ (forall p, p ∈ ps -> pr_id p <> ""%string /\ (pr_id p ∉ seen) /\ process_sound p).
Proof.
  revert seen. induction ps as [|p ps IH]; intros seen; cbn.
  { split; [|done]. intros _. split; [constructor|set_solver]. }
  rewrite NoDup_cons, list_elem_of_fmap.
  destruct (String.eqb_spec (pr_id p) "") as [He|He].
  { split; [intros (? & _ & [=])%bind_Ok|]. intros [_ H]. by destruct (H p) as [? _]; [set_solver|]. }
  assert ((let! l := (if pr_exec p then validate_container (pr_container p) ("process " ++ pr_id p)%string true else Ok [])
           in Ok l) = Ok [] <-> process_sound p) as Hp.
  { unfold process_sound. rewrite bind_Ok. destruct (pr_exec p); [|naive_solver].
    split; [intros (? & H & [= ->]) _; apply validate_container_nil in H; naive_solver|].
    intros H. exists []. split; [|done]. apply validate_container_nil. naive_solver. }
  rewrite bind_Ok in Hp. rewrite bind_Ok. setoid_rewrite bind_Ok. setoid_rewrite Ok_inj.
  setoid_rewrite app_nil. setoid_rewrite app_nil. setoid_rewrite report_nil.
  assert (existsb (String.eqb (pr_id p)) seen = false <-> pr_id p ∉ seen) as Hs.
  { rewrite <- not_true_iff_false, existsb_exists. setoid_rewrite String.eqb_eq.
    setoid_rewrite <- list_elem_of_In. naive_solver. }
  split.
  - intros (l & Hl & l' & Hl' & Hr & -> & ->). rewrite IH in Hl'. destruct Hl' as [Hnd Hall].
    split; [split; [|done]; intros (q & Hq & Hin); destruct (Hall q Hin) as (_ & Hq' & _); set_solver|].
    intros q [->|Hq]%elem_of_cons; [split_and!; [done|tauto|naive_solver]|].
    destruct (Hall q Hq) as (? & ? & ?). set_solver.
  - intros [[Hni Hnd] Hall]. destruct (Hall p) as (_ & Hns & Hps); [set_solver|].
    apply Hp in Hps as (l & Hl & [= ->]). exists []. split; [done|]. exists [].
    split; [|naive_solver]. apply IH. split; [done|]. intros q Hq.
    destruct (Hall q) as (? & ? & ?); [set_solver|]. split_and!; [done| |done].
    intros [Hin|Hin]%elem_of_cons; [|done]. apply Hni. eauto.
Qed.

(** C28: the validator accepts exactly the sound models: there is a process, the
    process IDs are distinct and not empty, and every executable process has a
    start event and only sound scopes: listed nodes exist, flows connect nodes
    of the scope, every node has the shape its type asks for and leads on. *)
Theorem validate_accepts_iff (d : Definitions) :
  Validate d = Ok [] <->
  df_processes d <> [] /\ NoDup (map pr_id (df_processes d)) /\
  forall p, p ∈ df_processes d -> pr_id p <> ""%string /\ process_sound p.
Proof.
  unfold Validate. rewrite bind_Ok. setoid_rewrite Ok_inj. setoid_rewrite app_nil.
  setoid_rewrite report_nil. split.
  - intros (l & Hl & Hd & ->). apply validate_processes_nil in Hl as [? Hall].
    split; [by destruct (df_processes d)|]. split; [done|]. intros p Hp.
    destruct (Hall p Hp) as (? & _ & ?). done.
  - intros (Hd & Hnd & Hall). exists []. split; [|by destruct (df_processes d)].
    apply validate_processes_nil. split; [done|]. intros p Hp. destruct (Hall p Hp).
    split_and!; [done| |done]. set_solver.
Qed.
End soundness.
