(* ===== verification/BpmnParser.v ===== *)
(** * The parser of BPMN documents ([src/bpmn/parser.go])

    [encoding/xml] decodes a document into the raw shapes of this file, which
    the parser turns into the model; the decoder is a parameter.  Go's embedded
    structs are fields.  An attribute that may come from several namespaces is
    the list of its values. *)
From S2P Require Import Prelude GoFloat GoUtf8 GoTime ExprValue ExprLexer ExprDuration ExprFuncs BpmnModel BpmnValidate.
Local Open Scope go_scope.
Local Open Scope string_scope.
Local Open Scope Z_scope.

(** ** Raw shapes *)
Definition extension_namespaces : list string :=
  ["https://fliable.dev/schema/1.0"; "http://flowable.org/bpmn"; "http://camunda.org/schema/1.0/bpmn"; "http://activiti.org/bpmn"].
(** [extAttr] with its [UnmarshalXMLAttr] and [value]. *)
Definition extAttr := list string.
Definition unmarshal_attr (space v : string) (a : extAttr) : extAttr :=
  if String.eqb space "" || existsb (String.eqb space) extension_namespaces then (a ++ [v])%list else a.
Fixpoint attr_value (a : extAttr) : string :=
  match a with [] => "" | v :: a => if String.eqb v "" then attr_value a else v end.

Record xNamed := { xn_id : string; xn_name : string }.
Record xError := { xr_id : string; xr_name : string; xr_code : string }.
Record xFlowNode := { xf_id : string; xf_name : string; xf_doc : string }.
Record xTimerDef := { xt_date : string; xt_duration : string; xt_cycle : string }.
Record xEventDefs := {
  xe_timer : option xTimerDef; xe_message : option string; xe_signal : option string; xe_error : option string;
  xe_terminate : bool;
}.
Record xCatchEvent := { xc_node : xFlowNode; xc_defs : xEventDefs; xc_form : extAttr; xc_interrupting : string }.
Record xBoundary := { xb_node : xFlowNode; xb_defs : xEventDefs; xb_attached : string; xb_cancel : string }.
Record xMulti := {
  xm_sequential : string; xm_cardinality : string; xm_condition : string; xm_input : string;
  xm_collection : extAttr; xm_variable : extAttr; xm_out_collection : extAttr; xm_out_element : extAttr;
}.
Record xIOEntry := { xi_target : string; xi_source : string }.
Record xActivity := {
  xa_default : string; xa_async : extAttr; xa_before : extAttr; xa_multi : option xMulti;
  xa_inputs : list xIOEntry; xa_outputs : list xIOEntry;
}.
Record xUserTask := {
  xu_node : xFlowNode; xu_act : xActivity; xu_assignee : extAttr; xu_users : extAttr; xu_groups : extAttr;
  xu_form : extAttr; xu_due : extAttr; xu_priority : extAttr;
}.
Record xAgentTool := { xo_name : string; xo_desc : string; xo_server : string; xo_schema : string }.
Record xServiceTask := {
  xs_node : xFlowNode; xs_act : xActivity; xs_type : extAttr; xs_topic : extAttr; xs_delegate : extAttr;
  xs_class : extAttr; xs_expr : extAttr; xs_result : extAttr; xs_retries : extAttr;
  xs_agent : extAttr; xs_agent_topic : extAttr; xs_model : extAttr; xs_effort : extAttr; xs_max_tokens : extAttr;
  xs_approval : extAttr; xs_approval_groups : extAttr; xs_prompt : string; xs_system : string; xs_tools : list xAgentTool;
}.
Record xScriptTask := {
  xk_node : xFlowNode; xk_act : xActivity; xk_format : string; xk_script : string; xk_result : extAttr; xk_result_name : string;
}.
Record xRuleTask := { xd_node : xFlowNode; xd_act : xActivity; xd_decision : extAttr; xd_result : extAttr }.
Record xSendTask := { xw_node : xFlowNode; xw_act : xActivity; xw_type : extAttr; xw_topic : extAttr; xw_message : string }.
Record xReceiveTask := { xv_node : xFlowNode; xv_act : xActivity; xv_message : string }.
Record xPlainTask := { xp_node : xFlowNode; xp_act : xActivity }.
Record xGateway := { xg_node : xFlowNode; xg_default : string }.
Record xCallActivity := { xl_node : xFlowNode; xl_act : xActivity; xl_called : string }.
Record xSequenceFlow := { xq_id : string; xq_name : string; xq_source : string; xq_target : string; xq_cond : string }.
Inductive xContainer := MkXContainer {
  x_starts : list xCatchEvent; x_ends : list xCatchEvent; x_catches : list xCatchEvent; x_throws : list xCatchEvent;
  x_boundaries : list xBoundary; x_users : list xUserTask; x_services : list xServiceTask; x_scripts : list xScriptTask;
  x_rules : list xRuleTask; x_sends : list xSendTask; x_receives : list xReceiveTask; x_manuals : list xPlainTask;
  x_tasks : list xPlainTask; x_exclusives : list xGateway; x_parallels : list xGateway; x_inclusives : list xGateway;
  x_event_gateways : list xGateway; x_subs : list xSubProcess; x_calls : list xCallActivity; x_flows : list xSequenceFlow;
}
with xSubProcess := MkXSubProcess {
  xz_node : xFlowNode; xz_act : xActivity; xz_by_event : string; xz_body : xContainer;
}.
Record xProcess := { xy_id : string; xy_name : string; xy_exec : string; xy_body : xContainer }.
Record xDefinitions := {
  xx_id : string; xx_ns : string; xx_messages : list xNamed; xx_signals : list xNamed; xx_errors : list xError;
  xx_processes : list xProcess;
}.
(** [xml.Unmarshal] *)
Class XmlDecoder := unmarshal_xml : string -> string + xDefinitions.

(** ** Assignments to the fields of an element *)
Definition set_event (event_ : option EventDefinition) (el : Element) : Element :=
  MkElement (el_id el) (el_name el) (el_type el) (el_incoming el) (el_outgoing el) (el_doc el) event_
    (el_attached el) (el_cancel el) (el_default el) (el_assignee el) (el_users el) (el_groups el) (el_form el)
    (el_due el) (el_priority el) (el_task_type el) (el_topic el) (el_retries el) (el_expr el) (el_result el)
    (el_decision el) (el_called el) (el_sub el) (el_by_event el) (el_multi el) (el_agent el) (el_inputs el)
    (el_outputs el) (el_async el).

Definition set_attached (attached_ : string) (el : Element) : Element :=
  MkElement (el_id el) (el_name el) (el_type el) (el_incoming el) (el_outgoing el) (el_doc el) (el_event el)
    attached_ (el_cancel el) (el_default el) (el_assignee el) (el_users el) (el_groups el) (el_form el)
    (el_due el) (el_priority el) (el_task_type el) (el_topic el) (el_retries el) (el_expr el) (el_result el)
    (el_decision el) (el_called el) (el_sub el) (el_by_event el) (el_multi el) (el_agent el) (el_inputs el)
    (el_outputs el) (el_async el).

Definition set_cancel (cancel_ : bool) (el : Element) : Element :=
  MkElement (el_id el) (el_name el) (el_type el) (el_incoming el) (el_outgoing el) (el_doc el) (el_event el)
    (el_attached el) cancel_ (el_default el) (el_assignee el) (el_users el) (el_groups el) (el_form el)
    (el_due el) (el_priority el) (el_task_type el) (el_topic el) (el_retries el) (el_expr el) (el_result el)
    (el_decision el) (el_called el) (el_sub el) (el_by_event el) (el_multi el) (el_agent el) (el_inputs el)
    (el_outputs el) (el_async el).

Definition set_default (default_ : string) (el : Element) : Element :=
  MkElement (el_id el) (el_name el) (el_type el) (el_incoming el) (el_outgoing el) (el_doc el) (el_event el)
    (el_attached el) (el_cancel el) default_ (el_assignee el) (el_users el) (el_groups el) (el_form el)
    (el_due el) (el_priority el) (el_task_type el) (el_topic el) (el_retries el) (el_expr el) (el_result el)
    (el_decision el) (el_called el) (el_sub el) (el_by_event el) (el_multi el) (el_agent el) (el_inputs el)
    (el_outputs el) (el_async el).

Definition set_form (form_ : string) (el : Element) : Element :=
  MkElement (el_id el) (el_name el) (el_type el) (el_incoming el) (el_outgoing el) (el_doc el) (el_event el)
    (el_attached el) (el_cancel el) (el_default el) (el_assignee el) (el_users el) (el_groups el) form_
    (el_due el) (el_priority el) (el_task_type el) (el_topic el) (el_retries el) (el_expr el) (el_result el)
    (el_decision el) (el_called el) (el_sub el) (el_by_event el) (el_multi el) (el_agent el) (el_inputs el)
    (el_outputs el) (el_async el).

Definition set_assignment (assignee_ : string) (users_ : list string) (groups_ : list string) (due_ : string) (priority_ : string) (el : Element) : Element :=
  MkElement (el_id el) (el_name el) (el_type el) (el_incoming el) (el_outgoing el) (el_doc el) (el_event el)
    (el_attached el) (el_cancel el) (el_default el) assignee_ users_ groups_ (el_form el) due_ priority_
    (el_task_type el) (el_topic el) (el_retries el) (el_expr el) (el_result el) (el_decision el) (el_called el)
    (el_sub el) (el_by_event el) (el_multi el) (el_agent el) (el_inputs el) (el_outputs el) (el_async el).

Definition set_worker (task_type_ : string) (topic_ : string) (el : Element) : Element :=
  MkElement (el_id el) (el_name el) (el_type el) (el_incoming el) (el_outgoing el) (el_doc el) (el_event el)
    (el_attached el) (el_cancel el) (el_default el) (el_assignee el) (el_users el) (el_groups el) (el_form el)
    (el_due el) (el_priority el) task_type_ topic_ (el_retries el) (el_expr el) (el_result el) (el_decision el)
    (el_called el) (el_sub el) (el_by_event el) (el_multi el) (el_agent el) (el_inputs el) (el_outputs el)
    (el_async el).

Definition set_retries (retries_ : Z) (el : Element) : Element :=
  MkElement (el_id el) (el_name el) (el_type el) (el_incoming el) (el_outgoing el) (el_doc el) (el_event el)
    (el_attached el) (el_cancel el) (el_default el) (el_assignee el) (el_users el) (el_groups el) (el_form el)
    (el_due el) (el_priority el) (el_task_type el) (el_topic el) retries_ (el_expr el) (el_result el)
    (el_decision el) (el_called el) (el_sub el) (el_by_event el) (el_multi el) (el_agent el) (el_inputs el)
    (el_outputs el) (el_async el).

Definition set_expr (expr_ : string) (el : Element) : Element :=
  MkElement (el_id el) (el_name el) (el_type el) (el_incoming el) (el_outgoing el) (el_doc el) (el_event el)
    (el_attached el) (el_cancel el) (el_default el) (el_assignee el) (el_users el) (el_groups el) (el_form el)
    (el_due el) (el_priority el) (el_task_type el) (el_topic el) (el_retries el) expr_ (el_result el)
    (el_decision el) (el_called el) (el_sub el) (el_by_event el) (el_multi el) (el_agent el) (el_inputs el)
    (el_outputs el) (el_async el).

Definition set_result (result_ : string) (el : Element) : Element :=
  MkElement (el_id el) (el_name el) (el_type el) (el_incoming el) (el_outgoing el) (el_doc el) (el_event el)
    (el_attached el) (el_cancel el) (el_default el) (el_assignee el) (el_users el) (el_groups el) (el_form el)
    (el_due el) (el_priority el) (el_task_type el) (el_topic el) (el_retries el) (el_expr el) result_
    (el_decision el) (el_called el) (el_sub el) (el_by_event el) (el_multi el) (el_agent el) (el_inputs el)
    (el_outputs el) (el_async el).

Definition set_agent (agent_ : option AgentSpec) (el : Element) : Element :=
  MkElement (el_id el) (el_name el) (el_type el) (el_incoming el) (el_outgoing el) (el_doc el) (el_event el)
    (el_attached el) (el_cancel el) (el_default el) (el_assignee el) (el_users el) (el_groups el) (el_form el)
    (el_due el) (el_priority el) (el_task_type el) (el_topic el) (el_retries el) (el_expr el) (el_result el)
    (el_decision el) (el_called el) (el_sub el) (el_by_event el) (el_multi el) agent_ (el_inputs el)
    (el_outputs el) (el_async el).

Definition set_decision (decision_ : string) (el : Element) : Element :=
  MkElement (el_id el) (el_name el) (el_type el) (el_incoming el) (el_outgoing el) (el_doc el) (el_event el)
    (el_attached el) (el_cancel el) (el_default el) (el_assignee el) (el_users el) (el_groups el) (el_form el)
    (el_due el) (el_priority el) (el_task_type el) (el_topic el) (el_retries el) (el_expr el) (el_result el)
    decision_ (el_called el) (el_sub el) (el_by_event el) (el_multi el) (el_agent el) (el_inputs el)
    (el_outputs el) (el_async el).

Definition set_called (called_ : string) (el : Element) : Element :=
  MkElement (el_id el) (el_name el) (el_type el) (el_incoming el) (el_outgoing el) (el_doc el) (el_event el)
    (el_attached el) (el_cancel el) (el_default el) (el_assignee el) (el_users el) (el_groups el) (el_form el)
    (el_due el) (el_priority el) (el_task_type el) (el_topic el) (el_retries el) (el_expr el) (el_result el)
    (el_decision el) called_ (el_sub el) (el_by_event el) (el_multi el) (el_agent el) (el_inputs el)
    (el_outputs el) (el_async el).

Definition set_sub (sub_ : option Container) (by_event_ : bool) (el : Element) : Element :=
  MkElement (el_id el) (el_name el) (el_type el) (el_incoming el) (el_outgoing el) (el_doc el) (el_event el)
    (el_attached el) (el_cancel el) (el_default el) (el_assignee el) (el_users el) (el_groups el) (el_form el)
    (el_due el) (el_priority el) (el_task_type el) (el_topic el) (el_retries el) (el_expr el) (el_result el)
    (el_decision el) (el_called el) sub_ by_event_ (el_multi el) (el_agent el) (el_inputs el) (el_outputs el)
    (el_async el).

Definition set_activity (default_ : string) (async_ : bool) (multi_ : option MultiInstance) (inputs_ : list IOMapping) (outputs_ : list IOMapping) (el : Element) : Element :=
  MkElement (el_id el) (el_name el) (el_type el) (el_incoming el) (el_outgoing el) (el_doc el) (el_event el)
    (el_attached el) (el_cancel el) default_ (el_assignee el) (el_users el) (el_groups el) (el_form el)
    (el_due el) (el_priority el) (el_task_type el) (el_topic el) (el_retries el) (el_expr el) (el_result el)
    (el_decision el) (el_called el) (el_sub el) (el_by_event el) multi_ (el_agent el) inputs_ outputs_ async_.

Definition set_incoming (incoming_ : list string) (el : Element) : Element :=
  MkElement (el_id el) (el_name el) (el_type el) incoming_ (el_outgoing el) (el_doc el) (el_event el)
    (el_attached el) (el_cancel el) (el_default el) (el_assignee el) (el_users el) (el_groups el) (el_form el)
    (el_due el) (el_priority el) (el_task_type el) (el_topic el) (el_retries el) (el_expr el) (el_result el)
    (el_decision el) (el_called el) (el_sub el) (el_by_event el) (el_multi el) (el_agent el) (el_inputs el)
    (el_outputs el) (el_async el).

Definition set_outgoing (outgoing_ : list string) (el : Element) : Element :=
  MkElement (el_id el) (el_name el) (el_type el) (el_incoming el) outgoing_ (el_doc el) (el_event el)
    (el_attached el) (el_cancel el) (el_default el) (el_assignee el) (el_users el) (el_groups el) (el_form el)
    (el_due el) (el_priority el) (el_task_type el) (el_topic el) (el_retries el) (el_expr el) (el_result el)
    (el_decision el) (el_called el) (el_sub el) (el_by_event el) (el_multi el) (el_agent el) (el_inputs el)
    (el_outputs el) (el_async el).

(** ** Texts *)
Definition first_non_empty (l : list string) : string := attr_value l.
(** [stripExprWrapper] *)
Definition strip_expr_wrapper (s : string) : string :=
  let s := trim_space s in
  if (has_prefix s "${" || has_prefix s "#{") && has_suffix s "}" then trim_space (sslice 2 (String.length s - 1) s) else s.
(** [splitList] *)
Definition split_list (s : string) : list string :=
  if String.eqb s "" then []
  else omap (fun p => let p := trim_space p in if String.eqb p "" then None else Some p) (str_split s ",").
(** [atoiDefault] *)
Definition atoi_default (s : string) (def : Z) : Z :=
  if String.eqb s "" then def
  else match atoi (trim_space s) with
       | Some n => if n <? 0 then def else n
       | None => def
       end.
Definition unless_false (s : string) : bool := String.eqb s "" || String.eqb s "true".
Definition message_name (m : gmap string string) (ref : string) : string := default "" (m !! ref).

Section parser.
Context {U : Unicode}.

Definition within_ctx {A} (prefix : string) (r : res string A) : res string A :=
  match r with Err e => Err (prefix ++ e) | _ => r end.

(** ** Parts of an element *)

(** [baseElement] *)
Definition base_element (x : xFlowNode) (t : ElementType) : Element :=
  MkElement (xf_id x) (xf_name x) t [] [] (trim_space (xf_doc x)) None "" false "" "" [] [] "" "" "" "" "" 0 "" "" "" ""
    None false None None [] [] false.
(** [applyActivity] *)
Definition multi_of (x : xMulti) : MultiInstance :=
  {| ml_seq := String.eqb (xm_sequential x) "true";
     ml_card := strip_expr_wrapper (xm_cardinality x);
     ml_coll := strip_expr_wrapper (first_non_empty [attr_value (xm_collection x); trim_space (xm_input x)]);
     ml_elem := attr_value (xm_variable x);
     ml_cond := strip_expr_wrapper (xm_condition x);
     ml_out_coll := attr_value (xm_out_collection x);
     ml_out_elem := strip_expr_wrapper (attr_value (xm_out_element x)) |}.
Definition mapping_of (x : xIOEntry) : IOMapping :=
  {| io_source := strip_expr_wrapper (xi_source x); io_target := xi_target x |}.
Definition apply_activity (a : xActivity) (el : Element) : Element :=
  set_activity (xa_default a) (String.eqb (attr_value (xa_async a)) "true" || String.eqb (attr_value (xa_before a)) "true")
    (multi_of <$> xa_multi a) (map mapping_of (xa_inputs a)) (map mapping_of (xa_outputs a)) el.
(** [eventDef] *)
Definition event_of (k : EventKind) (message signal code : string) : EventDefinition :=
  {| ev_kind := k; ev_date := ""; ev_duration := ""; ev_cycle := ""; ev_message := message; ev_signal := signal; ev_code := code |}.
Definition event_def (d : Definitions) (x : xEventDefs) : res string EventDefinition :=
  match xe_timer x, xe_message x, xe_signal x, xe_error x with
  | Some t, _, _, _ =>
      let date := trim_space (xt_date t) in
      let duration := trim_space (xt_duration t) in
      let cycle := trim_space (xt_cycle t) in
      if String.eqb date "" && String.eqb duration "" && String.eqb cycle "" then
        Err "timer event has no timeDate, timeDuration or timeCycle"
      else Ok {| ev_kind := KindTimer; ev_date := date; ev_duration := duration; ev_cycle := cycle;
                 ev_message := ""; ev_signal := ""; ev_code := "" |}
  | None, Some ref, _, _ =>
      let name := first_non_empty [message_name (df_messages d) ref; ref] in
      if String.eqb name "" then Err "message event has no messageRef" else Ok (event_of KindMessage name "" "")
  | None, None, Some ref, _ =>
      let name := first_non_empty [message_name (df_signals d) ref; ref] in
      if String.eqb name "" then Err "signal event has no signalRef" else Ok (event_of KindSignal "" name "")
  | None, None, None, Some ref =>
      Ok (event_of KindError "" "" (match df_errors d !! ref with Some e => er_code e | None => ref end))
  | None, None, None, None =>
      if xe_terminate x then Ok (event_of KindTerminate "" "" "") else Ok (event_of KindNone "" "" "")
  end.

(** ** Elements, by their type *)
Definition make_start_event (d : Definitions) (x : xCatchEvent) : res string Element :=
  let! ev := within_ctx ("startEvent " ++ quote (xf_id (xc_node x)) ++ ": ") (event_def d (xc_defs x)) in
  Ok (set_cancel (unless_false (xc_interrupting x)) (set_form (attr_value (xc_form x))
       (set_event (Some ev) (base_element (xc_node x) TypeStartEvent)))).
Definition make_end_event (d : Definitions) (x : xCatchEvent) : res string Element :=
  let! ev := within_ctx ("endEvent " ++ quote (xf_id (xc_node x)) ++ ": ") (event_def d (xc_defs x)) in
  Ok (set_event (Some ev) (base_element (xc_node x) TypeEndEvent)).
Definition make_catch_event (d : Definitions) (x : xCatchEvent) : res string Element :=
  let ctx := "intermediateCatchEvent " ++ quote (xf_id (xc_node x)) ++ ": " in
  let! ev := within_ctx ctx (event_def d (xc_defs x)) in
  if bool_decide (ev_kind ev = KindNone) then Err (ctx ++ "missing event definition")
  else Ok (set_event (Some ev) (base_element (xc_node x) TypeIntermediateCatchEvent)).
Definition make_throw_event (d : Definitions) (x : xCatchEvent) : res string Element :=
  let! ev := within_ctx ("intermediateThrowEvent " ++ quote (xf_id (xc_node x)) ++ ": ") (event_def d (xc_defs x)) in
  Ok (set_event (Some ev) (base_element (xc_node x) TypeIntermediateThrowEvent)).
Definition make_boundary_event (d : Definitions) (x : xBoundary) : res string Element :=
  let ctx := "boundaryEvent " ++ quote (xf_id (xb_node x)) ++ ": " in
  let! ev := within_ctx ctx (event_def d (xb_defs x)) in
  if bool_decide (ev_kind ev = KindNone) then Err (ctx ++ "missing event definition")
  else Ok (set_cancel (unless_false (xb_cancel x)) (set_attached (xb_attached x)
            (set_event (Some ev) (base_element (xb_node x) TypeBoundaryEvent)))).
Definition make_user_task (x : xUserTask) : Element :=
  apply_activity (xu_act x)
    (set_form (attr_value (xu_form x))
      (set_assignment (attr_value (xu_assignee x)) (split_list (attr_value (xu_users x))) (split_list (attr_value (xu_groups x)))
         (attr_value (xu_due x)) (attr_value (xu_priority x)) (base_element (xu_node x) TypeUserTask))).
Definition tool_of (t : xAgentTool) : AgentTool :=
  {| at_name := xo_name t; at_desc := xo_desc t; at_schema := trim_space (xo_schema t); at_server := xo_server t |}.
Definition agent_of (x : xServiceTask) : option AgentSpec :=
  if negb (String.eqb (attr_value (xs_agent x)) "") || negb (String.eqb (attr_value (xs_agent_topic x)) "") then
    Some {| as_agent := attr_value (xs_agent x); as_topic := attr_value (xs_agent_topic x);
            as_prompt := trim_space (xs_prompt x); as_system := trim_space (xs_system x);
            as_out := attr_value (xs_result x); as_tools := map tool_of (xs_tools x); as_model := attr_value (xs_model x);
            as_max_tokens := atoi_default (attr_value (xs_max_tokens x)) 0; as_effort := attr_value (xs_effort x);
            as_approval := String.eqb (attr_value (xs_approval x)) "true";
            as_groups := split_list (attr_value (xs_approval_groups x));
            as_retries := atoi_default (attr_value (xs_retries x)) 3 |}
  else None.
Definition make_service_task (x : xServiceTask) : Element :=
  apply_activity (xs_act x)
    (set_agent (agent_of x)
      (set_retries (atoi_default (attr_value (xs_retries x)) 3)
        (set_result (attr_value (xs_result x))
          (set_expr (strip_expr_wrapper (attr_value (xs_expr x)))
            (set_worker (strip_expr_wrapper (first_non_empty [attr_value (xs_type x); attr_value (xs_delegate x); attr_value (xs_class x)]))
               (attr_value (xs_topic x)) (base_element (xs_node x) TypeServiceTask)))))).
Definition make_script_task (x : xScriptTask) : Element :=
  apply_activity (xk_act x)
    (set_result (first_non_empty [attr_value (xk_result x); xk_result_name x])
      (set_expr (strip_expr_wrapper (xk_script x)) (base_element (xk_node x) TypeScriptTask))).
Definition make_rule_task (x : xRuleTask) : Element :=
  apply_activity (xd_act x)
    (set_result (attr_value (xd_result x)) (set_decision (attr_value (xd_decision x)) (base_element (xd_node x) TypeBusinessRuleTask))).
Definition make_send_task (d : Definitions) (x : xSendTask) : Element :=
  apply_activity (xw_act x)
    (set_event (if String.eqb (xw_message x) "" then None
                else Some (event_of KindMessage (message_name (df_messages d) (xw_message x)) "" ""))
      (set_worker (attr_value (xw_type x)) (attr_value (xw_topic x)) (base_element (xw_node x) TypeSendTask))).
Definition make_receive_task (d : Definitions) (x : xReceiveTask) : Element :=
  apply_activity (xv_act x)
    (set_event (Some (event_of KindMessage (first_non_empty [message_name (df_messages d) (xv_message x); xv_message x]) "" ""))
      (base_element (xv_node x) TypeReceiveTask)).
Definition make_plain_task (t : ElementType) (x : xPlainTask) : Element := apply_activity (xp_act x) (base_element (xp_node x) t).
(** The exclusive and the inclusive gateway have a default flow. *)
Definition gateway (t : ElementType) (x : xGateway) : Element := base_element (xg_node x) t.
Definition default_gateway (t : ElementType) (x : xGateway) : Element := set_default (xg_default x) (gateway t x).
Definition make_call_activity (x : xCallActivity) : Element :=
  apply_activity (xl_act x) (set_called (xl_called x) (base_element (xl_node x) TypeCallActivity)).

(** ** [buildContainer] *)

(** [add], and one of the loops that build and add elements. *)
Definition scope_acc : Type := gmap string Element * list string.
Definition add (el : Element) (c : scope_acc) : res string scope_acc :=
  if String.eqb (el_id el) "" then Err ("element of type " ++ type_string (el_type el) ++ " has no id")
  else match c.1 !! el_id el with
       | Some _ => Err ("duplicate element id " ++ quote (el_id el))
       | None => Ok (<[el_id el := el]> c.1, (c.2 ++ [el_id el])%list)
       end.
Definition add_each {X} (mk : X -> res string Element) : list X -> scope_acc -> res string scope_acc :=
  fix go (l : list X) (c : scope_acc) : res string scope_acc :=
    match l with
    | [] => Ok c
    | x :: l => let! el := mk x in let! c := add el c in go l c
    end.
(** The loop over the flows: each is entered at its source and its target. *)
Definition append_flow (set : list string -> Element -> Element) (get : Element -> list string) (f : string) (el : Element) : Element :=
  set (get el ++ [f])%list el.
Fixpoint wire (fl : list xSequenceFlow) (els : gmap string Element) (flows : gmap string SequenceFlow)
  : res string (gmap string Element * gmap string SequenceFlow) :=
  match fl with
  | [] => Ok (els, flows)
  | x :: fl =>
      if String.eqb (xq_id x) "" then
        Err ("sequenceFlow from " ++ quote (xq_source x) ++ " to " ++ quote (xq_target x) ++ " has no id")
      else match flows !! xq_id x with
           | Some _ => Err ("duplicate sequenceFlow id " ++ quote (xq_id x))
           | None =>
               let f := {| sq_id := xq_id x; sq_name := xq_name x; sq_source := xq_source x; sq_target := xq_target x;
                           sq_cond := strip_expr_wrapper (xq_cond x) |} in
               let els := alter (append_flow set_outgoing el_outgoing (xq_id x)) (xq_source x) els in
               let els := alter (append_flow set_incoming el_incoming (xq_id x)) (xq_target x) els in
               wire fl els (<[xq_id x := f]> flows)
           end
  end.
Fixpoint build_container (d : Definitions) (xc : xContainer) : res string Container :=
  let sub_process := fun x : xSubProcess =>
    let! sub := within_ctx ("subProcess " ++ quote (xf_id (xz_node x)) ++ ": ") (build_container d (xz_body x)) in
    Ok (apply_activity (xz_act x)
         (set_sub (Some sub) (String.eqb (xz_by_event x) "true") (base_element (xz_node x) TypeSubProcess))) in
  let! c := add_each (make_start_event d) (x_starts xc) (∅, []) in
  let! c := add_each (make_end_event d) (x_ends xc) c in
  let! c := add_each (make_catch_event d) (x_catches xc) c in
  let! c := add_each (make_throw_event d) (x_throws xc) c in
  let! c := add_each (make_boundary_event d) (x_boundaries xc) c in
  let! c := add_each (fun x => Ok (make_user_task x)) (x_users xc) c in
  let! c := add_each (fun x => Ok (make_service_task x)) (x_services xc) c in
  let! c := add_each (fun x => Ok (make_script_task x)) (x_scripts xc) c in
  let! c := add_each (fun x => Ok (make_rule_task x)) (x_rules xc) c in
  let! c := add_each (fun x => Ok (make_send_task d x)) (x_sends xc) c in
  let! c := add_each (fun x => Ok (make_receive_task d x)) (x_receives xc) c in
  let! c := add_each (fun x => Ok (make_plain_task TypeManualTask x)) (x_manuals xc) c in
  let! c := add_each (fun x => Ok (make_plain_task TypeTask x)) (x_tasks xc) c in
  let! c := add_each (fun x => Ok (default_gateway TypeExclusiveGateway x)) (x_exclusives xc) c in
  let! c := add_each (fun x => Ok (gateway TypeParallelGateway x)) (x_parallels xc) c in
  let! c := add_each (fun x => Ok (default_gateway TypeInclusiveGateway x)) (x_inclusives xc) c in
  let! c := add_each (fun x => Ok (gateway TypeEventBasedGateway x)) (x_event_gateways xc) c in
  let! c := add_each sub_process (x_subs xc) c in
  let! c := add_each (fun x => Ok (make_call_activity x)) (x_calls xc) c in
  let! (els, flows) := wire (x_flows xc) c.1 ∅ in
  Ok (MkContainer els flows c.2).

(** ** [Parse] *)
Definition named (l : list xNamed) : gmap string string :=
  fold_left (fun m x => <[xn_id x := first_non_empty [xn_name x; xn_id x]]> m) l ∅.
Definition errors_of (l : list xError) : gmap string BpmnError :=
  fold_left (fun m x => <[xr_id x := {| er_id := xr_id x; er_name := xr_name x;
                                        er_code := first_non_empty [xr_code x; xr_name x] |}]> m) l ∅.
Definition build_process (d : Definitions) (x : xProcess) : res string Process :=
  let! c := within_ctx ("bpmn: process " ++ quote (xy_id x) ++ ": ") (build_container d (xy_body x)) in
  Ok {| pr_id := xy_id x; pr_name := xy_name x; pr_exec := unless_false (xy_exec x); pr_container := c |}.
Fixpoint build_processes (d : Definitions) (l : list xProcess) : res string (list Process) :=
  match l with
  | [] => Ok []
  | x :: l => let! p := build_process d x in let! ps := build_processes d l in Ok (p :: ps)
  end.
(** The document before its processes are built. *)
Definition base_definitions (root : xDefinitions) : Definitions :=
  {| df_id := xx_id root; df_ns := xx_ns root; df_processes := []; df_messages := named (xx_messages root);
     df_signals := named (xx_signals root); df_errors := errors_of (xx_errors root) |}.
Definition set_processes (ps : list Process) (d : Definitions) : Definitions :=
  {| df_id := df_id d; df_ns := df_ns d; df_processes := ps; df_messages := df_messages d; df_signals := df_signals d;
     df_errors := df_errors d |}.
Definition Parse {MO : MapOrder} {X : XmlDecoder} (data : string) : res string Definitions :=
  match unmarshal_xml data with
  | inl err => Err ("bpmn: malformed XML: " ++ err)
  | inr root =>
      let defs := base_definitions root in
      let! ps := build_processes defs (xx_processes root) in
      let defs := set_processes ps defs in
      let! problems := Validate defs in
      match problems with
      | [] => Ok defs
      | _ => Err (validation_error_string problems)
      end
  end.
End parser.

(** ** What the parser builds *)

(** A scope in which maps, order and flows fit together: nodes and flows are
    filed under their IDs, the order lists every node once, and a node lists
    exactly the flows that leave and enter it, in the order of the document
    [fl]. *)
Record wired (c : Container) : Prop := {
  wi_elements : forall k el, c_elements c !! k = Some el -> el_id el = k /\ k <> "";
  wi_order : NoDup (c_order c) /\ forall k, k ∈ c_order c <-> is_Some (c_elements c !! k);
  wi_flows : exists fl, NoDup (map sq_id fl)
    /\ (forall k f, c_flows c !! k = Some f <-> f ∈ fl /\ sq_id f = k)
    /\ (forall f, f ∈ fl -> sq_id f <> "")
    /\ forall k el, c_elements c !! k = Some el ->
         el_outgoing el = map sq_id (filter (fun f => sq_source f = k) fl)
         /\ el_incoming el = map sq_id (filter (fun f => sq_target f = k) fl);
}.
Definition deeply_wired (c : Container) : Prop := forall s, inside c s -> wired s.

Section properties.
Context {U : Unicode}.

Lemma xContainer_induction (P : xContainer -> Prop) :
  (forall xc, (forall x, x ∈ x_subs xc -> P (xz_body x)) -> P xc) -> forall xc, P xc.
Proof.
  intros H. fix IH 1. intros [? ? ? ? ? ? ? ? ? ? ? ? ? ? ? ? ? subs ? ?]. apply H. cbn. clear -IH.
  apply Forall_forall. induction subs as [|[n a b body] subs IHs]; constructor; [exact (IH body)|exact IHs].
Qed.

(** *** Adding elements *)
Definition fresh (el : Element) : Prop :=
  el_outgoing el = [] /\ el_incoming el = [] /\ forall s, el_sub el = Some s -> deeply_wired s.
Record acc_ok (c : scope_acc) : Prop := {
  ac_elements : forall k el, c.1 !! k = Some el -> el_id el = k /\ k <> "" /\ fresh el;
  ac_order : NoDup c.2 /\ forall k, k ∈ c.2 <-> is_Some (c.1 !! k);
}.
Lemma add_ok el c c' : fresh el -> acc_ok c -> add el c = Ok c' -> acc_ok c'.
Proof.
  intros Hf [He [Hn Ho]]. unfold add. destruct (String.eqb_spec (el_id el) "") as [|Hid]; [done|].
  destruct (c.1 !! el_id el) as [|] eqn:Ec; [done|]. intros [= <-]. split; cbn.
  - intros k x. destruct (decide (el_id el = k)) as [<-|Hne]; [rewrite lookup_insert_eq; by intros [= <-]|].
    rewrite lookup_insert_ne by done. apply He.
  - split.
    + apply NoDup_app. split_and!; [done| |apply NoDup_singleton]. intros k Hk ->%list_elem_of_singleton.
      apply Ho in Hk as [? Hk]. congruence.
    + intros k. rewrite elem_of_app, list_elem_of_singleton, Ho, lookup_insert_is_Some. split; [intros [?| ->]|intros [->|[? ?]]]; auto.
      destruct (decide (el_id el = k)); auto.
Qed.
Lemma add_each_ok {X} (mk : X -> res string Element) l :
  (forall x el, x ∈ l -> mk x = Ok el -> fresh el) -> forall c c', acc_ok c -> add_each mk l c = Ok c' -> acc_ok c'.
Proof.
  induction l as [|x l IH]; intros Hm c c' Hc; cbn; [by intros [= <-]|].
  intros (el & Hel & (c1 & Hadd & H)%bind_Ok)%bind_Ok. eapply IH; [|eapply add_ok|exact H]; eauto.
  - intros y z Hy. apply Hm. by right.
  - eapply Hm; [left|done].
Qed.

(** *** Wiring flows *)
Record ends_ok (fl : list SequenceFlow) (els : gmap string Element) (flows : gmap string SequenceFlow) : Prop := {
  en_nodup : NoDup (map sq_id fl);
  en_flows : forall k f, flows !! k = Some f <-> f ∈ fl /\ sq_id f = k;
  en_named : forall f, f ∈ fl -> sq_id f <> "";
  en_ends : forall k el, els !! k = Some el ->
    el_outgoing el = map sq_id (filter (fun f => sq_source f = k) fl)
    /\ el_incoming el = map sq_id (filter (fun f => sq_target f = k) fl);
}.
(** The elements but for the flows. *)
Definition same_nodes (els els' : gmap string Element) : Prop :=
  forall k, option_Forall2 (fun a b => el_id a = el_id b /\ el_sub a = el_sub b) (els !! k) (els' !! k).
#[local] Instance same_nodes_preorder : PreOrder same_nodes.
Proof.
  split.
  - intros els k. destruct (els !! k); by constructor.
  - intros a b c H1 H2 k. specialize (H1 k). specialize (H2 k). destruct H1; inversion H2; subst; constructor. naive_solver congruence.
Qed.
Lemma alter_nodes g id els : (forall el, el_id (g el) = el_id el /\ el_sub (g el) = el_sub el) -> same_nodes els (alter g id els).
Proof.
  intros Hg k. destruct (decide (id = k)) as [<-|Hne]; [rewrite lookup_alter_eq|rewrite lookup_alter_ne by done];
    destruct (els !! _) as [el|]; constructor; [|done]. destruct (Hg el). by split.
Qed.
Lemma filter_snoc {A} (P : A -> Prop) `{forall x, Decision (P x)} l x :
  filter P (l ++ [x])%list = (filter P l ++ if decide (P x) then [x] else [])%list.
Proof. by rewrite filter_app. Qed.
Lemma wire_step f fl els flows : sq_id f <> "" -> flows !! sq_id f = None -> ends_ok fl els flows ->
  ends_ok (fl ++ [f])
    (alter (append_flow set_incoming el_incoming (sq_id f)) (sq_target f)
      (alter (append_flow set_outgoing el_outgoing (sq_id f)) (sq_source f) els))
    (<[sq_id f := f]> flows).
Proof.
  intros Hid Hn [H1 H2 H3 H4].
  assert (forall g, g ∈ fl -> sq_id g <> sq_id f) as Hnew
    by (intros g Hg He; assert (flows !! sq_id g = Some g) as Hl by (by apply H2); congruence).
  split.
  - rewrite map_app. apply NoDup_app. split_and!; [done| |apply NoDup_singleton].
    intros k Hk Hk'. apply list_elem_of_fmap in Hk as (g & -> & Hg). cbn in Hk'. apply list_elem_of_singleton in Hk'. by apply (Hnew g).
  - intros k g. rewrite elem_of_app, list_elem_of_singleton. destruct (decide (sq_id f = k)) as [<-|Hne].
    + rewrite lookup_insert_eq. split; [intros [= <-]; by split; [right|]|]. intros [[Hg| ->] He]; [by destruct (Hnew g)|done].
    + rewrite lookup_insert_ne, H2 by done. split; [intros [? ?]; by split; [left|]|]. intros [[Hg| ->] He]; [by split|done].
  - intros g. rewrite elem_of_app, list_elem_of_singleton. intros [Hg| ->]; auto.
  - intros k el. rewrite !filter_snoc, !map_app.
    destruct (decide (sq_target f = k)) as [<-|Ht]; [rewrite lookup_alter_eq|rewrite lookup_alter_ne by done];
      (destruct (decide (sq_source f = _)) as [->|Hs]; [rewrite lookup_alter_eq|rewrite lookup_alter_ne by done]);
      destruct (els !! _) as [x|] eqn:Ex; cbn; try done; intros [= <-]; destruct (H4 _ _ Ex) as [Ho Hi]; cbn;
      rewrite ?decide_True, ?decide_False by done; cbn; rewrite ?app_nil_r, ?Ho, ?Hi; done.
Qed.
Lemma wire_ok l : forall fl els flows els' flows', ends_ok fl els flows -> wire l els flows = Ok (els', flows') ->
  same_nodes els els' /\ exists fl', ends_ok fl' els' flows'.
Proof.
  induction l as [|x l IH]; intros fl els flows els' flows' He; cbn [wire]; [intros [= <- <-]; split; [done|eauto]|].
  destruct (String.eqb_spec (xq_id x) "") as [|Hid]; [done|]. destruct (flows !! xq_id x) eqn:Ef; [done|]. cbv zeta.
  set (f := {| sq_id := xq_id x |}). intros H.
  pose proof (wire_step f fl els flows Hid Ef He) as Hstep. destruct (IH _ _ _ _ _ Hstep H) as [Hs Hfl]. split; [|done].
  etrans; [|exact Hs]. etrans; apply alter_nodes; done.
Qed.

(** *** Scopes and documents *)
Lemma base_fresh x t : fresh (base_element x t).
Proof. done. Qed.
Lemma event_fresh (r : res string EventDefinition) g el :
  (forall ev, fresh (g ev)) -> (let! ev := r in Ok (g ev)) = Ok el -> fresh el.
Proof. intros Hg (ev & _ & [= <-])%bind_Ok. apply Hg. Qed.
Lemma named_event_fresh (r : res string EventDefinition) (e : string) g el :
  (forall ev, fresh (g ev)) ->
  (let! ev := r in if bool_decide (ev_kind ev = KindNone) then Err e else Ok (g ev)) = Ok el -> fresh el.
Proof. intros Hg (ev & _ & H)%bind_Ok. case_bool_decide; [done|]. injection H as <-. apply Hg. Qed.
Lemma acc_empty : acc_ok (∅, []).
Proof. split; [done|]. split; [constructor|]. intros k. split; [by intros ?%elem_of_nil|by intros []]. Qed.
Lemma scope_wired c l els flows : acc_ok c -> wire l c.1 ∅ = Ok (els, flows) -> deeply_wired (MkContainer els flows c.2).
Proof.
  intros [He Ho] Hw.
  destruct (wire_ok l [] c.1 ∅ els flows) as [Hs (fl & [H1 H2 H3 H4])]; [|done|].
  { split; [constructor| |by intros f ?%elem_of_nil|].
    - intros k f. rewrite lookup_empty. split; [done|]. by intros [?%elem_of_nil _].
    - intros k el Hk. destruct (He k el Hk) as (_ & _ & -> & -> & _). done. }
  assert (forall k el, els !! k = Some el -> exists x, c.1 !! k = Some x /\ el_id x = el_id el /\ el_sub x = el_sub el) as Hback.
  { intros k el Hk. specialize (Hs k). rewrite Hk in Hs. inversion Hs; subst. eauto. }
  assert (forall k, is_Some (els !! k) <-> is_Some (c.1 !! k)) as Hdom.
  { intros k. specialize (Hs k). by inversion Hs; split; intros []. }
  assert (forall k el s, els !! k = Some el -> el_sub el = Some s -> deeply_wired s) as Hsub.
  { intros k el s Hk Hes. destruct (Hback k el Hk) as (x & Hx & _ & Hx'). destruct (He k x Hx) as (_ & _ & _ & _ & Hd).
    apply Hd. congruence. }
  intros s Hin. inversion Hin as [|c' k el s' d Hk Hes Hd]; subst; [|by eapply (Hsub k el)].
  split; cbn.
  - intros k el Hk. destruct (Hback k el Hk) as (x & Hx & <- & _). by destruct (He k x Hx) as (? & ? & _).
  - destruct Ho as [Hn Ho]. split; [done|]. intros k. by rewrite Hdom.
  - exists fl. split_and!; done.
Qed.
Lemma build_container_wired d xc : forall c, build_container d xc = Ok c -> deeply_wired c.
Proof.
  induction xc as [xc IH] using xContainer_induction. intros c H. destruct xc. cbn [build_container] in H.
  pose proof acc_empty as Ha.
  repeat match type of H with
  | rbind (add_each ?mk ?l ?a) _ = Ok _ =>
      let a' := fresh "acc" in let Hadd := fresh "Hadd" in
      apply bind_Ok in H as (a' & Hadd & H);
      apply (add_each_ok mk l) in Hadd;
      [clear Ha; rename Hadd into Ha| |exact Ha]; cycle 1
  end.
  all: cycle -1.
  { apply bind_Ok in H as ([els flows] & Hw & [= <-]). by eapply scope_wired. }
  all: intros x el Hx; cbv beta; try (by intros [= <-]); try (by apply event_fresh); try (by apply named_event_fresh).
  intros (s & Hs & [= <-])%bind_Ok. split; [done|split; [done|]]. cbn. intros s' [= <-].
  apply (IH x Hx). by destruct (build_container d (xz_body x)); [injection Hs as ->|..].
Qed.
Lemma build_processes_wired d l : forall ps, build_processes d l = Ok ps -> forall p, p ∈ ps -> deeply_wired (pr_container p).
Proof.
  induction l as [|x l IH]; intros ps; cbn [build_processes]; [intros [= <-] p Hp; by apply elem_of_nil in Hp|].
  intros (p & Hp & (qs & Hqs & [= <-])%bind_Ok)%bind_Ok q Hq. apply elem_of_cons in Hq as [->|Hq]; [|by eapply IH].
  unfold build_process in Hp. apply bind_Ok in Hp as (c & Hc & [= <-]). cbn.
  apply (build_container_wired d (xy_body x)). by destruct (build_container d (xy_body x)); [injection Hc as ->|..].
Qed.

(** *** Parsing ends *)
Lemma add_each_returns {X} (mk : X -> res string Element) l :
  (forall x, x ∈ l -> returns (mk x) = true) -> forall c, returns (add_each mk l c) = true.
Proof.
  induction l as [|x l IH]; intros Hm c; cbn; [done|]. apply returns_bind; [apply Hm; left|]. intros el _.
  apply returns_bind; [unfold add; by repeat case_match|]. intros c' _. apply IH. intros y Hy. apply Hm. by right.
Qed.
Lemma wire_returns fl : forall els flows, returns (wire fl els flows) = true.
Proof. induction fl as [|x fl IH]; intros els flows; cbn [wire]; [done|]. by repeat (case_match; [done|]). Qed.
Lemma within_ctx_returns {A} ctx (r : res string A) : returns (within_ctx ctx r) = returns r.
Proof. by destruct r. Qed.
Lemma event_def_returns d x : returns (event_def d x) = true.
Proof. unfold event_def. by repeat case_match. Qed.
Lemma build_container_returns d xc : returns (build_container d xc) = true.
Proof.
  induction xc as [xc IH] using xContainer_induction. destruct xc. cbn [build_container].
  repeat (apply returns_bind; [apply add_each_returns; intros x Hx|intros ? _]).
  all: try (cbn in Hx; apply returns_bind; [rewrite within_ctx_returns; by apply IH|done]).
  all: unfold make_start_event, make_end_event, make_catch_event, make_throw_event, make_boundary_event; try done.
  1-5: apply returns_bind; [by rewrite within_ctx_returns, event_def_returns|]; intros ev _; by try case_match.
  apply returns_bind; [apply wire_returns|]. by intros [] _.
Qed.
Lemma build_processes_returns d l : returns (build_processes d l) = true.
Proof.
  induction l as [|x l IH]; cbn [build_processes]; [done|]. unfold build_process.
  apply returns_bind; [|intros; by apply returns_bind].
  apply returns_bind; [rewrite within_ctx_returns; apply build_container_returns|done].
Qed.
(** A node of the order that is missing would be a nil pointer. *)
Lemma each_in_order_returns {A} (m : gmap string A) f ids :
  (forall id, id ∈ ids -> exists x, m !! id = Some x /\ returns (f x) = true) -> returns (each_in_order m f ids) = true.
Proof.
  induction ids as [|id ids IH]; intros H; cbn; [done|]. destruct (H id) as (x & -> & Hx); [left|].
  apply returns_bind; [done|]. intros l _. apply returns_bind; [|done]. apply IH. intros k Hk. apply H. by right.
Qed.
Lemma validate_container_returns `{MO : MapOrder} c scope b : deeply_wired c -> returns (validate_container c scope b) = true.
Proof.
  revert scope b. induction c as [c IH] using container_ind. intros scope b Hc. rewrite validate_container_unfold.
  apply returns_bind; [|done]. apply each_in_order_returns. intros id Hid.
  apply (wi_order c (Hc c (inside_refl c))) in Hid as [el He]. eexists. rewrite lookup_fmap, He. split; [done|].
  rewrite nested_check. apply returns_bind; [|done]. unfold check_nested. destruct (body_of el) as [s|] eqn:Es; [|done].
  apply body_of_Some in Es as (? & Hs & ?). eapply IH; [done..|]. intros s' Hs'. eapply Hc, inside_sub; eauto.
Qed.
Lemma validate_processes_returns `{MO : MapOrder} ps : (forall p, p ∈ ps -> deeply_wired (pr_container p)) ->
  forall seen, returns (validate_processes seen ps) = true.
Proof.
  induction ps as [|p ps IH]; intros Hp seen; cbn [validate_processes]; [done|].
  assert (forall seen, returns (validate_processes seen ps) = true) as Hps by (apply IH; intros q Hq; apply Hp; by right).
  case_match; [by apply returns_bind|].
  repeat (apply returns_bind; [|intros ? _]); try done. case_match; [apply validate_container_returns, Hp; left|done].
Qed.

(** Parsing any document ends in definitions or in an error: no identifier of
    an order lacks its node, whatever the document. *)
Lemma parse_returns `{MO : MapOrder} `{X : XmlDecoder} data : returns (Parse data) = true.
Proof.
  unfold Parse. destruct (unmarshal_xml data) as [|root]; [done|]. cbv zeta.
  apply returns_bind; [apply build_processes_returns|]. intros ps Hps. apply returns_bind; [|by intros [] _].
  unfold Validate. apply returns_bind; [|done]. apply validate_processes_returns. cbn. by eapply build_processes_wired.
Qed.

Lemma parse_builds `{MO : MapOrder} `{X : XmlDecoder} data defs : Parse data = Ok defs ->
  Validate defs = Ok [] /\ forall p s, p ∈ df_processes defs -> inside (pr_container p) s -> wired s.
Proof.
  unfold Parse. destruct (unmarshal_xml data) as [|root]; [done|]. cbv zeta.
  intros (ps & Hps & (problems & Hv & H)%bind_Ok)%bind_Ok. destruct problems; [|done]. injection H as <-.
  split; [done|]. intros p s Hp Hs. by eapply build_processes_wired.
Qed.
(** C29: in a document that parses, every scope of every process, nested ones
    included, is wired: nodes and flows lie under their own IDs, the order lists
    each node once, and each node's lists hold exactly the flows that leave and
    enter it, in one order of the flows; and the validator finds no problem. *)
Theorem parse_wired `{MO : MapOrder} `{X : XmlDecoder} data defs : Parse data = Ok defs ->
  Validate defs = Ok [] /\ forall p s, p ∈ df_processes defs -> inside (pr_container p) s -> wired s.
Proof.
  apply parse_builds.
Qed.
End properties.

(** ** The properties on a concrete document *)
#[local] Existing Instance latin1_only.
#[local] Existing Instance key_order.

Definition xnode (id : string) : xFlowNode := {| xf_id := id; xf_name := ""; xf_doc := "" |}.
Definition no_events : xEventDefs :=
  {| xe_timer := None; xe_message := None; xe_signal := None; xe_error := None; xe_terminate := false |}.
Definition plain_xevent (id : string) : xCatchEvent :=
  {| xc_node := xnode id; xc_defs := no_events; xc_form := []; xc_interrupting := "" |}.
Definition no_activity : xActivity :=
  {| xa_default := ""; xa_async := []; xa_before := []; xa_multi := None; xa_inputs := []; xa_outputs := [] |}.
Definition xflow (id source target cond : string) : xSequenceFlow :=
  {| xq_id := id; xq_name := ""; xq_source := source; xq_target := target; xq_cond := cond |}.
Definition xscope (tasks : list string) (subs : list xSubProcess) (fl : list xSequenceFlow) : xContainer :=
  MkXContainer [plain_xevent "start"] [plain_xevent "end"] [] [] [] [] [] [] [] [] [] []
    (map (fun id => {| xp_node := xnode id; xp_act := no_activity |}) tasks) [] [] [] [] subs [] fl.
(** A task and a sub-process that holds another one. *)
Definition nested_document : xDefinitions :=
  {| xx_id := "defs"; xx_ns := ""; xx_messages := []; xx_signals := []; xx_errors := [];
     xx_processes := [{| xy_id := "order"; xy_name := ""; xy_exec := "";
       xy_body := xscope ["check"]
         [MkXSubProcess (xnode "ship") no_activity ""
            (xscope ["pack"] [] [xflow "i1" "start" "pack" ""; xflow "i2" "pack" "end" ""])]
         [xflow "f1" "start" "check" ""; xflow "f2" "check" "ship" "${ amount > 0 }"; xflow "f3" "ship" "end" ""] |}] |}.
Definition sample_decoder : XmlDecoder := fun data =>
  if String.eqb data "order" then inr nested_document else inl "EOF".
#[local] Existing Instance sample_decoder.
Definition parsed_document : Definitions :=
  match Parse "order" with Ok d => d | _ => base_definitions nested_document end.

Example parse_samples :
  (map (fun p => c_order (pr_container p)) (df_processes parsed_document)) = [["start"; "end"; "check"; "ship"]]
  /\ (p ← head (df_processes parsed_document); sq_cond <$> c_flows (pr_container p) !! "f2") = Some "amount > 0"
  /\ (p ← head (df_processes parsed_document); el_incoming <$> c_elements (pr_container p) !! "ship") = Some ["f2"]
  /\ is_ok (Parse "nothing") = false.
Proof. vm_compute. auto. Qed.
(** A send task whose message is not declared sends one without a name; a
    receive task waits for the reference itself. *)
Example undeclared_message :
  let d := base_definitions nested_document in
  (ev_message <$> el_event (make_send_task d {| xw_node := xnode "s"; xw_act := no_activity; xw_type := []; xw_topic := []; xw_message := "paid" |}))
    = Some ""
  /\ (ev_message <$> el_event (make_receive_task d {| xv_node := xnode "r"; xv_act := no_activity; xv_message := "paid" |})) = Some "paid".
Proof. vm_compute. auto. Qed.

Lemma parsed_ok : Parse "order" = Ok parsed_document.
Proof.
  assert (is_ok (Parse "order") = true) as H by (vm_compute; reflexivity).
  unfold parsed_document. by destruct (Parse "order").
Qed.
Lemma parse_wired_witness :
  Parse "order" = Ok parsed_document /\ Validate parsed_document = Ok [] /\
  forall p, p ∈ df_processes parsed_document -> wired (pr_container p).
Proof.
  pose proof (parse_wired "order" parsed_document parsed_ok) as [Hv Hw].
  split; [exact parsed_ok|split; [exact Hv|]]. intros p Hp. apply (Hw p _ Hp), inside_refl.
Defined.
