(* ===== verification/Replicate.v ===== *)
(** * Replication to a standby ([src/store/replicate.go], [src/replicate/])

    A leader pushes a snapshot of its journal and then its lines, in batches,
    to a follower, which applies them to a journal of its own.  The functions
    of the journal and of the receiver are followed by the sender's loop, one
    function per case of its [select], and by the system of both ends: a step
    is an operation of the leader's store, the appending of a line, a case of
    the loop, or the fate of a request. *)
From S2P Require Import Prelude GoFloat GoTime ExprValue StoreTypes StoreQuery StoreMemory StoreJournal.
Local Open Scope go_scope.
Local Open Scope string_scope.
Local Open Scope Z_scope.
Local Open Scope list_scope.

(** ** The journal of a follower *)
Section journals.
Context `{MO : MapOrder} {C : Codec}.

Definition StateSnapshot (j : Journal) : res string string :=
  match enc_snap (snapshot_of (j_mem j)) with
  | Some data => Ok data
  | None => Err "store: marshal snapshot"
  end.

Definition ResetFromSnapshot (data : string) (j : Journal) : res string unit * Journal :=
  match dec_snap data with
  | None => (Err "store: bad snapshot", j)
  | Some s =>
      (Ok (), {| j_mem := load_snapshot s; j_n := 0; j_compact_every := j_compact_every j;
                 j_file := EmptyString; j_snap := Some data |})
  end.

(** An event that the history has already, by its number. *)
Definition seen (ev : HistoryEvent) (m : Memory) : bool :=
  negb (hv_seq ev =? 0) && (hv_seq ev <=? hist_seq_of (hv_inst ev) m).
Definition skipped (e : entry) (m : Memory) : bool :=
  match e with EHist ev => seen ev m | _ => false end.

Definition ApplyReplicated (line : string) (j : Journal) : res string unit * Journal :=
  match dec_line line with
  | DBad => (Err "store: bad replicated entry", j)
  | DErr msg => (Err msg, j)
  | DEntry e =>
      if skipped e (j_mem j) then (Ok (), j)
      else
        let j := {| j_mem := apply_entry (j_mem j) e; j_n := j_n j + 1; j_compact_every := j_compact_every j;
                    j_file := (j_file j ++ line ++ nl)%string; j_snap := j_snap j |} in
        if j_compact_every j <=? j_n j then compact j else (Ok (), j)
  end.

(** ** The receiver

    A body is read up to a gigabyte; [broken] says that the connection fails
    at its end.  The scanner hands out the last line then, too. *)
Definition max_body : Z := 2 ^ 30.
Definition max_body_line : Z := 2 ^ 26.
Definition limit_reader (body : string) (broken : bool) : string * bool :=
  if max_body <=? slen body then (stake (Z.to_nat max_body) body, false) else (body, broken).

Inductive request := PostSnapshot (body : string) | PostAppend (body : string).
Definition req_body (r : request) : string := match r with PostSnapshot b | PostAppend b => b end.

Definition handle_snapshot (body : string) (broken : bool) (j : Journal) : Z * Journal :=
  let '(data, broken) := limit_reader body broken in
  if broken then (400, j)
  else match ResetFromSnapshot data j with
       | (Ok _, j) => (204, j)
       | (_, j) => (422, j)
       end.

Fixpoint apply_lines (ls : list string) (broken : bool) (j : Journal) : Z * Journal :=
  match ls with
  | [] => (if broken then 400 else 204, j)
  | l :: ls =>
      if max_body_line <=? slen l then (400, j)
      else let line := drop_cr l in
        if String.eqb line EmptyString then apply_lines ls broken j
        else match ApplyReplicated line j with
             | (Ok _, j) => apply_lines ls broken j
             | (_, j) => (422, j)
             end
  end.
Definition handle_append (body : string) (broken : bool) (j : Journal) : Z * Journal :=
  let '(data, broken) := limit_reader body broken in
  apply_lines (lines_from EmptyString data) broken j.

(** [NewReceiver]: the status of the answer and the journal after it. *)
Definition receive (secret got : string) (r : request) (broken : bool) (j : Journal) : Z * Journal :=
  if negb (String.eqb secret EmptyString) && negb (String.eqb got secret) then (401, j)
  else match r with
       | PostSnapshot body => handle_snapshot body broken j
       | PostAppend body => handle_append body broken j
       end.

(** ** The sender *)

(** [SenderOptions], with the secrets of the two ends. *)
Record config := { c_batch : Z; c_buffer : Z; c_secret : string; c_expected : string }.
Definition sender_options (batch buffer : Z) (secret expected : string) : config :=
  {| c_batch := if batch <=? 0 then 256 else batch; c_buffer := if buffer <=? 0 then 65536 else buffer;
     c_secret := secret; c_expected := expected |}.

(** The channels [ch] and [overrun] and the variables of [loop]. *)
Record Sender := { s_ch : list string; s_overrun : bool; s_sync : bool; s_batch : list string }.
Definition new_sender : Sender := {| s_ch := []; s_overrun := false; s_sync := true; s_batch := [] |}.

(** The callback of [OnAppend]: a full buffer drops the line. *)
Definition tap (c : config) (line : string) (s : Sender) : Sender :=
  if Z.of_nat (length (s_ch s)) <? c_buffer c
  then {| s_ch := s_ch s ++ [line]; s_overrun := s_overrun s; s_sync := s_sync s; s_batch := s_batch s |}
  else {| s_ch := s_ch s; s_overrun := true; s_sync := s_sync s; s_batch := s_batch s |}.

(** Where the loop stands: at its [select], in the request of a [flush], after
    which it goes on or, when it was the last, ends. *)
Inductive phase := Waiting | Posting (r : request) (final : bool) | Stopped.
Definition after_flush (final : bool) : phase := if final then Stopped else Waiting.

(** [flush] up to its request: the snapshot is taken here, or the batch is
    written out ([send]). *)
Definition flush_begin (final : bool) (leader : Journal) (s : Sender) : phase :=
  if s_sync s
  then match StateSnapshot leader with
       | Ok data => Posting (PostSnapshot data) final
       | _ => after_flush final
       end
  else match s_batch s with
       | [] => after_flush final
       | ls => Posting (PostAppend (file_text ls)) final
       end.
(** [flush] after its request: after a snapshot the lines that queued in the
    meantime are the next batch. *)
Definition flush_end (ok : bool) (r : request) (s : Sender) : Sender :=
  match r, ok with
  | PostSnapshot _, true => {| s_ch := []; s_overrun := s_overrun s; s_sync := false; s_batch := s_ch s |}
  | PostSnapshot _, false => s
  | PostAppend _, true => {| s_ch := s_ch s; s_overrun := s_overrun s; s_sync := s_sync s; s_batch := [] |}
  | PostAppend _, false => {| s_ch := s_ch s; s_overrun := s_overrun s; s_sync := true; s_batch := s_batch s |}
  end.

(** The cases of [loop]: a line, an overrun, the ticker ([flush_begin]), the
    stop. *)
Definition take_line (s : Sender) : option Sender :=
  match s_ch s with
  | [] => None
  | l :: ch => Some {| s_ch := ch; s_overrun := s_overrun s; s_sync := s_sync s; s_batch := s_batch s ++ [l] |}
  end.
Definition batch_full (c : config) (s : Sender) : bool := c_batch c <=? Z.of_nat (length (s_batch s)).
Definition take_overrun (s : Sender) : option Sender :=
  if s_overrun s
  then Some {| s_ch := s_ch s; s_overrun := false; s_sync := true; s_batch := s_batch s |} else None.
Definition drain_all (s : Sender) : Sender :=
  {| s_ch := []; s_overrun := s_overrun s; s_sync := s_sync s; s_batch := s_batch s ++ s_ch s |}.

(** What becomes of a request: it does not arrive, arrives in part, arrives
    without an answer coming back, or is answered. *)
Inductive delivery := Lost | Cut (n : nat) | Unanswered | Answered.
Definition cut_request (n : nat) (r : request) : request :=
  match r with PostSnapshot b => PostSnapshot (stake n b) | PostAppend b => PostAppend (stake n b) end.
(** [post]: whether it reports success, and the follower after it. *)
Definition post (c : config) (d : delivery) (r : request) (follower : Journal) : bool * Journal :=
  match d with
  | Lost => (false, follower)
  | Cut n => (false, (receive (c_expected c) (c_secret c) (cut_request n r) true follower).2)
  | Unanswered => (false, (receive (c_expected c) (c_secret c) r false follower).2)
  | Answered => let '(status, follower) := receive (c_expected c) (c_secret c) r false follower in
                (status / 100 =? 2, follower)
  end.

(** ** Both ends

    [n_todo] are the entries of the leader's current operation that are not
    in its log yet: an operation changes the memory first. *)
Record net := {
  n_leader : Journal; n_todo : list entry; n_sender : Sender; n_phase : phase; n_follower : Journal;
}.
Definition start (leader follower : Journal) : net :=
  {| n_leader := leader; n_todo := []; n_sender := new_sender; n_phase := Waiting; n_follower := follower |}.
Definition with_sender (s : Sender) (p : phase) (n : net) : net :=
  {| n_leader := n_leader n; n_todo := n_todo n; n_sender := s; n_phase := p; n_follower := n_follower n |}.

Inductive event :=
| Op (o : store_op)
| Log
| Take
| Overrun
| Tick
| Stop
| Post (d : delivery)
| Restart.

Definition set_j_mem (m : Memory) (j : Journal) : Journal :=
  {| j_mem := m; j_n := j_n j; j_compact_every := j_compact_every j; j_file := j_file j; j_snap := j_snap j |}.

(** [append] with its callbacks; an error ends the operation. *)
Definition log_entry (c : config) (n : net) : option net :=
  match n_todo n with
  | [] => None
  | e :: es =>
      let s := match enc_entry e with Some line => tap c line (n_sender n) | None => n_sender n end in
      let '(r, leader) := append e (n_leader n) in
      Some {| n_leader := leader; n_todo := match r with Ok _ => es | _ => [] end;
              n_sender := s; n_phase := n_phase n; n_follower := n_follower n |}
  end.

Definition exec (c : config) (ev : event) (n : net) : option net :=
  match ev, n_phase n with
  | Op o, _ =>
      match n_todo n with
      | [] => Some {| n_leader := set_j_mem (run_op o (j_mem (n_leader n))) (n_leader n);
                      n_todo := op_entries o (j_mem (n_leader n));
                      n_sender := n_sender n; n_phase := n_phase n; n_follower := n_follower n |}
      | _ => None
      end
  | Log, _ => log_entry c n
  | Take, Waiting =>
      s ← take_line (n_sender n);
      Some (with_sender s (if batch_full c s then flush_begin false (n_leader n) s else Waiting) n)
  | Overrun, Waiting => s ← take_overrun (n_sender n); Some (with_sender s Waiting n)
  | Tick, Waiting => Some (with_sender (n_sender n) (flush_begin false (n_leader n) (n_sender n)) n)
  | Stop, Waiting =>
      let s := drain_all (n_sender n) in Some (with_sender s (flush_begin true (n_leader n) s) n)
  | Post d, Posting r final =>
      let '(ok, follower) := post c d r (n_follower n) in
      Some {| n_leader := n_leader n; n_todo := n_todo n; n_sender := flush_end ok r (n_sender n);
              n_phase := after_flush final; n_follower := follower |}
  | Restart, _ =>
      match n_todo n, open_journal (j_compact_every (n_leader n)) (j_snap (n_leader n)) (j_file (n_leader n)) with
      | [], Ok leader => Some (start leader (n_follower n))
      | _, _ => None
      end
  | _, _ => None
  end.
Fixpoint exec_all (c : config) (evs : list event) (n : net) : option net :=
  match evs with
  | [] => Some n
  | ev :: evs => n ← exec c ev n; exec_all c evs n
  end.
End journals.

(** ** Replaying entries that are already there *)

(** What applying an entry that arrives from the leader does to the memory. *)
Definition replicate_entry (m : Memory) (e : entry) : Memory := if skipped e m then m else apply_entry m e.
Definition replicated (es : list entry) (m : Memory) : Memory := fold_left replicate_entry es m.
Definition numbered (e : entry) : Prop := match e with EHist ev => 0 < hv_seq ev | _ => True end.

Lemma replicated_app es1 es2 m : replicated (es1 ++ es2) m = replicated es2 (replicated es1 m).
Proof. apply fold_left_app. Qed.

(** The history of one instance with its counter, and what an entry does to
    them. *)
Definition hist_state : Type := option (list HistoryEvent) * option Z.
Definition hist_at (i : string) (m : Memory) : hist_state := (m_history m !! i, m_hist_seq m !! i).
Definition hist_effect (i : string) (x : hist_state) (e : entry) : hist_state :=
  match e with
  | EPurge id => if String.eqb id i then (None, None) else x
  | EHist ev => if String.eqb (hv_inst ev) i && (default 0 x.2 <? hv_seq ev)
                then (Some (default [] x.1 ++ [ev]), Some (hv_seq ev)) else x
  | _ => x
  end.

Lemma replicate_entry_hist i m e : numbered e -> hist_at i (replicate_entry m e) = hist_effect i (hist_at i m) e.
Proof.
  intros Hn. unfold hist_at, replicate_entry, skipped. destruct e; try done; cbn [hist_effect].
  - cbn. rewrite !lookup_delete. by destruct (String.eqb_spec id i), (decide (id = i)).
  - cbn. by destruct (cut_nul id).
  - cbn in Hn. unfold seen. destruct (Z.eqb_spec (hv_seq ev) 0); [lia|]. cbn [negb andb].
    destruct (Z.leb_spec (hv_seq ev) (hist_seq_of (hv_inst ev) m)) as [Hle|Hlt]; unfold hist_seq_of in *.
    + destruct (String.eqb_spec (hv_inst ev) i) as [<-|]; [|done]. cbn.
      destruct (Z.ltb_spec (default 0 (m_hist_seq m !! hv_inst ev)) (hv_seq ev)); [lia|done].
    + cbn [apply_entry]. unfold AppendHistory, hist_seq_of. cbn [snd].
      destruct (Z.eqb_spec (hv_seq ev) 0); [lia|].
      destruct (Z.ltb_spec (default 0 (m_hist_seq m !! hv_inst ev)) (hv_seq ev)); [|lia]. cbn.
      destruct (String.eqb_spec (hv_inst ev) i) as [<-|]; cbn.
      * destruct (Z.ltb_spec (default 0 (m_hist_seq m !! hv_inst ev)) (hv_seq ev)); [|lia].
        by rewrite !lookup_insert_eq.
      * by rewrite !lookup_insert_ne by done.
Qed.

Lemma replicated_hist i es m :
  Forall numbered es -> hist_at i (replicated es m) = fold_left (hist_effect i) es (hist_at i m).
Proof.
  intros H. revert m. induction H as [|e es He _ IH]; intros m; cbn; [done|].
  fold (replicated es (replicate_entry m e)). by rewrite IH, replicate_entry_hist.
Qed.

(** Either an entry purges the instance, or the counter only grows past the
    numbers of its events. *)
Definition counted_events (i : string) (es : list entry) (n : Z) : Prop :=
  Forall (fun e => match e with EPurge id => id <> i | EHist ev => hv_inst ev = i -> hv_seq ev <= n | _ => True end) es.

Lemma hist_effects_shape i es :
  (exists x, forall y, fold_left (hist_effect i) es y = x) \/
  forall y, counted_events i es (default 0 (fold_left (hist_effect i) es y).2).
Proof.
  induction es as [|e es [[x Hx]|IH]] using rev_ind; [right; intros y; constructor| |].
  - left. exists (hist_effect i x e). intros y. by rewrite fold_left_app, Hx.
  - assert (e = EPurge i \/ e <> EPurge i) as [->|Hne].
    { destruct e as [| | | | |id| | | | | | | |]; try (by right). destruct (decide (id = i)) as [->|]; [by left|right; congruence]. }
    { left. exists (None, None). intros y. rewrite fold_left_app. cbn. by rewrite String.eqb_refl. }
    right. intros y. specialize (IH y). rewrite fold_left_app. cbn [fold_left].
    set (z := fold_left (hist_effect i) es y) in *.
    assert (default 0 z.2 <= default 0 (hist_effect i z e).2) as Hle.
    { destruct e; cbn; try done; [by destruct (String.eqb_spec id i); [subst|]|].
      destruct (String.eqb _ _), (Z.ltb_spec (default 0 z.2) (hv_seq ev)); cbn; lia. }
    apply Forall_app. split.
    + eapply Forall_impl; [exact IH|]. intros []; try done. cbn. intros Hev Hi. specialize (Hev Hi). lia.
    + constructor; [|constructor]. destruct e; try done; cbn; [congruence|]. intros ->.
      rewrite String.eqb_refl. cbn. destruct (Z.ltb_spec (default 0 z.2) (hv_seq ev)); cbn; lia.
Qed.
Lemma counted_events_skip i es x : counted_events i es (default 0 x.2) -> fold_left (hist_effect i) es x = x.
Proof.
  induction 1 as [|e es He _ IH]; cbn; [done|].
  assert (hist_effect i x e = x) as ->; [|exact IH]. destruct e; try done; cbn.
  - by destruct (String.eqb_spec id i).
  - destruct (String.eqb_spec (hv_inst ev) i) as [Hi|]; [|done]. specialize (He Hi). cbn.
    by destruct (Z.ltb_spec (default 0 x.2) (hv_seq ev)); [lia|].
Qed.

(** Applying entries a second time changes nothing, whatever the state they
    were applied to. *)
Lemma replicated_twice es m : Forall numbered es -> replicated es (replicated es m) = replicated es m.
Proof.
  intros Hn.
  destruct (twice_tables replicate_entry es m) as (? & ? & ? & ? & ? & ? & ? & ? & ?).
  { intros m' e. unfold replicate_entry. destruct (skipped e m') eqn:E; [|by split_and!]. by destruct e. }
  assert (forall i, hist_at i (replicated es (replicated es m)) = hist_at i (replicated es m)) as Hh.
  { intros i. rewrite !replicated_hist by done. destruct (hist_effects_shape i es) as [[x Hx]|Hc].
    - by rewrite !Hx.
    - apply counted_events_skip, Hc. }
  assert (m_history (replicated es (replicated es m)) = m_history (replicated es m)) as H8
    by (apply map_eq; intros i; exact (f_equal fst (Hh i))).
  assert (m_hist_seq (replicated es (replicated es m)) = m_hist_seq (replicated es m)) as H9
    by (apply map_eq; intros i; exact (f_equal snd (Hh i))).
  fold (replicated es m) in *. fold (replicated es (replicated es m)) in *.
  destruct (replicated es (replicated es m)), (replicated es m). cbn in *. congruence.
Qed.

(** The end of a queue that changes nothing changes nothing. *)
Lemma replicated_suffix q es m : Forall numbered es -> replicated (q ++ es) m = m -> replicated es m = m.
Proof. intros Hn H. rewrite replicated_app in H. rewrite <- H at 1. by rewrite replicated_twice. Qed.
(** New entries keep such a queue what it is. *)
Lemma replicated_more q es m :
  Forall numbered (q ++ es) -> replicated q m = m -> replicated (q ++ es) (replicated es m) = replicated es m.
Proof.
  intros Hn H. assert (replicated es m = replicated (q ++ es) m) as E by by rewrite replicated_app, H.
  rewrite E. by apply replicated_twice.
Qed.

(** The entries of an operation are numbered, and applying them is the
    operation. *)
Lemma op_entries_numbered o m : memory_ok m -> op_pre o m -> Forall numbered (op_entries o m).
Proof.
  intros Hm Hpre. destruct o; cbn [op_entries]; try (by repeat constructor); try (by apply Forall_map, Forall_true).
  constructor; [|constructor]. cbn [numbered]. destruct (append_history_seq ev m Hm Hpre) as (Hlt & _).
  pose proof (last_seq_nonneg _ (proj1 (hist_of_ok m (hv_inst ev) Hm))) as Hp.
  rewrite <- (hist_seq_of_last _ _ Hm) in Hp. lia.
Qed.
Lemma replicated_replay es m : Forall (fun e => match e with EHist _ => False | _ => True end) es -> replicated es m = replay es m.
Proof.
  intros H. revert m. induction H as [|e es He _ IH]; intros m; cbn; [done|].
  assert (replicate_entry m e = apply_entry m e) as -> by by destruct e. apply IH.
Qed.
Lemma replicated_op o m : memory_ok m -> op_pre o m -> replicated (op_entries o m) m = run_op o m.
Proof.
  intros Hm Hpre. rewrite <- (op_entries_replay_core o m Hm Hpre).
  destruct o; try (apply replicated_replay; cbn [op_entries]; by repeat constructor);
    try (apply replicated_replay; cbn [op_entries]; by apply Forall_map, Forall_true).
  destruct (append_history_seq ev m Hm Hpre) as (Hlt & _ & _ & Hi). cbn [op_entries replicated replay fold_left].
  unfold replicate_entry, skipped, seen. rewrite Hi.
  destruct (Z.leb_spec (hv_seq (AppendHistory ev m).1) (hist_seq_of (hv_inst ev) m)); [lia|]. by rewrite andb_false_r.
Qed.

(** The invariant of the store survives entries of a leader. *)
Lemma replicate_entry_ok m e : memory_ok m -> numbered e -> memory_ok (replicate_entry m e).
Proof.
  intros Hm Hn. unfold replicate_entry. destruct (skipped e m) eqn:Es; [done|].
  destruct e; cbn [apply_entry].
  - by apply (run_op_ok_core (OPutDefinition d)).
  - destruct Hm; split; cbn; auto with go.
  - by apply (run_op_ok_core (OPutTask t)).
  - by apply (run_op_ok_core (OPutJob j)).
  - by apply (run_op_ok_core (ODeleteJob id)).
  - by apply (run_op_ok_core (OPurgeInstance id)).
  - by apply (run_op_ok_core (OPutExternalTask t)).
  - by apply (run_op_ok_core (OPutAgentJob a)).
  - by apply (run_op_ok_core (OPutSubscription s)).
  - by apply (run_op_ok_core (ODeleteSubscription id)).
  - by apply (run_op_ok_core (OPutIncident i)).
  - by apply (run_op_ok_core (OPutBlob b)).
  - destruct (cut_nul id) as [kind key]. by apply (run_op_ok_core (ODeleteBlob kind key)).
  - apply (run_op_ok_core (OAppendHistory ev)); [done|]. right. cbn in Hn, Es. unfold seen in Es.
    destruct (Z.eqb_spec (hv_seq ev) 0); [lia|]. cbn in Es. by apply Z.leb_gt.
Qed.

(** ** Runs

    [roomy] runs are those in which the buffer always has room for a line. *)
Section runs.
Context `{MO : MapOrder} {C : Codec} {L : CodecLaws}.

Definition allowed (roomy : bool) (c : config) (ev : event) (n : net) : Prop :=
  match ev with
  | Op o => op_pre o (j_mem (n_leader n)) /\ op_storable o (j_mem (n_leader n))
  | Log => roomy = true -> Z.of_nat (length (s_ch (n_sender n))) < c_buffer c
  | Post _ => match n_phase n with Posting r _ => slen (req_body r) <= max_body | _ => True end
  | _ => True
  end.
Inductive net_run (roomy : bool) (c : config) : net -> Prop :=
| net_start leader follower :
    journal_inv leader -> safe_snap (snapshot_of (j_mem leader)) -> journal_inv follower ->
    net_run roomy c (start leader follower)
| net_step n ev n' :
    net_run roomy c n -> allowed roomy c ev n -> exec c ev n = Some n' -> net_run roomy c n'.

(** The entries of lines. *)
Definition entries (ls : list string) : list entry :=
  omap (fun l => match dec_line l with DEntry e => Some e | _ => None end) ls.
Definition line_ok (l : string) : Prop := exists e, storable e l /\ numbered e.

Lemma entries_app a b : entries (a ++ b) = entries a ++ entries b.
Proof. unfold entries. apply omap_app. Qed.
Lemma entries_cons e l ls : storable e l -> entries (l :: ls) = e :: entries ls.
Proof. intros (_ & Hd & _). unfold entries. cbn. by rewrite Hd. Qed.
Lemma entries_numbered ls : Forall line_ok ls -> Forall numbered (entries ls).
Proof. induction 1 as [|l ls (e & Hs & Hn) _ IH]; [constructor|]. rewrite (entries_cons e) by done. by constructor. Qed.
Lemma line_printable l : line_ok l -> printable l = true.
Proof. intros (e & Hs & _). by destruct (storable_line e l Hs). Qed.
Lemma lines_from_body ls : Forall line_ok ls -> lines_from EmptyString (file_text ls) = ls.
Proof.
  intros H. pose proof (lines_from_text ls EmptyString) as E. rewrite string_app_nil_r in E.
  rewrite E; [by rewrite app_nil_r|]. eapply Forall_impl; [exact H|]. exact line_printable.
Qed.

(** *** The leader, in the middle of an operation *)
Record leader_ok (j : Journal) (todo : list entry) : Prop := {
  l_mem : memory_ok (j_mem j);
  l_safe : safe_snap (snapshot_of (j_mem j));
  l_todo : Forall (fun e => entry_storable e /\ numbered e) todo;
  l_absorb : forall a b, todo = a ++ b -> a <> [] -> replay b (j_mem j) = j_mem j;
  l_files : exists base es ls, files_hold j (replay es base) base es ls /\ replay (es ++ todo) base = j_mem j;
}.

Lemma leader_start j : journal_inv j -> safe_snap (snapshot_of (j_mem j)) -> leader_ok j [].
Proof.
  intros [Hm (base & es & ls & H)] Hs. split; [done..| |].
  - by intros [] b Hab Ha.
  - exists base, es, ls. rewrite app_nil_r. destruct H as [H1 H2 H3 H4 H5]. by split; [split|].
Qed.
Lemma leader_numbered j todo : leader_ok j todo -> Forall numbered todo.
Proof. intros H. eapply Forall_impl; [apply H|]. by intros e []. Qed.

Lemma leader_op o j :
  leader_ok j [] -> op_pre o (j_mem j) -> op_storable o (j_mem j) ->
  leader_ok (set_j_mem (run_op o (j_mem j)) j) (op_entries o (j_mem j)).
Proof.
  intros [Hm _ _ _ (base & es & ls & H & Hr)] Hpre [Hst Hsn]. rewrite app_nil_r in Hr. split; cbn.
  - by apply run_op_ok_core.
  - done.
  - apply Forall_and. split; [done|by apply op_entries_numbered].
  - intros a b. by apply op_entries_absorb.
  - exists base, es, ls. split; [by destruct H; split|]. rewrite replay_app, Hr. by apply op_entries_replay_core.
Qed.

Lemma leader_log e todo j :
  leader_ok j (e :: todo) ->
  exists line j', storable e line /\ append e j = (Ok (), j') /\ j_mem j' = j_mem j /\ leader_ok j' todo.
Proof.
  intros [Hm Hs Ht Ha (base & es & ls & H & Hr)]. apply Forall_cons in Ht as [[Hst _] Ht].
  destruct (entry_storable_line e Hst) as [line Hl].
  destruct (append_step e todo j base es ls) as (j' & b' & es' & ls' & Hap & Hmem & Hf & Hr'); try done.
  { by apply (Ha [e]). }
  exists line, j'. split_and!; [done..|]. split; rewrite ?Hmem; try done.
  - intros a b -> Hne. by apply (Ha (e :: a)).
  - by exists b', es', ls'.
Qed.

Lemma leader_restart every j j' :
  leader_ok j [] -> open_journal every (j_snap j) (j_file j) = Ok j' -> j_mem j' = j_mem j /\ leader_ok j' [].
Proof.
  intros [Hm Hs _ _ (base & es & ls & [H1 H2 H3 _ _] & Hr)] Ho. rewrite app_nil_r in Hr.
  destruct (open_inv every _ _ j' base es ls Ho) as [Hj Hi]; try done; [by rewrite Hr|].
  rewrite Hr in Hj. split; [done|]. apply leader_start; [done|]. by rewrite Hj.
Qed.

(** *** The receiver *)
Lemma limit_reader_fits b broken : slen b <= max_body -> exists broken', limit_reader b broken = (b, broken').
Proof.
  unfold limit_reader. intros H. destruct (Z.leb_spec max_body (slen b)); [|by eexists].
  exists false. f_equal. assert (Z.to_nat max_body = String.length b) as -> by (unfold slen in *; lia).
  pose proof (stake_app_ge b EmptyString (String.length b)) as E. rewrite !string_app_nil_r in E.
  rewrite E, stake_nil by lia. apply string_app_nil_r.
Qed.
Lemma limit_reader_whole b : slen b <= max_body -> limit_reader b false = (b, false).
Proof.
  intros H. destruct (limit_reader_fits b false H) as [b' E]. rewrite E. unfold limit_reader in E.
  case_match; congruence.
Qed.

(** What a line does to the follower, unless its own compaction fails. *)
Lemma apply_replicated_line e l f r f' :
  storable e l -> ApplyReplicated l f = (r, f') -> j_mem f' = replicate_entry (j_mem f) e.
Proof.
  intros (_ & Hd & _). unfold ApplyReplicated, replicate_entry. rewrite Hd.
  destruct (skipped e (j_mem f)); [by intros [= _ <-]|]. cbn.
  destruct (_ <=? _); [unfold compact; destruct (enc_snap _)|]; by intros [= _ <-].
Qed.

Lemma apply_lines_mem ls : forall f st f',
  Forall line_ok ls -> apply_lines ls false f = (st, f') -> st / 100 = 2 ->
  j_mem f' = replicated (entries ls) (j_mem f).
Proof.
  induction ls as [|l ls IH]; intros f st f' Hls; cbn [apply_lines]; [by intros [= _ <-]|].
  apply Forall_cons in Hls as [(e & Hs & Hn) Hls]. rewrite (entries_cons e) by done.
  destruct (max_body_line <=? slen l); [by intros [= <- _]|].
  destruct (storable_line e l Hs) as [Hne Hp]. apply String.eqb_neq in Hne.
  rewrite drop_cr_printable, Hne by done.
  destruct (ApplyReplicated l f) as [[] f1] eqn:E; try (by intros [= <- _]).
  intros H Hst. rewrite (IH f1 st f' Hls H Hst). by rewrite (apply_replicated_line e l f _ f1 Hs E).
Qed.

(** A request that reports success was applied in full. *)
Lemma post_success c d r f f' :
  slen (req_body r) <= max_body -> post c d r f = (true, f') ->
  match r with
  | PostSnapshot data => exists s, dec_snap data = Some s /\ j_mem f' = load_snapshot s
  | PostAppend body => forall ls, Forall line_ok ls -> body = file_text ls -> j_mem f' = replicated (entries ls) (j_mem f)
  end.
Proof.
  intros Hfit. destruct d; cbn [post]; try discriminate. unfold receive.
  destruct (_ && _); [discriminate|]. destruct r as [data|body]; cbn in Hfit.
  - unfold handle_snapshot. rewrite limit_reader_whole by done. unfold ResetFromSnapshot.
    destruct (dec_snap data) as [s|]; [|discriminate]. intros [= <-]. by exists s.
  - unfold handle_append. rewrite limit_reader_whole by done. intros H ls Hls ->.
    rewrite lines_from_body in H by done. destruct (apply_lines ls false f) as [st f1] eqn:E.
    injection H as Hst <-. apply Z.eqb_eq in Hst. by eapply apply_lines_mem.
Qed.

(** *** The sender *)

(** A request holds what the sender has to send. *)
Definition phase_ok (s : Sender) (p : phase) : Prop :=
  match p with
  | Posting (PostSnapshot data) _ => s_sync s = true /\ exists m, dec_snap data = Some (snapshot_of m) /\ memory_ok m
  | Posting (PostAppend body) _ => s_sync s = false /\ body = file_text (s_batch s)
  | _ => True
  end.
(** The snapshot in a request, if there is one, has the state [m]. *)
Definition carries (p : phase) (m : Memory) : Prop :=
  memory_ok m /\ exists data final, p = Posting (PostSnapshot data) final /\ dec_snap data = Some (snapshot_of m).

Lemma flush_begin_ok final j todo s :
  leader_ok j todo ->
  phase_ok s (flush_begin final j s) /\ forall m, carries (flush_begin final j s) m -> m = j_mem j.
Proof.
  intros H. unfold flush_begin, StateSnapshot. destruct (s_sync s) eqn:Es.
  - destruct (snap_safe _ (l_safe _ _ H)) as (data & -> & Hd). cbn. split.
    + split; [done|]. exists (j_mem j). split; [done|apply H].
    + intros m (Hm & d' & f' & [= <- _] & Hd').
      assert (snapshot_of m = snapshot_of (j_mem j)) as E by congruence.
      rewrite <- (load_snapshot_of (j_mem j)) by apply H. rewrite <- E. symmetry. by apply load_snapshot_of.
  - destruct (s_batch s) eqn:Eb; (split; [|intros m (_ & d' & f' & Hp & _)]); cbn in *.
    + by destruct final.
    + by destruct final.
    + by rewrite Eb.
    + discriminate.
Qed.

(** *** The invariants *)
Record wf (n : net) : Prop := {
  w_leader : leader_ok (n_leader n) (n_todo n);
  w_ch : Forall line_ok (s_ch (n_sender n));
  w_batch : Forall line_ok (s_batch (n_sender n));
  w_phase : phase_ok (n_sender n) (n_phase n);
}.

(** The lines that are still to be applied. *)
Definition queue (n : net) : list entry := entries (s_ch (n_sender n)) ++ n_todo n.
Definition backlog (n : net) : list entry := entries (s_batch (n_sender n)) ++ queue n.

(** As long as no line was dropped: the queue changes nothing in the leader
    and leads from a snapshot under way to the leader; and unless the sender
    has to resync, the backlog leads from the follower to the leader. *)
Record synced (n : net) : Prop := {
  y_queue : replicated (queue n) (j_mem (n_leader n)) = j_mem (n_leader n);
  y_snap m : carries (n_phase n) m -> replicated (queue n) m = j_mem (n_leader n);
  y_follow : s_sync (n_sender n) = false -> replicated (backlog n) (j_mem (n_follower n)) = j_mem (n_leader n);
}.

Lemma queue_numbered n : wf n -> Forall numbered (queue n).
Proof. intros H. apply Forall_app. split; [apply entries_numbered, H|eapply leader_numbered, H]. Qed.

(** A flush begins when the loop was at its [select]. *)
Lemma begin_wf final s n :
  leader_ok (n_leader n) (n_todo n) -> Forall line_ok (s_ch s) -> Forall line_ok (s_batch s) ->
  wf (with_sender s (flush_begin final (n_leader n) s) n).
Proof. intros H1 H2 H3. split; cbn; try done. by eapply flush_begin_ok. Qed.
Lemma begin_synced final s n :
  leader_ok (n_leader n) (n_todo n) ->
  replicated (entries (s_ch s) ++ n_todo n) (j_mem (n_leader n)) = j_mem (n_leader n) ->
  (s_sync s = false ->
   replicated (entries (s_batch s) ++ entries (s_ch s) ++ n_todo n) (j_mem (n_follower n)) = j_mem (n_leader n)) ->
  synced (with_sender s (flush_begin final (n_leader n) s) n).
Proof.
  intros H1 H2 H3. split; cbn; try done. intros m Hc. destruct (flush_begin_ok final _ _ s H1) as [_ Hm].
  by rewrite (Hm m Hc).
Qed.

(** Without a request under way. *)
Lemma after_flush_synced s final leader todo f :
  replicated (entries (s_ch s) ++ todo) (j_mem leader) = j_mem leader ->
  (s_sync s = false ->
   replicated (entries (s_batch s) ++ entries (s_ch s) ++ todo) (j_mem f) = j_mem leader) ->
  synced {| n_leader := leader; n_todo := todo; n_sender := s; n_phase := after_flush final; n_follower := f |}.
Proof. intros H1 H2. split; cbn; try done. intros m (_ & d' & f' & Hp & _). by destruct final. Qed.
Lemma waiting_synced s n :
  replicated (entries (s_ch s) ++ n_todo n) (j_mem (n_leader n)) = j_mem (n_leader n) ->
  (s_sync s = false ->
   replicated (entries (s_batch s) ++ entries (s_ch s) ++ n_todo n) (j_mem (n_follower n)) = j_mem (n_leader n)) ->
  synced (with_sender s Waiting n).
Proof. apply (after_flush_synced s false). Qed.

Lemma start_wf leader follower : leader_ok leader [] -> wf (start leader follower).
Proof. intros H. split; [done|constructor|constructor|exact I]. Qed.
Lemma start_synced leader follower : synced (start leader follower).
Proof. split; [done| |done]. by intros m (_ & d & f & [=] & _). Qed.

Lemma exec_wf c ev n n' : wf n -> allowed false c ev n -> exec c ev n = Some n' -> wf n'.
Proof.
  intros [Hl Hc Hb Hp] Ha He. destruct ev; cbn [exec allowed] in He, Ha.
  - destruct (n_todo n) eqn:Et; [|done]. injection He as <-. destruct Ha. split; cbn; try done. by apply leader_op.
  - unfold log_entry in He. destruct (n_todo n) as [|e todo] eqn:Et; [done|].
    destruct (leader_log e todo _ Hl) as (line & j & Hs & Hap & _ & Hl').
    rewrite Hap, (proj1 Hs) in He. injection He as <-. apply l_todo in Hl. apply Forall_cons in Hl as [[_ Hn] _].
    split; cbn; [done| | |]; unfold tap; case_match; cbn; try done.
    apply Forall_app. split; [done|]. constructor; [|constructor]. by exists e.
  - destruct (n_phase n); try done. unfold take_line in He. destruct (s_ch (n_sender n)) as [|l ch]; [done|].
    apply Forall_cons in Hc as [Hl1 Hc]. cbn in He. injection He as <-.
    assert (Forall line_ok (s_batch (n_sender n) ++ [l])) as Hb' by (apply Forall_app; by repeat constructor).
    case_match; [by apply begin_wf|by split].
  - destruct (n_phase n); try done. unfold take_overrun in He. destruct (s_overrun _); [|done].
    injection He as <-. by split.
  - destruct (n_phase n); try done. injection He as <-. by apply begin_wf.
  - destruct (n_phase n); try done. injection He as <-. apply begin_wf; cbn; [done|constructor|by apply Forall_app].
  - destruct (n_phase n) as [|r final|]; try done. destruct (post c d r (n_follower n)) as [ok f]. injection He as <-.
    destruct r, ok; split; cbn; try done; by destruct final.
  - destruct (n_todo n); [|done]. destruct (open_journal _ _ _) as [j| | |] eqn:Eo; try done.
    injection He as <-. apply start_wf. by eapply leader_restart.
Qed.

(** A step keeps both ends in step, as long as the buffer has room. *)
Lemma exec_synced c ev n n' : wf n -> synced n -> allowed true c ev n -> exec c ev n = Some n' -> synced n'.
Proof.
  intros Hw [Hq Hsn Hf] Ha He. pose proof Hw as [Hl Hc Hb Hp]. pose proof (queue_numbered n Hw) as Hn.
  unfold backlog, queue in *. destruct ev; cbn [exec allowed] in He, Ha.
  - destruct (n_todo n) eqn:Et; [|done]. injection He as <-. destruct Ha as [Hpre Hst].
    pose proof (l_mem _ _ Hl) as Hm. rewrite <- (replicated_op o _ Hm Hpre).
    rewrite app_nil_r in *. assert (Forall numbered (entries (s_ch (n_sender n)) ++ op_entries o (j_mem (n_leader n)))) as Hn'
      by (apply Forall_app; split; [done|by apply op_entries_numbered]).
    split; unfold backlog, queue; cbn; [by apply replicated_more| |].
    + intros m Hcm. by rewrite replicated_app, (Hsn m Hcm).
    + intros Hs. by rewrite (assoc_L (++)), replicated_app, (Hf Hs).
  - unfold log_entry in He. destruct (n_todo n) as [|e todo] eqn:Et; [done|].
    destruct (leader_log e todo _ Hl) as (line & j & Hs & Hap & Hj & _).
    rewrite Hap, (proj1 Hs) in He. injection He as <-.
    specialize (Ha eq_refl). unfold tap. rewrite (proj2 (Z.ltb_lt _ _) Ha).
    assert (forall rest, entries (s_ch (n_sender n) ++ [line]) ++ rest = entries (s_ch (n_sender n)) ++ e :: rest) as El
      by (intros rest; by rewrite entries_app, (entries_cons e), <- (assoc_L (++))).
    split; unfold backlog, queue; cbn [n_sender s_ch n_todo n_leader s_batch n_follower n_phase s_sync]; by rewrite El, Hj.
  - destruct (n_phase n); try done. unfold take_line in He. destruct (s_ch (n_sender n)) as [|l ch] eqn:Ec; [done|].
    apply Forall_cons in Hc as [(e & Hs & _) Hc]. cbn in He. injection He as <-. rewrite (entries_cons e) in * by done.
    assert (replicated (entries ch ++ n_todo n) (j_mem (n_leader n)) = j_mem (n_leader n)) as Hq'.
    { apply (replicated_suffix [e]); [by inv Hn|done]. }
    assert (forall rest, entries (s_batch (n_sender n) ++ [l]) ++ rest = entries (s_batch (n_sender n)) ++ e :: rest) as El
      by (intros rest; by rewrite entries_app, (entries_cons e), <- (assoc_L (++))).
    case_match; [|by apply waiting_synced; cbn; rewrite ?El].
    apply begin_synced; cbn; [done|done|]. by rewrite El.
  - destruct (n_phase n); try done. unfold take_overrun in He. destruct (s_overrun _); [|done].
    injection He as <-. by apply waiting_synced.
  - destruct (n_phase n); try done. injection He as <-. by apply begin_synced.
  - destruct (n_phase n); try done. injection He as <-. apply begin_synced; cbn; [done| |].
    + by eapply replicated_suffix; [eapply leader_numbered|].
    + intros Hs. rewrite entries_app, <- (assoc_L (++)). by apply Hf.
  - destruct (n_phase n) as [|r final|] eqn:Ep; try done. destruct (post c d r (n_follower n)) as [ok f] eqn:Ef. injection He as <-.
    destruct ok; [pose proof (post_success c d r _ f Ha Ef) as Hr|]; destruct r as [data|body]; cbn in Hp;
      destruct Hp as [Hs Hp]; apply after_flush_synced; cbn; rewrite ?Hs; try done.
    + by eapply replicated_suffix; [eapply leader_numbered|].
    + intros _. destruct Hp as (m & Hd & Hm). destruct Hr as (s & Hd' & ->). rewrite Hd in Hd'. injection Hd' as <-.
      rewrite load_snapshot_of by done. apply Hsn. split; [done|]. by exists data, final.
    + intros _. rewrite (Hr _ Hb Hp), <- replicated_app. by apply Hf.
  - destruct (n_todo n); [|done]. destruct (open_journal _ _ _) as [j| | |]; try done.
    injection He as <-. apply start_synced.
Qed.

Lemma allowed_weaken roomy c ev n : allowed roomy c ev n -> allowed false c ev n.
Proof. by destruct ev. Qed.
Lemma run_wf roomy c n : net_run roomy c n -> wf n.
Proof.
  induction 1 as [leader follower Hl Hs _|n ev n' _ IH Ha He].
  - by apply start_wf, leader_start.
  - eapply exec_wf; [done| |done]. by eapply allowed_weaken.
Qed.
Lemma run_synced c n : net_run true c n -> synced n.
Proof.
  intros H. induction H as [|n ev n' H IH Ha He]; [apply start_synced|].
  eapply exec_synced; [by eapply run_wf|done..].
Qed.


(** ** Settling

    When the leader pauses and the network works, the loop brings the
    follower up to date. *)
Definition quiet (ev : event) : Prop := ev = Take \/ ev = Tick \/ ev = Post Answered.
Definition fits (n : net) : Prop :=
  slen (file_text (s_batch (n_sender n) ++ s_ch (n_sender n))) <= max_body /\
  forall data, enc_snap (snapshot_of (j_mem (n_leader n))) = Some data -> slen data <= max_body.
(** At its [select], between two operations. *)
Definition resting (n : net) : Prop := n_phase n = Waiting /\ n_todo n = [] /\ wf n /\ synced n /\ fits n.
Definition settled (n n' : net) : Prop :=
  n_leader n' = n_leader n /\ j_mem (n_follower n') = j_mem (n_leader n) /\ s_sync (n_sender n') = false /\
  s_batch (n_sender n') = [] /\ s_ch (n_sender n') = [].
Definition opens (c : config) : Prop := c_expected c = EmptyString \/ c_secret c = c_expected c.
(** A quiet sequence of events leads from [n] to a state of [Q]. *)
Definition leads (c : config) (n : net) (Q : net -> Prop) : Prop :=
  exists evs n', Forall quiet evs /\ exec_all c evs n = Some n' /\ Q n'.

Lemma leads_now c n (Q : net -> Prop) : Q n -> leads c n Q.
Proof. intros H. exists [], n. by repeat constructor. Qed.
Lemma leads_trans c n Q1 Q2 : leads c n Q1 -> (forall n', Q1 n' -> leads c n' Q2) -> leads c n Q2.
Proof.
  intros (evs & n1 & Hq & He & H1) H. destruct (H n1 H1) as (evs' & n2 & Hq' & He' & H2).
  exists (evs ++ evs'), n2. split_and!; [by apply Forall_app| |done].
  clear -He He'. revert n He. induction evs as [|ev evs IH]; intros n; cbn; [by intros [= ->]|].
  destruct (exec c ev n); cbn; [|done]. apply IH.
Qed.

Lemma file_text_length_app a b : slen (file_text (a ++ b)) = slen (file_text a) + slen (file_text b).
Proof. unfold slen. rewrite file_text_app, string_length_app. lia. Qed.

(** The request of a flush is answered: the sender is back at its [select]
    with no line more than before, and after a snapshot nothing is missing. *)
Lemma answer c n r :
  opens c -> n_phase n = Posting r false -> n_todo n = [] -> wf n -> synced n -> fits n -> slen (req_body r) <= max_body ->
  leads c n (fun n' => resting n' /\ n_leader n' = n_leader n /\
    match r with
    | PostSnapshot _ => s_sync (n_sender n') = false /\ s_batch (n_sender n') = s_ch (n_sender n) /\ s_ch (n_sender n') = []
    | PostAppend _ => s_ch (n_sender n') = s_ch (n_sender n) /\ (s_sync (n_sender n') = true \/ s_batch (n_sender n') = [])
    end).
Proof.
  intros Ho Hp Ht Hw Hy [Hf1 Hf2] Hr.
  assert (allowed true c (Post Answered) n) as Ha by (cbn; by rewrite Hp).
  destruct (exec c (Post Answered) n) as [n'|] eqn:He; [|cbn [exec] in He; rewrite Hp in He; by destruct (post c Answered r (n_follower n))].
  exists [Post Answered], n'. split; [repeat constructor; by right; right|].
  split; [cbn [exec_all]; by rewrite He|].
  pose proof (exec_wf c _ n n' Hw (allowed_weaken _ _ _ _ Ha) He) as Hw'.
  pose proof (exec_synced c _ n n' Hw Hy Ha He) as Hy'.
  cbn [exec] in He. rewrite Hp in He. destruct (post c Answered r (n_follower n)) as [ok f] eqn:Ef. injection He as E.
  unfold resting, fits. rewrite <- E in *. cbn in *.
  pose proof (w_phase _ Hw) as Hph. rewrite Hp in Hph. rewrite file_text_length_app in Hf1.
  assert (0 <= slen (file_text (s_batch (n_sender n)))) by (unfold slen; lia).
  destruct r as [data|body]; cbn in Hph.
  - destruct Hph as (_ & m & Hd & _).
    assert (ok = true) as ->.
    { unfold receive in Ef. replace (_ && _) with false in Ef.
      2:{ destruct Ho as [->| ->]; [done|]. by rewrite String.eqb_refl, andb_false_r. }
      unfold handle_snapshot, ResetFromSnapshot in Ef. rewrite limit_reader_whole, Hd in Ef by done. by injection Ef as <- _. }
    cbn. rewrite app_nil_r. split_and!; try done. lia.
  - destruct ok; cbn; rewrite ?file_text_length_app; split_and!; try done; try lia; first [by right|by left].
Qed.

(** A flush that begins now. *)
Lemma flush_leads c s n :
  let n1 := with_sender s (flush_begin false (n_leader n) s) n in
  opens c -> n_todo n = [] -> wf n1 -> synced n1 -> fits n1 ->
  leads c n1 (fun n' => resting n' /\ n_leader n' = n_leader n /\
    if s_sync s then s_sync (n_sender n') = false /\ s_batch (n_sender n') = s_ch s /\ s_ch (n_sender n') = []
    else s_ch (n_sender n') = s_ch s /\ (s_sync (n_sender n') = true \/ s_batch (n_sender n') = [])).
Proof.
  intros n1 Ho Ht Hw Hy Hf. assert (phase_ok s (flush_begin false (n_leader n) s)) as Hph by exact (proj1 (flush_begin_ok false _ _ s (w_leader _ Hw))).
  assert (forall r, flush_begin false (n_leader n) s = Posting r false -> slen (req_body r) <= max_body) as Hr.
  { intros r E. destruct Hf as [Hf1 Hf2]. unfold flush_begin, StateSnapshot in E. cbn in Hf1, Hf2.
    rewrite file_text_length_app in Hf1. destruct (s_sync s).
    - destruct (enc_snap _) as [data|] eqn:Ed; [|done]. injection E as <-. by apply Hf2.
    - destruct (s_batch s) eqn:Eb; [done|]. assert (r = PostAppend (file_text (s_batch s))) as -> by (injection E as <-; by rewrite Eb).
      rewrite <- Eb in Hf1. unfold req_body, slen in *. lia. }
  assert (forall r b, flush_begin false (n_leader n) s = Posting r b -> b = false) as Hb.
  { intros r b. unfold flush_begin, StateSnapshot, after_flush. repeat case_match; congruence. }
  destruct (flush_begin false (n_leader n) s) as [|r b|] eqn:E.
  - apply leads_now. split; [done|]. split; [done|]. unfold flush_begin, StateSnapshot in E. cbn.
    destruct (s_sync s); [|by destruct (s_batch s); [auto|]].
    destruct (snap_safe _ (l_safe _ _ (w_leader _ Hw))) as (data & Hd & _). cbn in Hd. by rewrite Hd in E.
  - pose proof (Hb r b eq_refl) as ->. assert (n_phase n1 = Posting r false) as Hp by done.
    eapply leads_trans; [apply (answer c n1 r); [done..|by apply Hr]|].
    intros n' (H1 & H2 & H3). apply leads_now. split_and!; [done..|]. destruct r; cbn in Hph; destruct Hph as [-> _]; exact H3.
  - exfalso. unfold flush_begin, StateSnapshot, after_flush in E. repeat case_match; discriminate.
Qed.

Lemma leads_step c ev n n' Q : quiet ev -> exec c ev n = Some n' -> leads c n' Q -> leads c n Q.
Proof.
  intros Hq He H. apply (leads_trans c n (fun n1 => n1 = n')); [|by intros ? ->].
  exists [ev], n'. split_and!; [by constructor|cbn [exec_all]; by rewrite He|done].
Qed.

(** The loop takes the lines of the buffer one by one, and flushes when the
    batch is full. *)
Lemma empty_buffer c k : forall n, opens c -> resting n -> (length (s_ch (n_sender n)) <= k)%nat ->
  leads c n (fun n' => resting n' /\ n_leader n' = n_leader n /\ s_ch (n_sender n') = []).
Proof.
  induction k as [|k IH]; intros n Ho Hr Hk.
  - apply leads_now. destruct (s_ch (n_sender n)) eqn:E; [done|cbn in Hk; lia].
  - pose proof Hr as (Hp & Ht & Hw & Hy & Hf).
    destruct (s_ch (n_sender n)) as [|l ch] eqn:Ec; [by apply leads_now|].
    destruct (exec c Take n) as [n1|] eqn:He; [|cbn [exec] in He; by rewrite Hp in He; unfold take_line in He; rewrite Ec in He].
    eapply leads_step; [by left|exact He|].
    pose proof (exec_wf c Take n n1 Hw I He) as Hw1. pose proof (exec_synced c Take n n1 Hw Hy I He) as Hy1.
    cbn [exec] in He. rewrite Hp in He. unfold take_line in He. rewrite Ec in He. cbn [mbind option_bind] in He.
    injection He as <-. set (s := {| s_ch := ch; s_overrun := _; s_sync := _; s_batch := _ |}) in *.
    assert (forall p, fits (with_sender s p n)) as Hf1.
    { intros p. destruct Hf as [Hf1 Hf2]. split; [|exact Hf2]. cbn. rewrite Ec in Hf1. by rewrite <- (assoc_L (++)). }
    destruct (batch_full c s); cbn in Hk.
    + eapply leads_trans; [by apply flush_leads; auto|]. intros n' (Hr' & Hl' & Hs').
      eapply leads_trans; [apply (IH n'); [done..|]|].
      * destruct (s_sync s); destruct Hs' as [Ha Hb]; [destruct Hb as [_ ->]; cbn; lia|rewrite Ha; cbn; lia].
      * intros n2 (? & Hl2 & ?). apply leads_now. split_and!; [done| |done]. by rewrite Hl2.
    + apply (IH (with_sender s Waiting n)); [done| |cbn; lia]. by split_and!.
Qed.

Lemma tick_leads c n : opens c -> resting n -> s_ch (n_sender n) = [] ->
  leads c n (fun n' => resting n' /\ n_leader n' = n_leader n /\ s_ch (n_sender n') = [] /\
    if s_sync (n_sender n) then s_sync (n_sender n') = false /\ s_batch (n_sender n') = []
    else s_sync (n_sender n') = true \/ s_batch (n_sender n') = []).
Proof.
  intros Ho (Hp & Ht & Hw & Hy & Hf) Hc.
  assert (exec c Tick n = Some (with_sender (n_sender n) (flush_begin false (n_leader n) (n_sender n)) n)) as He
    by (cbn [exec]; by rewrite Hp).
  eapply leads_step; [by right; left|exact He|].
  eapply leads_trans; [apply flush_leads; [done|done|exact (exec_wf c Tick _ _ Hw I He)|exact (exec_synced c Tick _ _ Hw Hy I He)|exact Hf]|].
  intros n' (Hr & Hl & Hs). apply leads_now. rewrite Hc in Hs. split_and!; [done..| |].
  - destruct (s_sync (n_sender n)); tauto.
  - destruct (s_sync (n_sender n)); tauto.
Qed.

Lemma settle_empty c n : opens c -> resting n -> s_ch (n_sender n) = [] -> leads c n (settled n).
Proof.
  assert (forall n, resting n -> s_ch (n_sender n) = [] -> s_sync (n_sender n) = false -> s_batch (n_sender n) = [] -> settled n n) as Hdone.
  { intros n0 (_ & Ht & _ & Hy & _) Hc Hs Hb. pose proof (y_follow _ Hy Hs) as Hf.
    unfold backlog, queue in Hf. rewrite Hb, Hc, Ht in Hf. by split_and!. }
  assert (forall n, opens c -> resting n -> s_ch (n_sender n) = [] -> s_sync (n_sender n) = true -> leads c n (settled n)) as Hsync.
  { intros n0 Ho Hr Hc Hs. eapply leads_trans; [by apply (tick_leads c n0)|]. rewrite Hs.
    intros n' (Hr' & Hl & Hc' & Hs' & Hb'). apply leads_now.
    destruct (Hdone n' Hr' Hc' Hs' Hb') as (? & ? & ? & ? & ?). rewrite Hl in *. by split_and!. }
  intros Ho Hr Hc. destruct (s_sync (n_sender n)) eqn:Es; [by apply Hsync|].
  eapply leads_trans; [by apply (tick_leads c n)|]. rewrite Es. intros n' (Hr' & Hl & Hc' & Hor).
  destruct (s_sync (n_sender n')) eqn:Es'.
  - eapply leads_trans; [by apply (Hsync n')|]. intros n2 (? & ? & ? & ? & ?). apply leads_now. rewrite Hl in *. by split_and!.
  - destruct Hor as [|Hb]; [done|]. apply leads_now.
    destruct (Hdone n' Hr' Hc' Es' Hb) as (? & ? & ? & ? & ?). rewrite Hl in *. by split_and!.
Qed.

(** C24: the follower catches up.  From any state that a run without an
    overflow reaches, however many requests failed before, the loop at its
    [select] has a sequence of events, all of them its own with requests that
    are answered, after which the follower's state is the leader's and
    nothing is left to send. *)
Theorem follower_catches_up c n :
  net_run true c n -> n_phase n = Waiting -> n_todo n = [] -> opens c -> fits n -> leads c n (settled n).
Proof.
  intros H Hp Ht Ho Hf.
  assert (resting n) as Hr by (split_and!; [done|done|by eapply run_wf|by eapply run_synced|done]).
  eapply leads_trans; [by apply (empty_buffer c (length (s_ch (n_sender n))) n Ho Hr)|].
  intros n' (Hr' & Hl & Hc). eapply leads_trans; [by apply settle_empty|].
  intros n2 (? & ? & ? & ? & ?). apply leads_now. rewrite Hl in *. by split_and!.
Qed.
End runs.

(** ** The follower's files

    What JSON writes for a snapshot it reads back as that snapshot. *)
Section promotion.
Context `{MO : MapOrder} {C : Codec} {L : CodecLaws}.
Hypothesis snap_sound : forall s data, enc_snap s = Some data -> dec_snap data = Some s.

Lemma apply_replicated_inv l f r f' :
  line_ok l -> journal_inv f -> ApplyReplicated l f = (r, f') -> journal_inv f'.
Proof.
  intros (e & Hs & Hn) Hf. pose proof Hf as [Hm (base & es & ls & [H1 H2 H3 H4 H5])].
  unfold ApplyReplicated. rewrite (proj1 (proj2 Hs)).
  pose proof (replicate_entry_ok _ e Hm Hn) as Hm'. unfold replicate_entry in Hm'.
  destruct (skipped e (j_mem f)); [by intros [= _ <-]|]. cbn.
  set (f1 := {| j_mem := _; j_n := _; j_compact_every := _; j_file := _; j_snap := _ |}).
  assert (journal_inv f1) as Hf1.
  { split; [done|]. exists base, (es ++ [e]), (ls ++ [l]). split; cbn; try done.
    - apply Forall2_app; [done|constructor; [done|constructor]].
    - by rewrite file_text_app, H3.
    - by rewrite replay_app, H4.
    - rewrite length_app. cbn. lia. }
  destruct (_ <=? _); [|by intros [= _ <-]]. unfold compact. destruct (enc_snap _) as [data|] eqn:Ed; [|by intros [= _ <-]].
  intros [= _ <-]. split; [done|]. eexists _, [], []. split; cbn; try done.
  eexists. split; [by apply snap_sound|]. by apply load_snapshot_of.
Qed.

Lemma apply_lines_inv ls broken : forall f st f',
  Forall (fun l => line_ok l \/ dec_line (drop_cr l) = DBad) ls -> journal_inv f ->
  apply_lines ls broken f = (st, f') -> journal_inv f'.
Proof.
  induction ls as [|l ls IH]; intros f st f' Hls Hf; cbn [apply_lines]; [by intros [= _ <-]|].
  apply Forall_cons in Hls as [Hl Hls]. destruct (max_body_line <=? slen l); [by intros [= _ <-]|].
  destruct (String.eqb (drop_cr l) EmptyString); [by apply IH|].
  destruct (ApplyReplicated (drop_cr l) f) as [r f1] eqn:E.
  assert (journal_inv f1) as Hf1.
  { destruct Hl as [Hl|Hl].
    - rewrite drop_cr_printable in E by by apply line_printable. by eapply apply_replicated_inv.
    - unfold ApplyReplicated in E. rewrite Hl in E. by injection E as _ <-. }
  destruct r; try (by intros [= _ <-]). by apply IH.
Qed.

(** The lines of a part of a body: whole ones and, at its end, one that is
    not JSON. *)
Lemma cut_lines n ls : Forall line_ok ls ->
  Forall (fun l => line_ok l \/ dec_line (drop_cr l) = DBad) (lines_from EmptyString (stake n (file_text ls))).
Proof.
  intros Hls. destruct (cut_file ls n) as (k & t & -> & Hk & Ht).
  assert (Forall line_ok (take k ls)) as Htk by by apply Forall_take.
  rewrite lines_from_text by (eapply Forall_impl; [exact Htk|exact line_printable]).
  apply Forall_app. split; [eapply Forall_impl; [exact Htk|by left]|].
  destruct (ls !! k) as [l|] eqn:El; [|subst; constructor]. destruct Ht as [u Hu].
  assert (line_ok l) as Hl by exact (Forall_lookup_1 _ _ _ _ Hls El).
  pose proof (line_printable _ Hl) as Hp. rewrite Hu, printable_app in Hp. apply andb_true_iff in Hp as [Hpt _].
  rewrite lines_from_last by done. cbn [String.append]. destruct (String.eqb_spec t EmptyString) as [->|Hne]; constructor; [|constructor].
  destruct (decide (u = EmptyString)) as [->|Hu']; [left; by rewrite Hu, string_app_nil_r in Hl|right].
  rewrite drop_cr_printable by done. destruct Hl as (e & (He & _) & _). by eapply enc_prefix.
Qed.

Lemma stake_stake a b s : stake a (stake b s) = stake (Nat.min a b) s.
Proof. revert a b. induction s as [|c s IH]; intros [|a] [|b]; cbn; try done. by rewrite IH. Qed.
Lemma stake_all s : stake (String.length s) s = s.
Proof. induction s as [|c s IH]; cbn; [done|by rewrite IH]. Qed.

(** Whatever part of a request arrives. *)
Lemma receive_inv secret got s p r final n broken f :
  phase_ok s p -> p = Posting r final -> Forall line_ok (s_batch s) -> slen (req_body r) <= max_body -> journal_inv f ->
  (broken = true \/ String.length (req_body r) <= n)%nat ->
  journal_inv (receive secret got (cut_request n r) broken f).2.
Proof.
  intros Hp -> Hb Hfit Hf Hn. unfold receive. destruct (_ && _); [done|]. destruct r as [data|body]; cbn in *.
  - destruct Hp as (_ & m & Hd & Hm). unfold handle_snapshot.
    assert (snd (limit_reader (stake n data) broken) = true \/ fst (limit_reader (stake n data) broken) = data) as H.
    { unfold limit_reader. pose proof (stake_length n data) as Hlen. unfold slen in *.
      destruct (Z.leb_spec max_body (Z.of_nat (String.length (stake n data)))); cbn.
      - right. rewrite stake_stake. replace (Nat.min _ n) with (String.length data) by lia. apply stake_all.
      - destruct Hn as [->|Hn]; [by left|right]. rewrite <- (stake_all data) at 2.
        rewrite <- (stake_all (stake n data)), stake_stake. f_equal. lia. }
    destruct (limit_reader (stake n data) broken) as [d b]. cbn in H. destruct b; [done|]. destruct H as [| ->]; [done|].
    unfold ResetFromSnapshot. rewrite Hd. cbn. rewrite load_snapshot_of by done. split; [done|].
    exists m, [], []. split; cbn; try done. exists (snapshot_of m). split; [done|by apply load_snapshot_of].
  - destruct Hp as [_ ->]. unfold handle_append.
    assert (exists k b, limit_reader (stake n (file_text (s_batch s))) broken = (stake k (file_text (s_batch s)), b)) as (k & b & ->).
    { unfold limit_reader. case_match; [rewrite stake_stake|]; eauto. }
    destruct (apply_lines _ b f) as [st f'] eqn:E. eapply apply_lines_inv; [|exact Hf|exact E]. by apply cut_lines.
Qed.

Lemma exec_follower roomy c ev n n' :
  wf n -> allowed roomy c ev n -> journal_inv (n_follower n) -> exec c ev n = Some n' -> journal_inv (n_follower n').
Proof.
  intros Hw Ha Hf He. destruct ev; cbn [exec allowed] in He, Ha.
  - destruct (n_todo n); [|done]. by injection He as <-.
  - unfold log_entry in He. destruct (n_todo n); [done|]. destruct (append _ _). by injection He as <-.
  - destruct (n_phase n); try done. destruct (take_line _); [|done]. by injection He as <-.
  - destruct (n_phase n); try done. destruct (take_overrun _); [|done]. by injection He as <-.
  - destruct (n_phase n); try done. by injection He as <-.
  - destruct (n_phase n); try done. by injection He as <-.
  - destruct (n_phase n) as [|r final|] eqn:Ep; try done.
    pose proof (fun k b => receive_inv (c_expected c) (c_secret c) _ _ r final k b _ (w_phase _ Hw) Ep (w_batch _ Hw) Ha Hf) as H.
    assert (cut_request (String.length (req_body r)) r = r) as Hr by (destruct r; cbn; by rewrite stake_all).
    destruct (post c d r (n_follower n)) as [ok f] eqn:Ef. injection He as <-. cbn.
    destruct d; cbn in Ef; try (injection Ef as _ <-).
    + done.
    + apply H. by left.
    + rewrite <- Hr. apply H. by right.
    + specialize (H (String.length (req_body r)) false (or_intror (le_n _))). rewrite Hr in H.
      destruct (receive _ _ _ _ _). by injection Ef as _ <-.
  - destruct (n_todo n); [|done]. destruct (open_journal _ _ _); try done. by injection He as <-.
Qed.

(** Promotion.  At any time of any run, an overflow or not, in the middle
    of a batch and after requests that arrived in part, the files of the
    follower open, to the state that it has in memory. *)
Theorem follower_promotes roomy c n every :
  net_run roomy c n ->
  exists j, open_journal every (j_snap (n_follower n)) (j_file (n_follower n)) = Ok j /\ j_mem j = j_mem (n_follower n).
Proof.
  intros H. assert (journal_inv (n_follower n)) as Hf.
  { induction H as [leader follower _ _ Hf|n ev n' H IH Ha He]; [exact Hf|].
    eapply exec_follower; [by eapply run_wf|done..]. }
  unfold open_journal. rewrite journal_inv_load by done. cbn. by eexists.
Qed.
End promotion.

(** ** Instances

    A codec for a store that holds one job or none. *)
Definition job_snapshot (jobs : list Job) : snapshot :=
  {| sn_definitions := []; sn_instances := []; sn_tasks := []; sn_jobs := jobs; sn_externals := [];
     sn_agent_jobs := []; sn_subs := []; sn_incidents := []; sn_blobs := []; sn_history := ∅ |}.
Definition job_codec : Codec := {|
  enc_entry := @enc_entry two_entries;
  dec_line := @dec_line two_entries;
  enc_snap s := match s with
                | Build_snapshot [] [] [] jobs [] [] [] [] [] h =>
                    if decide (h = ∅) then
                      match jobs with
                      | [] => Some "S0"
                      | [j] => if decide (j = job1) then Some "S1" else None
                      | _ => None
                      end
                    else None
                | _ => None
                end;
  dec_snap s := if String.eqb s "S0" then Some (job_snapshot [])
                else if String.eqb s "S1" then Some (job_snapshot [job1]) else None;
|}.
#[export] Program Instance job_codec_laws : @CodecLaws job_codec := {|
  safe := @safe two_entries _;
  safe_snap s := s = job_snapshot [] \/ s = job_snapshot [job1];
  enc_safe := @enc_safe two_entries _;
  enc_printable := @enc_printable two_entries _;
  enc_prefix := @enc_prefix two_entries _;
  enc_glued := @enc_glued two_entries _;
|}.
Next Obligation. intros s [->| ->]; eexists; split; vm_compute; reflexivity. Qed.
Lemma job_codec_sound s data : @enc_snap job_codec s = Some data -> @dec_snap job_codec data = Some s.
Proof.
  intros H. cbn [enc_snap job_codec] in H. repeat (case_match; try discriminate); injection H as <-; subst; reflexivity.
Qed.

#[local] Arguments values : simpl never.
Abbreviation job_exec := (@exec key_order job_codec).
Abbreviation job_run := (@net_run key_order job_codec job_codec_laws).
Definition after_event (c : config) (n : net) (ev : event) : net := default n (job_exec c ev n).
Definition job_net : net := start journal0 journal0.

Lemma job_start roomy c : job_run roomy c job_net.
Proof.
  assert (@journal_inv job_codec journal0) as H.
  { split; [apply new_memory_ok|]. exists new_memory, [], []. by split. }
  apply net_start; [done|by left|done].
Qed.
Lemma job_step roomy c n ev :
  @allowed key_order job_codec job_codec_laws roomy c ev n -> is_Some (job_exec c ev n) -> job_run roomy c n ->
  job_run roomy c (after_event c n ev).
Proof. intros Ha [n' He] H. unfold after_event. rewrite He. by eapply net_step. Qed.

Lemma job1_entry e : e = EJob job1 \/ e = EDelJob "j1" -> @entry_storable job_codec job_codec_laws e.
Proof. intros He. split; [exact He|]. destruct He as [->| ->]; intros l [= <-]; by vm_compute. Qed.
Lemma put_allowed roomy c n :
  m_jobs (j_mem (n_leader n)) = ∅ -> @snapshot_of key_order (j_mem (n_leader n)) = job_snapshot [] ->
  @allowed key_order job_codec job_codec_laws roomy c (Op (OPutJob job1)) n.
Proof.
  intros Hj Hs. split; [exact I|]. split; [constructor; [apply job1_entry; by left|constructor]|]. right.
  unfold snapshot_of, job_snapshot in *. cbn. injection Hs as -> -> -> _ -> -> -> -> -> ->. by rewrite Hj.
Qed.
Lemma delete_allowed roomy c n :
  m_jobs (j_mem (n_leader n)) = {["j1" := job1]} -> @snapshot_of key_order (j_mem (n_leader n)) = job_snapshot [job1] ->
  @allowed key_order job_codec job_codec_laws roomy c (Op (ODeleteJob "j1")) n.
Proof.
  intros Hj Hs. split; [exact I|]. split; [constructor; [apply job1_entry; by right|constructor]|]. left.
  unfold snapshot_of, job_snapshot in *. cbn. injection Hs as -> -> -> _ -> -> -> -> -> ->. by rewrite Hj.
Qed.
Ltac job_allowed :=
  lazymatch goal with
  | |- allowed _ _ (Op (OPutJob _)) _ => apply put_allowed; vm_compute; reflexivity
  | |- allowed _ _ (Op _) _ => apply delete_allowed; vm_compute; reflexivity
  | |- allowed true _ Log _ => intros _; vm_compute; reflexivity
  | |- allowed false _ Log _ => let H := fresh in intros H; discriminate H
  | |- allowed _ _ (Post _) _ => vm_compute; discriminate
  | |- allowed _ _ _ _ => exact I
  end.
Ltac job_steps :=
  repeat (first [ apply job_start | apply job_step; [ job_allowed | vm_compute; eexists; reflexivity | ] ]).

(** The first request is lost; the job is created while the second is under
    way, and reaches the follower as a line. *)
Definition job_config : config := sender_options 0 0 "s3cret" "s3cret".
Definition job_events : list event :=
  [Tick; Post Lost; Tick; Op (OPutJob job1); Log; Post Answered; Tick; Post Answered].
Definition job_copied : net := fold_left (after_event job_config) job_events job_net.


(** The rest of a run: a job deleted and not sent yet. *)
Definition job_pending : net := fold_left (after_event job_config) [Op (ODeleteJob "j1"); Log] job_copied.
Lemma job_pending_run : job_run true job_config job_pending.
Proof. unfold job_pending, job_copied, job_events. cbn [fold_left]. job_steps. Qed.

Lemma follower_catches_up_witness :
  m_jobs (j_mem (n_follower job_pending)) !! "j1" = Some job1 /\ m_jobs (j_mem (n_leader job_pending)) !! "j1" = None /\
  @leads key_order job_codec job_config job_pending (settled job_pending).
Proof.
  split; [vm_compute; reflexivity|]. split; [vm_compute; reflexivity|].
  apply (follower_catches_up job_config job_pending job_pending_run); [reflexivity|reflexivity|right; reflexivity|].
  split; [vm_compute; discriminate|]. intros data H. vm_compute in H. injection H as <-. vm_compute. discriminate.
Defined.

Lemma follower_promotes_witness :
  exists j, @open_journal job_codec 20000 (j_snap (n_follower job_pending)) (j_file (n_follower job_pending)) = Ok j /\
    m_jobs (j_mem j) !! "j1" = Some job1.
Proof.
  destruct (follower_promotes job_codec_sound true job_config job_pending 20000 job_pending_run) as (j & H1 & H2).
  exists j. split; [exact H1|]. rewrite H2. vm_compute. reflexivity.
Defined.

(** A buffer of one line: the job's line waits in it when that of its deletion
    is dropped.  The resync ships a snapshot without the job, and then the old
    line. *)
Definition small_config : config := sender_options 0 1 "s3cret" "s3cret".
Definition overflow_events : list event :=
  [Tick; Post Answered; Op (OPutJob job1); Log; Op (ODeleteJob "j1"); Log; Overrun;
   Tick; Post Answered; Tick; Post Answered].
Definition job_diverged : net := fold_left (after_event small_config) overflow_events job_net.

(** An overflow is not repaired by its resync.  A run whose requests are
    all answered, with a full buffer once, ends with nothing left to send, no
    resync pending and a job in the follower that the leader has deleted; and
    no later flush sends anything. *)
Theorem overflow_diverges :
  exists n, job_run false small_config n /\ n_phase n = Waiting /\ n_todo n = [] /\
    n_sender n = {| s_ch := []; s_overrun := false; s_sync := false; s_batch := [] |} /\
    m_jobs (j_mem (n_leader n)) !! "j1" = None /\ m_jobs (j_mem (n_follower n)) !! "j1" = Some job1 /\
    job_exec small_config Tick n = Some n.
Proof.
  exists job_diverged. split; [unfold job_diverged, overflow_events; cbn [fold_left]; job_steps|].
  by vm_compute.
Qed.
