(* ===== verification/RestAuth.v ===== *)
(** * Who calls the REST interface ([src/rest/auth.go], [oidc.go], [cors.go])

    Roles and principals, the authenticators and their chain, the tokens the
    server signs, tokens of an identity provider with the cache of its keys,
    and the headers for browsers of other origins.  Hashes, signatures and JSON
    are the parameter [AuthCodec]. *)
From Stdlib Require Import Ascii.
From S2P Require Import Prelude GoFloat GoUtf8 GoTime GoBase64 ExprValue.
Local Open Scope go_scope.
Local Open Scope string_scope.
Local Open Scope Z_scope.

(** ** Requests *)

(** What the server reads of an [http.Request]; header names are canonical. *)
Record Request := {
  hr_method : string;
  hr_path : string;
  hr_headers : gmap string string;
  hr_query : list (string * string);
  hr_body : string;
}.
Definition header (k : string) (r : Request) : string := default "" (hr_headers r !! k).
Definition set_header (k v : string) (r : Request) : Request :=
  {| hr_method := hr_method r; hr_path := hr_path r; hr_headers := <[k := v]> (hr_headers r);
     hr_query := hr_query r; hr_body := hr_body r |}.

(** [strings.Cut], and [strings.Split] at one byte. *)
Definition cut (s sep : string) : option (string * string) :=
  i ← sindex s sep; Some (stake i s, sdrop (i + String.length sep) s).
Fixpoint split_at (c : ascii) (acc s : string) : list string :=
  match s with
  | EmptyString => [acc]
  | String d r => if Ascii.eqb d c then acc :: split_at c "" r else split_at c (acc ++ String d "") r
  end.

(** ** Roles *)
Definition RoleViewer := "viewer".
Definition RoleOperator := "operator".
Definition RoleAdmin := "admin".
Definition roleRank : list (string * Z) := [(RoleViewer, 1); (RoleOperator, 2); (RoleAdmin, 3)].
Definition known_role (r : string) : bool := existsb (fun x => String.eqb x.1 r) roleRank.
(** A map lookup: a role that is not there has rank zero. *)
Definition rank (r : string) : Z :=
  match find (fun x => String.eqb x.1 r) roleRank with Some x => x.2 | None => 0 end.

Record Principal := {
  pr_subject : string; pr_tenant : string; pr_roles : list string; pr_expires : Z; pr_scopes : list string;
}.
Definition has (p : Principal) (min : string) : bool := existsb (fun r => rank min <=? rank r) (pr_roles p).
Definition with_expires (e : Z) (p : Principal) : Principal :=
  {| pr_subject := pr_subject p; pr_tenant := pr_tenant p; pr_roles := pr_roles p; pr_expires := e; pr_scopes := pr_scopes p |}.

(** ** What the standard library computes *)

Inductive hash := SHA256 | SHA384 | SHA512.
Inductive curve := P256 | P384 | P521.
Inductive pubkey := RSAKey (n e : Z) | ECKey (c : curve) (x y : Z).
(** A key of a JWKS document, the header of a token. *)
Record jwk := {
  jk_kty : string; jk_kid : string; jk_use : string; jk_n : string; jk_e : string;
  jk_crv : string; jk_x : string; jk_y : string;
}.
Record jwt_head := { jh_alg : string; jh_kid : string }.

Class AuthCodec := {
  hmac : string -> string -> string;
  digest : hash -> string -> string;
  rsa_verify : Z -> Z -> hash -> string -> string -> bool;
  ecdsa_verify : curve -> Z -> Z -> string -> Z -> Z -> bool;
  enc_principal : Principal -> option string;
  dec_principal : string -> option Principal;
  dec_head : string -> option jwt_head;
  dec_claims : string -> option vars;
  dec_jwks : string -> string + list jwk;
}.

Section auth.
Context {U : Unicode} {A : AuthCodec}.

Definition bearer (r : Request) : string :=
  let h := header "Authorization" r in
  if String.eqb h "" then ""
  else if has_prefix (str_lower h) "bearer " then trim_space (sdrop 7 h) else "".

(** ** Signed tokens *)
Definition sign (key payload : string) : string := b64_encode (hmac key payload).

(** [MintToken]; [now] is the clock when it is read. *)
Definition MintToken (key : string) (p : Principal) (ttl now : Z) : res string string :=
  let p := if ttl =? 0 then p else with_expires (unix_seconds (time_add now ttl)) p in
  match enc_principal p with
  | None => Err "json: error"
  | Some body => let payload := b64_encode body in Ok (payload ++ "." ++ sign key payload)
  end.

Definition ParseToken (key token : string) (now : Z) : res string Principal :=
  match cut token "." with
  | None => Err "malformed token"
  | Some (payload, sig) =>
      if negb (String.eqb sig (sign key payload)) then Err "bad token signature"
      else match b64_decode payload with
           | None => Err "malformed token payload"
           | Some body =>
               match dec_principal body with
               | None => Err "malformed token payload"
               | Some p =>
                   if negb (pr_expires p =? 0) && (pr_expires p <? unix_seconds now) then Err "token expired" else Ok p
               end
           end
  end.

(** ** Tokens of an identity provider *)
Record OIDCConfig := {
  oc_issuer : string; oc_audience : string; oc_jwks_url : string; oc_jwks : string;
  oc_roles_claim : string; oc_role_map : gmap string string; oc_default_role : string;
  oc_tenant_claim : string; oc_ttl : Z;
}.
Record oidc := { o_cfg : OIDCConfig; o_keys : gmap string pubkey; o_fetched : Z }.

(** [big.Int.SetBytes]. *)
Definition big_of (s : string) : Z := fold_left (fun n c => n * 256 + byte_val c) (string_to_list s) 0.
(** One key of a document; a key that cannot be used is skipped. *)
Definition jwk_key (k : jwk) : option pubkey :=
  if negb (String.eqb (jk_use k) "") && negb (String.eqb (jk_use k) "sig") then None
  else if String.eqb (jk_kty k) "RSA" then
    n ← b64_decode (jk_n k); e ← b64_decode (jk_e k);
    if String.eqb n "" || String.eqb e "" then None else Some (RSAKey (big_of n) (wrap64 (big_of e)))
  else if String.eqb (jk_kty k) "EC" then
    x ← b64_decode (jk_x k); y ← b64_decode (jk_y k);
    c ← (if String.eqb (jk_crv k) "P-256" then Some P256
         else if String.eqb (jk_crv k) "P-384" then Some P384
         else if String.eqb (jk_crv k) "P-521" then Some P521 else None);
    Some (ECKey c (big_of x) (big_of y))
  else None.
Definition add_keys (ks : list jwk) (keys : gmap string pubkey) : gmap string pubkey :=
  fold_left (fun keys k => match jwk_key k with Some p => <[jk_kid k := p]> keys | None => keys end) ks keys.
Definition add_jwks (doc : string) (keys : gmap string pubkey) : res string unit * gmap string pubkey :=
  match dec_jwks doc with
  | inl msg => (Err ("malformed JWKS: " ++ msg), keys)
  | inr ks =>
      if existsb (fun k => bool_decide (is_Some (jwk_key k))) ks then (Ok tt, add_keys ks keys)
      else (Err "JWKS contains no usable signing keys", add_keys ks keys)
  end.

(** [OIDCAuth]: the defaults, and the static document. *)
Definition OIDCAuth (cfg : OIDCConfig) : res string oidc :=
  if String.eqb (oc_jwks_url cfg) "" && String.eqb (oc_jwks cfg) "" then Err "rest: OIDC needs JWKSURL or a static JWKS"
  else
    let cfg := {| oc_issuer := oc_issuer cfg; oc_audience := oc_audience cfg; oc_jwks_url := oc_jwks_url cfg;
                  oc_jwks := oc_jwks cfg;
                  oc_roles_claim := if String.eqb (oc_roles_claim cfg) "" then "roles" else oc_roles_claim cfg;
                  oc_role_map := oc_role_map cfg; oc_default_role := oc_default_role cfg;
                  oc_tenant_claim := oc_tenant_claim cfg;
                  oc_ttl := if oc_ttl cfg <=? 0 then 5 * minute else oc_ttl cfg |} in
    let o keys := {| o_cfg := cfg; o_keys := keys; o_fetched := zero_time |} in
    if String.eqb (oc_jwks cfg) "" then Ok (o ∅)
    else match add_jwks (oc_jwks cfg) ∅ with
         | (Ok _, keys) => Ok (o keys)
         | (Err msg, _) => Err ("rest: static JWKS: " ++ msg)
         | (Panic w, _) => Panic w
         | (OutOfFuel, _) => OutOfFuel
         end.

(** The outside world during one call: what a fetch of the keys brings, and
    the clock where it is read (when the cache is looked up, before a refresh,
    after it, and for the claims). *)
Inductive fetched := FetchFailed (msg : string) | FetchStatus (code : Z) | FetchBroken (msg : string) | FetchDoc (doc : string).
Record moment := { at_cache : Z; at_refresh : Z; at_fetched : Z; at_claims : Z; at_fetch : fetched }.

(** [fetchLocked]. *)
Definition fetch_locked (o : oidc) (t : moment) : res string unit * oidc :=
  match at_fetch t with
  | FetchFailed msg => (Err ("jwks fetch: " ++ msg), o)
  | FetchStatus code => (Err ("jwks fetch: HTTP " ++ fmt_int code), o)
  | FetchBroken msg => (Err ("jwks read: " ++ msg), o)
  | FetchDoc doc =>
      match add_jwks doc (o_keys o) with
      | (Ok _, keys) => (Ok tt, {| o_cfg := o_cfg o; o_keys := keys; o_fetched := at_fetched t |})
      | (r, keys) => (r, {| o_cfg := o_cfg o; o_keys := keys; o_fetched := o_fetched o |})
      end
  end.

(** [oidc.key]. *)
Definition oidc_key (kid : string) (o : oidc) (t : moment) : res string pubkey * oidc :=
  let found (o : oidc) := match o_keys o !! kid with
                          | Some k => (Ok k, o)
                          | None => (Err ("no key for kid " ++ quote kid), o)
                          end in
  let refresh := match fetch_locked o t with
                 | (Ok _, o) => found o
                 | (Err msg, o) => match o_keys o !! kid with Some k => (Ok k, o) | None => (Err msg, o) end
                 | (Panic w, o) => (Panic w, o)
                 | (OutOfFuel, o) => (OutOfFuel, o)
                 end in
  match o_keys o !! kid with
  | Some k =>
      if time_sub (at_cache t) (o_fetched o) <? oc_ttl (o_cfg o) then (Ok k, o)
      else if negb (String.eqb (oc_jwks_url (o_cfg o)) "") && (oc_ttl (o_cfg o) <=? time_sub (at_refresh t) (o_fetched o))
      then refresh else found o
  | None => if negb (String.eqb (oc_jwks_url (o_cfg o)) "") then refresh else found o
  end.

(** [verifyJWT]. *)
Definition jwt_hash (alg : string) : option hash :=
  if String.eqb alg "RS256" || String.eqb alg "ES256" then Some SHA256
  else if String.eqb alg "RS384" || String.eqb alg "ES384" then Some SHA384
  else if String.eqb alg "RS512" || String.eqb alg "ES512" then Some SHA512 else None.
Definition verifyJWT (alg : string) (key : pubkey) (input sig : string) : res string unit :=
  match jwt_hash alg with
  | None => Err ("unsupported alg " ++ quote alg)
  | Some h =>
      let d := digest h input in
      if has_prefix alg "R" then
        match key with
        | RSAKey n e => if rsa_verify n e h d sig then Ok tt else Err "bad signature"
        | _ => Err "key/alg mismatch"
        end
      else
        match key with
        | ECKey c x y =>
            if negb (slen sig mod 2 =? 0) then Err "bad signature"
            else
              let half := Nat.div (String.length sig) 2 in
              if ecdsa_verify c x y d (big_of (stake half sig)) (big_of (sdrop half sig)) then Ok tt else Err "bad signature"
        | _ => Err "key/alg mismatch"
        end
  end.

(** Claims. *)
Definition claimPath (claims : vars) (path : string) : value :=
  match cut path "." with
  | None => vget claims path
  | Some (head, rest) => match vget claims head with VMap m => vget m rest | _ => VNil end
  end.
(** [strings.Fields]. *)
Fixpoint fields_of (acc : string) (l : list (Z * string)) : list string :=
  let out := if String.eqb acc "" then [] else [acc] in
  match l with
  | [] => out
  | x :: l => if is_space_rune x.1 then (out ++ fields_of "" l)%list else fields_of (acc ++ x.2) l
  end.
Definition fields (s : string) : list string := fields_of "" (runes s).
Definition claimStrings (v : value) : list string :=
  match v with
  | VList l => omap (fun e => match e with VStr s => Some s | _ => None end) l
  | VStr s => fields s
  | _ => []
  end.
Definition claimInt (v : value) : option Z := match v with VNum f => Some (f_to_int64 f) | _ => None end.
Definition claim_string (v : value) : string := match v with VStr s => s | _ => "" end.
Definition hasAudience (aud : value) (want : string) : bool :=
  match aud with
  | VStr s => String.eqb s want
  | VList l => existsb (fun e => match e with VStr s => String.eqb s want | _ => false end) l
  | _ => false
  end.

(** The roles of a token, as far as the program knows them. *)
Definition claim_roles (cfg : OIDCConfig) (claims : vars) : list string :=
  filter (fun r => known_role r = true)
    (map (fun raw => default raw (oc_role_map cfg !! raw)) (claimStrings (claimPath claims (oc_roles_claim cfg)))).

(** [oidc.principal]; [now] in seconds. *)
Definition oidc_principal (cfg : OIDCConfig) (claims : vars) (now : Z) : res string Principal :=
  let exp := claimInt (vget claims "exp") in
  let nbf := claimInt (vget claims "nbf") in
  if match exp with Some e => e <? now | None => false end then Err "oidc: token expired"
  else if match nbf with Some n => now <? n | None => false end then Err "oidc: token not yet valid"
  else if negb (String.eqb (oc_issuer cfg) "") && negb (String.eqb (claim_string (vget claims "iss")) (oc_issuer cfg))
  then Err "oidc: wrong issuer"
  else if negb (String.eqb (oc_audience cfg) "") && negb (hasAudience (vget claims "aud") (oc_audience cfg))
  then Err "oidc: wrong audience"
  else
    let roles := claim_roles cfg claims in
    if match roles with [] => String.eqb (oc_default_role cfg) "" | _ => false end then Err "oidc: token grants no role"
    else Ok {| pr_subject := claim_string (vget claims "sub");
               pr_tenant := if String.eqb (oc_tenant_claim cfg) "" then ""
                            else claim_string (claimPath claims (oc_tenant_claim cfg));
               pr_roles := match roles with [] => [oc_default_role cfg] | _ => roles end;
               pr_expires := default 0 exp; pr_scopes := [] |}.

Definition prefixed {T} (p : string) (r : res string T) : res string T :=
  match r with Err msg => Err (p ++ msg) | _ => r end.
Definition or_err {T} (msg : string) (o : option T) : res string T := match o with Some x => Ok x | None => Err msg end.

(** [oidc.Authenticate]; a text that is not a JWT is left to others. *)
Definition oidc_authenticate (r : Request) (o : oidc) (t : moment) : res string (option Principal) * oidc :=
  match split_at "." "" (bearer r) with
  | [h; c; s] =>
      match b64_decode h ≫= dec_head with
      | None => (Ok None, o)
      | Some head =>
          let '(k, o) := oidc_key (jh_kid head) o t in
          (let! key := prefixed "oidc: " k in
           let! sig := or_err "oidc: malformed signature" (b64_decode s) in
           let! _ := prefixed "oidc: " (verifyJWT (jh_alg head) key (h ++ "." ++ c) sig) in
           let! payload := or_err "oidc: malformed claims" (b64_decode c) in
           let! claims := or_err "oidc: malformed claims" (dec_claims payload) in
           let! p := oidc_principal (o_cfg o) claims (unix_seconds (at_claims t)) in
           Ok (Some p), o)
      end
  | _ => (Ok None, o)
  end.

(** ** Authenticators and their chain *)
Inductive authenticator :=
| AuthFunc (f : Request -> res string (option Principal))
| APIKey (key role : string)
| StaticToken (tokens : gmap string (option Principal))
| SignedToken (key : string)
| OIDC (o : oidc).
Definition APIKeyAuth (key role : string) : authenticator :=
  APIKey key (if String.eqb role "" then RoleAdmin else role).

Definition authenticate (a : authenticator) (r : Request) (t : moment) : res string (option Principal) * authenticator :=
  match a with
  | AuthFunc f => (f r, a)
  | APIKey key role =>
      let got := header "X-Api-Key" r in
      (if String.eqb got "" then Ok None
       else if negb (String.eqb got key) then Err "invalid API key"
       else Ok (Some {| pr_subject := "api-key"; pr_tenant := ""; pr_roles := [role]; pr_expires := 0; pr_scopes := [] |}), a)
  | StaticToken tokens =>
      let tok := bearer r in
      (if String.eqb tok "" then Ok None else Ok (mjoin (tokens !! tok)), a)
  | SignedToken key =>
      let tok := bearer r in
      (if String.eqb tok "" then Ok None else let! p := ParseToken key tok (at_claims t) in Ok (Some p), a)
  | OIDC o =>
      if String.eqb (bearer r) "" then (Ok None, a)
      else let '(res, o) := oidc_authenticate r o t in (res, OIDC o)
  end.

(** [ChainAuth]: the first principal or error; [ts] are the moments at which
    the authenticators are asked. *)
Fixpoint chain_auth (as_ : list authenticator) (r : Request) (ts : nat -> moment) : res string (option Principal) * list authenticator :=
  match as_ with
  | [] => (Ok None, [])
  | a :: rest =>
      match authenticate a r (ts 0%nat) with
      | (Ok None, a) => let '(p, rest) := chain_auth rest r (fun n => ts (S n)) in (p, a :: rest)
      | (res, a) => (res, a :: rest)
      end
  end.
End auth.

(** ** Browsers of other origins ([cors.go])

    [equal_fold] is [strings.EqualFold], which needs the case tables of
    Unicode. *)
Record CORSConfig := {
  co_origins : list string; co_methods : list string; co_headers : list string; co_expose : list string;
  co_credentials : bool; co_max_age : Z;
}.
Definition DefaultCORS : CORSConfig :=
  {| co_origins := ["*"]; co_methods := ["GET"; "POST"; "PUT"; "DELETE"; "OPTIONS"];
     co_headers := ["Content-Type"; "Authorization"; "X-Api-Key"; "X-Tenant-Id"]; co_expose := ["X-Trace-Id"];
     co_credentials := false; co_max_age := 600 |}.
Section cors.
Variable equal_fold : string -> string -> bool.

Fixpoint origin_for (credentials : bool) (origins : list string) (origin : string) : string :=
  match origins with
  | [] => ""
  | o :: rest =>
      if String.eqb o "*" then (if credentials then origin else "*")
      else if equal_fold o origin then origin else origin_for credentials rest origin
  end.
Definition originFor (c : CORSConfig) (origin : string) : string := origin_for (co_credentials c) (co_origins c) origin.

(** [apply]: the headers it sets, and whether the request was a preflight. *)
Definition apply_cors (c : CORSConfig) (r : Request) : list (string * string) * bool :=
  let origin := header "Origin" r in
  if String.eqb origin "" then ([], false)
  else
    let allow := originFor c origin in
    if String.eqb allow "" then ([], false)
    else
      let out := (("Access-Control-Allow-Origin", allow)
        :: (if String.eqb allow "*" then [] else [("Vary", "Origin")])
        ++ (if co_credentials c then [("Access-Control-Allow-Credentials", "true")] else [])
        ++ match co_expose c with [] => [] | l => [("Access-Control-Expose-Headers", sjoin ", " l)] end)%list in
      if String.eqb (hr_method r) "OPTIONS" && negb (String.eqb (header "Access-Control-Request-Method" r) "") then
        ((out ++ [("Access-Control-Allow-Methods", sjoin ", " (co_methods c));
                  ("Access-Control-Allow-Headers", sjoin ", " (co_headers c))]
              ++ (if 0 <? co_max_age c then [("Access-Control-Max-Age", fmt_int (co_max_age c))] else []))%list, true)
      else (out, false).

(** What a browser may conclude: the header names the caller's own origin,
    and then only one that the configuration admits, or it is the wildcard,
    and then never together with credentials. *)
Lemma origin_for_spec cred os origin : origin <> "" ->
  let a := origin_for cred os origin in
  (a = origin /\ exists o, o ∈ os /\ (o = "*" \/ equal_fold o origin = true)) \/
  (a = "*" /\ cred = false /\ "*" ∈ os) \/
  (a = "" /\ forall o, o ∈ os -> o <> "*" /\ equal_fold o origin = false).
Proof.
  intros Hne. induction os as [|o os IH]; cbn.
  - right; right. split; [done|]. intros o Ho. by apply elem_of_nil in Ho.
  - destruct (String.eqb_spec o "*") as [->|Ho].
    + destruct cred; [left; split; [done|]; exists "*"; split; [set_solver|by left]|right; left; split_and!; [done|done|set_solver]].
    + destruct (equal_fold o origin) eqn:E.
      * left. split; [done|]. exists o. split; [set_solver|by right].
      * destruct IH as [(-> & o' & ? & ?)|[(-> & ? & ?)|(-> & H)]].
        -- left. split; [done|]. exists o'. split; [set_solver|done].
        -- right; left. split_and!; [done|done|set_solver].
        -- right; right. split; [done|]. intros o' [->|Ho']%elem_of_cons; [done|by apply H].
Qed.
End cors.

(** ** Tokens that the server signs *)
Section theorems.
Context {U : Unicode} {A : AuthCodec}.

Lemma cut_dot a b : dotless a = true -> cut (a ++ "." ++ b) "." = Some (a, b).
Proof.
  intros H. unfold cut.
  assert (sindex (a ++ "." ++ b) "." = Some (String.length a)) as ->.
  { induction a as [|c a IH]; [done|]. unfold dotless in H. cbn [string_to_list forallb] in H.
    apply andb_true_iff in H as [Hc Ha]. apply negb_true_iff, Z.eqb_neq in Hc.
    assert (c <> "."%char) as Hne by (by intros ->). specialize (IH Ha). cbn [String.append sindex] in IH |- *.
    destruct (has_prefix _ _) eqn:E.
    - apply has_prefix_spec in E as [t Et]. cbn in Et. exfalso. congruence.
    - by rewrite IH. }
  cbn [mbind option_bind]. do 2 f_equal.
  - clear H. induction a as [|c a IH]; [done|]. cbn. f_equal. exact IH.
  - clear H. rewrite Nat.add_1_r. induction a as [|c a IH]; [done|]. cbn. exact IH.
Qed.

(** A token that is accepted carries the signature of its own payload. *)
Lemma parse_token_inv key tok now p : ParseToken key tok now = Ok p ->
  exists payload body, tok = payload ++ "." ++ sign key payload /\ b64_decode payload = Some body /\
    dec_principal body = Some p /\ (pr_expires p = 0 \/ unix_seconds now <= pr_expires p).
Proof.
  unfold ParseToken, cut. destruct (sindex tok ".") as [i|] eqn:E; [|done]. cbn.
  apply sindex_Some in E. destruct (String.eqb_spec (sdrop (i + 1) tok) (sign key (stake i tok))) as [Hs|]; [|done]. cbn.
  destruct (b64_decode _) as [body|] eqn:Eb; [|done]. destruct (dec_principal body) as [q|] eqn:Ep; [|done].
  destruct (negb _ && _) eqn:Ex; [done|]. intros [= ->]. exists (stake i tok), body.
  split_and!; [|done|done|].
  - rewrite <- Hs. exact E.
  - destruct (Z.eqb_spec (pr_expires p) 0); [by left|right]. cbn in Ex. by apply Z.ltb_ge.
Qed.


(** ** Tokens of an identity provider *)

(** The signature of a text under a key, with an algorithm of the key's kind. *)
Definition signed_by (alg : string) (key : pubkey) (input sig : string) : Prop :=
  exists h, jwt_hash alg = Some h /\
    match key with
    | RSAKey n e => has_prefix alg "R" = true /\ rsa_verify n e h (digest h input) sig = true
    | ECKey c x y => has_prefix alg "R" = false /\
        exists a b, sig = a ++ b /\ String.length a = String.length b /\
          ecdsa_verify c x y (digest h input) (big_of a) (big_of b) = true
    end.
Lemma verify_signed alg key input sig : verifyJWT alg key input sig = Ok tt -> signed_by alg key input sig.
Proof.
  unfold verifyJWT, signed_by. destruct (jwt_hash alg) as [h|]; [|done]. intros H. exists h. split; [done|].
  destruct (has_prefix alg "R"), key as [n e|c x y]; try done.
  - by destruct (rsa_verify _ _ _ _ _).
  - destruct (Z.eqb_spec (slen sig mod 2) 0) as [Hm|]; [|done]. cbn [negb] in H. split; [done|].
    set (half := Nat.div (String.length sig) 2) in *. exists (stake half sig), (sdrop half sig).
    split_and!; [symmetry; apply stake_sdrop| |by destruct (ecdsa_verify _ _ _ _ _ _)].
    pose proof (f_equal String.length (stake_sdrop half sig)) as Hl. rewrite string_app_length in Hl.
    assert (String.length (stake half sig) = half) as Hst.
    { assert (half <= String.length sig)%nat as Hle by (unfold half; pose proof (Nat.div_mod_eq (String.length sig) 2); lia).
      clear -Hle. revert Hle. generalize half as n. induction sig as [|a sig IH]; intros [|n] Hle; cbn in *; try done; [lia|].
      by rewrite IH by lia. }
    rewrite Hst in *. unfold slen in Hm. assert (String.length sig = 2 * half)%nat; [|lia].
    unfold half. pose proof (Nat.div_mod_eq (String.length sig) 2).
    change 2 with (Z.of_nat 2) in Hm. rewrite <- Nat2Z.inj_mod in Hm. lia.
Qed.

Lemma add_keys_other ks keys kid :
  Forall (fun k => jk_kid k = kid -> jwk_key k = None) ks -> add_keys ks keys !! kid = keys !! kid.
Proof.
  intros H. revert keys. unfold add_keys. induction H as [|k ks Hk _ IH]; intros keys; cbn; [done|].
  rewrite IH. destruct (jwk_key k) eqn:E; [|done]. rewrite lookup_insert_ne; [done|]. intros Hkid. by specialize (Hk Hkid).
Qed.
Lemma oidc_key_found kid o t k o' : oidc_key kid o t = (Ok k, o') -> o_keys o' !! kid = Some k /\ o_cfg o' = o_cfg o.
Proof.
  assert (forall r o1, fetch_locked o t = (r, o1) -> o_cfg o1 = o_cfg o) as Hc.
  { intros r o1. unfold fetch_locked. repeat case_match; by intros [= _ <-]. }
  unfold oidc_key. destruct (fetch_locked o t) as [r o1] eqn:Ef. specialize (Hc _ _ eq_refl).
  intros H. repeat case_match; simplify_eq; auto.
Qed.

Definition no_role_unknown (cfg : OIDCConfig) (p : Principal) : Prop :=
  pr_roles p <> [] /\ forall r, r ∈ pr_roles p -> known_role r = true \/ r = oc_default_role cfg.
Lemma oidc_principal_inv cfg claims now p : oidc_principal cfg claims now = Ok p ->
  (forall e, claimInt (vget claims "exp") = Some e -> now <= e) /\
  (forall n, claimInt (vget claims "nbf") = Some n -> n <= now) /\
  (oc_issuer cfg = "" \/ vget claims "iss" = VStr (oc_issuer cfg)) /\
  (oc_audience cfg = "" \/ hasAudience (vget claims "aud") (oc_audience cfg) = true) /\ no_role_unknown cfg p.
Proof.
  unfold oidc_principal. intros H.
  destruct (match claimInt (vget claims "exp") with Some e => _ | None => _ end) eqn:E1; [done|].
  destruct (match claimInt (vget claims "nbf") with Some e => _ | None => _ end) eqn:E2; [done|].
  destruct (negb (String.eqb (oc_issuer cfg) "") && _) eqn:E3; [done|].
  destruct (negb (String.eqb (oc_audience cfg) "") && _) eqn:E4; [done|].
  destruct (match claim_roles cfg claims with [] => _ | _ => _ end) eqn:E5; [done|]. injection H as <-.
  split_and!.
  - intros e He. rewrite He in E1. by apply Z.ltb_ge.
  - intros n Hn. rewrite Hn in E2. by apply Z.ltb_ge.
  - destruct (String.eqb_spec (oc_issuer cfg) "") as [|Hne]; [by left|right]. cbn in E3.
    apply negb_false_iff, String.eqb_eq in E3. destruct (vget claims "iss"); cbn in E3; congruence.
  - destruct (String.eqb_spec (oc_audience cfg) "") as [|Hne]; [by left|right]. by apply negb_false_iff in E4.
  - unfold no_role_unknown. cbn. destruct (claim_roles cfg claims) as [|r rs] eqn:Er.
    + split; [done|]. intros r Hr. right. by apply list_elem_of_singleton in Hr.
    + split; [done|]. intros r' Hr. left. rewrite <- Er in Hr. unfold claim_roles in Hr. by apply list_elem_of_filter in Hr as [? _].
Qed.


(** Calls one after the other. *)
Definition oidc_calls (cs : list (Request * moment)) (o : oidc) : oidc :=
  fold_left (fun o c => (oidc_authenticate c.1 o c.2).2) cs o.
(** A document without a usable key of that ID. *)
Definition withdrawn (kid : string) (t : moment) : Prop :=
  forall doc ks, at_fetch t = FetchDoc doc -> dec_jwks doc = inr ks -> Forall (fun k => jk_kid k = kid -> jwk_key k = None) ks.

Lemma fetch_keeps kid o t : withdrawn kid t -> o_keys (fetch_locked o t).2 !! kid = o_keys o !! kid.
Proof.
  intros Hw. unfold fetch_locked, add_jwks. destruct (at_fetch t) as [| | |doc] eqn:Et; try done.
  destruct (dec_jwks doc) as [msg|ks] eqn:Ed; [done|]. pose proof (Hw doc ks Et Ed) as Hks.
  destruct (existsb _ ks); cbn; by apply add_keys_other.
Qed.
Lemma key_keeps kid kid' o t : withdrawn kid t -> o_keys (oidc_key kid' o t).2 !! kid = o_keys o !! kid.
Proof.
  intros Hw. pose proof (fetch_keeps kid o t Hw) as Hf. unfold oidc_key.
  destruct (fetch_locked o t) as [r o1]. cbn in Hf. repeat case_match; simplify_eq; cbn; try done.
Qed.
Lemma calls_keep kid cs o : Forall (fun c => withdrawn kid c.2) cs -> o_keys (oidc_calls cs o) !! kid = o_keys o !! kid.
Proof.
  intros H. revert o. unfold oidc_calls. induction H as [|[r t] cs Hw _ IH]; intros o; cbn; [done|]. rewrite IH.
  unfold oidc_authenticate. destruct (split_at _ _ _) as [|h [|c [|s []]]]; try done.
  destruct (_ ≫= _) as [head|]; [|done]. pose proof (key_keeps kid (jh_kid head) o t Hw) as Hk.
  by destruct (oidc_key (jh_kid head) o t).
Qed.

(** A key that the provider withdraws stays good.  However often the
    documents are fetched again, and however long ago the last one that had
    the key, a known key ID is answered with the old key. *)
Theorem withdrawn_key_stays kid k cs o t :
  o_keys o !! kid = Some k -> Forall (fun c => withdrawn kid c.2) cs -> withdrawn kid t ->
  (oidc_key kid (oidc_calls cs o) t).1 = Ok k.
Proof.
  intros Hk Hcs Ht. rewrite <- (calls_keep kid cs o Hcs) in Hk. set (o1 := oidc_calls cs o) in *.
  pose proof (fetch_keeps kid o1 t Ht) as Hf. unfold oidc_key. cbn zeta.
  destruct (fetch_locked o1 t) as [r o2] eqn:Ef. cbn in Hf.
  assert (match r with Ok _ | Err _ => True | _ => False end) as Hr.
  { unfold fetch_locked, add_jwks in Ef. repeat case_match; by simplify_eq. }
  rewrite Hk. destruct (_ <? _); [done|]. destruct (_ && _); [|done]. rewrite Hk in Hf. by destruct r; rewrite ?Hf.
Qed.
End theorems.

(** ** Instances *)
#[export] Instance Principal_eq_dec : EqDecision Principal.
Proof. solve_decision. Defined.
Definition alice (expires : Z) : Principal :=
  {| pr_subject := "alice"; pr_tenant := "acme"; pr_roles := [RoleOperator]; pr_expires := expires; pr_scopes := [] |}.
(** Two principals, one header, one set of claims, and two documents of keys. *)
Definition small_codec : AuthCodec := {|
  hmac key payload := key ++ payload;
  digest _ s := s;
  rsa_verify _ _ _ _ sig := String.eqb sig "signature";
  ecdsa_verify _ _ _ _ _ _ := false;
  enc_principal p := if decide (p = alice 0) then Some "{0}" else if decide (p = alice 3600) then Some "{1}" else None;
  dec_principal s := if String.eqb s "{0}" then Some (alice 0) else if String.eqb s "{1}" then Some (alice 3600) else None;
  dec_head s := if String.eqb s "head" then Some {| jh_alg := "RS256"; jh_kid := "k1" |} else None;
  dec_claims s := if String.eqb s "claims"
                  then Some {["sub" := VStr "alice"; "exp" := vnum 3600; "roles" := VStr "staff admin"; "tenant" := VStr "acme"]} else None;
  dec_jwks s := inr [{| jk_kty := "RSA"; jk_kid := s; jk_use := "sig"; jk_n := b64_encode "n"; jk_e := b64_encode "e";
                        jk_crv := ""; jk_x := ""; jk_y := "" |}];
|}.
Lemma small_codec_law q body : @enc_principal small_codec q = Some body -> @dec_principal small_codec body = Some q.
Proof. cbn. repeat case_decide; try done; intros [= <-]; by subst. Qed.

Definition alice_token : string := b64_encode "{1}" ++ "." ++ @sign small_codec "key" (b64_encode "{1}").

Definition idp : OIDCConfig :=
  {| oc_issuer := ""; oc_audience := ""; oc_jwks_url := "https://idp/jwks"; oc_jwks := ""; oc_roles_claim := "roles";
     oc_role_map := {["staff" := RoleOperator]}; oc_default_role := ""; oc_tenant_claim := "tenant"; oc_ttl := 5 * minute |}.
Definition at_second (n : Z) (f : fetched) : moment :=
  {| at_cache := n * second; at_refresh := n * second; at_fetched := n * second; at_claims := n * second; at_fetch := f |}.
Definition jwt_request : Request :=
  {| hr_method := "GET"; hr_path := "/v1/tasks";
     hr_headers := {["Authorization" := "Bearer " ++ b64_encode "head" ++ "." ++ b64_encode "claims" ++ "." ++ b64_encode "signature"]};
     hr_query := []; hr_body := "" |}.
Definition idp_start : oidc := {| o_cfg := idp; o_keys := ∅; o_fetched := zero_time |}.
Definition idp_known : oidc :=
  {| o_cfg := idp; o_keys := {["k1" := RSAKey 110 101]}; o_fetched := 1 * second |}.
Definition jwt_alice : Principal :=
  {| pr_subject := "alice"; pr_tenant := "acme"; pr_roles := [RoleOperator; RoleAdmin]; pr_expires := 3600; pr_scopes := [] |}.


(** The provider publishes [k2] alone; an hour later [k1] is still good. *)
Lemma withdrawn_key_stays_witness :
  let later := at_second 7200 (FetchDoc "k2") in
  (@oidc_key latin1_only small_codec "k1" (@oidc_calls latin1_only small_codec [(jwt_request, at_second 3600 (FetchDoc "k2"))] idp_known) later).1
  = Ok (RSAKey 110 101).
Proof.
  intros later. assert (forall n, @withdrawn small_codec "k1" (at_second n (FetchDoc "k2"))) as Hw.
  { intros n doc ks [= <-] [= <-]. constructor; [discriminate|constructor]. }
  apply (withdrawn_key_stays "k1" (RSAKey 110 101) [(jwt_request, at_second 3600 (FetchDoc "k2"))] idp_known later);
    [reflexivity|constructor; [apply Hw|constructor]|apply Hw].
Defined.
