(* ===== verification/EngineBase.v ===== *)
(** * State and primitives of the engine
    ([src/engine/engine.go], [src/engine/exec.go], [src/engine/vars.go])

    [world] is what the engine owns: the store, the counter of IDs and the
    cache of parsed definitions.  [rt] is [runtime]: one instance that runs
    under its lock.  A Go function is a function in the monad [ST]: it changes
    the state also when it ends in an error.

    Everything outside the program (the clocks, handlers, agents, the XML
    parser) is a field of the class [Engine]; each call of it has a number,
    and the answer may depend on the number.  The ticks also number the loops
    over maps.  The store is the in-memory one, whose writes do not fail. *)
From S2P Require Import Prelude GoFloat GoUtf8 GoTime ExprValue ExprLexer ExprParser ExprDuration ExprFuncs ExprEval StoreTypes StoreQuery StoreMemory BpmnModel.
Local Open Scope string_scope.
Local Open Scope Z_scope.

(** ** Errors *)
Inductive goerr :=
| EBpmn (code msg : string)
| ENotFound
| EExpr (e : expr_error)
| EMsg (msg : string)
| EWrap (prefix : string) (e : goerr).

(** ** Outcome and state *)
Definition ST (S A : Type) : Type := S -> res goerr A * S.
#[export] Instance ST_ret {S} : MRet (ST S) := fun A a s => (Ok a, s).
#[export] Instance ST_bind {S} : MBind (ST S) := fun A B f m s =>
  match m s with
  | (Ok a, s') => f a s'
  | (Err e, s') => (Err e, s')
  | (Panic w, s') => (Panic w, s')
  | (OutOfFuel, s') => (OutOfFuel, s')
  end.
Definition fail {S A} (e : goerr) : ST S A := fun s => (Err e, s).
Definition panic {S A} (w : string) : ST S A := fun s => (Panic w, s).
Definition out_of_fuel {S A} : ST S A := fun s => (OutOfFuel, s).
Definition get {S} : ST S S := fun s => (Ok s, s).
Definition gets {S A} (f : S -> A) : ST S A := fun s => (Ok (f s), s).
Definition modify {S} (f : S -> S) : ST S unit := fun s => (Ok tt, f s).
Definition nil_pointer {S A} : ST S A := panic "nil pointer dereference".

(** The result of a call, error included, as a value ([v, err := f()]). *)
Definition attempt {S A} (m : ST S A) : ST S (goerr + A) := fun s =>
  match m s with
  | (Ok a, s') => (Ok (inr a), s')
  | (Err e, s') => (Ok (inl e), s')
  | (Panic w, s') => (Panic w, s')
  | (OutOfFuel, s') => (OutOfFuel, s')
  end.
(** [_ = f()], or an error that is only logged. *)
Definition ignore {S A} (m : ST S A) : ST S unit := r ← attempt m; mret tt.
Definition or_nil {S A} (o : option A) : ST S A :=
  match o with Some a => mret a | None => nil_pointer end.
Definition when {S} (b : bool) (m : ST S unit) : ST S unit := if b then m else mret tt.
Fixpoint for_each {S A} (f : A -> ST S unit) (l : list A) : ST S unit :=
  match l with [] => mret tt | x :: l => f x ;; for_each f l end.

(** [Error()] of an error, and [errors.Is(err, store.ErrNotFound)]. *)
Section errors.
Context {U : Unicode}.
Fixpoint error_text (e : goerr) : string :=
  match e with
  | EBpmn code msg => if String.eqb msg "" then "bpmn error " ++ code
                      else "bpmn error " ++ code ++ ": " ++ msg
  | ENotFound => "store: not found"
  | EExpr e => expr_error_string e
  | EMsg msg => msg
  | EWrap prefix e => prefix ++ error_text e
  end.
End errors.
Fixpoint is_not_found (e : goerr) : bool :=
  match e with ENotFound => true | EWrap _ e => is_not_found e | _ => false end.

(** ** The engine *)
Class ParsedDef := { pd_def : ProcDef; pd_doc : Definitions; pd_proc : Process }.

(** What a service handler sees, and the exchange with an agent. *)
Record Context := {
  cx_inst : string; cx_bkey : string; cx_element : string; cx_name : string; cx_vars : vars;
}.
Record AgentToolCall := { tc_tool : string; tc_input : vars; tc_result : string; tc_error : string }.
Record AgentUsage := { us_in : Z; us_out : Z; us_cost : f64; us_model : string }.
Record AgentRequest := {
  rq_inst : string; rq_element : string; rq_agent : string; rq_prompt : string; rq_system : string;
  rq_tools : list AgentTool; rq_model : string; rq_effort : string; rq_max_tokens : Z;
  rq_vars : vars; rq_trace : string;
}.
Record AgentResponse := {
  rs_output : option vars; rs_text : string; rs_calls : list AgentToolCall; rs_usage : AgentUsage;
}.
Record AgentReview := {
  rv_inst : string; rv_element : string; rv_agent : string; rv_output : option vars; rv_text : string;
  rv_calls : list AgentToolCall; rv_usage : AgentUsage; rv_vars : vars;
}.
Definition handler := nat -> Context -> goerr + vars.
(** An agent call that has not come back in time answers [None]. *)
Definition invoker := nat -> AgentRequest -> option (goerr + AgentResponse).
Record AgentGuard := {
  gd_timeout : Z; gd_max_tokens : Z; gd_review : option (nat -> AgentReview -> option goerr);
}.

Class Engine := {
  e_clock : nat -> Z;
  e_wall : nat -> Z;
  e_suffix : string;
  e_handlers : gmap string handler;
  e_decisions : option (nat -> string -> vars -> res goerr value);
  e_agents : gmap string invoker;
  e_default_agent : option invoker;
  e_guard : option AgentGuard;
  e_forms : option (nat -> string -> option vars -> res goerr (option vars));
  e_backoff : Z;
  e_parse : string -> goerr + Definitions;
}.

Record world := { w_store : Memory; w_tick : nat; w_seq : Z; w_defs : gmap string ParsedDef }.
Definition set_w_store (v : Memory) (w : world) : world :=
  {| w_store := v; w_tick := w_tick w; w_seq := w_seq w; w_defs := w_defs w |}.
Definition set_w_tick (v : nat) (w : world) : world :=
  {| w_store := w_store w; w_tick := v; w_seq := w_seq w; w_defs := w_defs w |}.
Definition set_w_seq (v : Z) (w : world) : world :=
  {| w_store := w_store w; w_tick := w_tick w; w_seq := v; w_defs := w_defs w |}.
Definition set_w_defs (v : gmap string ParsedDef) (w : world) : world :=
  {| w_store := w_store w; w_tick := w_tick w; w_seq := w_seq w; w_defs := v |}.

(** A continuation: what [afterRun] does once the lock is released. *)
Inductive continuation :=
| CCancel (child reason : string)
| CNotify (parent parent_tok child : string) (child_vars : vars)
| CCorrelate (name : string) (v : vars)
| CSignal (name : string) (v : vars)
| CStartChild (def_id child_id bkey : string) (v : vars) (parent tok : string).

(** [runtime].  [rt_gone] holds the tokens taken out of the instance: the
    functions that run may still hold a pointer to them. *)
Record rt := {
  rt_world : world;
  rt_inst : Instance;
  rt_gone : gmap string Token;
  rt_conts : list continuation;
  rt_steps : Z;
}.
Definition set_rt_world (v : world) (s : rt) : rt :=
  {| rt_world := v; rt_inst := rt_inst s; rt_gone := rt_gone s; rt_conts := rt_conts s; rt_steps := rt_steps s |}.
Definition set_rt_inst (v : Instance) (s : rt) : rt :=
  {| rt_world := rt_world s; rt_inst := v; rt_gone := rt_gone s; rt_conts := rt_conts s; rt_steps := rt_steps s |}.
Definition set_rt_gone (v : gmap string Token) (s : rt) : rt :=
  {| rt_world := rt_world s; rt_inst := rt_inst s; rt_gone := v; rt_conts := rt_conts s; rt_steps := rt_steps s |}.
Definition set_rt_conts (v : list continuation) (s : rt) : rt :=
  {| rt_world := rt_world s; rt_inst := rt_inst s; rt_gone := rt_gone s; rt_conts := v; rt_steps := rt_steps s |}.
Definition set_rt_steps (v : Z) (s : rt) : rt :=
  {| rt_world := rt_world s; rt_inst := rt_inst s; rt_gone := rt_gone s; rt_conts := rt_conts s; rt_steps := v |}.

Abbreviation EM := (ST world).
Abbreviation M := (ST rt).

(** A function of the engine called while an instance runs. *)
Definition lift {A} (m : EM A) : M A := fun s =>
  let '(r, w) := m (rt_world s) in (r, set_rt_world w s).

(** The types of history events. *)
Definition HistInstanceStarted := "instance.started".
Definition HistInstanceCompleted := "instance.completed".
Definition HistInstanceTerminated := "instance.terminated".
Definition HistElementActivated := "element.activated".
Definition HistElementCompleted := "element.completed".
Definition HistTaskCreated := "task.created".
Definition HistTaskCompleted := "task.completed".
Definition HistTaskCanceled := "task.canceled".
Definition HistVariablesSet := "variables.set".
Definition HistTimerScheduled := "timer.scheduled".
Definition HistTimerFired := "timer.fired".
Definition HistMessageReceived := "message.received".
Definition HistSignalReceived := "signal.received".
Definition HistErrorThrown := "error.thrown".
Definition HistIncidentCreated := "incident.created".
Definition HistIncidentResolved := "incident.resolved".
Definition HistAgentInvoked := "agent.invoked".
Definition HistAgentCompleted := "agent.completed".
Definition HistAgentRejected := "agent.rejected".

(** ** Time, identifiers, evaluation *)

(** [%0nx] *)
Definition hex_len (z : Z) : nat := if z =? 0 then 1 else S (Z.to_nat (Z.log2 z / 4)).
Definition hex_min (n : nat) (z : Z) : string :=
  if z <? 0 then "-" ++ hex_pad (Nat.max (n - 1) (hex_len (- z))) (- z) ""
  else hex_pad (Nat.max n (hex_len z)) z "".
(** The text of an ID: prefix, microseconds, counter, suffix of the engine. *)
Definition mk_id (prefix : string) (t seq : Z) (suffix : string) : string :=
  prefix ++ "_" ++ hex_min 11 (t / 1000) ++ hex_min 8 seq ++ suffix.

Definition of_outcome {S A} (r : res goerr A) : ST S A := fun s => (r, s).
Definition of_res {S A} (r : res string A) : ST S A := fun s =>
  (match r with Ok a => Ok a | Err m => Err (EMsg m) | Panic w => Panic w | OutOfFuel => OutOfFuel end, s).
Definition of_expr {S A} (r : res expr_error A) : ST S A := fun s =>
  (match r with Ok a => Ok a | Err e => Err (EExpr e) | Panic w => Panic w | OutOfFuel => OutOfFuel end, s).

Section base.
Context {U : Unicode} {R : Regexp} {MO : MapOrder} {E : Engine}.

Definition tick : EM nat := fun w => (Ok (w_tick w), set_w_tick (S (w_tick w)) w).
Definition e_now : EM Z := n ← tick; mret (e_clock n).
Definition store_get {A} (f : Memory -> A) : EM A := gets (fun w => f (w_store w)).
Definition store_put (f : Memory -> Memory) : EM unit := modify (fun w => set_w_store (f (w_store w)) w).
Definition store_call {A} (f : Memory -> A * Memory) : EM A := fun w =>
  let '(a, m) := f (w_store w) in (Ok a, set_w_store m w).
Definition or_not_found {S A} (o : option A) : ST S A :=
  match o with Some a => mret a | None => fail ENotFound end.

Definition new_id (prefix : string) : EM string :=
  t ← e_now;
  q ← gets w_seq;
  modify (set_w_seq ((q + 1) mod 2 ^ 64)) ;;
  mret (mk_id prefix t ((q + 1) mod 2 ^ 64) e_suffix).

(** [expr.Eval], [expr.EvalBool]: the program cache makes no difference
    ([ExprEval.cache_transparent]). *)
Definition expr_eval (src : string) (v : vars) : EM value :=
  n ← tick; of_expr (eval_src (e_wall n) src v).
Definition expr_eval_bool (src : string) (v : vars) : EM bool :=
  n ← tick; of_expr (eval_bool_src (e_wall n) src v).

(** The expression inside a model string, if it is not a literal. *)
Definition field_expr (s : string) : option string :=
  if (has_prefix s "${" || has_prefix s "#{") && has_suffix s "}"
  then Some (sslice 2 (String.length s - 1) s)
  else strip_prefix "=" s.
Definition eval_field (s : string) (v : vars) : EM value :=
  let s := trim_space s in
  match field_expr s with
  | Some src => expr_eval src v
  | None => mret (VStr s)
  end.
Definition eval_field_string (s : string) (v : vars) : EM string :=
  x ← eval_field s v; mret (stringify x).

(** [timerSchedule]: first due time, repetitions and interval. *)
Definition timer_schedule (ev : EventDefinition) (v : vars) : EM (Z * Z * Z) :=
  now ← e_now;
  if negb (String.eqb (ev_duration ev) "") then
    s ← eval_field_string (ev_duration ev) v;
    d ← of_res (parse_iso_duration s);
    mret (time_add now d, 0, 0)
  else if negb (String.eqb (ev_date ev) "") then
    x ← eval_field (ev_date ev) v;
    match x with
    | VTime t => mret (t, 0, 0)
    | VStr s => t ← of_res (parse_time s); mret (t, 0, 0)
    | _ => fail (EMsg ("engine: timer date " ++ ev_date ev ++ " is not a time"))
    end
  else if negb (String.eqb (ev_cycle ev) "") then
    s ← eval_field_string (ev_cycle ev) v;
    '(n, iv) ← of_res (parse_timer_cycle s);
    mret (time_add now iv, n, iv)
  else fail (EMsg "engine: empty timer definition").

(** ** The running instance *)
Definition inst_get : M Instance := gets rt_inst.
Definition inst_set (f : Instance -> Instance) : M unit := modify (fun s => set_rt_inst (f (rt_inst s)) s).
Definition set_var (k : string) (v : value) : M unit :=
  inst_set (fun i => set_in_vars (<[k := v]> (in_vars i)) i).
(** [for k, v := range m { inst.Variables[k] = expr.Normalize(v) }] *)
Definition merge_vars (m : vars) : M unit :=
  inst_set (fun i => set_in_vars ((normalize <$> m) ∪ in_vars i) i).
Definition push_cont (c : continuation) : M unit := modify (fun s => set_rt_conts (rt_conts s ++ [c])%list s).

(** *** Tokens

    A token pointer is the token's ID.  [tok_get] and [tok_set] follow the
    pointer, [tok_live] is a lookup in [inst.Tokens]. *)
Definition tok_of (s : rt) (id : string) : option Token :=
  match in_tokens (rt_inst s) !! id with Some t => Some t | None => rt_gone s !! id end.
Definition tok_get (id : string) : M Token := t ← gets (fun s => tok_of s id); or_nil t.
Definition tok_live (id : string) : M (option Token) := gets (fun s => in_tokens (rt_inst s) !! id).
Definition set_tokens (f : gmap string Token -> gmap string Token) (s : rt) : rt :=
  set_rt_inst (set_in_tokens (f (in_tokens (rt_inst s))) (rt_inst s)) s.
Definition tok_set (id : string) (f : Token -> Token) : M unit := modify (fun s =>
  match in_tokens (rt_inst s) !! id with
  | Some t => set_tokens (insert id (f t)) s
  | None => set_rt_gone (alter f id (rt_gone s)) s
  end).
(** [delete(rt.inst.Tokens, id)] *)
Definition tok_del (id : string) : M unit := modify (fun s =>
  match in_tokens (rt_inst s) !! id with
  | Some t => set_rt_gone (<[id := t]> (rt_gone s)) (set_tokens (delete id) s)
  | None => s
  end).
Definition park (id : string) (st : TokenState) (ref : string) : M unit :=
  tok_set id (fun t => set_tk_wait ref (set_tk_state st t)).
Definition tokens_of (i : Instance) : list Token := map snd (map_to_list (in_tokens i)).

(** [for id, t := range rt.inst.Tokens]: a token deleted before its turn is
    skipped. *)
Definition for_tokens (f : string -> Token -> M unit) : M unit :=
  n ← lift tick;
  i ← inst_get;
  for_each (fun k => t ← tok_live k; match t with Some t => f k t | None => mret tt end)
    (range_keys n (map fst (map_to_list (in_tokens i)))).

(** *** Scopes *)
Section running.
Context {PD : ParsedDef}.
Fixpoint container_in (c : Container) (path : list string) : option Container :=
  match path with
  | [] => Some c
  | id :: path =>
      match c_elements c !! id with
      | Some el => match el_sub el with Some s => container_in s path | None => None end
      | None => None
      end
  end.
Definition container_at (path : list string) : option Container :=
  container_in (pr_container (@pd_proc PD)) path.
Definition scope_of (t : Token) : option Container := container_at (tk_scope t).
Definition element_of (t : Token) : option Element :=
  match scope_of t with Some c => c_elements c !! tk_element t | None => None end.
End running.

(** [hasPrefix], [samePath] on scope paths. *)
Fixpoint path_prefix (path prefix : list string) : bool :=
  match path, prefix with
  | _, [] => true
  | [], _ :: _ => false
  | x :: path, y :: prefix => String.eqb x y && path_prefix path prefix
  end.
Definition same_path (a b : list string) : bool := Nat.eqb (length a) (length b) && path_prefix a b.
Definition same_scope (a b : Token) : bool :=
  same_path (tk_scope a) (tk_scope b) && same_path (tk_owners a) (tk_owners b).
(** The token runs inside the scope instance. *)
Definition in_scope (path owners : list string) (t : Token) : bool :=
  path_prefix (tk_scope t) path && path_prefix (tk_owners t) owners.

(** *** The environment of a token *)

(** The token and its ancestors.  The chain is as long as the instance has
    tokens, at most, unless parents form a cycle. *)
Fixpoint parent_chain (fuel : nat) (ts : gmap string Token) (t : Token) : res goerr (list Token) :=
  match fuel with
  | O => OutOfFuel
  | S fuel =>
      if String.eqb (tk_parent t) "" then Ok [t]
      else match ts !! tk_parent t with
           | None => Ok [t]
           | Some p => (let! l := parent_chain fuel ts p in Ok (t :: l))%go
           end
  end.
(** [applyParentChainLocals]: outer locals first. *)
Definition chain_locals (ts : gmap string Token) (out : vars) (t : Token) : res goerr vars :=
  (let! chain := parent_chain (S (S (size ts))) ts t in
   Ok (fold_left (fun out t => tk_locals t ∪ out) (rev chain) out))%go.
Fixpoint owner_locals (ts : gmap string Token) (out : vars) (owners : list string) : res goerr vars :=
  match owners with
  | [] => Ok out
  | o :: owners =>
      match (if String.eqb o "" then None else ts !! o) with
      | None => owner_locals ts out owners
      | Some t => (let! out := chain_locals ts out t in owner_locals ts out owners)%go
      end
  end.
Definition env_of (i : Instance) (t : Token) : res goerr vars :=
  (let! out := owner_locals (in_tokens i) (in_vars i) (tk_owners t) in
   let! out := chain_locals (in_tokens i) out t in
   Ok (<["definitionKey" := VStr (in_def_key i)]>
        (<["businessKey" := VStr (in_bkey i)]> (<["instanceId" := VStr (in_id i)]> out))))%go.
Definition tok_env (id : string) : M vars :=
  t ← tok_get id; i ← inst_get; of_outcome (env_of i t).

(** *** History *)
Definition detail (l : list (string * value)) : vars := list_to_map l.
Definition emit (typ element : string) (d : vars) : M unit :=
  i ← inst_get;
  t ← lift e_now;
  lift (store_put (fun m => (AppendHistory
    {| hv_seq := 0; hv_inst := in_id i; hv_time := t; hv_type := typ; hv_element := element; hv_detail := d |} m).2)).

(** *** New tokens *)
Definition spawn_token (element : string) (path owners : list string) (parent : string) (locals : vars) : M string :=
  id ← lift (new_id "tok");
  modify (set_tokens (insert id
    {| tk_id := id; tk_element := element; tk_state := TokenActive; tk_scope := path;
       tk_owners := owners; tk_flow := ""; tk_wait := ""; tk_parent := parent; tk_locals := locals |})) ;;
  mret id.

(** *** Incidents *)
Definition raise_incident (tok code message : string) : M unit :=
  id ← lift (new_id "incd");
  t ← tok_get tok;
  i ← inst_get;
  now ← lift e_now;
  lift (store_put (PutIncident
    {| ic_id := id; ic_inst := in_id i; ic_token := tk_id t; ic_element := tk_element t;
       ic_message := message; ic_code := code; ic_created := now; ic_resolved := false;
       ic_resolved_at := zero_time |})) ;;
  live ← tok_live (tk_id t);
  match live with Some _ => park (tk_id t) TokenWaitRetry id | None => mret tt end ;;
  emit HistIncidentCreated (tk_element t) (detail [("incidentId", VStr id); ("message", VStr message)]).
End base.

