(* ===== verification/EngineLifecycle.v ===== *)
(** * Starting and stopping the engine ([src/engine/engine.go], the loops)

    [Start] launches a goroutine that runs due jobs, and one that sweeps when a
    retention policy is set; [Stop] closes a channel and waits for the first of
    them.  The goroutines and the channels are a step relation: a goroutine
    reads the field [e.stop] each time it enters its [select], so that it may
    hold another channel than the one that was closed.  One caller starts and
    stops the engine.

    The striped locks of the instances are at the end. *)
From stdpp Require Import relations.
From Stdlib Require Import Ascii.
From S2P Require Import Prelude GoFloat GoUtf8.
Local Open Scope string_scope.

(** ** Goroutines and channels *)

(** Where a loop is: not begun, before its [select], in it with the channel it
    read, or in the work of a tick. *)
Inductive phase := Launched | Entering | Selecting (stop : nat) | Working.
(** The scheduler knows the channel it closes at its end once it has begun. *)
Record scheduler := { sc_phase : phase; sc_stopped : option nat }.
(** [lc_waiting] is the channel that a [Stop] in progress waits for. *)
Record lifecycle := {
  lc_running : bool; lc_stop : option nat; lc_stopped : option nat; lc_next : nat; lc_closed : gset nat;
  lc_schedulers : list scheduler; lc_sweepers : list phase; lc_waiting : option nat;
}.
Definition new_lifecycle : lifecycle :=
  {| lc_running := false; lc_stop := None; lc_stopped := None; lc_next := 0; lc_closed := ∅; lc_schedulers := [];
     lc_sweepers := []; lc_waiting := None |}.

(** [Start]; the recovery before it is [EngineSched.reconcile]. *)
Definition start (sweeps : bool) (s : lifecycle) : lifecycle :=
  if lc_running s then s
  else {| lc_running := true; lc_stop := Some (lc_next s); lc_stopped := Some (S (lc_next s)); lc_next := S (S (lc_next s));
          lc_closed := lc_closed s;
          lc_schedulers := lc_schedulers s ++ [{| sc_phase := Launched; sc_stopped := None |}];
          lc_sweepers := lc_sweepers s ++ (if sweeps then [Launched] else []); lc_waiting := lc_waiting s |}.
(** [Stop], up to the channel it waits for. *)
Definition close (ch : option nat) (s : gset nat) : gset nat := match ch with Some c => {[c]} ∪ s | None => s end.
Definition stop (s : lifecycle) : lifecycle :=
  if lc_running s then
    {| lc_running := false; lc_stop := lc_stop s; lc_stopped := lc_stopped s; lc_next := lc_next s;
       lc_closed := close (lc_stop s) (lc_closed s); lc_schedulers := lc_schedulers s; lc_sweepers := lc_sweepers s;
       lc_waiting := lc_stopped s |}
  else s.
Definition set_waiting (c : option nat) (s : lifecycle) : lifecycle :=
  {| lc_running := lc_running s; lc_stop := lc_stop s; lc_stopped := lc_stopped s; lc_next := lc_next s; lc_closed := lc_closed s;
     lc_schedulers := lc_schedulers s; lc_sweepers := lc_sweepers s; lc_waiting := c |}.
Definition set_schedulers (l : list scheduler) (s : lifecycle) : lifecycle :=
  {| lc_running := lc_running s; lc_stop := lc_stop s; lc_stopped := lc_stopped s; lc_next := lc_next s; lc_closed := lc_closed s;
     lc_schedulers := l; lc_sweepers := lc_sweepers s; lc_waiting := lc_waiting s |}.
Definition set_sweepers (l : list phase) (s : lifecycle) : lifecycle :=
  {| lc_running := lc_running s; lc_stop := lc_stop s; lc_stopped := lc_stopped s; lc_next := lc_next s; lc_closed := lc_closed s;
     lc_schedulers := lc_schedulers s; lc_sweepers := l; lc_waiting := lc_waiting s |}.
Definition set_closed (c : gset nat) (s : lifecycle) : lifecycle :=
  {| lc_running := lc_running s; lc_stop := lc_stop s; lc_stopped := lc_stopped s; lc_next := lc_next s; lc_closed := c;
     lc_schedulers := lc_schedulers s; lc_sweepers := lc_sweepers s; lc_waiting := lc_waiting s |}.

(** A step of a loop that stays in it: into the [select] with the channel of
    now, a tick, the end of the work. *)
Inductive loop_step (s : lifecycle) : phase -> phase -> Prop :=
| ls_begin : loop_step s Launched Entering
| ls_enter ch : lc_stop s = Some ch -> loop_step s Entering (Selecting ch)
| ls_tick ch : loop_step s (Selecting ch) Working
| ls_done : loop_step s Working Entering.
(** [schedulerLoop] reads the channel it closes when it begins. *)
Definition begun (s : lifecycle) (g : scheduler) (p : phase) : scheduler :=
  {| sc_phase := p; sc_stopped := match sc_phase g with Launched => lc_stopped s | _ => sc_stopped g end |}.
Inductive lstep (sweeps : bool) (s : lifecycle) : lifecycle -> Prop :=
| l_start : lc_waiting s = None -> lstep sweeps s (start sweeps s)
| l_stop : lc_waiting s = None -> lstep sweeps s (stop s)
| l_stopped c : lc_waiting s = Some c -> c ∈ lc_closed s -> lstep sweeps s (set_waiting None s)
| l_scheduler j g p : lc_schedulers s !! j = Some g -> loop_step s (sc_phase g) p ->
    lstep sweeps s (set_schedulers (<[j := begun s g p]> (lc_schedulers s)) s)
| l_scheduler_ends j ch c : lc_schedulers s !! j = Some {| sc_phase := Selecting ch; sc_stopped := c |} -> ch ∈ lc_closed s ->
    lstep sweeps s (set_closed (close c (lc_closed s)) (set_schedulers (delete j (lc_schedulers s)) s))
| l_sweeper j p p' : lc_sweepers s !! j = Some p -> loop_step s p p' ->
    lstep sweeps s (set_sweepers (<[j := p']> (lc_sweepers s)) s)
| l_sweeper_ends j ch : lc_sweepers s !! j = Some (Selecting ch) -> ch ∈ lc_closed s ->
    lstep sweeps s (set_sweepers (delete j (lc_sweepers s)) s).
Definition reachable (sweeps : bool) : lifecycle -> Prop := rtc (lstep sweeps) new_lifecycle.

(** ** The scheduler *)
Definition channels (s : lifecycle) (c : nat) : Prop :=
  lc_stop s = Some c /\ lc_stopped s = Some (S c) /\ (S c < lc_next s)%nat.
(** A scheduler that belongs to the stop channel [c]. *)
Definition belongs (c : nat) (g : scheduler) : Prop :=
  match sc_phase g with Launched => True | Selecting ch => ch = c /\ sc_stopped g = Some (S c) | _ => sc_stopped g = Some (S c) end.
Definition schedules (s : lifecycle) (c : nat) : Prop := exists g, lc_schedulers s = [g] /\ belongs c g.
Definition scheduled (s : lifecycle) : Prop :=
  match lc_running s, lc_waiting s with
  | true, None => exists c, channels s c /\ (c ∉ lc_closed s) /\ (S c ∉ lc_closed s) /\ schedules s c
  | false, Some w => exists c, channels s c /\ w = S c /\ (c ∈ lc_closed s) /\
      (lc_schedulers s = [] /\ (S c ∈ lc_closed s) \/ (S c ∉ lc_closed s) /\ schedules s c)
  | false, None => lc_schedulers s = []
  | true, Some _ => False
  end.
Definition lifecycle_ok (s : lifecycle) : Prop := (forall c, c ∈ lc_closed s -> (c < lc_next s)%nat) /\ scheduled s.

Lemma belongs_begun s c g p : channels s c -> belongs c g -> loop_step s (sc_phase g) p -> belongs c (begun s g p).
Proof.
  intros (Hs & Ht & _). destruct g as [ph st]. unfold belongs, begun; cbn. intros Hb Hp.
  inversion Hp; subst; cbn in *; [done|split; [congruence|done]|tauto|done].
Qed.
(** What happens to the only scheduler. *)
Lemma only_scheduler {A} (x y : A) j : [x] !! j = Some y -> x = y /\ <[j := y]> [x] = [y] /\ forall z, <[j := z]> [x] = [z].
Proof. destruct j; [|done]. intros [= ->]. done. Qed.
Lemma lstep_ok sweeps s s' : lstep sweeps s s' -> lifecycle_ok s -> lifecycle_ok s'.
Proof.
  intros [Hw|Hw|c Hw Hc|j g p Hj Hp|j ch c Hj Hc|j p p' Hj Hp|j ch Hj Hc] [Hold H].
  - unfold start. destruct (lc_running s) eqn:Er; [by split|]. unfold scheduled in H. rewrite Er, Hw in H.
    split; cbn; [intros c Hc; specialize (Hold c Hc); lia|]. unfold scheduled. cbn. rewrite Hw, H. exists (lc_next s).
    split_and!; [split_and!; cbn; (done || lia)|intros Hc; specialize (Hold _ Hc); lia|intros Hc; specialize (Hold _ Hc); lia|].
    by eexists.
  - unfold stop. destruct (lc_running s) eqn:Er; [|by split]. unfold scheduled in H. rewrite Er, Hw in H.
    destruct H as (c & (Hs & Ht & Hn) & Hc & Hd & Hg). split; cbn; rewrite Hs; cbn.
    + intros d [->%elem_of_singleton|Hin]%elem_of_union; [lia|by apply Hold].
    + unfold scheduled. cbn. rewrite Ht. exists c. split_and!; [done|done|cbn; set_solver|right]. split; [|done]. cbn. set_solver by lia.
  - unfold scheduled in H. rewrite Hw in H. destruct (lc_running s) eqn:Er; [done|].
    destruct H as (d & Hch & -> & _ & Hg). split; [done|]. unfold scheduled. cbn. rewrite Er.
    destruct Hg as [[Hg _]|[Hd _]]; [done|by destruct Hd].
  - split; [done|]. unfold scheduled, schedules in *. cbn. destruct (lc_running s) eqn:Er, (lc_waiting s) as [w|] eqn:Ew; try done.
    + destruct H as (c & Hch & Hc & Hd & g' & Hg & Hb). exists c. rewrite Hg in Hj |- *.
      destruct (only_scheduler _ _ _ Hj) as (-> & _ & Hi). split_and!; try done. rewrite Hi. eexists. split; [done|].
      by apply belongs_begun.
    + destruct H as (c & Hch & -> & Hcl & [[Hg _]|[Hd (g' & Hg & Hb)]]); [by rewrite Hg in Hj|]. exists c. rewrite Hg in Hj |- *.
      destruct (only_scheduler _ _ _ Hj) as (-> & _ & Hi). split_and!; try done. right. split; [done|]. rewrite Hi. eexists.
      split; [done|]. by apply belongs_begun.
    + by rewrite H in Hj.
  - unfold scheduled, schedules in H. destruct (lc_running s) eqn:Er, (lc_waiting s) as [w|] eqn:Ew; [done|..].
    + destruct H as (d & _ & Hd & _ & g & Hg & Hb). rewrite Hg in Hj. apply only_scheduler in Hj as [-> _].
      cbn in Hb. destruct Hb as [-> _]. done.
    + destruct H as (d & Hch & -> & Hcl & [[Hg _]|[Hd (g & Hg & Hb)]]); [by rewrite Hg in Hj|]. rewrite Hg in Hj.
      pose proof (only_scheduler _ _ _ Hj) as [-> _]. destruct j; [|done]. cbn in Hb. destruct Hb as [-> ->]. split; cbn.
      * destruct Hch as (_ & _ & Hn). intros e [->%elem_of_singleton|He]%elem_of_union; [done|by apply Hold].
      * unfold scheduled. cbn. rewrite Er, Ew. exists d. split_and!; [done|done|cbn; set_solver|]. left. rewrite Hg. split; [done|cbn; set_solver].
    + by rewrite H in Hj.
  - by split.
  - by split.
Qed.
Lemma reachable_lifecycle sweeps s : reachable sweeps s -> lifecycle_ok s.
Proof.
  unfold reachable. assert (lifecycle_ok new_lifecycle) as H0 by (split; [intros c Hc; cbn in Hc; set_solver|done]).
  revert H0. generalize new_lifecycle. intros s0 H0 H. induction H as [|s0 s1 s2 H1 _ IH]; [done|]. by eapply IH, lstep_ok.
Qed.

(** A [Stop] that waits can return: the scheduler, wherever it is, comes to its
    [select] and finds the channel closed. *)
Lemma selecting_ends sweeps s c d :
  lc_waiting s = Some d -> c ∈ lc_closed s -> lc_schedulers s = [{| sc_phase := Selecting c; sc_stopped := Some d |}] ->
  exists s', rtc (lstep sweeps) s s' /\ lc_waiting s' = None.
Proof.
  intros Hw Hc Hg. eexists. split; [|shelve]. eapply rtc_l; [apply (l_scheduler_ends _ _ 0 c (Some d)); [by rewrite Hg|done]|].
  eapply rtc_l; [apply (l_stopped _ _ d); [done|cbn; set_solver]|]. reflexivity.
  Unshelve. done.
Qed.
Lemma entering_ends sweeps s c d :
  lc_waiting s = Some d -> c ∈ lc_closed s -> lc_stop s = Some c ->
  lc_schedulers s = [{| sc_phase := Entering; sc_stopped := Some d |}] ->
  exists s', rtc (lstep sweeps) s s' /\ lc_waiting s' = None.
Proof.
  intros Hw Hc Hs Hg.
  destruct (selecting_ends sweeps (set_schedulers [{| sc_phase := Selecting c; sc_stopped := Some d |}] s) c d) as (s' & H & Hn); [done..|].
  exists s'. split; [|done]. eapply rtc_l; [|exact H].
  pose proof (l_scheduler sweeps s 0 {| sc_phase := Entering; sc_stopped := Some d |} (Selecting c)) as Hl.
  rewrite Hg in Hl. by apply Hl; [|apply ls_enter].
Qed.
Lemma stop_returns sweeps s w : lifecycle_ok s -> lc_waiting s = Some w -> exists s', rtc (lstep sweeps) s s' /\ lc_waiting s' = None.
Proof.
  intros [_ H] Hw. unfold scheduled, schedules in H. rewrite Hw in H. destruct (lc_running s); [done|].
  destruct H as (c & (Hs & Ht & _) & -> & Hc & [[_ Hd]|(_ & [ph st] & Hg & Hb)]).
  { eexists. split; [|shelve]. eapply rtc_l; [by apply (l_stopped _ _ (S c))|reflexivity]. Unshelve. done. }
  pose proof (l_scheduler sweeps s 0 {| sc_phase := ph; sc_stopped := st |} Entering) as Hl. rewrite Hg in Hl. specialize (Hl eq_refl).
  destruct ph as [| |ch|]; cbn in Hb; unfold begun in Hl; cbn in Hl.
  - destruct (entering_ends sweeps (set_schedulers [{| sc_phase := Entering; sc_stopped := lc_stopped s |}] s) c (S c)) as (s' & H & Hn);
      [done|done|done|by cbn; rewrite Ht|]. exists s'. split; [|done]. eapply rtc_l; [apply Hl, ls_begin|exact H].
  - subst st. by eapply entering_ends.
  - destruct Hb as [-> ->]. by eapply selecting_ends.
  - subst st. destruct (entering_ends sweeps (set_schedulers [{| sc_phase := Entering; sc_stopped := Some (S c) |}] s) c (S c)) as (s' & H & Hn);
      [done..|]. exists s'. split; [|done]. eapply rtc_l; [apply Hl, ls_done|exact H].
Qed.

(** A scheduler at work when [Stop] is called. *)
Definition stopped_at_work : lifecycle :=
  stop (set_schedulers [{| sc_phase := Working; sc_stopped := Some 1%nat |}] (start false new_lifecycle)).

(** ** The sweepers *)

(** Nobody waits for a sweep.  One that is at work when the engine stops goes
    on after [Stop] has returned, and when the engine is started again before
    its work ends, it finds the new channel in [e.stop] and stays, beside the
    sweeper that [Start] launched. *)
Lemma sweeper_moves sweeps s l j p p' :
  lc_sweepers s = l -> l !! j = Some p -> loop_step s p p' -> lstep sweeps s (set_sweepers (<[j := p']> l) s).
Proof. intros <-. apply l_sweeper. Qed.
Lemma set_sweepers_twice l l' s : set_sweepers l (set_sweepers l' s) = set_sweepers l s.
Proof. done. Qed.
(** Sweepers at work can come to the [select], with the channel of now. *)
Lemma sweepers_select sweeps c r k s l :
  lc_stop s = Some c -> lc_sweepers s = (l ++ replicate k Working ++ r)%list ->
  rtc (lstep sweeps) s (set_sweepers (l ++ replicate k (Selecting c) ++ r) s).
Proof.
  revert s l. induction k as [|k IH]; intros s l Hs Hl; cbn [replicate app] in *.
  - replace (set_sweepers _ s) with s; [done|]. rewrite <- Hl. by destruct s.
  - assert (forall p q, <[length l := q]> (l ++ p :: replicate k Working ++ r)%list = (l ++ q :: replicate k Working ++ r)%list) as Hi
      by (intros p q; by rewrite insert_app_r_alt, Nat.sub_diag by done).
    eapply rtc_l; [eapply (sweeper_moves _ _ _ (length l)); [exact Hl|by apply list_lookup_middle|apply ls_done]|].
    eapply rtc_l; [eapply (sweeper_moves _ _ _ (length l)); [reflexivity|rewrite Hi; by apply list_lookup_middle|by apply (ls_enter _ c)]|].
    rewrite Hi. cbn [lc_sweepers set_sweepers]. rewrite Hi, set_sweepers_twice. specialize (IH (set_sweepers (l ++ Selecting c :: replicate k Working ++ r) s) (l ++ [Selecting c])%list Hs).
    rewrite set_sweepers_twice in IH. rewrite <- !app_assoc in IH. by apply IH.
Qed.
(** One more round of starting and stopping leaves one more sweep behind. *)
Lemma sweep_left_behind s k :
  lc_running s = false -> lc_waiting s = None -> lc_schedulers s = [] -> lc_sweepers s = replicate k Working ->
  exists s', rtc (lstep true) s s' /\ lc_running s' = false /\ lc_waiting s' = None /\ lc_schedulers s' = []
    /\ lc_sweepers s' = replicate (S k) Working.
Proof.
  intros Hr Hw Hg Hk. set (c := lc_next s).
  assert (length (replicate k Working) = k) as Hlen by apply length_replicate.
  assert (forall p q, <[k := q]> (replicate k Working ++ [p])%list = (replicate k Working ++ [q])%list) as Hi
    by (intros p q; by rewrite insert_app_r_alt, Hlen, Nat.sub_diag by (rewrite Hlen; done)).
  assert (forall p, (replicate k Working ++ [p])%list !! k = Some p) as Hj by (intros p; by apply list_lookup_middle).
  eexists. split.
  - eapply rtc_l; [by apply l_start|]. unfold start. rewrite Hr, Hw, Hg, Hk. cbn [app].
    eapply rtc_l; [eapply (l_sweeper _ _ k); [apply Hj|apply ls_begin]|]. cbn. rewrite Hi.
    eapply rtc_l; [eapply (l_sweeper _ _ k); [apply Hj|by apply (ls_enter _ c)]|]. cbn. rewrite Hi.
    eapply rtc_l; [eapply (l_sweeper _ _ k); [apply Hj|apply ls_tick]|]. cbn. rewrite Hi.
    eapply rtc_l; [by eapply (l_scheduler _ _ 0); [reflexivity|apply ls_begin]|]. cbn.
    eapply rtc_l; [by eapply (l_scheduler _ _ 0); [reflexivity|apply (ls_enter _ c)]|]. cbn.
    eapply rtc_l; [by apply l_stop|]. unfold stop. cbn.
    eapply rtc_l; [eapply (l_scheduler_ends _ _ 0 c); [reflexivity|cbn; set_solver]|]. cbn.
    eapply rtc_l; [eapply (l_stopped _ _ (S c)); [reflexivity|cbn; set_solver]|]. cbn. reflexivity.
  - cbn. split_and!; [done..|]. by rewrite <- replicate_S_end.
Qed.

(** Whatever the number, so many sweepers can come to run at once: each round
    of [Start] and [Stop] can add one. *)
Theorem sweepers_pile_up n : exists s c,
  reachable true s /\ lc_running s = true /\ lc_stop s = Some c /\ (c ∉ lc_closed s)
  /\ lc_sweepers s = replicate (S n) (Selecting c).
Proof.
  assert (exists s, reachable true s /\ lc_running s = false /\ lc_waiting s = None /\ lc_schedulers s = []
            /\ lc_sweepers s = replicate n Working) as (s & Hs & Hr & Hw & Hg & Hk).
  { induction n as [|n (s & Hs & Hr & Hw & Hg & Hk)]; [exists new_lifecycle; by repeat split; apply rtc_refl|].
    destruct (sweep_left_behind s n) as (s' & H & Hs'); [done..|]. exists s'. split; [unfold reachable in *; by etrans|done]. }
  pose proof (reachable_lifecycle _ _ Hs) as [Hold _]. set (c := lc_next s).
  assert (length (replicate n Working) = n) as Hlen by apply length_replicate.
  assert (forall p q, <[n := q]> (replicate n Working ++ [p])%list = (replicate n Working ++ [q])%list) as Hi
    by (intros p q; by rewrite insert_app_r_alt, Hlen, Nat.sub_diag by (rewrite Hlen; done)).
  assert (forall p, (replicate n Working ++ [p])%list !! n = Some p) as Hj by (intros p; by apply list_lookup_middle).
  eexists. exists c. split.
  - unfold reachable. etrans; [exact Hs|]. eapply rtc_l; [by apply l_start|]. unfold start. rewrite Hr, Hw, Hg, Hk. cbn [app].
    eapply rtc_l; [eapply (l_sweeper _ _ n); [apply Hj|apply ls_begin]|]. cbn. rewrite Hi.
    eapply rtc_l; [eapply (l_sweeper _ _ n); [apply Hj|by apply (ls_enter _ c)]|]. cbn. rewrite Hi.
    by apply (sweepers_select _ c [Selecting c] n _ []).
  - cbn. split_and!; [done|done| |by rewrite <- replicate_S_end]. intros Hc. specialize (Hold _ Hc). unfold c in Hold. lia.
Qed.

(** ** The locks of the instances *)
Local Open Scope Z_scope.

(** [lockFor]: the stripe of an instance, FNV-1a on 32 bits. *)
Definition stripes : Z := 64.
Definition fnv_byte (h : Z) (c : ascii) : Z := (Z.lxor h (byte_val c) * 16777619) mod 2 ^ 32.
Fixpoint fnv (h : Z) (s : string) : Z :=
  match s with EmptyString => h | String c s => fnv (fnv_byte h c) s end.
Definition lock_for (id : string) : Z := fnv 2166136261 id mod stripes.

Lemma fnv_range s : forall h, 0 <= h < 2 ^ 32 -> 0 <= fnv h s < 2 ^ 32.
Proof.
  induction s as [|c s IH]; intros h Hh; cbn [fnv]; [done|]. apply IH. unfold fnv_byte. by apply Z.mod_pos_bound.
Qed.
(** The hash stays a [uint32] and every instance has one of the stripes. *)
Lemma lock_for_range id : 0 <= fnv 2166136261 id < 2 ^ 32 /\ 0 <= lock_for id < stripes.
Proof. split; [by apply fnv_range|]. by apply Z.mod_pos_bound. Qed.
(** Two instances can share a stripe, which makes a call for the one wait for
    the other. *)
Example shared_stripe : lock_for "inst_1" = lock_for "inst_q".
Proof. vm_compute. reflexivity. Qed.
