(* ===== verification/Otel.v ===== *)
(** * Trace export ([src/otel/otel.go])

    The exporter turns the engine's events into spans: one for an instance, one
    for each activation of an element.  Spans wait in a buffer that a loop sends
    to a collector.  The outcome of a request is an argument; [TraceHash] is the
    hash that names the trace of an instance started without one. *)
From Stdlib Require Import Ascii.
From S2P Require Import Prelude GoFloat GoUtf8 GoTime ExprValue StoreTypes EngineBase.
Local Open Scope go_scope.
Local Open Scope string_scope.
Local Open Scope Z_scope.

Class TraceHash := trace_hash : string -> string.

Record span := {
  sp_trace : string; sp_id : string; sp_parent : string; sp_name : string; sp_start : Z; sp_end : Z;
  sp_attrs : list (string * string);
}.
(** [open]: the times at which an element was activated, the last one at the
    end. *)
Record instTrace := {
  it_trace : string; it_root : string; it_parent : string; it_name : string; it_started : Z;
  it_open : gmap string (list Z);
}.
Definition set_it_open (v : gmap string (list Z)) (t : instTrace) : instTrace :=
  {| it_trace := it_trace t; it_root := it_root t; it_parent := it_parent t; it_name := it_name t;
     it_started := it_started t; it_open := v |}.
(** [Exporter]; [x_flight] is the batch that a flush has taken. *)
Record Exporter := {
  x_batch : Z; x_base : string; x_seq : Z; x_insts : gmap string instTrace; x_buf : list span;
  x_flight : option (list span);
}.
Definition set_x_seq (v : Z) (x : Exporter) : Exporter :=
  {| x_batch := x_batch x; x_base := x_base x; x_seq := v; x_insts := x_insts x; x_buf := x_buf x; x_flight := x_flight x |}.
Definition set_x_insts (v : gmap string instTrace) (x : Exporter) : Exporter :=
  {| x_batch := x_batch x; x_base := x_base x; x_seq := x_seq x; x_insts := v; x_buf := x_buf x; x_flight := x_flight x |}.
Definition set_x_buf (v : list span) (x : Exporter) : Exporter :=
  {| x_batch := x_batch x; x_base := x_base x; x_seq := x_seq x; x_insts := x_insts x; x_buf := v; x_flight := x_flight x |}.
Definition set_x_flight (v : option (list span)) (x : Exporter) : Exporter :=
  {| x_batch := x_batch x; x_base := x_base x; x_seq := x_seq x; x_insts := x_insts x; x_buf := x_buf x; x_flight := v |}.

(** [Config] and [New]; [base] are the four random bytes. *)
Record Config := { cf_service : string; cf_batch : Z; cf_interval : Z }.
Definition with_defaults (c : Config) : Config :=
  {| cf_service := if String.eqb (cf_service c) "" then "fliable" else cf_service c;
     cf_batch := if cf_batch c <=? 0 then 512 else cf_batch c;
     cf_interval := if cf_interval c <=? 0 then 5 * second else cf_interval c |}.
Definition new_exporter (c : Config) (base : string) : Exporter :=
  {| x_batch := cf_batch (with_defaults c); x_base := base; x_seq := 0; x_insts := ∅; x_buf := []; x_flight := None |}.

Section otel.
Context {TH : TraceHash} {MO : MapOrder}.

(** ** Identifiers *)
Definition byte_at (z shift : Z) : Z := Z.land (Z.shiftr z shift) 255.
Definition span_id (base : string) (seq : Z) : string :=
  base ++ hex_pad 2 (byte_at seq 24) (hex_pad 2 (byte_at seq 16) (hex_pad 2 (byte_at seq 8) (hex_pad 2 (byte_at seq 0) ""))).
(** [nextSpanID]; [x_base] holds the four bytes in hexadecimal. *)
Definition next_span_id (x : Exporter) : string * Exporter :=
  let seq := (x_seq x + 1) mod 2 ^ 64 in (span_id (x_base x) seq, set_x_seq seq x).

(** ** The buffer *)
Definition buffer_limit (x : Exporter) : Z := 16 * x_batch x.
(** [bufferLocked]: on overflow the older half goes. *)
Definition buffer (s : span) (x : Exporter) : Exporter :=
  let buf := (x_buf x ++ [s])%list in
  set_x_buf (if buffer_limit x <? Z.of_nat (length buf) then drop (Nat.div (length buf) 2) buf else buf) x.

(** ** Events *)
Definition detail_string (k : string) (ev : HistoryEvent) : string :=
  match vget (hv_detail ev) k with VStr s => s | _ => "" end.
Definition start_trace (ev : HistoryEvent) (x : Exporter) : Exporter :=
  let '(root, x) := next_span_id x in
  let key := detail_string "definitionKey" ev in
  let tp := detail_string "traceparent" ev in
  let given := slen tp =? 55 in
  let it := {| it_trace := if given then sslice 3 35 tp else trace_hash (hv_inst ev); it_root := root;
               it_parent := if given then sslice 36 52 tp else "";
               it_name := if String.eqb key "" then "process" else "process " ++ key;
               it_started := hv_time ev; it_open := ∅ |} in
  set_x_insts (<[hv_inst ev := it]> (x_insts x)) x.
Definition activate (ev : HistoryEvent) (x : Exporter) : Exporter :=
  match x_insts x !! hv_inst ev with
  | Some it =>
      if String.eqb (hv_element ev) "" then x
      else
        let starts := default [] (it_open it !! hv_element ev) in
        set_x_insts (<[hv_inst ev := set_it_open (<[hv_element ev := (starts ++ [hv_time ev])%list]> (it_open it)) it]> (x_insts x)) x
  | None => x
  end.
(** [closeElement] *)
Definition close_element (ev : HistoryEvent) (note : string) (x : Exporter) : Exporter :=
  match x_insts x !! hv_inst ev with
  | None => x
  | Some it =>
      if String.eqb (hv_element ev) "" then x
      else
        match last (default [] (it_open it !! hv_element ev)) with
        | None => x
        | Some start =>
            let rest := removelast (default [] (it_open it !! hv_element ev)) in
            let open := match rest with [] => delete (hv_element ev) (it_open it) | _ => <[hv_element ev := rest]> (it_open it) end in
            let x := set_x_insts (<[hv_inst ev := set_it_open open it]> (x_insts x)) x in
            let '(id, x) := next_span_id x in
            buffer {| sp_trace := it_trace it; sp_id := id; sp_parent := it_root it; sp_name := hv_element ev;
                      sp_start := start; sp_end := hv_time ev;
                      sp_attrs := ("fliable.instance", hv_inst ev) :: (if String.eqb note "" then [] else [("fliable.note", note)]) |} x
        end
  end.
(** Spans of what is still open when the instance ends. *)
Definition dangling (ev : HistoryEvent) (it : instTrace) (x : Exporter) (el : string * Z) : Exporter :=
  let '(id, x) := next_span_id x in
  buffer {| sp_trace := it_trace it; sp_id := id; sp_parent := it_root it; sp_name := el.1; sp_start := el.2; sp_end := hv_time ev;
            sp_attrs := [("fliable.instance", hv_inst ev); ("fliable.unfinished", "true")] |} x.
Definition open_spans (n : nat) (it : instTrace) : list (string * Z) :=
  mjoin (map (fun kt => map (pair kt.1) kt.2) (map_range n (it_open it))).
Definition end_trace (n : nat) (ev : HistoryEvent) (x : Exporter) : Exporter :=
  match x_insts x !! hv_inst ev with
  | None => x
  | Some it =>
      let x := fold_left (dangling ev it) (open_spans n it) x in
      let status := if String.eqb (hv_type ev) HistInstanceTerminated then "terminated" else "completed" in
      let x := buffer {| sp_trace := it_trace it; sp_id := it_root it; sp_parent := it_parent it; sp_name := it_name it;
                         sp_start := it_started it; sp_end := hv_time ev;
                         sp_attrs := [("fliable.instance", hv_inst ev); ("fliable.outcome", status)] |} x in
      set_x_insts (delete (hv_inst ev) (x_insts x)) x
  end.
(** [consume]; [n] numbers the call, for the order of the map. *)
Definition closing_types : list string := [HistElementCompleted; HistTaskCompleted; HistTaskCanceled; HistAgentCompleted].
Definition consume (n : nat) (ev : HistoryEvent) (x : Exporter) : Exporter :=
  let has_type t := String.eqb (hv_type ev) t in
  if has_type HistInstanceStarted then start_trace ev x
  else if has_type HistElementActivated then activate ev x
  else if existsb has_type closing_types then close_element ev "" x
  else if has_type HistIncidentCreated then close_element ev "incident" x
  else if has_type HistInstanceCompleted || has_type HistInstanceTerminated then end_trace n ev x
  else x.

(** ** Export *)
Record otlp_span := {
  os_trace : string; os_id : string; os_parent : option string; os_name : string; os_start : string; os_end : string;
  os_attrs : list (string * string);
}.
Definition to_otlp (s : span) : otlp_span :=
  {| os_trace := sp_trace s; os_id := sp_id s; os_parent := if String.eqb (sp_parent s) "" then None else Some (sp_parent s);
     os_name := sp_name s; os_start := fmt_int (wrap64 (sp_start s)); os_end := fmt_int (wrap64 (sp_end s)); os_attrs := sp_attrs s |}.
(** What becomes of a request: no answer, or a status. *)
Inductive reply := NoAnswer | Status (code : Z).
Definition accepted (r : reply) : bool := match r with NoAnswer => false | Status code => Z.quot code 100 =? 2 end.
(** [Flush]: the buffer is taken, the request runs while events go on, and a
    failed batch goes back in front. *)
Definition flush_begin (x : Exporter) : Exporter :=
  match x_flight x, x_buf x with
  | None, _ :: _ => set_x_flight (Some (x_buf x)) (set_x_buf [] x)
  | _, _ => x
  end.
Definition flush_end (r : reply) (x : Exporter) : Exporter :=
  match x_flight x with
  | None => x
  | Some batch => set_x_flight None (if accepted r then x else set_x_buf (batch ++ x_buf x)%list x)
  end.

(** A run of the exporter. *)
Inductive xevent := XEvent (ev : HistoryEvent) | XFlush | XReply (r : reply).
Definition xstep (n : nat) (e : xevent) (x : Exporter) : Exporter :=
  match e with XEvent ev => consume n ev x | XFlush => flush_begin x | XReply r => flush_end r x end.
Fixpoint xrun (n : nat) (es : list xevent) (x : Exporter) : Exporter :=
  match es with [] => x | e :: es => xrun (S n) es (xstep n e x) end.
End otel.

(** ** The buffer of an unreachable collector *)
Section buffer.
Context {TH : TraceHash} {MO : MapOrder}.
Lemma buffer_bound s x : 0 < x_batch x -> Z.of_nat (length (x_buf x)) <= buffer_limit x ->
  Z.of_nat (length (x_buf (buffer s x))) <= buffer_limit x.
Proof.
  intros Hb Hx. unfold buffer. cbn [x_buf set_x_buf]. rewrite length_app. cbn [length].
  destruct (Z.ltb_spec (buffer_limit x) (Z.of_nat (length (x_buf x) + 1))) as [Hlt|]; [|rewrite length_app; cbn [length]; lia].
  rewrite length_drop, length_app. cbn [length]. set (n := (length (x_buf x) + 1)%nat) in *.
  assert (Z.of_nat n = buffer_limit x + 1) as Hn by lia. pose proof (Nat.div_mod_eq n 2). pose proof (Nat.mod_upper_bound n 2).
  unfold buffer_limit in *. lia.
Qed.
Lemma buffer_keep s x : Z.of_nat (S (length (x_buf x))) <= buffer_limit x -> buffer s x = set_x_buf (x_buf x ++ [s])%list x.
Proof.
  intros H. unfold buffer. rewrite length_app. cbn [length]. replace (length (x_buf x) + 1)%nat with (S (length (x_buf x))) by lia.
  by rewrite (proj2 (Z.ltb_ge _ _) H).
Qed.

(** The buffer of an exporter stays within its limit. *)
Definition within (x : Exporter) : Prop := 0 < x_batch x /\ Z.of_nat (length (x_buf x)) <= buffer_limit x.
Lemma within_buffer s x : within x -> within (buffer s x).
Proof. intros [H1 H2]. split; [done|]. change (buffer_limit (buffer s x)) with (buffer_limit x). by apply buffer_bound. Qed.
Lemma within_fold ev it l x : within x -> within (fold_left (dangling ev it) l x).
Proof. revert x. induction l as [|el l IH]; intros x Hx; cbn [fold_left]; [done|]. apply IH. by apply within_buffer. Qed.
Lemma within_insts v x : within x -> within (set_x_insts v x). Proof. done. Qed.
Lemma within_close ev note x : within x -> within (close_element ev note x).
Proof.
  intros Hx. unfold close_element. destruct (_ !! _) as [it|]; [|done]. destruct (String.eqb _ _); [done|].
  destruct (last _) as [start|]; [|done]. cbn [next_span_id]. by apply within_buffer.
Qed.
Lemma within_consume n ev x : within x -> within (consume n ev x).
Proof.
  intros Hx. unfold consume. cbv zeta. destruct (String.eqb _ HistInstanceStarted); [done|].
  destruct (String.eqb _ HistElementActivated).
  { unfold activate. destruct (_ !! _); [|done]. by destruct (String.eqb _ _). }
  destruct (existsb _ _); [by apply within_close|]. destruct (String.eqb _ HistIncidentCreated); [by apply within_close|].
  destruct (_ || _); [|done]. unfold end_trace. destruct (_ !! _); [|done]. by apply within_insts, within_buffer, within_fold.
Qed.
Definition all_accepted (es : list xevent) : Prop := Forall (fun e => match e with XReply r => accepted r = true | _ => True end) es.
Lemma within_run n es x : all_accepted es -> within x -> within (xrun n es x).
Proof.
  intros Hes. revert n x. induction Hes as [|e es He _ IH]; intros n x Hx; cbn [xrun]; [done|]. apply IH.
  destruct e as [ev| |r]; cbn [xstep]; [by apply within_consume| |].
  - unfold flush_begin. destruct (x_flight x); [done|]. destruct (x_buf x) eqn:Eb; [done|]. destruct Hx as [Hb _]. split; [done|].
    unfold buffer_limit. cbn in *. lia.
  - unfold flush_end. rewrite He. by destruct (x_flight x).
Qed.

(** A process that starts and ends: one span. *)
Definition hist (type inst element : string) (t : Z) (d : vars) : HistoryEvent :=
  {| hv_seq := 0; hv_inst := inst; hv_time := t; hv_type := type; hv_element := element; hv_detail := d |}.
Definition short_run : list xevent := [XEvent (hist HistInstanceStarted "i" "" 0 ∅); XEvent (hist HistInstanceCompleted "i" "" 1 ∅)].
(** The collector is asked, the events come, it does not answer. *)
Definition cycle : list xevent := XFlush :: short_run ++ [XReply NoAnswer].
Fixpoint cycles (k : nat) : list xevent := match k with O => [] | S k => cycle ++ cycles k end.

Lemma short_run_grows n x : 0 < x_batch x -> x_insts x = ∅ -> (length (x_buf x) <= 1)%nat ->
  exists s seq, xrun n short_run x = set_x_buf (x_buf x ++ [s])%list (set_x_seq seq x).
Proof.
  intros Hb Hi Hl. unfold short_run. cbn [xrun xstep].
  change (consume n (hist HistInstanceStarted "i" "" 0 ∅) x) with (start_trace (hist HistInstanceStarted "i" "" 0 ∅) x).
  set (y := start_trace _ x).
  change (consume (S n) (hist HistInstanceCompleted "i" "" 1 ∅) y) with (end_trace (S n) (hist HistInstanceCompleted "i" "" 1 ∅) y).
  unfold end_trace, y, start_trace, next_span_id. cbn [x_insts set_x_insts set_x_seq hv_inst hist]. rewrite Hi, lookup_insert_eq.
  unfold open_spans. cbn [it_open]. unfold map_range. rewrite map_to_list_empty. cbn [map fst].
  assert (forall k, range_keys k [] = []) as Hr by (intros k; apply Permutation_nil, symmetry, range_keys_perm).
  rewrite Hr. cbn. rewrite buffer_keep by (unfold buffer_limit; cbn; lia).
  destruct x as [b base q insts buf fl]. cbn in *. rewrite Hi. do 2 eexists. unfold set_x_buf, set_x_insts, set_x_seq. cbn.
  by rewrite delete_insert_id by apply lookup_empty.
Qed.
Lemma xrun_app n es es' x : xrun n (es ++ es')%list x = xrun (n + length es) es' (xrun n es x).
Proof.
  revert n x. induction es as [|e es IH]; intros n x; cbn [app xrun length]; [f_equal; lia|]. rewrite IH. f_equal. lia.
Qed.
Lemma cycles_grow k n x : 0 < x_batch x -> x_insts x = ∅ -> x_flight x = None -> x_buf x <> [] ->
  length (x_buf (xrun n (cycles k) x)) = (length (x_buf x) + k)%nat.
Proof.
  revert n x. induction k as [|k IH]; intros n x Hb Hi Hf Hne; cbn [cycles]; [cbn; lia|].
  unfold cycle. cbn [app xrun xstep]. unfold flush_begin. rewrite Hf. destruct (x_buf x) as [|s0 buf] eqn:Eb; [done|].
  rewrite <- app_assoc, xrun_app. set (y := set_x_flight (Some (s0 :: buf)) (set_x_buf [] x)).
  destruct (short_run_grows (S n) y) as (s & seq & ->); [done|done|cbn; lia|].
  cbn [app xrun xstep flush_end x_flight set_x_buf set_x_seq y set_x_flight accepted].
  rewrite IH by done. change (x_buf y) with (@nil span). cbn. rewrite length_app. cbn. lia.
Qed.

(** As long as no request fails, the buffer stays within its limit; but
    when the collector is unreachable and the events come while a request is
    under way, each failed batch goes back in front of them and nothing is
    dropped: the buffer grows without bound. *)
Theorem buffer_grows c base :
  (forall es, all_accepted es -> within (xrun 0 es (new_exporter c base))) /\
  forall k, exists es, length (x_buf (xrun 0 es (new_exporter c base))) = S k.
Proof.
  assert (0 < x_batch (new_exporter c base)) as Hb.
  { cbn. destruct (Z.leb_spec (cf_batch c) 0); lia. }
  split.
  - intros es Hes. apply within_run; [done|]. split; [done|]. unfold buffer_limit. cbn [x_buf new_exporter length]. lia.
  - intros k. exists (short_run ++ cycles k)%list. rewrite xrun_app.
    destruct (short_run_grows 0 (new_exporter c base)) as (s & seq & ->); [done|done|cbn; lia|].
    rewrite cycles_grow; [done|done|done|done|]. done.
Qed.
End buffer.
