(* ===== verification/OtelSpans.v ===== *)
(** * No span is lost

    Over any interleaving of the events of many instances, the spans of one of
    them that has started and ended are one for each activation of an element
    and one for the instance itself, all of the same trace. *)
From S2P Require Import Prelude GoFloat GoUtf8 GoTime ExprValue StoreTypes EngineBase Otel.
Local Open Scope go_scope.
Local Open Scope string_scope.
Local Open Scope Z_scope.

(** ** Sums over a map *)
Definition msum {A} (f : A -> nat) (m : gmap string A) : nat := sum_list (map (fun kx => f kx.2) (map_to_list m)).
Lemma sum_perm (l l' : list nat) : l ≡ₚ l' -> sum_list l = sum_list l'.
Proof. induction 1; cbn; lia. Qed.
Lemma msum_empty {A} (f : A -> nat) : msum f ∅ = 0%nat.
Proof. unfold msum. by rewrite map_to_list_empty. Qed.
Lemma msum_insert {A} (f : A -> nat) m k x : m !! k = None -> msum f (<[k := x]> m) = (f x + msum f m)%nat.
Proof.
  intros H. unfold msum. rewrite (sum_perm _ _ (fmap_Permutation (fun kx : string * A => f kx.2) _ _ (map_to_list_insert m k x H))). done.
Qed.
Lemma msum_delete {A} (f : A -> nat) m k x : m !! k = Some x -> msum f m = (f x + msum f (delete k m))%nat.
Proof. intros H. rewrite <- (msum_insert f (delete k m) k x) by apply lookup_delete_eq. by rewrite insert_delete_id. Qed.
Lemma msum_over {A} (f : A -> nat) m k x y : m !! k = Some y -> (msum f (<[k := x]> m) + f y = f x + msum f m)%nat.
Proof.
  intros H. rewrite <- insert_delete_eq, msum_insert by apply lookup_delete_eq. rewrite (msum_delete f m k y H). lia.
Qed.

Section spans.
Context {TH : TraceHash} {MO : MapOrder}.

(** ** What an instance has open, and what the exporter still owes *)
Definition opens (it : instTrace) : nat := msum (@length Z) (it_open it).
Definition owed (x : Exporter) : nat := (length (x_buf x) + msum (fun it => S (opens it)) (x_insts x))%nat.
Lemma open_spans_length n it : length (open_spans n it) = opens it.
Proof.
  unfold open_spans, opens, msum.
  assert (forall l : list (string * list Z), length (mjoin (map (fun kt => map (pair kt.1) kt.2) l)) = sum_list (map (fun kx => length kx.2) l)) as H.
  { induction l as [|x l IH]; [done|].
    change (length (map (pair x.1) x.2 ++ mjoin (map (fun kt : string * list Z => map (pair kt.1) kt.2) l))
      = (length x.2 + sum_list (map (fun kx : string * list Z => length kx.2) l))%nat).
    by rewrite length_app, length_map, IH. }
  rewrite H. apply sum_perm, fmap_Permutation, map_range_perm.
Qed.
Definition of_inst (id : string) (s : span) : bool :=
  match sp_attrs s with (k, v) :: _ => String.eqb k "fliable.instance" && String.eqb v id | [] => false end.
Definition belongs (id : string) (it : instTrace) (s : span) : Prop :=
  of_inst id s = true /\ sp_trace s = it_trace it /\ sp_parent s = it_root it.
(** The span of the instance. *)
Definition root_span (it : instTrace) (ev : HistoryEvent) (s : span) : Prop :=
  of_inst (hv_inst ev) s = true /\ sp_trace s = it_trace it /\ sp_id s = it_root it /\ sp_parent s = it_parent it /\
  sp_name s = it_name it /\ sp_start s = it_started it /\ sp_end s = hv_time ev.
(** What a step adds to the buffer, while nothing is dropped. *)
Lemma dangling_fold ev it l x :
  Z.of_nat (length (x_buf x) + length l) <= buffer_limit x ->
  exists ss seq, fold_left (dangling ev it) l x = set_x_seq seq (set_x_buf (x_buf x ++ ss)%list x) /\
    length ss = length l /\ Forall (belongs (hv_inst ev) it) ss.
Proof.
  revert x. induction l as [|el l IH]; intros x Hl; cbn [fold_left].
  - exists [], (x_seq x). split_and!; [|done|constructor]. destruct x. unfold set_x_seq, set_x_buf. cbn. by rewrite app_nil_r.
  - unfold dangling at 2. cbn [next_span_id length] in *. rewrite buffer_keep by (cbn; unfold buffer_limit in *; cbn in *; lia).
    set (s := {| sp_trace := _ |}).
    match goal with |- context [fold_left _ l ?y] => destruct (IH y) as (ss & seq & -> & Hss & Hall) end.
    { unfold buffer_limit in *. cbn. rewrite length_app. cbn. lia. }
    exists (s :: ss), seq. split_and!; [|cbn; by rewrite Hss|constructor; [|done]].
    + cbn [x_buf set_x_buf set_x_seq]. by rewrite <- app_assoc.
    + split; [|done]. unfold of_inst. cbn. by rewrite !String.eqb_refl.
Qed.

(** ** The events of an instance *)
Definition starts (ev : HistoryEvent) : bool := String.eqb (hv_type ev) HistInstanceStarted.
Definition ends (ev : HistoryEvent) : bool :=
  String.eqb (hv_type ev) HistInstanceCompleted || String.eqb (hv_type ev) HistInstanceTerminated.
Definition activates (ev : HistoryEvent) : bool := String.eqb (hv_type ev) HistElementActivated && negb (String.eqb (hv_element ev) "").
Definition closes (ev : HistoryEvent) : bool :=
  existsb (String.eqb (hv_type ev)) closing_types || String.eqb (hv_type ev) HistIncidentCreated.
Inductive kind := KStart | KEnd | KActivate | KClose | KOther.
Definition kind_of (ev : HistoryEvent) : kind :=
  if starts ev then KStart else if String.eqb (hv_type ev) HistElementActivated then KActivate
  else if closes ev then KClose else if ends ev then KEnd else KOther.
Lemma consume_kind n ev x :
  consume n ev x = match kind_of ev with
                   | KStart => start_trace ev x | KActivate => activate ev x | KEnd => end_trace n ev x | KOther => x
                   | KClose => close_element ev (if existsb (String.eqb (hv_type ev)) closing_types then "" else "incident") x
                   end.
Proof.
  unfold consume, kind_of, starts, closes, ends. cbv zeta. destruct (String.eqb _ HistInstanceStarted); [done|].
  destruct (String.eqb _ HistElementActivated); [done|]. destruct (existsb _ _); [done|].
  destruct (String.eqb _ HistIncidentCreated); [done|]. cbn. by destruct (_ || _).
Qed.
Lemma ends_kind ev : ends ev = true -> kind_of ev = KEnd.
Proof.
  unfold kind_of, starts, closes, ends. destruct (String.eqb_spec (hv_type ev) HistInstanceCompleted) as [->|];
    [reflexivity|]. by destruct (String.eqb_spec (hv_type ev) HistInstanceTerminated) as [->|].
Qed.

(** What one event does, while nothing is dropped. *)
Definition same_trace (it it' : instTrace) : Prop := it' = set_it_open (it_open it') it.
Definition effect (ev : HistoryEvent) (x x' : Exporter) (ss : list span) : Prop :=
  let id := hv_inst ev in
  match kind_of ev with
  | KStart => ss = [] /\ exists it, x_insts x' !! id = Some it /\ opens it = 0%nat /\ it_started it = hv_time ev
  | KEnd => x_insts x' !! id = None /\
      match x_insts x !! id with
      | None => ss = []
      | Some it => exists cs root, ss = (cs ++ [root])%list /\ length cs = opens it /\ Forall (belongs id it) cs /\ root_span it ev root
      end
  | _ =>
      match x_insts x !! id with
      | None => ss = [] /\ x_insts x' !! id = None
      | Some it => exists it', x_insts x' !! id = Some it' /\ same_trace it it' /\ Forall (belongs id it) ss /\
          (length ss + opens it' = opens it + (if activates ev then 1 else 0))%nat
      end
  end.
Definition step_fits (ev : HistoryEvent) (x x' : Exporter) : Prop :=
  x_batch x' = x_batch x /\ (owed x' <= S (owed x))%nat /\
  (forall j, j <> hv_inst ev -> x_insts x' !! j = x_insts x !! j) /\
  exists ss, x_buf x' = (x_buf x ++ ss)%list /\ Forall (fun s => of_inst (hv_inst ev) s = true) ss /\ effect ev x x' ss.

Lemma same_trace_refl it : same_trace it it. Proof. by destruct it. Qed.
Lemma owed_insts x v k it : x_insts x !! k = Some it ->
  (owed (set_x_insts (<[k := v]> (x_insts x)) x) + S (opens it) = owed x + S (opens v))%nat.
Proof.
  intros H. unfold owed. cbn [x_buf x_insts set_x_insts]. pose proof (msum_over (fun it => S (opens it)) (x_insts x) k v it H) as Hm. cbv beta in Hm. lia.
Qed.
Lemma start_fits ev x : kind_of ev = KStart -> step_fits ev x (start_trace ev x).
Proof.
  intros Hk. unfold start_trace. cbn [next_span_id]. set (it := {| it_trace := _ |}). split_and!; [done| | |].
  - unfold owed. cbn [x_buf x_insts set_x_insts set_x_seq]. assert (opens it = 0%nat) as Ho by apply msum_empty.
    destruct (x_insts x !! hv_inst ev) as [old|] eqn:E.
    + pose proof (msum_over (fun it => S (opens it)) (x_insts x) (hv_inst ev) it old E) as H. cbv beta in H. lia.
    + rewrite (msum_insert _ _ _ _ E), Ho. lia.
  - intros j Hj. cbn. by rewrite lookup_insert_ne.
  - exists []. rewrite app_nil_r. split_and!; [done|constructor|]. unfold effect. rewrite Hk. split; [done|].
    exists it. cbn. rewrite lookup_insert_eq. split_and!; [done|apply msum_empty|done].
Qed.
Lemma idle_fits ev x : kind_of ev <> KStart -> kind_of ev <> KEnd \/ x_insts x !! hv_inst ev = None ->
  activates ev = false \/ x_insts x !! hv_inst ev = None -> step_fits ev x x.
Proof.
  intros Hs He Ha. split_and!; [done|lia|done|]. exists []. rewrite app_nil_r. split_and!; [done|constructor|].
  unfold effect. destruct (x_insts x !! hv_inst ev) as [it|] eqn:E.
  - destruct Ha as [Ha|?]; [|done]. destruct He as [He|?]; [|done]. rewrite Ha.
    destruct (kind_of ev); try done; (exists it; split_and!; [done|apply same_trace_refl|constructor|cbn; lia]).
  - by destruct (kind_of ev).
Qed.
Lemma activate_fits ev x : kind_of ev = KActivate -> step_fits ev x (activate ev x).
Proof.
  intros Hk. unfold activate. destruct (x_insts x !! hv_inst ev) as [it|] eqn:E; [|apply idle_fits; rewrite ?Hk; auto].
  destruct (String.eqb (hv_element ev) "") eqn:Ee.
  { apply idle_fits; rewrite ?Hk; [done|by left|left]. unfold activates. by rewrite Ee, andb_false_r. }
  set (it' := set_it_open _ it). assert (opens it' = S (opens it)) as Ho.
  { unfold opens, it'. cbn [it_open set_it_open]. destruct (it_open it !! hv_element ev) as [ts|] eqn:Et; cbn [default from_option id].
    - pose proof (msum_over (@length Z) (it_open it) (hv_element ev) (ts ++ [hv_time ev])%list ts Et) as H.
      rewrite length_app in H. cbn [length] in H. lia.
    - by rewrite (msum_insert _ _ _ _ Et). }
  split_and!; [done| | |].
  - pose proof (owed_insts x it' _ _ E). lia.
  - intros j Hj. cbn. by rewrite lookup_insert_ne.
  - exists []. rewrite app_nil_r. split_and!; [done|constructor|]. unfold effect. rewrite Hk, E.
    exists it'. cbn [x_insts set_x_insts]. rewrite lookup_insert_eq. split_and!; [done|done|constructor|].
    assert (activates ev = true) as ->.
    { unfold activates. rewrite Ee. unfold kind_of in Hk. destruct (starts ev); [done|]. by destruct (String.eqb _ HistElementActivated), (closes ev), (ends ev). }
    cbn. lia.
Qed.

Lemma owed_some x k it : x_insts x !! k = Some it -> (length (x_buf x) + S (opens it) <= owed x)%nat.
Proof. intros H. unfold owed. rewrite (msum_delete _ _ _ _ H). lia. Qed.
Definition popped (el : string) (ts : list Z) (m : gmap string (list Z)) : gmap string (list Z) :=
  match removelast ts with [] => delete el m | _ => <[el := removelast ts]> m end.
Lemma popped_sum el ts t m : m !! el = Some ts -> last ts = Some t -> (S (msum (@length Z) (popped el ts m)) = msum (@length Z) m)%nat.
Proof.
  intros Hm Hl. apply last_Some in Hl as [rest ->]. unfold popped.
  pose proof (msum_delete (@length Z) m el _ Hm) as Hd. rewrite length_app in Hd. cbn [length] in Hd.
  rewrite removelast_last. destruct rest as [|r rest]; [cbn in Hd; lia|].
  pose proof (msum_over (@length Z) m el (r :: rest) _ Hm) as Ho. rewrite length_app in Ho. cbn [length] in *. lia.
Qed.
Lemma close_fits ev note x : kind_of ev = KClose -> Z.of_nat (owed x) <= buffer_limit x -> step_fits ev x (close_element ev note x).
Proof.
  intros Hk Hx. assert (activates ev = false) as Ha.
  { unfold activates, kind_of in *. destruct (starts ev); [done|]. by destruct (String.eqb _ HistElementActivated). }
  assert (step_fits ev x x) as Hidle by (apply idle_fits; rewrite ?Hk; auto).
  unfold close_element. destruct (x_insts x !! hv_inst ev) as [it|] eqn:E; [|done].
  destruct (String.eqb (hv_element ev) ""); [done|]. destruct (last _) as [t|] eqn:El; [|done].
  cbn [next_span_id]. set (s := {| sp_trace := _ |}).
  destruct (it_open it !! hv_element ev) as [ts|] eqn:Et; [|done]. cbn [default from_option id] in *.
  change (match removelast ts with [] => delete (hv_element ev) (it_open it) | _ => <[hv_element ev := removelast ts]> (it_open it) end)
    with (popped (hv_element ev) ts (it_open it)).
  set (it' := set_it_open (popped (hv_element ev) ts (it_open it)) it).
  assert (S (opens it') = opens it) as Ho by (by apply (popped_sum _ ts t)).
  pose proof (owed_insts x it' _ _ E) as Hw. pose proof (owed_some x _ _ E) as Hs.
  rewrite buffer_keep by (unfold buffer_limit in *; cbn; lia).
  split_and!; [done| | |].
  - unfold owed in *. cbn [x_buf x_insts set_x_buf set_x_insts set_x_seq] in *. rewrite length_app. cbn [length]. lia.
  - intros j Hj. cbn. by rewrite lookup_insert_ne.
  - assert (belongs (hv_inst ev) it s) as Hb by (split; [|done]; unfold of_inst; cbn; by rewrite !String.eqb_refl).
    exists [s]. split_and!; [done|constructor; [apply Hb|constructor]|]. unfold effect. rewrite Hk, E.
    exists it'. cbn [x_insts set_x_insts set_x_buf set_x_seq]. rewrite lookup_insert_eq, Ha.
    split_and!; [done|done|by constructor|cbn [length]; lia].
Qed.
Lemma end_fits n ev x : kind_of ev = KEnd -> Z.of_nat (owed x) <= buffer_limit x -> step_fits ev x (end_trace n ev x).
Proof.
  intros Hk Hx. unfold end_trace. destruct (x_insts x !! hv_inst ev) as [it|] eqn:E; [|apply idle_fits; rewrite ?Hk; auto].
  pose proof (owed_some x _ _ E) as Hs.
  destruct (dangling_fold ev it (open_spans n it) x) as (cs & seq & -> & Hcs & Hall); [rewrite open_spans_length; lia|].
  rewrite open_spans_length in Hcs. set (root := {| sp_trace := _ |}).
  rewrite buffer_keep by (unfold buffer_limit in *; cbn in *; rewrite length_app; lia).
  split_and!; [done| | |].
  - unfold owed in *. cbn [x_buf x_insts set_x_buf set_x_insts set_x_seq]. rewrite (msum_delete _ _ _ _ E), !length_app. cbn [length]. lia.
  - intros j Hj. cbn. by rewrite lookup_delete_ne.
  - assert (root_span it ev root) as Hroot by (split_and!; try done; unfold of_inst; cbn; by rewrite !String.eqb_refl).
    exists (cs ++ [root])%list. split_and!.
    + cbn [x_buf set_x_buf set_x_insts set_x_seq]. by rewrite <- app_assoc.
    + apply Forall_app. split; [by eapply Forall_impl; [exact Hall|intros s []]|constructor; [apply Hroot|constructor]].
    + unfold effect. rewrite Hk, E. cbn [x_insts set_x_insts]. rewrite lookup_delete_eq. split; [done|]. by exists cs, root.
Qed.
Lemma consume_fits n ev x : Z.of_nat (owed x) <= buffer_limit x -> step_fits ev x (consume n ev x).
Proof.
  intros Hx. rewrite consume_kind. destruct (kind_of ev) eqn:Hk.
  - by apply start_fits.
  - by apply end_fits.
  - by apply activate_fits.
  - by apply close_fits.
  - apply idle_fits; rewrite ?Hk; [done|by left|left]. unfold activates, kind_of in *.
    destruct (starts ev); [done|]. by destruct (String.eqb _ HistElementActivated).
Qed.

(** ** Runs *)
Fixpoint feed (n : nat) (evs : list HistoryEvent) (x : Exporter) : Exporter :=
  match evs with [] => x | ev :: evs => feed (S n) evs (consume n ev x) end.
Definition spans_of (id : string) (x : Exporter) : list span := filter (fun s => of_inst id s = true) (x_buf x).
Definition room (evs : list HistoryEvent) (x : Exporter) : Prop := Z.of_nat (owed x + length evs) <= buffer_limit x.
Lemma room_step n ev evs x : room (ev :: evs) x -> step_fits ev x (consume n ev x) /\ room evs (consume n ev x).
Proof.
  unfold room. cbn [length]. intros H. assert (step_fits ev x (consume n ev x)) as Hs by (apply consume_fits; lia). split; [done|].
  destruct Hs as (Hb & Ho & _). unfold buffer_limit in *. rewrite Hb. lia.
Qed.
Lemma feed_app n a b x : feed n (a ++ b)%list x = feed (n + length a) b (feed n a x).
Proof.
  revert n x. induction a as [|ev a IH]; intros n x; cbn [app feed length]; [f_equal; lia|]. rewrite IH. f_equal. lia.
Qed.
Lemma spans_step id ev x x' : step_fits ev x x' -> hv_inst ev <> id -> x_insts x' !! id = x_insts x !! id /\ spans_of id x' = spans_of id x.
Proof.
  intros (_ & _ & Hi & ss & Hb & Hss & _) Hne. split; [by apply Hi|]. unfold spans_of. rewrite Hb, filter_app.
  assert (filter (fun s => of_inst id s = true) ss = []) as ->; [|by rewrite app_nil_r].
  clear Hb. induction Hss as [|s ss Hs _ IH]; [done|]. rewrite filter_cons, IH. case_decide as Hd; [|done]. exfalso. apply Hne.
  unfold of_inst in *. destruct (sp_attrs s) as [|[k v] l]; [done|]. apply andb_prop in Hs as [_ Hs], Hd as [_ Hd].
  apply String.eqb_eq in Hs, Hd. congruence.
Qed.
Lemma filter_all id ss : Forall (fun s => of_inst id s = true) ss -> filter (fun s => of_inst id s = true) ss = ss.
Proof. induction 1 as [|s ss Hs _ IH]; [done|]. rewrite filter_cons, decide_True by done. by f_equal. Qed.
Lemma own_step ev x x' ss : x_buf x' = (x_buf x ++ ss)%list -> Forall (fun s => of_inst (hv_inst ev) s = true) ss ->
  spans_of (hv_inst ev) x' = (spans_of (hv_inst ev) x ++ ss)%list.
Proof. intros Hb Hss. unfold spans_of. by rewrite Hb, filter_app, (filter_all _ ss). Qed.

Definition no_starts (id : string) (evs : list HistoryEvent) : Prop := Forall (fun ev => hv_inst ev = id -> starts ev = false) evs.
Definition no_ends (id : string) (evs : list HistoryEvent) : Prop := Forall (fun ev => hv_inst ev = id -> ends ev = false) evs.
Definition activations (id : string) (evs : list HistoryEvent) : nat :=
  length (filter (fun ev => hv_inst ev = id /\ activates ev = true) evs).
Lemma kind_running ev : starts ev = false -> kind_of ev <> KStart.
Proof. unfold kind_of. intros ->. destruct (String.eqb (hv_type ev) HistElementActivated); [done|]. destruct (closes ev); [done|]. by destruct (ends ev). Qed.
Lemma kind_ending ev : kind_of ev = KEnd -> ends ev = true.
Proof. unfold kind_of. destruct (starts ev); [done|]. destruct (String.eqb (hv_type ev) HistElementActivated); [done|]. destruct (closes ev); [done|]. by destruct (ends ev). Qed.

(** Before its start and after its end an instance leaves no trace. *)
Lemma feed_absent id evs n x : no_starts id evs -> room evs x -> x_insts x !! id = None ->
  x_insts (feed n evs x) !! id = None /\ spans_of id (feed n evs x) = spans_of id x /\
  (forall more, room (evs ++ more)%list x -> room more (feed n evs x)).
Proof.
  intros Hno. revert n x. induction Hno as [|ev evs Hev _ IH]; intros n x Hr Hx; cbn [feed app]; [by split_and!|].
  destruct (room_step n _ _ _ Hr) as [Hs Hr'].
  assert (x_insts (consume n ev x) !! id = None /\ spans_of id (consume n ev x) = spans_of id x) as [H1 H2].
  { destruct (decide (hv_inst ev = id)) as [E|Hne]; [|by destruct (spans_step id _ _ _ Hs Hne) as [-> ->]].
    destruct Hs as (_ & _ & _ & ss & Hb & Hss & He). unfold effect in He. rewrite E, Hx in He.
    rewrite <- E. rewrite (own_step _ _ _ _ Hb Hss), E.
    pose proof (kind_running _ (Hev E)). destruct (kind_of ev); try done; destruct He as [? ?]; simplify_eq; by rewrite app_nil_r. }
  destruct (IH (S n) (consume n ev x)) as (H3 & H4 & H5); [done|done|]. split_and!; [done|congruence|].
  intros more Hm. apply H5. by apply (room_step n ev (evs ++ more)%list x Hm).
Qed.
(** While it runs, each activation is a span or is open. *)
Lemma feed_running id evs n x it : no_starts id evs -> no_ends id evs -> room evs x -> x_insts x !! id = Some it ->
  exists it' new, x_insts (feed n evs x) !! id = Some it' /\ same_trace it it' /\
    spans_of id (feed n evs x) = (spans_of id x ++ new)%list /\ Forall (belongs id it) new /\
    (length new + opens it' = opens it + activations id evs)%nat /\
    (forall more, room (evs ++ more)%list x -> room more (feed n evs x)).
Proof.
  intros Hno. revert n x it. induction Hno as [|ev evs Hev _ IH]; intros n x it He Hr Hx; cbn [feed app].
  - exists it, []. rewrite app_nil_r. split_and!; first [done|apply same_trace_refl|by constructor|cbn; lia].
  - apply Forall_cons in He as [Hend He]. destruct (room_step n _ _ _ Hr) as [Hs Hr'].
    assert (exists it1 ss, x_insts (consume n ev x) !! id = Some it1 /\ same_trace it it1 /\
      spans_of id (consume n ev x) = (spans_of id x ++ ss)%list /\ Forall (belongs id it) ss /\
      (length ss + opens it1 = opens it + activations id [ev])%nat) as (it1 & ss & H1 & H2 & H3 & H4 & H5).
    { unfold activations. rewrite filter_cons, filter_nil. destruct (decide (hv_inst ev = id)) as [E|Hne].
      - destruct Hs as (_ & _ & _ & ss & Hb & Hss & Hf). unfold effect in Hf. rewrite E, Hx in Hf.
        pose proof (kind_running _ (Hev E)). assert (kind_of ev <> KEnd) by (intros Hk; apply kind_ending in Hk; by rewrite Hend in Hk).
        assert (exists it', x_insts (consume n ev x) !! id = Some it' /\ same_trace it it' /\ Forall (belongs id it) ss /\
          (length ss + opens it' = opens it + (if activates ev then 1 else 0))%nat) as (it' & ? & ? & ? & Hc) by (by destruct (kind_of ev)).
        exists it', ss. split_and!; try done; [rewrite <- E; by apply own_step|]. rewrite Hc. f_equal.
        destruct (activates ev); case_decide as Hd; try done; [exfalso; by apply Hd|by destruct Hd].
      - destruct (spans_step id _ _ _ Hs Hne) as [H1 ->]. exists it, []. rewrite H1, app_nil_r.
        split_and!; [done|apply same_trace_refl|done|constructor|]. case_decide as Hd; [by destruct Hd|cbn; lia]. }
    destruct (IH (S n) (consume n ev x) it1) as (it' & new & K1 & K2 & K3 & K4 & K5 & K6); [done..|].
    exists it', (ss ++ new)%list. unfold same_trace in *. split_and!; [done|by rewrite K2, H2| | | |].
    + by rewrite K3, H3, app_assoc.
    + apply Forall_app. split; [done|]. eapply Forall_impl; [exact K4|]. intros s. unfold belongs. by rewrite H2.
    + rewrite length_app. unfold activations in *. rewrite filter_cons, filter_nil in H5. rewrite filter_cons.
      case_decide; cbn [length] in *; lia.
    + intros more Hm. apply K6. by apply (room_step n ev (evs ++ more)%list x Hm).
Qed.

End spans.

(** ** Two instances at once *)
#[local] Instance plain_hash : TraceHash := fun s => s.
#[local] Existing Instance key_order.
