(* ===== verification/EngineCancel.v ===== *)
(** * Cancelling waits and ending instances
    ([src/engine/exec.go], [src/engine/events.go])

    The records a token waits for, and what happens to them when the token or
    the instance goes away. *)
From S2P Require Import Prelude GoFloat GoUtf8 GoTime ExprValue ExprLexer ExprFuncs StoreTypes StoreQuery StoreMemory BpmnModel EngineBase.
Local Open Scope string_scope.
Local Open Scope Z_scope.

(** Marks a token that waits for an embedded sub-process. *)
Definition scopeWaitRef := "__scope".

Section cancel.
Context {U : Unicode} {R : Regexp} {MO : MapOrder} {E : Engine} {PD : ParsedDef}.

Definition subs_of_inst (inst : string) : SubscriptionFilter :=
  {| sf_kind := None; sf_name := ""; sf_ckey := ""; sf_inst := inst; sf_start := None |}.

(** [dropTokenEventWaits], [cancelBoundaries]: the jobs and subscriptions of
    a token. *)
Definition drop_waits (tok : string) : M unit :=
  i ← inst_get;
  jobs ← lift (store_get (ListJobs (in_id i)));
  for_each (fun j => when (String.eqb (jb_token j) tok) (lift (store_put (DeleteJob (jb_id j))))) jobs ;;
  subs ← lift (store_get (ListSubscriptions (subs_of_inst (in_id i))));
  for_each (fun s => when (String.eqb (sb_token s) tok) (lift (store_put (DeleteSubscription (sb_id s))))) subs.

(** The [switch] of [cancelWaits]: the record of the token's wait. *)
Definition cancel_record (t : Token) : M unit :=
  match tk_state t with
  | TokenWaitTask =>
      r ← lift (store_get (GetTask (tk_wait t)));
      match r with
      | Some task =>
          when (bool_decide (ta_state task = TaskCreated))
            (lift (store_put (PutTask (set_ta_state TaskCanceled task))) ;;
             emit HistTaskCanceled (ta_element task) (detail [("taskId", VStr (ta_id task))]))
      | None => mret tt
      end
  | TokenWaitTimer | TokenWaitRetry =>
      when (nonempty (tk_wait t)) (lift (store_put (DeleteJob (tk_wait t))))
  | TokenWaitMessage | TokenWaitSignal =>
      when (nonempty (tk_wait t)) (lift (store_put (DeleteSubscription (tk_wait t))))
  | TokenWaitExternal =>
      r ← lift (store_get (GetExternalTask (tk_wait t)));
      match r with
      | Some x => when (bool_decide (ex_state x = ExternalPending))
                    (lift (store_put (PutExternalTask (set_ex_state ExternalFailed x))))
      | None => mret tt
      end
  | TokenWaitAgent =>
      r ← lift (store_get (GetAgentJob (tk_wait t)));
      match r with
      | Some x => when (bool_decide (ag_state x = AgentPending))
                    (lift (store_put (PutAgentJob (set_ag_state AgentFailed x))))
      | None => mret tt
      end
  | TokenWaitChild =>
      when (nonempty (tk_wait t) && negb (String.eqb (tk_wait t) scopeWaitRef))
        (push_cont (CCancel (tk_wait t) "parent scope cancelled"))
  | TokenWaitEvents => drop_waits (tk_id t)
  | _ => mret tt
  end.

(** [killScopeTokens], given [cancelWaits]. *)
Definition kill_scope_with (cancel : string -> M unit) (path owners : list string) (exclude : string) : M unit :=
  for_tokens (fun k t =>
    if negb (in_scope path owners t) then mret tt
    else if nonempty exclude && bool_decide (tk_scope t !! length path = Some exclude) then mret tt
    else cancel k ;; tok_del k).

(** [cancelActivity], given [cancelWaits]. *)
Definition cancel_activity_with (cancel : string -> M unit) (tok : string) : M unit :=
  t ← tok_get tok;
  let el := element_of t in
  cancel tok ;;
  match el with
  | None => mret tt
  | Some el =>
      when (bool_decide (el_type el = TypeSubProcess))
        (kill_scope_with cancel (tk_scope t ++ [el_id el])%list (tk_owners t ++ [tk_id t])%list "") ;;
      emit HistElementCompleted (el_id el) (detail [("canceled", VBool true)])
  end.

(** [for id, ch := range tokens { if ch.Parent == tok { cancelActivity(ch); delete } }] *)
Definition cancel_children_with (cancel : string -> M unit) (tok : string) : M unit :=
  for_tokens (fun k ch =>
    when (String.eqb (tk_parent ch) tok)
      (cancel_activity_with cancel k ;; tok_del k)).

(** [cancelWaits].  The recursion descends from loop coordinators to their
    iterations; the fuel bounds that depth. *)
Fixpoint cancel_waits_fuel (fuel : nat) (tok : string) : M unit :=
  match fuel with
  | O => out_of_fuel
  | S fuel =>
      t ← tok_get tok;
      cancel_record t ;;
      drop_waits (tk_id t) ;;
      i ← inst_get;
      match in_multi i !! tk_id t with
      | None => mret tt
      | Some _ =>
          cancel_children_with (cancel_waits_fuel fuel) (tk_id t) ;;
          inst_set (fun i => set_in_multi (delete (tk_id t) (in_multi i)) i)
      end
  end.
Definition cancel_waits (tok : string) : M unit :=
  i ← inst_get; cancel_waits_fuel (S (S (size (in_tokens i)))) tok.
Definition kill_scope := kill_scope_with cancel_waits.
Definition cancel_activity := cancel_activity_with cancel_waits.
Definition cancel_children := cancel_children_with cancel_waits.

(** ** The end of an instance *)
Definition created_tasks (inst : string) : TaskFilter :=
  {| tf_tenant := ""; tf_inst := inst; tf_assignee := ""; tf_unassigned := false; tf_user := "";
     tf_group := ""; tf_state := Some TaskCreated; tf_def_key := ""; tf_element := ""; tf_vars := [];
     tf_created_after := zero_time; tf_created_before := zero_time; tf_due_before := zero_time;
     tf_cursor := ""; tf_desc := false; tf_limit := 0 |}.
Definition instances_by (st : InstanceState) (parent : string) (ended_before limit : Z) : InstanceFilter :=
  {| if_tenant := ""; if_def_key := ""; if_def_id := ""; if_bkey := ""; if_state := Some st;
     if_parent := parent; if_vars := []; if_started_after := zero_time; if_started_before := zero_time;
     if_ended_after := zero_time; if_ended_before := ended_before; if_cursor := ""; if_desc := false;
     if_limit := limit |}.

(** [cleanupInstanceRecords]: every outstanding record of the instance is
    cancelled, and running children will be. *)
Definition cleanup_records : M unit :=
  i ← inst_get;
  tasks ← lift (store_get (ListTasks (created_tasks (in_id i))));
  for_each (fun t =>
    lift (store_put (PutTask (set_ta_state TaskCanceled t))) ;;
    emit HistTaskCanceled (ta_element t) (detail [("taskId", VStr (ta_id t))])) tasks ;;
  jobs ← lift (store_get (ListJobs (in_id i)));
  for_each (fun j => lift (store_put (DeleteJob (jb_id j)))) jobs ;;
  subs ← lift (store_get (ListSubscriptions (subs_of_inst (in_id i))));
  for_each (fun s => lift (store_put (DeleteSubscription (sb_id s)))) subs ;;
  exts ← lift (store_get (ListExternalTasks (in_id i)));
  for_each (fun x => when (bool_decide (ex_state x = ExternalPending))
    (lift (store_put (PutExternalTask (set_ex_state ExternalFailed x))))) exts ;;
  ajs ← lift (store_get (ListAgentJobs (in_id i)));
  for_each (fun a => when (bool_decide (ag_state a = AgentPending))
    (lift (store_put (PutAgentJob (set_ag_state AgentFailed a))))) ajs ;;
  children ← lift (store_get (ListInstances (instances_by InstanceActive (in_id i) zero_time 0)));
  for_each (fun ch => push_cont (CCancel (in_id ch) "parent ended")) children.

(** [notifyParent] *)
Definition notify_parent : M unit :=
  i ← inst_get;
  when (nonempty (in_parent i)) (push_cont (CNotify (in_parent i) (in_parent_tok i) (in_id i) (in_vars i))).

Definition complete_instance (end_element : string) : M unit :=
  now ← lift e_now;
  inst_set (fun i => set_in_ended now (set_in_state InstanceCompleted i)) ;;
  when (nonempty end_element) (inst_set (set_in_end_elem end_element)) ;;
  cleanup_records ;;
  emit HistInstanceCompleted end_element ∅ ;;
  notify_parent.

(** [for id := range rt.inst.Tokens { delete(rt.inst.Tokens, id) }] *)
Definition clear_tokens : M unit := for_tokens (fun k _ => tok_del k).

Definition terminate (reason : string) : M unit :=
  clear_tokens ;;
  now ← lift e_now;
  inst_set (fun i => set_in_ended now (set_in_state InstanceTerminated i)) ;;
  cleanup_records ;;
  emit HistInstanceTerminated "" (detail [("reason", VStr reason)]) ;;
  notify_parent.
End cancel.
