(* ===== verification/EngineFlow.v ===== *)
(** * Moving tokens: sequence flows, gateways, scopes and loops
    ([src/engine/exec.go], [src/engine/multiinstance.go]) *)
From S2P Require Import Prelude GoFloat GoUtf8 GoTime ExprValue ExprLexer ExprFuncs StoreTypes StoreQuery StoreMemory BpmnModel EngineBase EngineCancel.
Local Open Scope string_scope.
Local Open Scope Z_scope.

(** The local variable that marks an iteration of a loop. *)
Definition miChildFlag := "__miChild".
Definition is_mi_child (t : Token) (el : Element) : bool :=
  match tk_locals t !! miChildFlag with Some (VStr s) => String.eqb s (el_id el) | _ => false end.

Definition has_key {A} (m : gmap string A) (k : string) : bool :=
  match m !! k with Some _ => true | None => false end.
Definition or_default (s def : string) : string := if String.eqb s "" then def else s.
Definition or_default_int (n def : Z) : Z := if n <=? 0 then def else n.

Section flow.
Context {U : Unicode} {R : Regexp} {MO : MapOrder} {E : Engine} {PD : ParsedDef}.

(** ** Waits for events *)

(** [createEventWait]; the reference to the record goes into the token when
    [set_ref]. *)
Definition create_event_wait (tok : string) (el : Element) (ev : EventDefinition) (set_ref : bool) : M unit :=
  i ← inst_get;
  match ev_kind ev with
  | KindTimer =>
      env ← tok_env tok;
      r ← attempt (lift (timer_schedule ev env));
      match r with
      | inl err => raise_incident tok "" ("timer on " ++ el_id el ++ ": " ++ error_text err)
      | inr (due, repeats, interval) =>
          id ← lift (new_id "job");
          now ← lift e_now;
          lift (store_put (PutJob
            {| jb_id := id; jb_tenant := ""; jb_kind := JobTimer; jb_inst := in_id i; jb_def_key := "";
               jb_token := tok; jb_element := el_id el; jb_due := due; jb_repeats := repeats;
               jb_interval := interval; jb_retries := 3; jb_created := now |})) ;;
          when set_ref (tok_set tok (set_tk_wait id)) ;;
          emit HistTimerScheduled (el_id el) (detail [("dueAt", VStr (fmt_rfc3339 due))])
      end
  | KindMessage =>
      id ← lift (new_id "sub");
      now ← lift e_now;
      lift (store_put (PutSubscription
        {| sb_id := id; sb_tenant := ""; sb_kind := SubMessage; sb_name := ev_message ev;
           sb_ckey := in_bkey i; sb_inst := in_id i; sb_token := tok; sb_element := el_id el;
           sb_start := false; sb_def_key := ""; sb_created := now |})) ;;
      when set_ref (tok_set tok (set_tk_wait id))
  | KindSignal =>
      id ← lift (new_id "sub");
      now ← lift e_now;
      lift (store_put (PutSubscription
        {| sb_id := id; sb_tenant := ""; sb_kind := SubSignal; sb_name := ev_signal ev;
           sb_ckey := ""; sb_inst := in_id i; sb_token := tok; sb_element := el_id el;
           sb_start := false; sb_def_key := ""; sb_created := now |})) ;;
      when set_ref (tok_set tok (set_tk_wait id))
  | _ => mret tt
  end.

(** [registerBoundaries] *)
Definition register_boundaries (tok : string) (el : Element) : M unit :=
  t ← tok_get tok;
  c ← or_nil (scope_of t);
  for_each (fun b =>
    ev ← or_nil (el_event b);
    match ev_kind ev with
    | KindTimer | KindMessage | KindSignal => ignore (create_event_wait tok b ev false)
    | _ => mret tt
    end) (boundary_events c (el_id el)).

(** ** Moving over flows *)

(** [maybeAsync]: the job an asynchronous target asks for. *)
Definition maybe_async (tok : string) : M unit :=
  t ← tok_get tok;
  match element_of t with
  | None => mret tt
  | Some el =>
      when (el_async el)
        (id ← lift (new_id "job");
         i ← inst_get;
         due ← lift e_now;
         now ← lift e_now;
         lift (store_put (PutJob
           {| jb_id := id; jb_tenant := ""; jb_kind := JobAsync; jb_inst := in_id i; jb_def_key := "";
              jb_token := tok; jb_element := el_id el; jb_due := due; jb_repeats := 0; jb_interval := 0;
              jb_retries := 3; jb_created := now |})) ;;
         park tok TokenWaitRetry id)
  end.

(** [moveOver]: the token takes the first flow, new siblings the others. *)
Definition spawn_sibling (tok : string) (f : SequenceFlow) : M unit :=
  t ← tok_get tok;
  sib ← spawn_token (sq_target f) (tk_scope t) (tk_owners t) (tk_parent t) ∅;
  tok_set sib (fun x => set_tk_locals (tk_locals t) (set_tk_flow (sq_id f) x)) ;;
  maybe_async sib.
Definition move_over (tok : string) (flows : list SequenceFlow) : M unit :=
  match flows with
  | [] => panic "slice bounds out of range"
  | f :: rest =>
      for_each (spawn_sibling tok) rest ;;
      tok_set tok (fun t => set_tk_wait "" (set_tk_state TokenActive
                              (set_tk_flow (sq_id f) (set_tk_element (sq_target f) t)))) ;;
      maybe_async tok
  end.

(** Whether a flow's condition holds; no condition holds. *)
Definition flow_holds (env : vars) (f : SequenceFlow) : M bool :=
  if String.eqb (sq_cond f) "" then mret true else lift (expr_eval_bool (sq_cond f) env).

(** The flows of [ids] that exist, are not the default and whose condition
    [holds]; the error of the first condition that fails. *)
Definition keep_flow (b : bool) (f : SequenceFlow) (l : (SequenceFlow * goerr) + list SequenceFlow) :=
  match l with inl e => inl e | inr l => inr (if b then f :: l else l) end.
Fixpoint true_flows (c : Container) (default : string) (holds : SequenceFlow -> M bool) (ids : list string)
  : M ((SequenceFlow * goerr) + list SequenceFlow) :=
  match ids with
  | [] => mret (inr [])
  | fid :: ids =>
      match (if String.eqb fid default then None else c_flows c !! fid) with
      | None => true_flows c default holds ids
      | Some f =>
          r ← attempt (holds f);
          match r with
          | inl err => mret (inl (f, err))
          | inr b =>
              l ← true_flows c default holds ids;
              mret (keep_flow b f l)
          end
      end
  end.
Definition default_flow (c : Container) (el : Element) : list SequenceFlow :=
  if String.eqb (el_default el) "" then []
  else match c_flows c !! el_default el with Some f => [f] | None => [] end.

(** The selected flows, or else the default flow, or else an incident. *)
Definition take_selected (tok : string) (c : Container) (el : Element) (none : string)
    (r : (SequenceFlow * goerr) + list SequenceFlow) : M unit :=
  match r with
  | inl (f, err) => raise_incident tok "" ("condition on flow " ++ sq_id f ++ ": " ++ error_text err)
  | inr flows =>
      match (match flows with [] => default_flow c el | _ => flows end) with
      | [] => raise_incident tok "" none
      | flows => move_over tok flows
      end
  end.

Definition take_outgoing (tok : string) (el : Element) : M unit :=
  t ← tok_get tok;
  c ← or_nil (scope_of t);
  r ← true_flows c (el_default el) (fun f => env ← tok_env tok; flow_holds env f) (el_outgoing el);
  take_selected tok c el ("no outgoing flow taken from " ++ el_id el) r.

(** [leave] *)
Definition leave (tok : string) (el : Element) : M unit :=
  emit HistElementCompleted (el_id el) ∅ ;; take_outgoing tok el.

(** ** Gateways *)

(** [exclusiveGateway]: the first flow whose condition holds, or the default
    flow. *)
Fixpoint first_flow (c : Container) (default : string) (holds : SequenceFlow -> M bool) (ids : list string)
  : M ((SequenceFlow * goerr) + option SequenceFlow) :=
  match ids with
  | [] => mret (inr None)
  | fid :: ids =>
      match (if String.eqb fid default then None else c_flows c !! fid) with
      | None => first_flow c default holds ids
      | Some f =>
          r ← attempt (holds f);
          match r with
          | inl err => mret (inl (f, err))
          | inr true => mret (inr (Some f))
          | inr false => first_flow c default holds ids
          end
      end
  end.
Definition exclusive_gateway (tok : string) (el : Element) : M unit :=
  t ← tok_get tok;
  c ← or_nil (scope_of t);
  env ← tok_env tok;
  r ← first_flow c (el_default el) (flow_holds env) (el_outgoing el);
  match r with
  | inl (f, err) => raise_incident tok "" ("condition on flow " ++ sq_id f ++ ": " ++ error_text err)
  | inr o =>
      match (match o with Some f => [f] | None => default_flow c el end) with
      | f :: _ =>
          emit HistElementCompleted (el_id el) (detail [("flow", VStr (sq_id f))]) ;;
          move_over tok [f]
      | [] => raise_incident tok "" ("exclusive gateway " ++ el_id el
                                       ++ ": no condition matched and no default flow")
      end
  end.

(** The tokens that wait at the join in the token's scope instance. *)
Definition joining_at (tok : Token) (el : Element) (t : Token) : bool :=
  String.eqb (tk_element t) (el_id el) && bool_decide (tk_state t = TokenJoining) && same_scope t tok.

(** [parallelJoinReady] *)
Definition parallel_join_ready (i : Instance) (tok : Token) (el : Element) : bool :=
  let arrived := map tk_flow (keep (joining_at tok el) (tokens_of i)) in
  forallb (fun fid => existsb (String.eqb fid) arrived) (el_incoming el).

(** [mergeJoiningTokens]: one token for each other flow that has arrived;
    the flows consumed so far are kept in a list. *)
Fixpoint merge_loop (tok : Token) (el : Element) (consumed : list string) (keys : list string) : M unit :=
  match keys with
  | [] => mret tt
  | k :: keys =>
      t ← tok_live k;
      match t with
      | Some t =>
          if String.eqb (tk_id t) (tk_id tok) || negb (joining_at tok el t)
             || existsb (String.eqb (tk_flow t)) consumed
          then merge_loop tok el consumed keys
          else tok_del k ;; merge_loop tok el (tk_flow t :: consumed) keys
      | None => merge_loop tok el consumed keys
      end
  end.
Definition merge_joining (tok : string) (el : Element) : M unit :=
  t ← tok_get tok;
  n ← lift tick;
  i ← inst_get;
  merge_loop t el [tk_flow t] (range_keys n (map fst (map_to_list (in_tokens i)))) ;;
  tok_set tok (set_tk_state TokenActive).

(** [forkAll] *)
Definition fork_all (tok : string) (el : Element) : M unit :=
  t ← tok_get tok;
  c ← or_nil (scope_of t);
  match omap (fun fid => c_flows c !! fid) (el_outgoing el) with
  | [] => raise_incident tok "" ("gateway " ++ el_id el ++ " has no outgoing flows")
  | flows => move_over tok flows
  end.

Definition is_join (el : Element) : bool := Nat.ltb 1 (length (el_incoming el)).
Definition parallel_gateway (tok : string) (el : Element) : M unit :=
  ready ← (if is_join el then
             tok_set tok (set_tk_state TokenJoining) ;;
             t ← tok_get tok;
             i ← inst_get;
             if parallel_join_ready i t el then merge_joining tok el ;; mret true else mret false
           else mret true);
  when ready (emit HistElementCompleted (el_id el) ∅ ;; fork_all tok el).

(** [positionInScope]: the element of the reference token's scope on which a
    token stands, itself or by its sub-process. *)
Definition position_in_scope (t ref : Token) : option string :=
  if negb (path_prefix (tk_owners t) (tk_owners ref)) then None
  else if same_path (tk_scope t) (tk_scope ref) then Some (tk_element t)
  else if path_prefix (tk_scope t) (tk_scope ref) then tk_scope t !! length (tk_scope ref)
  else None.

(** [canReach]: breadth-first search.  The flows of an element are its own and
    those of its boundary events. *)
Definition next_flows (c : Container) (el : Element) (cur : string) : list string :=
  (el_outgoing el ++ flat_map el_outgoing (boundary_events c cur))%list.
Inductive visit := Found | Queue (seen : gset string) (queue : list string).
Fixpoint visit_flows (c : Container) (to : string) (seen : gset string) (queue : list string)
    (fids : list string) : visit :=
  match fids with
  | [] => Queue seen queue
  | fid :: fids =>
      match c_flows c !! fid with
      | None => visit_flows c to seen queue fids
      | Some f =>
          if bool_decide (sq_target f ∈ seen) then visit_flows c to seen queue fids
          else if String.eqb (sq_target f) to then Found
          else visit_flows c to ({[sq_target f]} ∪ seen) (queue ++ [sq_target f])%list fids
      end
  end.
Fixpoint reach_loop (fuel : nat) (c : Container) (to : string) (seen : gset string) (queue : list string)
  : option bool :=
  match queue with
  | [] => Some false
  | cur :: queue =>
      match fuel with
      | O => None
      | S fuel =>
          match c_elements c !! cur with
          | None => reach_loop fuel c to seen queue
          | Some el =>
              match visit_flows c to seen queue (next_flows c el cur) with
              | Found => Some true
              | Queue seen queue => reach_loop fuel c to seen queue
              end
          end
      end
  end.
(** Every flow puts its target into the queue at most once. *)
Definition reach_fuel (c : Container) : nat := S (size (c_flows c)).
Definition can_reach (c : Container) (from to : string) : option bool :=
  if String.eqb from to then Some true else reach_loop (reach_fuel c) c to {[from]} [from].

(** [inclusiveJoinReady]: no other token can still reach the gateway. *)
Definition blocks_join (c : Container) (tok : Token) (el : Element) (t : Token) : option bool :=
  if String.eqb (tk_id t) (tk_id tok) || joining_at tok el t then Some false
  else match position_in_scope t tok with
       | None => Some false
       | Some pos => can_reach c pos (el_id el)
       end.
Fixpoint inclusive_join_ready (c : Container) (tok : Token) (el : Element) (ts : list Token) : option bool :=
  match ts with
  | [] => Some true
  | t :: ts =>
      match blocks_join c tok el t with
      | None => None
      | Some true => Some false
      | Some false => inclusive_join_ready c tok el ts
      end
  end.

Definition merge_all_joining (tok : string) (el : Element) : M unit :=
  t ← tok_get tok;
  for_tokens (fun k x =>
    when (negb (String.eqb (tk_id x) (tk_id t)) && joining_at t el x) (tok_del k)) ;;
  tok_set tok (set_tk_state TokenActive).
Definition inclusive_gateway (tok : string) (el : Element) : M unit :=
  go ← (if is_join el then
          tok_set tok (set_tk_state TokenJoining) ;;
          t ← tok_get tok;
          i ← inst_get;
          c ← or_nil (scope_of t);
          match inclusive_join_ready c t el (tokens_of i) with
          | None => out_of_fuel
          | Some true => merge_all_joining tok el ;; mret true
          | Some false => mret false
          end
        else mret true);
  when go
    (emit HistElementCompleted (el_id el) ∅ ;;
     t ← tok_get tok;
     c ← or_nil (scope_of t);
     env ← tok_env tok;
     r ← true_flows c (el_default el) (flow_holds env) (el_outgoing el);
     take_selected tok c el ("inclusive gateway " ++ el_id el ++ ": no flow taken") r).

(** [eventBasedGateway]: the token waits for the first of its targets. *)
Definition event_based_gateway (tok : string) (el : Element) : M unit :=
  t ← tok_get tok;
  c ← or_nil (scope_of t);
  park tok TokenWaitEvents "" ;;
  for_each (fun fid =>
    match c_flows c !! fid with
    | None => mret tt
    | Some f =>
        match c_elements c !! sq_target f with
        | None => mret tt
        | Some target =>
            match el_event target with
            | None => mret tt
            | Some ev => create_event_wait tok target ev false
            end
        end
    end) (el_outgoing el).

(** ** Mappings of variables *)

(** [applyInputs] into the token's locals, [applyOutputs] into the instance. *)
Definition apply_inputs (el : Element) (tok : string) : M unit :=
  if match el_inputs el with [] => true | _ => false end || bool_decide (el_type el = TypeCallActivity)
  then mret tt
  else
    env ← tok_env tok;
    for_each (fun m =>
      v ← lift (expr_eval (io_source m) env);
      tok_set tok (fun t => set_tk_locals (<[io_target m := v]> (tk_locals t)) t)) (el_inputs el).
Definition apply_outputs (el : Element) (tok : string) : M unit :=
  if match el_outputs el with [] => true | _ => false end || bool_decide (el_type el = TypeCallActivity)
  then mret tt
  else
    env ← tok_env tok;
    for_each (fun m => v ← lift (expr_eval (io_source m) env); set_var (io_target m) v) (el_outputs el).
Definition clear_input_locals (el : Element) (tok : string) : M unit :=
  tok_set tok (fun t => set_tk_locals (fold_left (fun l m => delete (io_target m) l) (el_inputs el) (tk_locals t)) t).

(** ** Loops *)

(** [spawnMIChild] *)
Definition spawn_mi_child (parent : string) (el : Element) (st : MultiState) (index : Z) : M unit :=
  ml ← or_nil (el_multi el);
  t ← tok_get parent;
  let locals := <["loopCounter" := vnum index]> (<[miChildFlag := VStr (el_id el)]> (∅ : vars)) in
  locals ← (if String.eqb (ml_elem ml) "" then mret locals
            else match mi_items st !! Z.to_nat index with
                 | Some x => mret (<[ml_elem ml := x]> locals)
                 | None => panic "index out of range"
                 end);
  _ ← spawn_token (el_id el) (tk_scope t) (tk_owners t) (tk_id t) locals;
  mret tt.
Definition mi_set (parent : string) (f : MultiState -> MultiState) : M unit :=
  inst_set (fun i => set_in_multi (alter f parent (in_multi i)) i).
Definition count_mi_children (parent : string) (i : Instance) : Z :=
  Z.of_nat (length (keep (fun t => String.eqb (tk_parent t) parent) (tokens_of i))).

(** [int(f)] as the length of a slice of 16-byte values; beyond the limits of
    the allocator [make] panics. *)
Definition make_len (f : f64) : option nat :=
  let n := f_to_int64 f in
  if (n <? 0) || (2 ^ 44 <? n) then None else Some (Z.to_nat n).
Definition mi_items_of (tok : string) (el : Element) (ml : MultiInstance) (env : vars) : M (option (list value)) :=
  if negb (String.eqb (ml_coll ml) "") then
    r ← attempt (lift (expr_eval (ml_coll ml) env));
    match r with
    | inl err => raise_incident tok "" ("multi-instance collection on " ++ el_id el ++ ": " ++ error_text err) ;; mret None
    | inr (VList l) => mret (Some l)
    | inr v => raise_incident tok "" ("multi-instance collection on " ++ el_id el ++ " is " ++ type_name v ++ ", want list") ;; mret None
    end
  else if negb (String.eqb (ml_card ml) "") then
    r ← attempt (lift (expr_eval (ml_card ml) env));
    match r with
    | inl err => raise_incident tok "" ("multi-instance cardinality on " ++ el_id el ++ ": " ++ error_text err) ;; mret None
    | inr v =>
        match v with
        | VNum f =>
            if flt f f_zero then
              raise_incident tok "" ("multi-instance cardinality on " ++ el_id el ++ " = " ++ fmt_v v
                                       ++ ", want a non-negative number") ;; mret None
            else match make_len f with
                 | None => panic "makeslice: len out of range"
                 | Some n => mret (Some (map (fun k => vnum (Z.of_nat k)) (seq 0 n)))
                 end
        | _ => raise_incident tok "" ("multi-instance cardinality on " ++ el_id el ++ " = " ++ fmt_v v
                                        ++ ", want a non-negative number") ;; mret None
        end
    end
  else raise_incident tok "" ("multi-instance on " ++ el_id el ++ " has neither collection nor cardinality") ;; mret None.

(** ** Completing activities, scopes and loops

    These call each other; [complete] stands for [completeActivity]. *)

(** [finishMultiInstance] *)
Definition finish_multi_with (complete : string -> M unit) (parent : string) (el : Element)
    (st : MultiState) (early : bool) : M unit :=
  ml ← or_nil (el_multi el);
  cancel_children parent ;;
  when (nonempty (ml_out_coll ml)) (set_var (ml_out_coll ml) (VList (mi_outputs st))) ;;
  inst_set (fun i => set_in_multi (delete parent (in_multi i)) i) ;;
  park parent TokenActive "" ;;
  emit HistElementCompleted (el_id el)
    (detail [("multiInstance", VBool true); ("completed", vnum (mi_completed st)); ("early", VBool early)]) ;;
  r ← attempt (apply_outputs el parent);
  match r with
  | inl err => raise_incident parent "" ("output mapping on " ++ el_id el ++ ": " ++ error_text err)
  | inr _ => drop_waits parent ;; complete parent
  end.

(** Whether the loop's completion condition holds after this iteration; [None]
    when its error became an incident. *)
Definition mi_condition (parent : string) (el : Element) (ml : MultiInstance) (st : MultiState) : M (option bool) :=
  if String.eqb (ml_cond ml) "" then mret (Some false)
  else
    env ← tok_env parent;
    i ← inst_get;
    let env := <["nrOfActiveInstances" := vnum (count_mi_children parent i)]>
                 (<["nrOfCompletedInstances" := vnum (mi_completed st)]>
                   (<["nrOfInstances" := vnum (mi_total st)]> env)) in
    r ← attempt (lift (expr_eval_bool (ml_cond ml) env));
    match r with
    | inl err => raise_incident parent "" ("completion condition on " ++ el_id el ++ ": " ++ error_text err) ;; mret None
    | inr b => mret (Some b)
    end.

(** The output of an iteration; [None] when its error became an incident. *)
Definition mi_output (child parent : string) (el : Element) (ml : MultiInstance) : M (option (list value)) :=
  if String.eqb (ml_out_elem ml) "" then mret (Some [])
  else
    env ← tok_env child;
    r ← attempt (lift (expr_eval (ml_out_elem ml) env));
    match r with
    | inl err => raise_incident parent "" ("multi-instance output on " ++ el_id el ++ ": " ++ error_text err) ;; mret None
    | inr v => mret (Some [v])
    end.

(** [miChildCompleted] *)
Definition mi_child_completed_with (complete : string -> M unit) (child : string) : M unit :=
  t ← tok_get child;
  i ← inst_get;
  let parent := tk_parent t in
  tok_del child ;;
  match in_multi i !! parent, in_tokens i !! parent, element_of t with
  | Some st, Some _, Some el =>
      match el_multi el with
      | None => mret tt
      | Some ml =>
          out ← mi_output child parent el ml;
          match out with
          | None => mret tt
          | Some out =>
              let st := set_mi_completed (mi_completed st + 1) (set_mi_outputs (mi_outputs st ++ out)%list st) in
              mi_set parent (fun _ => st) ;;
              done ← mi_condition parent el ml st;
              match done with
              | None => mret tt
              | Some true => finish_multi_with complete parent el st true
              | Some false =>
                  if mi_total st <=? mi_completed st then finish_multi_with complete parent el st false
                  else when (ml_seq ml && (mi_next st <? mi_total st))
                         (spawn_mi_child parent el st (mi_next st) ;;
                          mi_set parent (set_mi_next (mi_next st + 1)))
              end
          end
      end
  | _, _, _ => mret tt
  end.

(** [checkScope]; the path is reversed for the recursion. *)
Fixpoint check_scope_with (complete : string -> M unit) (rpath : list string) (owners : list string) : M unit :=
  i ← inst_get;
  if existsb (in_scope (rev rpath) owners) (tokens_of i) then mret tt
  else
    match rpath with
    | [] => when (bool_decide (in_tokens i = ∅)) (complete_instance "")
    | scope_id :: rpath =>
        match rev owners with
        | [] => panic "slice bounds out of range"
        | owner :: rowners =>
            match container_at (rev rpath) with
            | None => mret tt
            | Some pc =>
                let scope_el := c_elements pc !! scope_id in
                if match scope_el with Some el => el_by_event el | None => false end
                then check_scope_with complete rpath (rev rowners)
                else
                  t ← (if String.eqb owner "" then mret None else tok_live owner);
                  match t with
                  | Some t =>
                      if String.eqb (tk_element t) scope_id && bool_decide (tk_state t = TokenWaitChild) then
                        emit HistElementCompleted scope_id ∅ ;;
                        match scope_el with Some el => ignore (apply_outputs el owner) | None => mret tt end ;;
                        drop_waits owner ;;
                        complete owner
                      else check_scope_with complete rpath (rev rowners)
                  | None => check_scope_with complete rpath (rev rowners)
                  end
            end
        end
    end.

(** [consume] *)
Definition consume_with (complete : string -> M unit) (tok : string) : M unit :=
  t ← tok_get tok;
  tok_del tok ;;
  check_scope_with complete (rev (tk_scope t)) (tk_owners t).

(** [completeActivity].  Each inner completion comes after a token was
    deleted, so the number of tokens bounds the recursion. *)
Fixpoint complete_activity_fuel (fuel : nat) (tok : string) : M unit :=
  match fuel with
  | O => out_of_fuel
  | S fuel =>
      t ← tok_get tok;
      i ← inst_get;
      match element_of t with
      | Some el =>
          if nonempty (tk_parent t) && has_key (in_multi i) (tk_parent t) && is_mi_child t el
          then mi_child_completed_with (complete_activity_fuel fuel) tok
          else drop_waits tok ;; ignore (take_outgoing tok el)
      | None => drop_waits tok ;; ignore (consume_with (complete_activity_fuel fuel) tok)
      end
  end.
Definition complete_activity (tok : string) : M unit :=
  i ← inst_get; complete_activity_fuel (S (size (in_tokens i))) tok.
Definition check_scope (path owners : list string) : M unit :=
  i ← inst_get; check_scope_with (complete_activity_fuel (S (size (in_tokens i)))) (rev path) owners.
Definition consume (tok : string) : M unit :=
  i ← inst_get; consume_with (complete_activity_fuel (S (size (in_tokens i)))) tok.

(** [finishSyncActivity] *)
Definition finish_sync (tok : string) (el : Element) : M unit :=
  emit HistElementCompleted (el_id el) ∅ ;;
  r ← attempt (apply_outputs el tok);
  match r with
  | inl err => raise_incident tok "" ("output mapping on " ++ el_id el ++ ": " ++ error_text err)
  | inr _ => clear_input_locals el tok ;; complete_activity tok
  end.

(** [startMultiInstance] *)
Definition start_multi (tok : string) (el : Element) : M unit :=
  ml ← or_nil (el_multi el);
  env ← tok_env tok;
  items ← mi_items_of tok el ml env;
  match items with
  | None => mret tt
  | Some items =>
      let n := Z.of_nat (length items) in
      emit HistElementActivated (el_id el)
        (detail [("multiInstance", VBool true); ("instances", vnum n); ("sequential", VBool (ml_seq ml))]) ;;
      match items with
      | [] =>
          when (nonempty (ml_out_coll ml)) (set_var (ml_out_coll ml) (VList [])) ;;
          emit HistElementCompleted (el_id el) (detail [("instances", vnum 0)]) ;;
          complete_activity tok
      | _ =>
          let st := {| mi_token := tok; mi_total := n; mi_completed := 0; mi_next := 0;
                       mi_items := items; mi_outputs := [] |} in
          inst_set (fun i => set_in_multi (<[tok := st]> (in_multi i)) i) ;;
          park tok TokenWaitMulti "" ;;
          register_boundaries tok el ;;
          if ml_seq ml then
            spawn_mi_child tok el st 0 ;; mi_set tok (set_mi_next 1)
          else
            for_each (fun k => spawn_mi_child tok el st (Z.of_nat k)) (seq 0 (length items)) ;;
            mi_set tok (set_mi_next n)
      end
  end.
End flow.
