(* ===== verification/EngineErrors.v ===== *)
(** * Failures: retries, BPMN errors, boundary events
    ([src/engine/exec.go], [src/engine/activity.go], [src/engine/events.go]) *)
From S2P Require Import Prelude GoFloat GoUtf8 GoTime ExprValue ExprLexer ExprFuncs StoreTypes StoreQuery StoreMemory BpmnModel EngineBase EngineCancel EngineFlow.
Local Open Scope string_scope.
Local Open Scope Z_scope.

(** An error event that catches [code]; no code catches every error. *)
Definition catches_error (code : string) (ev : EventDefinition) : bool :=
  bool_decide (ev_kind ev = KindError) && (String.eqb (ev_code ev) "" || String.eqb (ev_code ev) code).

(** The local variable that counts the failed attempts at an activity. *)
Definition attemptsVar := "__attempts".

(** [d << n] on a 64-bit integer. *)
Definition shl64 (d n : Z) : Z := if 64 <=? n then 0 else wrap64 (Z.shiftl d n).

Section errors.
Context {U : Unicode} {R : Regexp} {MO : MapOrder} {E : Engine} {PD : ParsedDef}.

(** [moveToBoundary] *)
Definition move_to_boundary (tok : string) (b : Element) : M unit :=
  tok_set tok (fun t => set_tk_locals ∅ (set_tk_wait "" (set_tk_state TokenActive (set_tk_element (el_id b) t)))).

(** [miCoordinatorFor] *)
Definition mi_coordinator (i : Instance) (t : option Token) : option Token :=
  match t with
  | None => None
  | Some t => if String.eqb (tk_parent t) "" || negb (has_key (in_multi i) (tk_parent t)) then None
              else in_tokens i !! tk_parent t
  end.

(** The first error boundary that catches the code. *)
Fixpoint error_boundary (code : string) (bs : list Element) : M (option Element) :=
  match bs with
  | [] => mret None
  | b :: bs =>
      ev ← or_nil (el_event b);
      if catches_error code ev then mret (Some b) else error_boundary code bs
  end.

(** The first event sub-process of a scope with an error start event that
    catches the code. *)
Definition error_start (c : Container) (code : string) : option (string * Element) :=
  first_some (map (fun id =>
    match c_elements c !! id with
    | Some es =>
        match el_sub es with
        | Some s =>
            if bool_decide (el_type es = TypeSubProcess) && el_by_event es then
              first_some (map (fun se =>
                match el_event se with
                | Some ev => if catches_error code ev then Some (id, se) else None
                | None => None
                end) (start_events s))
            else None
        | None => None
        end
    | None => None
    end) (c_order c)).

Definition set_error_vars (code message : string) : M unit :=
  set_var "errorCode" (VStr code) ;; set_var "errorMessage" (VStr message).

(** The unhandled error of [propagateError]. *)
Definition unhandled_error (t : Token) (code message : string) : M unit :=
  id ← lift (new_id "incd");
  i ← inst_get;
  now ← lift e_now;
  let msg := "unhandled BPMN error " ++ quote code ++ ": " ++ message in
  lift (store_put (PutIncident
    {| ic_id := id; ic_inst := in_id i; ic_token := tk_id t; ic_element := tk_element t;
       ic_message := msg; ic_code := code; ic_created := now; ic_resolved := false;
       ic_resolved_at := zero_time |})) ;;
  emit HistIncidentCreated (tk_element t) (detail [("incidentId", VStr id); ("message", VStr msg)]) ;;
  terminate ("unhandled error " ++ code).

(** The continuation at the boundary of the sub-process [scope_id]. *)
Definition enter_error_boundary (b : Element) (scope_id : string) (path owners : list string)
    (parent_path parent_owners : list string) (owner_id code message : string) : M unit :=
  kill_scope path owners "" ;;
  set_error_vars code message ;;
  owner ← tok_live owner_id;
  i ← inst_get;
  match mi_coordinator i owner with
  | Some coord => cancel_waits (tk_id coord) ;; move_to_boundary (tk_id coord) b
  | None =>
      match owner with
      | Some o =>
          if String.eqb (tk_element o) scope_id then
            drop_waits owner_id ;;
            tok_set owner_id (fun t => set_tk_wait "" (set_tk_state TokenActive (set_tk_element (el_id b) t)))
          else _ ← spawn_token (el_id b) parent_path parent_owners "" ∅; mret tt
      | None => _ ← spawn_token (el_id b) parent_path parent_owners "" ∅; mret tt
      end
  end.

(** The loop of [propagateError], from the innermost scope outward; the path
    and the owners are reversed. *)
Fixpoint propagate_loop (t : Token) (code message : string) (rpath rowners : list string) : M unit :=
  let path := rev rpath in
  let owners := rev rowners in
  let outward :=
    match rpath, rowners with
    | scope_id :: rp, owner_id :: ro =>
        b ← (match container_at (rev rp) with
             | Some pc => error_boundary code (boundary_events pc scope_id)
             | None => mret None
             end);
        match b with
        | Some b => enter_error_boundary b scope_id path owners (rev rp) (rev ro) owner_id code message
        | None => propagate_loop t code message rp ro
        end
    | [], [] => unhandled_error t code message
    | _, _ => panic "slice bounds out of range"
    end in
  match container_at path with
  | None =>
      match rpath, rowners with
      | _ :: rp, _ :: ro => propagate_loop t code message rp ro
      | [], [] => unhandled_error t code message
      | _, _ => panic "slice bounds out of range"
      end
  | Some c =>
      match error_start c code with
      | Some (es_id, se) =>
          kill_scope path owners es_id ;;
          set_error_vars code message ;;
          _ ← spawn_token (el_id se) (path ++ [es_id])%list (owners ++ [""])%list "" ∅;
          mret tt
      | None => outward
      end
  end.
Definition propagate_error (t : Token) (code message : string) : M unit :=
  propagate_loop t code message (rev (tk_scope t)) (rev (tk_owners t)).

(** [throwError]: a boundary on the activity itself wins. *)
Definition throw_error (tok : string) (code message : string) : M unit :=
  t ← tok_get tok;
  emit HistErrorThrown (tk_element t) (detail [("code", VStr code); ("message", VStr message)]) ;;
  c ← or_nil (scope_of t);
  b ← error_boundary code (boundary_events c (tk_element t));
  match b with
  | Some b =>
      set_error_vars code message ;;
      i ← inst_get;
      match mi_coordinator i (Some t) with
      | Some coord => cancel_waits (tk_id coord) ;; move_to_boundary (tk_id coord) b
      | None => cancel_waits tok ;; move_to_boundary tok b
      end
  | None =>
      cancel_waits tok ;;
      tok_del tok ;;
      propagate_error t code message
  end.

(** [handleActivityFailure] *)
Definition attempts_of (t : Token) : Z :=
  match tk_locals t !! attemptsVar with Some (VNum f) => f_to_int64 f | _ => 0 end.
Definition handle_failure (tok : string) (el : Element) (err : goerr) : M unit :=
  match err with
  | EBpmn code msg => throw_error tok code msg
  | _ =>
      t ← tok_get tok;
      let attempts := wrap64 (attempts_of t + 1) in
      let max_retries := or_default_int (el_retries el) 3 in
      if attempts <? max_retries then
        tok_set tok (fun t => set_tk_locals (<[attemptsVar := vnum attempts]> (tk_locals t)) t) ;;
        if attempts <? 1 then panic "negative shift amount"
        else
          let backoff := shl64 e_backoff (attempts - 1) in
          id ← lift (new_id "job");
          i ← inst_get;
          due ← lift e_now;
          now ← lift e_now;
          lift (store_put (PutJob
            {| jb_id := id; jb_tenant := ""; jb_kind := JobRetry; jb_inst := in_id i; jb_def_key := "";
               jb_token := tk_id t; jb_element := el_id el; jb_due := time_add due backoff;
               jb_repeats := 0; jb_interval := 0; jb_retries := max_retries - attempts; jb_created := now |})) ;;
          park tok TokenWaitRetry id
      else raise_incident tok "" ("activity " ++ el_id el ++ " failed after " ++ fmt_int attempts
                                    ++ " attempts: " ++ error_text err)
  end.
End errors.
