(* ===== verification/EngineActivity.v ===== *)
(** * Activities ([src/engine/activity.go], [src/engine/agent.go],
    [src/engine/guard.go])

    What happens when a token arrives at a task, a sub-process or a call. *)
From Stdlib Require Import Ascii.
From S2P Require Import Prelude GoFloat GoUtf8 GoTime ExprValue ExprLexer ExprDuration ExprFuncs StoreTypes StoreQuery StoreMemory BpmnModel EngineBase EngineCancel EngineFlow EngineErrors.
Local Open Scope string_scope.
Local Open Scope Z_scope.

Definition agentTokensVar := "__agentTokens".
Definition agentProposalVar := "__agentProposal".
Definition traceparentVar := "__traceparent".

(** [Duration.String] *)
Definition fmt_frac (prec : nat) (v : Z) : string :=
  let r := v mod 10 ^ Z.of_nat prec in
  if r =? 0 then ""
  else let '(d, k) := strip_zeros prec r 0 in "." ++ pad_int (Z.to_nat (Z.of_nat prec - k)) d.
Definition micro_sign : string := String (ascii_of_nat 194) (String (ascii_of_nat 181) "").
Definition fmt_duration (d : Z) : string :=
  let u := Z.abs d in
  (if d <? 0 then "-" else "") ++
  (if u =? 0 then "0s"
   else if u <? 1000 then fmt_int u ++ "ns"
   else if u <? 1000000 then fmt_int (u / 1000) ++ fmt_frac 3 u ++ micro_sign ++ "s"
   else if u <? second then fmt_int (u / 1000000) ++ fmt_frac 6 u ++ "ms"
   else (if u <? hour then "" else fmt_int (u / hour) ++ "h")
        ++ (if u <? minute then "" else fmt_int (u / minute mod 60) ++ "m")
        ++ fmt_int (u / second mod 60) ++ fmt_frac 9 u ++ "s").

Section activity.
Context {U : Unicode} {R : Regexp} {MO : MapOrder} {E : Engine} {PD : ParsedDef}.

(** ** Throwing messages and signals *)
Definition throw_message (el : Element) : M unit :=
  match el_event el with
  | Some ev => when (nonempty (ev_message ev)) (i ← inst_get; push_cont (CCorrelate (ev_message ev) (in_vars i)))
  | None => mret tt
  end.
Definition throw_signal (el : Element) : M unit :=
  match el_event el with
  | Some ev => when (nonempty (ev_signal ev)) (i ← inst_get; push_cont (CSignal (ev_signal ev) (in_vars i)))
  | None => mret tt
  end.

(** ** User tasks *)

(** [resolveDue] *)
Definition resolve_due (src : string) (env : vars) : M Z :=
  v ← lift (eval_field src env);
  match v with
  | VTime t => mret t
  | VStr s =>
      match parse_iso_duration s with
      | Ok d => now ← lift e_now; mret (time_add now d)
      | Err _ => of_res (parse_time s)
      | Panic w => panic w
      | OutOfFuel => out_of_fuel
      end
  | _ => fail (EMsg ("cannot interpret " ++ fmt_v v ++ " as due date"))
  end.

(** The candidates whose expressions give a name. *)
Fixpoint candidates (env : vars) (l : list string) : M (list string) :=
  match l with
  | [] => mret []
  | s :: l =>
      r ← attempt (lift (eval_field_string s env));
      rest ← candidates env l;
      mret match r with inr v => if nonempty v then v :: rest else rest | inl _ => rest end
  end.
Definition task_due (el : Element) (env : vars) : M Z :=
  if String.eqb (el_due el) "" then mret zero_time
  else r ← attempt (resolve_due (el_due el) env);
       mret match r with inr t => t | inl _ => zero_time end.
Definition atoi_safe (s : string) : Z := default 0 (atoi s).
Definition task_priority (el : Element) (env : vars) : M Z :=
  if String.eqb (el_priority el) "" then mret 0
  else r ← attempt (lift (eval_field (el_priority el) env));
       mret match r with
            | inr (VNum f) => f_to_int64 f
            | inr v => atoi_safe (stringify v)
            | inl _ => 0
            end.
Definition user_task (tok : string) (el : Element) : M unit :=
  env ← tok_env tok;
  r ← attempt (lift (eval_field_string (el_assignee el) env));
  match r with
  | inl err => raise_incident tok "" ("assignee on " ++ el_id el ++ ": " ++ error_text err)
  | inr assignee =>
      id ← lift (new_id "task");
      i ← inst_get;
      now ← lift e_now;
      users ← candidates env (el_users el);
      groups ← candidates env (el_groups el);
      due ← task_due el env;
      priority ← task_priority el env;
      let task :=
        {| ta_id := id; ta_tenant := in_tenant i; ta_inst := in_id i; ta_token := tok;
           ta_element := el_id el; ta_def_key := in_def_key i; ta_name := or_default (el_name el) (el_id el);
           ta_state := TaskCreated; ta_assignee := assignee; ta_users := users; ta_groups := groups;
           ta_form := el_form el; ta_priority := priority; ta_due := due; ta_created := now;
           ta_completed := zero_time; ta_by := "" |} in
      lift (store_put (PutTask task)) ;;
      park tok TokenWaitTask id ;;
      emit HistTaskCreated (el_id el)
        (detail [("taskId", VStr id); ("assignee", VStr assignee); ("name", VStr (ta_name task))])
  end.

(** ** Service, script and rule tasks *)

(** An activity that computes one value and stores it in a variable. *)
Definition run_value (tok : string) (el : Element) (run : M value) (target : string)
    (after : M unit) : M unit :=
  r ← attempt run;
  match r with
  | inl err => handle_failure tok el err
  | inr v =>
      when (nonempty target) (set_var target v) ;;
      after ;;
      finish_sync tok el
  end.
Definition eval_activity (tok : string) (el : Element) : M value :=
  env ← tok_env tok; lift (expr_eval (el_expr el) env).

Definition is_send (el : Element) : bool := bool_decide (el_type el = TypeSendTask).
Definition run_handler (tok : string) (el : Element) (h : handler) : M unit :=
  i ← inst_get;
  env ← tok_env tok;
  n ← lift tick;
  match h n {| cx_inst := in_id i; cx_bkey := in_bkey i; cx_element := el_id el; cx_name := el_name el;
               cx_vars := env |} with
  | inl err => handle_failure tok el err
  | inr out =>
      merge_vars out ;;
      when (nonempty (el_result el))
        (match out !! el_result el with Some v => set_var (el_result el) (normalize v) | None => mret tt end) ;;
      when (is_send el) (throw_message el) ;;
      finish_sync tok el
  end.
Definition external_task (tok : string) (el : Element) : M unit :=
  id ← lift (new_id "ext");
  i ← inst_get;
  env ← tok_env tok;
  now ← lift e_now;
  lift (store_put (PutExternalTask
    {| ex_id := id; ex_inst := in_id i; ex_token := tok; ex_element := el_id el; ex_topic := el_topic el;
       ex_state := ExternalPending; ex_vars := env; ex_locked_by := ""; ex_lock_until := zero_time;
       ex_retries := or_default_int (el_retries el) 3; ex_created := now |})) ;;
  park tok TokenWaitExternal id.
Definition service_task (tok : string) (el : Element) : M unit :=
  if nonempty (el_topic el) then external_task tok el
  else if nonempty (el_expr el) then
    run_value tok el (eval_activity tok el) (el_result el) (when (is_send el) (throw_message el))
  else if nonempty (el_task_type el) then
    match e_handlers !! el_task_type el with
    | None => raise_incident tok "" ("no handler registered for service task type " ++ quote (el_task_type el))
    | Some h => run_handler tok el h
    end
  else if is_send el && match el_event el with Some _ => true | None => false end then
    throw_message el ;; finish_sync tok el
  else raise_incident tok "" ("service task " ++ el_id el ++ " has no type, topic or expression").

Definition script_task (tok : string) (el : Element) : M unit :=
  if String.eqb (el_expr el) "" then finish_sync tok el
  else run_value tok el (eval_activity tok el) (el_result el) (mret tt).

Definition business_rule_task (tok : string) (el : Element) : M unit :=
  match e_decisions with
  | None => raise_incident tok "" ("business rule task " ++ el_id el ++ ": no decision evaluator configured")
  | Some decide =>
      run_value tok el
        (env ← tok_env tok;
         n ← lift tick;
         v ← of_outcome (decide n (el_decision el) env);
         mret (normalize v))
        (or_default (el_result el) "decisionResult") (mret tt)
  end.

Definition receive_task (tok : string) (el : Element) : M unit :=
  tok_set tok (set_tk_state TokenWaitMessage) ;;
  ev ← or_nil (el_event el);
  create_event_wait tok el ev true.

(** ** Sub-processes and calls *)

(** [registerEventSubprocesses]: the waits of one start event. *)
Definition register_start (owner : string) (se : Element) : M unit :=
  match el_event se with
  | None => mret tt
  | Some ev =>
      i ← inst_get;
      match ev_kind ev with
      | KindMessage =>
          id ← lift (new_id "sub");
          now ← lift e_now;
          lift (store_put (PutSubscription
            {| sb_id := id; sb_tenant := ""; sb_kind := SubMessage; sb_name := ev_message ev;
               sb_ckey := in_bkey i; sb_inst := in_id i; sb_token := owner; sb_element := el_id se;
               sb_start := false; sb_def_key := ""; sb_created := now |}))
      | KindSignal =>
          id ← lift (new_id "sub");
          now ← lift e_now;
          lift (store_put (PutSubscription
            {| sb_id := id; sb_tenant := ""; sb_kind := SubSignal; sb_name := ev_signal ev;
               sb_ckey := ""; sb_inst := in_id i; sb_token := owner; sb_element := el_id se;
               sb_start := false; sb_def_key := ""; sb_created := now |}))
      | KindTimer =>
          r ← attempt (lift (timer_schedule ev (in_vars i)));
          match r with
          | inl _ => mret tt
          | inr (due, repeats, interval) =>
              id ← lift (new_id "job");
              now ← lift e_now;
              lift (store_put (PutJob
                {| jb_id := id; jb_tenant := ""; jb_kind := JobTimer; jb_inst := in_id i; jb_def_key := "";
                   jb_token := owner; jb_element := el_id se; jb_due := due; jb_repeats := repeats;
                   jb_interval := interval; jb_retries := 3; jb_created := now |}))
          end
      | _ => mret tt
      end
  end.
(** The event sub-processes of a scope, in its order. *)
Definition is_event_sub (el : Element) : bool := bool_decide (el_type el = TypeSubProcess) && el_by_event el.
Definition register_event_subs (c : Container) (owner : string) : M unit :=
  for_each (fun es => match el_sub es with
                      | Some s => for_each (register_start owner) (start_events s)
                      | None => mret tt
                      end) (pick c is_event_sub (c_order c)).

Definition enter_sub_process (tok : string) (el : Element) : M unit :=
  s ← or_nil (el_sub el);
  match none_start_event s with
  | None => raise_incident tok "" ("sub-process " ++ el_id el ++ " has no none start event")
  | Some start =>
      park tok TokenWaitChild scopeWaitRef ;;
      t ← tok_get tok;
      register_event_subs s (tk_id t) ;;
      _ ← spawn_token (el_id start) (tk_scope t ++ [el_id el])%list (tk_owners t ++ [tk_id t])%list "" ∅;
      mret tt
  end.

(** The variables of a called process: its input mappings, or a copy of all. *)
Fixpoint call_inputs (env : vars) (l : list IOMapping) (acc : vars) : M (string * goerr + vars) :=
  match l with
  | [] => mret (inr acc)
  | m :: l =>
      r ← attempt (lift (expr_eval (io_source m) env));
      match r with
      | inl err => mret (inl (io_target m, err))
      | inr v => call_inputs env l (<[io_target m := v]> acc)
      end
  end.
Definition call_activity (tok : string) (el : Element) : M unit :=
  i ← inst_get;
  def ← lift (store_get (LatestDefinitionForTenant (in_tenant i) (el_called el)));
  match def with
  | None => raise_incident tok "" ("call activity " ++ el_id el ++ ": unknown process " ++ quote (el_called el))
  | Some def =>
      env ← tok_env tok;
      r ← match el_inputs el with
          | [] => mret (inr (in_vars i))
          | l => call_inputs env l ∅
          end;
      match r with
      | inl (target, err) => raise_incident tok "" ("call activity input " ++ target ++ ": " ++ error_text err)
      | inr child_vars =>
          child ← lift (new_id "inst");
          park tok TokenWaitChild child ;;
          push_cont (CStartChild (pd_id def) child (in_bkey i) child_vars (in_id i) tok)
      end
  end.

(** ** Agent tasks *)

(** [expandDelim]: each reference is replaced by its value, or by nothing
    when it cannot be evaluated. *)
Fixpoint expand_fuel (fuel : nat) (op cl : string) (v : vars) (s : string) : M string :=
  match fuel with
  | O => out_of_fuel
  | S fuel =>
      match sindex s op with
      | None => mret s
      | Some i =>
          let rest := sdrop (i + String.length op) s in
          match sindex rest cl with
          | None => mret s
          | Some j =>
              r ← attempt (lift (expr_eval (trim_space (stake j rest)) v));
              let text := match r with inr x => stringify x | inl _ => "" end in
              tail ← expand_fuel fuel op cl v (sdrop (j + String.length cl) rest);
              mret (stake i s ++ text ++ tail)
          end
      end
  end.
Definition expand_delim (op cl : string) (v : vars) (s : string) : M string :=
  expand_fuel (S (String.length s)) op cl v s.
Definition interpolate (tmpl : string) (v : vars) : M string :=
  if String.eqb tmpl "" then mret ""
  else out ← expand_delim "${" "}" v tmpl; expand_delim "{{" "}}" v out.

Definition float_var (v : vars) (k : string) : f64 :=
  match v !! k with Some (VNum f) => f | _ => f_zero end.

(** [checkAgentBudget] *)
Definition check_agent_budget (tok : string) (el : Element) : M bool :=
  match e_guard with
  | None => mret true
  | Some g =>
      i ← inst_get;
      let used := float_var (in_vars i) agentTokensVar in
      if (gd_max_tokens g <=? 0) || (f_to_int64 used <? gd_max_tokens g) then mret true
      else
        emit HistAgentRejected (el_id el)
          (detail [("reason", VStr "token budget exhausted"); ("usedTokens", VNum used);
                   ("budget", vnum (gd_max_tokens g))]) ;;
        raise_incident tok "" ("agent task " ++ el_id el ++ ": instance token budget exhausted ("
          ++ fmt_int (f_to_int64 used) ++ " used, " ++ fmt_int (gd_max_tokens g) ++ " allowed)") ;;
        mret false
  end.

(** [chargeAgentUsage] *)
Definition charge_agent_usage (u : AgentUsage) : M unit :=
  let total := wrap64 (us_in u + us_out u) in
  if total =? 0 then mret tt
  else i ← inst_get;
       set_var agentTokensVar (VNum (fadd (float_var (in_vars i) agentTokensVar) (f_of_Z total))).

(** [recordAgentResult] *)
Definition usage_zero (u : AgentUsage) : bool :=
  (us_in u =? 0) && (us_out u =? 0) && feq (us_cost u) f_zero && String.eqb (us_model u) "".
Definition call_value (c : AgentToolCall) : value :=
  VMap (detail [("tool", VStr (tc_tool c)); ("input", VMap (tc_input c));
                ("result", VStr (tc_result c)); ("error", VStr (tc_error c))]).
Definition result_detail (agent : string) (output : option vars) (text : string)
    (calls : list AgentToolCall) (u : AgentUsage) : vars :=
  let d := detail [("agent", VStr agent)] in
  let d := match calls with [] => d | _ => <["toolCalls" := VList (map call_value calls)]> d end in
  let d := if usage_zero u then d
           else <["usage" := VMap (detail [("inputTokens", vnum (us_in u)); ("outputTokens", vnum (us_out u));
                                            ("costUsd", VNum (us_cost u)); ("model", VStr (us_model u))])]> d in
  if nonempty text then <["output" := VStr text]> d
  else if bool_decide (default ∅ output = ∅) then d
  else <["output" := VMap (default ∅ output)]> d.

(** [applyAgentOutput] *)
Definition apply_agent_output (spec : AgentSpec) (output : option vars) (text : string) : M unit :=
  let out := default ∅ output in
  merge_vars out ;;
  when (nonempty (as_out spec))
    (if nonempty text then set_var (as_out spec) (VStr text)
     else when (negb (has_key out (as_out spec)) && negb (bool_decide (out = ∅)))
            (set_var (as_out spec) (VMap out))).

(** [createApprovalTask] *)
Definition create_approval_task (tok : string) (el : Element) (spec : AgentSpec)
    (output : option vars) (text : string) : M unit :=
  let proposal := if nonempty text then text
                  else stringify (match output with Some m => VMap m | None => VNil end) in
  id ← lift (new_id "task");
  i ← inst_get;
  now ← lift e_now;
  let name := "Approve: " ++ or_default (el_name el) (el_id el) in
  lift (store_put (PutTask
    {| ta_id := id; ta_tenant := in_tenant i; ta_inst := in_id i; ta_token := tok; ta_element := el_id el;
       ta_def_key := in_def_key i; ta_name := name; ta_state := TaskCreated; ta_assignee := "";
       ta_users := []; ta_groups := as_groups spec; ta_form := "agent/approval"; ta_priority := 0;
       ta_due := zero_time; ta_created := now; ta_completed := zero_time; ta_by := "" |})) ;;
  tok_set tok (fun t => set_tk_locals
    (<[agentProposalVar := VMap (detail [("output", VMap (default ∅ output)); ("text", VStr text)])]> (tk_locals t)) t) ;;
  park tok TokenWaitTask id ;;
  emit HistTaskCreated (el_id el)
    (detail [("taskId", VStr id); ("name", VStr name); ("agentApproval", VBool true); ("proposal", VStr proposal)]).

(** [finishAgent] *)
Definition finish_agent (tok : string) (el : Element) (spec : AgentSpec) (output : option vars) (text : string) : M unit :=
  if as_approval spec then create_approval_task tok el spec output text
  else apply_agent_output spec output text ;; finish_sync tok el.

(** [reviewAgentResult]: whether the result may be applied. *)
Definition review_agent_result (tok : string) (el : Element) (spec : AgentSpec) (output : option vars)
    (text : string) (calls : list AgentToolCall) (u : AgentUsage) : M bool :=
  match g ← e_guard; gd_review g with
  | None => mret true
  | Some review =>
      i ← inst_get;
      n ← lift tick;
      match review n {| rv_inst := in_id i; rv_element := el_id el; rv_agent := as_agent spec;
                        rv_output := output; rv_text := text; rv_calls := calls; rv_usage := u;
                        rv_vars := in_vars i |} with
      | None => mret true
      | Some err =>
          emit HistAgentRejected (el_id el) (detail [("reason", VStr (error_text err))]) ;;
          handle_failure tok el (EWrap "agent result rejected by guard: " err) ;;
          mret false
      end
  end.
Definition accept_agent_result (tok : string) (el : Element) (spec : AgentSpec) (output : option vars)
    (text : string) (calls : list AgentToolCall) (u : AgentUsage) : M unit :=
  emit HistAgentCompleted (el_id el) (result_detail (as_agent spec) output text calls u) ;;
  charge_agent_usage u ;;
  ok ← review_agent_result tok el spec output text calls u;
  when ok (finish_agent tok el spec output text).

(** [agentInvoker], [invokeWithTimeout] *)
Definition agent_invoker (name : string) : option invoker :=
  match e_agents !! name with Some inv => Some inv | None => e_default_agent end.
Definition invoke_agent (inv : invoker) (q : AgentRequest) : M (goerr + AgentResponse) :=
  n ← lift tick;
  match inv n q with
  | Some r => mret r
  | None =>
      match e_guard with
      | Some g => if 0 <? gd_timeout g then mret (inl (EMsg ("agent invocation exceeded guard timeout " ++ fmt_duration (gd_timeout g))))
                  else out_of_fuel
      | None => out_of_fuel
      end
  end.
Definition traceparent_of (v : vars) : string :=
  match v !! traceparentVar with Some (VStr s) => s | _ => "" end.
Definition tool_spec (t : AgentTool) : ToolSpec :=
  {| ts_name := at_name t; ts_desc := at_desc t; ts_schema := at_schema t; ts_server := at_server t |}.

Definition agent_task (tok : string) (el : Element) (spec : AgentSpec) : M unit :=
  may ← check_agent_budget tok el;
  when may
    (env ← tok_env tok;
     prompt ← interpolate (as_prompt spec) env;
     system ← interpolate (as_system spec) env;
     emit HistAgentInvoked (el_id el)
       (detail [("agent", VStr (as_agent spec)); ("model", VStr (as_model spec)); ("topic", VStr (as_topic spec));
                ("prompt", VStr prompt); ("tools", VList (map (fun t => VStr (at_name t)) (as_tools spec)))]) ;;
     i ← inst_get;
     if nonempty (as_topic spec) then
       id ← lift (new_id "agj");
       now ← lift e_now;
       lift (store_put (PutAgentJob
         {| ag_id := id; ag_tenant := in_tenant i; ag_inst := in_id i; ag_token := tok; ag_element := el_id el;
            ag_agent := as_agent spec; ag_topic := as_topic spec; ag_prompt := prompt; ag_system := system;
            ag_tools := map tool_spec (as_tools spec); ag_model := as_model spec; ag_effort := as_effort spec;
            ag_max_tokens := as_max_tokens spec; ag_vars := env; ag_state := AgentPending;
            ag_locked_by := ""; ag_lock_until := zero_time; ag_retries := or_default_int (as_retries spec) 3;
            ag_created := now |})) ;;
       park tok TokenWaitAgent id
     else
       match agent_invoker (as_agent spec) with
       | None => raise_incident tok "" ("agent task " ++ el_id el ++ ": no invoker registered for agent "
                                          ++ quote (as_agent spec) ++ " and no external topic")
       | Some inv =>
           r ← invoke_agent inv
             {| rq_inst := in_id i; rq_element := el_id el; rq_agent := as_agent spec; rq_prompt := prompt;
                rq_system := system; rq_tools := as_tools spec; rq_model := as_model spec;
                rq_effort := as_effort spec; rq_max_tokens := as_max_tokens spec; rq_vars := env;
                rq_trace := traceparent_of env |};
           match r with
           | inl err => handle_failure tok el err
           | inr rs => accept_agent_result tok el spec (rs_output rs) (rs_text rs) (rs_calls rs) (rs_usage rs)
           end
       end).

(** ** Dispatch *)

(** [activity] *)
Definition run_activity (tok : string) (el : Element) : M unit :=
  match el_type el with
  | TypeUserTask => user_task tok el
  | TypeServiceTask | TypeSendTask =>
      match el_agent el with Some spec => agent_task tok el spec | None => service_task tok el end
  | TypeScriptTask => script_task tok el
  | TypeBusinessRuleTask => business_rule_task tok el
  | TypeReceiveTask => receive_task tok el
  | TypeManualTask | TypeTask => finish_sync tok el
  | TypeSubProcess => enter_sub_process tok el
  | TypeCallActivity => call_activity tok el
  | _ => raise_incident tok "" ("unsupported activity type " ++ type_string (el_type el))
  end.
Definition activity (tok : string) (el : Element) : M unit :=
  t ← tok_get tok;
  if match el_multi el with Some _ => true | None => false end && negb (is_mi_child t el)
  then start_multi tok el
  else
    emit HistElementActivated (el_id el) ∅ ;;
    r ← attempt (apply_inputs el tok);
    match r with
    | inl err => raise_incident tok "" ("input mapping on " ++ el_id el ++ ": " ++ error_text err)
    | inr _ =>
        t ← tok_get tok;
        when (negb (is_mi_child t el)) (register_boundaries tok el) ;;
        run_activity tok el
    end.

(** ** Events *)

(** [intermediateCatch] *)
Definition intermediate_catch (tok : string) (el : Element) : M unit :=
  ev ← or_nil (el_event el);
  match ev_kind ev with
  | KindTimer => tok_set tok (set_tk_state TokenWaitTimer) ;; create_event_wait tok el ev true
  | KindMessage => tok_set tok (set_tk_state TokenWaitMessage) ;; create_event_wait tok el ev true
  | KindSignal => tok_set tok (set_tk_state TokenWaitSignal) ;; create_event_wait tok el ev true
  | k => raise_incident tok "" ("unsupported catch event kind " ++ kind_string k)
  end.

(** [intermediateThrow] *)
Definition throw_event (el : Element) : M unit :=
  match el_event el with
  | Some ev => match ev_kind ev with
               | KindMessage => throw_message el
               | KindSignal => throw_signal el
               | _ => mret tt
               end
  | None => mret tt
  end.
Definition intermediate_throw (tok : string) (el : Element) : M unit :=
  emit HistElementActivated (el_id el) ∅ ;; throw_event el ;; leave tok el.

(** [endEvent] *)
Definition end_kind (el : Element) : EventKind :=
  match el_event el with Some ev => ev_kind ev | None => KindNone end.
Definition end_event (tok : string) (el : Element) : M unit :=
  emit HistElementActivated (el_id el) ∅ ;;
  t ← tok_get tok;
  match end_kind el with
  | KindTerminate =>
      match tk_scope t with
      | [] => clear_tokens ;; complete_instance (el_id el)
      | path => kill_scope path (tk_owners t) "" ;; check_scope path (tk_owners t)
      end
  | KindError =>
      ev ← or_nil (el_event el);
      tok_del tok ;;
      emit HistErrorThrown (el_id el) (detail [("code", VStr (ev_code ev))]) ;;
      propagate_error t (ev_code ev) ("error end event " ++ el_id el)
  | _ =>
      throw_event el ;;
      when (match tk_scope t with [] => true | _ => false end) (inst_set (set_in_end_elem (el_id el))) ;;
      consume tok
  end.
End activity.
