(* ===== verification/EngineRun.v ===== *)
(** * Running an instance ([src/engine/exec.go], [src/engine/events.go])

    One step of a token, the loop over the active tokens, and the events that
    wake waiting tokens. *)
From S2P Require Import Prelude GoFloat GoUtf8 GoTime ExprValue ExprLexer ExprFuncs StoreTypes StoreQuery StoreMemory BpmnModel EngineBase EngineCancel EngineFlow EngineErrors EngineActivity.
Local Open Scope string_scope.
Local Open Scope Z_scope.

Definition maxSteps : Z := 100000.

Section run.
Context {U : Unicode} {R : Regexp} {MO : MapOrder} {E : Engine} {PD : ParsedDef}.

(** [step] *)
Definition step (tok : string) : M unit :=
  t ← tok_get tok;
  match element_of t with
  | None => raise_incident tok "" ("token at unknown element " ++ quote (tk_element t))
  | Some el =>
      match el_type el with
      | TypeStartEvent => emit HistElementActivated (el_id el) ∅ ;; leave tok el
      | TypeEndEvent => end_event tok el
      | TypeUserTask | TypeServiceTask | TypeScriptTask | TypeBusinessRuleTask | TypeSendTask
      | TypeReceiveTask | TypeManualTask | TypeTask | TypeSubProcess | TypeCallActivity => activity tok el
      | TypeExclusiveGateway => emit HistElementActivated (el_id el) ∅ ;; exclusive_gateway tok el
      | TypeParallelGateway => parallel_gateway tok el
      | TypeInclusiveGateway => inclusive_gateway tok el
      | TypeEventBasedGateway => emit HistElementActivated (el_id el) ∅ ;; event_based_gateway tok el
      | TypeIntermediateCatchEvent => emit HistElementActivated (el_id el) ∅ ;; intermediate_catch tok el
      | TypeIntermediateThrowEvent => intermediate_throw tok el
      | TypeBoundaryEvent => leave tok el
      end
  end.

(** [nextActive]: the loop keeps the lowest ID. *)
Definition better (best : option Token) (t : Token) : option Token :=
  if negb (bool_decide (tk_state t = TokenActive)) then best
  else match best with
       | None => Some t
       | Some b => if str_lt (tk_id t) (tk_id b) then Some t else best
       end.
Definition next_active (ts : list Token) : option Token := fold_left better ts None.

(** [drain].  [rt_steps] counts the steps; the loop ends when it passes
    [maxSteps], which bounds the fuel. *)
Definition bump_steps : M Z := fun s => (Ok (rt_steps s + 1), set_rt_steps (rt_steps s + 1) s).
Fixpoint drain_loop (fuel : nat) : M unit :=
  match fuel with
  | O => out_of_fuel
  | S fuel =>
      n ← lift tick;
      i ← inst_get;
      match next_active (map snd (map_range n (in_tokens i))) with
      | None => mret tt
      | Some t =>
          steps ← bump_steps;
          if maxSteps <? steps then
            raise_incident (tk_id t) "" "execution exceeded step limit (possible unguarded loop)"
          else
            step (tk_id t) ;;
            i ← inst_get;
            if bool_decide (in_state i = InstanceActive) then drain_loop fuel else mret tt
      end
  end.
Definition drain_fuel : nat := S (S (Z.to_nat maxSteps)).
Definition drain : M unit :=
  i ← inst_get;
  if in_suspended i then mret tt else drain_loop drain_fuel.

(** ** Events that wake tokens *)

(** [boundaryTriggered]; the functions return whether anything was woken. *)
Definition boundary_triggered (tok : string) (b : Element) : M bool :=
  t ← tok_live tok;
  match t with
  | None => mret false
  | Some t =>
      if negb (String.eqb (tk_element t) (el_attached b)) then mret false
      else
        emit HistElementActivated (el_id b)
          (detail [("boundary", VBool true); ("interrupting", VBool (el_cancel b))]) ;;
        if el_cancel b then cancel_activity tok ;; move_to_boundary tok b ;; mret true
        else _ ← spawn_token (el_id b) (tk_scope t) (tk_owners t) "" ∅; mret true
  end.

(** [findEventSubprocess]: the event sub-process that holds a start event. *)
Fixpoint find_event_sub (c : Container) (start : string) : option string :=
  let inner := (fun el => match el_sub el with
                          | None => None
                          | Some s => if el_by_event el && has_key (c_elements s) start then Some (el_id el)
                                      else find_event_sub s start
                          end) <$> c_elements c in
  first_some (map (fun id => match inner !! id with
                             | Some (Some es) => if nonempty es then Some es else None
                             | _ => None
                             end) (c_order c)).

(** [eventSubprocessTriggered] *)
Definition event_sub_triggered (owner : string) (start : Element) (ref : string) : M bool :=
  match find_event_sub (pr_container (@pd_proc PD)) (el_id start) with
  | None => fail (EMsg ("engine: start event " ++ quote (el_id start) ++ " is not inside an event sub-process"))
  | Some es =>
      place ← (if String.eqb owner "" then mret (Some ([], []))
               else o ← tok_live owner;
                    mret match o with
                         | Some o => Some ((tk_scope o ++ [tk_element o])%list, (tk_owners o ++ [tk_id o])%list)
                         | None => None
                         end);
      match place with
      | None => mret false
      | Some (path, owners) =>
          emit HistElementActivated es
            (detail [("eventSubprocess", VBool true); ("interrupting", VBool (el_cancel start))]) ;;
          when (el_cancel start)
            (kill_scope path owners es ;;
             when (nonempty ref) (lift (store_put (DeleteSubscription ref)))) ;;
          _ ← spawn_token (el_id start) (path ++ [es])%list (owners ++ [""])%list "" ∅;
          mret true
      end
  end.

(** [eventTriggered] *)
Definition waits_event (st : TokenState) : bool :=
  match st with TokenWaitMessage | TokenWaitSignal | TokenWaitTimer => true | _ => false end.
Definition event_triggered (tok element ref : string) : M bool :=
  match FindElement (@pd_proc PD) element with
  | None => fail (EMsg ("engine: triggered element " ++ quote element ++ " not found"))
  | Some el =>
      match el_type el with
      | TypeBoundaryEvent => boundary_triggered tok el
      | TypeStartEvent => event_sub_triggered tok el ref
      | _ =>
          t ← tok_live tok;
          match t with
          | None => mret false
          | Some t =>
              if bool_decide (tk_state t = TokenWaitEvents) then
                drop_waits tok ;;
                tok_set tok (set_tk_element element) ;;
                park tok TokenActive "" ;;
                emit HistElementActivated element ∅ ;;
                leave tok el ;;
                mret true
              else if negb (String.eqb (tk_element t) element) then mret false
              else if waits_event (tk_state t) then
                drop_waits tok ;;
                park tok TokenActive "" ;;
                if bool_decide (el_type el = TypeReceiveTask) then
                  emit HistElementCompleted (el_id el) ∅ ;;
                  r ← attempt (apply_outputs el tok);
                  match r with
                  | inl err => raise_incident tok "" ("output mapping on " ++ el_id el ++ ": " ++ error_text err) ;; mret true
                  | inr _ => clear_input_locals el tok ;; complete_activity tok ;; mret true
                  end
                else leave tok el ;; mret true
              else mret false
          end
      end
  end.

(** [timerFired] *)
Definition repeats_again (j : Job) : bool :=
  (0 <? jb_interval j) && ((1 <? jb_repeats j) || (jb_repeats j =? -1)).
Definition next_job (j : Job) (id : string) : Job :=
  let r := if 0 <? jb_repeats j then jb_repeats j - 1 else jb_repeats j in
  set_jb_repeats r (set_jb_due (time_add (jb_due j) (jb_interval j)) (set_jb_id id j)).
Definition non_interrupting (el : Element) : bool :=
  (bool_decide (el_type el = TypeBoundaryEvent) || bool_decide (el_type el = TypeStartEvent))
  && negb (el_cancel el).
Definition timer_fired (j : Job) : M bool :=
  emit HistTimerFired (jb_element j) ∅ ;;
  match FindElement (@pd_proc PD) (jb_element j) with
  | Some el =>
      when (repeats_again j && non_interrupting el)
        (id ← lift (new_id "job");
         now ← lift e_now;
         lift (store_put (PutJob (set_jb_created now (next_job j id)))))
  | None => mret tt
  end ;;
  event_triggered (jb_token j) (jb_element j) (jb_id j).
End run.
