(* ===== verification/EngineApi.v ===== *)
(** * The engine's operations ([src/engine/engine.go])

    Each call that runs an instance loads it, changes it under its lock,
    drains its tokens, stores it and then executes the continuations it
    collected.  A continuation runs instances in turn; [after_run] bounds the
    depth of that nesting with fuel. *)
From S2P Require Import Prelude GoFloat GoUtf8 GoTime ExprValue ExprLexer ExprFuncs StoreTypes StoreQuery StoreMemory BpmnModel EngineBase EngineCancel EngineFlow EngineErrors EngineActivity EngineRun.
Local Open Scope string_scope.
Local Open Scope Z_scope.

(** The strings of the state enumerations. *)
Definition instance_state_string (s : InstanceState) : string :=
  match s with InstanceActive => "active" | InstanceCompleted => "completed" | InstanceTerminated => "terminated" end.
Definition task_state_string (s : TaskState) : string :=
  match s with TaskCreated => "created" | TaskCompleted => "completed" | TaskCanceled => "canceled" end.
Definition external_state_string (s : ExternalState) : string :=
  match s with ExternalPending => "pending" | ExternalDone => "done" | ExternalFailed => "failed" end.
Definition agent_state_string (s : AgentState) : string :=
  match s with AgentPending => "pending" | AgentApproval => "approval" | AgentDone => "done" | AgentFailed => "failed" end.

Definition new_rt (w : world) (i : Instance) : rt :=
  {| rt_world := w; rt_inst := i; rt_gone := ∅; rt_conts := []; rt_steps := 0 |}.
(** A runtime for the instance, its result and its final state. *)
Definition run_rt {A} (m : M A) (i : Instance) : EM (A * rt) := fun w =>
  let '(r, s) := m (new_rt w i) in
  (match r with Ok a => Ok (a, s) | Err e => Err e | Panic p => Panic p | OutOfFuel => OutOfFuel end, rt_world s).

Section api.
Context {U : Unicode} {R : Regexp} {MO : MapOrder} {E : Engine}.

(** ** Definitions *)

(** [definition]: deployed documents have an executable process. *)
Definition definition (id : string) : EM ParsedDef :=
  cached ← gets (fun w => w_defs w !! id);
  match cached with
  | Some pd => mret pd
  | None =>
      d ← store_get (GetDefinition id);
      def ← or_not_found d;
      match e_parse (pd_xml def) with
      | inl err => fail (EWrap ("engine: stored definition " ++ id ++ " is invalid: ") err)
      | inr doc =>
          proc ← or_nil (first_executable doc);
          let pd := {| pd_def := def; pd_doc := doc; pd_proc := proc |} in
          modify (fun w => set_w_defs (<[id := pd]> (w_defs w)) w) ;;
          mret pd
      end
  end.

(** [registerStartTriggers] *)
Definition start_subs : SubscriptionFilter :=
  {| sf_kind := None; sf_name := ""; sf_ckey := ""; sf_inst := ""; sf_start := Some true |}.
Definition drop_start_triggers (def : ProcDef) : EM unit :=
  subs ← store_get (ListSubscriptions start_subs);
  for_each (fun s => when (String.eqb (sb_def_key s) (pd_key def) && String.eqb (sb_tenant s) (pd_tenant def))
                       (store_put (DeleteSubscription (sb_id s)))) subs ;;
  jobs ← store_get (ListJobs "");
  for_each (fun j => when (String.eqb (jb_def_key j) (pd_key def) && String.eqb (jb_inst j) ""
                           && String.eqb (jb_tenant j) (pd_tenant def))
                       (store_put (DeleteJob (jb_id j)))) jobs.
Definition start_sub (def : ProcDef) (kind : SubKind) (name element : string) : EM unit :=
  id ← new_id "sub";
  now ← e_now;
  store_put (PutSubscription
    {| sb_id := id; sb_tenant := pd_tenant def; sb_kind := kind; sb_name := name; sb_ckey := "";
       sb_inst := ""; sb_token := ""; sb_element := element; sb_start := true; sb_def_key := pd_key def;
       sb_created := now |}).
Definition register_start_trigger (def : ProcDef) (se : Element) : EM unit :=
  match el_event se with
  | None => mret tt
  | Some ev =>
      match ev_kind ev with
      | KindMessage => start_sub def SubMessage (ev_message ev) (el_id se)
      | KindSignal => start_sub def SubSignal (ev_signal ev) (el_id se)
      | KindTimer =>
          r ← attempt (timer_schedule ev ∅);
          match r with
          | inl err => fail (EWrap ("engine: timer start event " ++ el_id se ++ ": ") err)
          | inr (due, repeats, interval) =>
              id ← new_id "job";
              now ← e_now;
              store_put (PutJob
                {| jb_id := id; jb_tenant := pd_tenant def; jb_kind := JobTimer; jb_inst := "";
                   jb_def_key := pd_key def; jb_token := ""; jb_element := el_id se; jb_due := due;
                   jb_repeats := repeats; jb_interval := interval; jb_retries := 3; jb_created := now |})
          end
      | _ => mret tt
      end
  end.
Definition register_start_triggers (def : ProcDef) (proc : Process) : EM unit :=
  drop_start_triggers def ;;
  for_each (register_start_trigger def) (start_events (pr_container proc)).

(** [DeployTenant], [Deploy] *)
Definition deploy_tenant (tenant xml name : string) : EM ProcDef :=
  match e_parse xml with
  | inl err => fail err
  | inr doc =>
      match first_executable doc with
      | None => fail (EMsg "engine: no executable process in document")
      | Some proc =>
          prev ← store_get (LatestDefinitionForTenant tenant (pr_id proc));
          let version := match prev with Some d => pd_version d + 1 | None => 1 end in
          id ← new_id "def";
          now ← e_now;
          let def := {| pd_id := id; pd_tenant := tenant; pd_key := pr_id proc; pd_version := version;
                        pd_name := or_default name (pr_name proc); pd_xml := xml; pd_deployed := now |} in
          store_put (PutDefinition def) ;;
          modify (fun w => set_w_defs (<[id := {| pd_def := def; pd_doc := doc; pd_proc := proc |}]> (w_defs w)) w) ;;
          register_start_triggers def proc ;;
          mret def
      end
  end.
Definition deploy (xml name : string) : EM ProcDef := deploy_tenant "" xml name.

(** ** Running an instance *)
Section running.
(** What [afterRun] does with the continuations. *)
Variable after : list continuation -> EM unit.

(** The change, and the drain when it says to go on. *)
Definition change_and_drain (mutate : forall PD : ParsedDef, M bool) (PD : ParsedDef) : M bool :=
  ok ← mutate PD; when ok drain ;; mret ok.
(** [resume]; the result tells whether the change went through. *)
Definition resume_ok (id : string) (mutate : forall PD : ParsedDef, M bool) : EM bool :=
  found ← store_get (GetInstance id);
  i ← or_not_found found;
  if negb (bool_decide (in_state i = InstanceActive)) then
    fail (EMsg ("engine: instance " ++ id ++ " is " ++ instance_state_string (in_state i)))
  else
    PD ← definition (in_def_id i);
    '(ok, s) ← run_rt (change_and_drain mutate PD) i;
    when ok
      (store_put (fun m => (PutInstance (rt_inst s) m).2) ;;
       after (rt_conts s)) ;;
    mret ok.
Definition resume_with (id : string) (mutate : forall PD : ParsedDef, M bool) : EM unit :=
  _ ← resume_ok id mutate; mret tt.

(** [startInstance]; the empty start element is the plain one. *)
Definition new_instance (def : ProcDef) (id bkey : string) (v : vars) (parent parent_tok : string)
    (now : Z) (tok : Token) : Instance :=
  {| in_id := id; in_tenant := pd_tenant def; in_def_id := pd_id def; in_def_key := pd_key def;
     in_bkey := bkey; in_state := InstanceActive; in_suspended := false; in_parent := parent;
     in_parent_tok := parent_tok; in_vars := v; in_tokens := {[tk_id tok := tok]}; in_multi := ∅;
     in_started := now; in_ended := zero_time; in_end_elem := ""; in_rev := 0 |}.
Definition first_token (id element : string) : Token :=
  {| tk_id := id; tk_element := element; tk_state := TokenActive; tk_scope := []; tk_owners := [];
     tk_flow := ""; tk_wait := ""; tk_parent := ""; tk_locals := ∅ |}.
Definition start_body (PD : ParsedDef) (start : Element) (i : Instance) : M unit :=
  let d := detail [("businessKey", VStr (in_bkey i)); ("definitionKey", VStr (pd_key pd_def));
                   ("version", vnum (pd_version pd_def))] in
  let d := match in_vars i !! traceparentVar with
           | Some (VStr tp) => if nonempty tp then <["traceparent" := VStr tp]> d else d
           | _ => d
           end in
  emit HistInstanceStarted (el_id start) d ;;
  register_event_subs (pr_container pd_proc) "" ;;
  drain.
Definition start_instance_with (def_id preset bkey : string) (v : vars)
    (start_element parent parent_tok : string) : EM Instance :=
  PD ← definition def_id;
  let c := pr_container pd_proc in
  let start := if nonempty start_element then c_elements c !! start_element else none_start_event c in
  match start with
  | None => fail (EMsg ("engine: process " ++ quote (pd_key pd_def) ++ " has no usable start event"))
  | Some start =>
      id ← (if nonempty preset then mret preset else new_id "inst");
      now ← e_now;
      tid ← new_id "tok";
      let i := new_instance pd_def id bkey (normalize <$> v) parent parent_tok now (first_token tid (el_id start)) in
      store_put (fun m => (PutInstance i m).2) ;;
      '(_, s) ← run_rt (start_body PD start i) (set_in_rev 1 i);
      store_put (fun m => (PutInstance (rt_inst s) m).2) ;;
      after (rt_conts s) ;;
      r ← store_get (GetInstance id);
      or_not_found r
  end.

(** [CancelInstance] *)
Definition cancel_instance_with (id reason : string) : EM unit :=
  resume_with id (fun PD => terminate reason ;; mret true).

(** [triggerSubscription] *)
Definition trigger_body (sub : Subscription) (v : vars) (hist : string) (PD : ParsedDef) : M bool :=
  still ← lift (store_get (ListSubscriptions (subs_of_inst (sb_inst sub))));
  if negb (existsb (fun s => String.eqb (sb_id s) (sb_id sub)) still) then mret false
  else
    merge_vars v ;;
    ok ← event_triggered (sb_token sub) (sb_element sub) (sb_id sub);
    if (ok : bool) then emit hist (sb_element sub) (detail [("name", VStr (sb_name sub))]) ;; mret true
    else lift (store_put (DeleteSubscription (sb_id sub))) ;; mret false.
(** The result is the [activated] flag, which the closure sets when it goes on. *)
Definition trigger_with (sub : Subscription) (v : vars) (hist : string) : EM bool :=
  resume_ok (sb_inst sub) (trigger_body sub v hist).

(** [CorrelateMessage], [BroadcastSignal]: the number of activations. *)
Definition named_subs (kind : SubKind) (name : string) : SubscriptionFilter :=
  {| sf_kind := Some kind; sf_name := name; sf_ckey := ""; sf_inst := ""; sf_start := None |}.
Fixpoint count_sum {A} (f : A -> EM Z) (l : list A) : EM Z :=
  match l with
  | [] => mret 0
  | x :: l => n ← f x; k ← count_sum f l; mret (n + k)
  end.
Definition deliver (v : vars) (hist : string) (sub : Subscription) : EM Z :=
  r ← attempt (trigger_with sub v hist);
  mret match r with inr true => 1 | _ => 0 end.
Definition start_from (bkey : string) (v : vars) (sub : Subscription) : EM Z :=
  def ← store_get (LatestDefinitionForTenant (sb_tenant sub) (sb_def_key sub));
  match def with
  | None => mret 0
  | Some def => _ ← start_instance_with (pd_id def) "" bkey v (sb_element sub) "" ""; mret 1
  end.
Definition correlate_with (name ckey : string) (v : vars) : EM Z :=
  subs ← store_get (ListSubscriptions (named_subs SubMessage name));
  count ← count_sum (deliver v HistMessageReceived)
    (keep (fun s => negb (sb_start s) && (String.eqb ckey "" || String.eqb (sb_ckey s) ckey)) subs);
  if count =? 0 then count_sum (start_from ckey v) (keep sb_start subs) else mret count.
Definition broadcast_with (name : string) (v : vars) : EM Z :=
  subs ← store_get (ListSubscriptions (named_subs SubSignal name));
  count_sum (fun s => if sb_start s then start_from "" v s else deliver v HistSignalReceived s) subs.

(** The body of [notifyParent]'s continuation. *)
Fixpoint map_outputs (tok : string) (child_vars : vars) (l : list IOMapping) : M bool :=
  match l with
  | [] => mret true
  | m :: l =>
      r ← attempt (lift (expr_eval (io_source m) child_vars));
      match r with
      | inl err => raise_incident tok "" ("output mapping " ++ io_target m ++ ": " ++ error_text err) ;; mret false
      | inr v => set_var (io_target m) v ;; map_outputs tok child_vars l
      end
  end.
Definition notify_body (parent_tok child : string) (child_vars : vars) (PD : ParsedDef) : M bool :=
  t ← tok_live parent_tok;
  match t with
  | None => mret false
  | Some t =>
      if negb (bool_decide (tk_state t = TokenWaitChild) && String.eqb (tk_wait t) child) then mret false
      else
        go ← match element_of t with
             | None => mret true
             | Some el =>
                 ok ← map_outputs parent_tok child_vars (el_outputs el);
                 when ok (emit HistElementCompleted (el_id el) (detail [("childInstanceId", VStr child)])) ;;
                 mret ok
             end;
        when go (complete_activity parent_tok) ;;
        mret true
  end.

Definition child_failed (tok child : string) (err : goerr) (PD : ParsedDef) : M bool :=
  t ← tok_live tok;
  match t with
  | Some t => when (String.eqb (tk_wait t) child)
                (raise_incident tok "" ("child instance start failed: " ++ error_text err))
  | None => mret tt
  end ;;
  mret true.

(** One continuation; its errors are logged. *)
Definition run_continuation (c : continuation) : EM unit :=
  match c with
  | CCancel child reason => ignore (cancel_instance_with child reason)
  | CNotify parent tok child v => ignore (resume_with parent (notify_body tok child v))
  | CCorrelate name v => ignore (correlate_with name "" v)
  | CSignal name v => ignore (broadcast_with name v)
  | CStartChild def child bkey v parent tok =>
      r ← attempt (start_instance_with def child bkey v "" parent tok);
      match r with
      | inl err => ignore (resume_with parent (child_failed tok child err))
      | inr _ => mret tt
      end
  end.
End running.

(** [afterRun] *)
Fixpoint after_run (fuel : nat) (cs : list continuation) : EM unit :=
  match cs with
  | [] => mret tt
  | _ =>
      match fuel with
      | O => out_of_fuel
      | S fuel => for_each (run_continuation (after_run fuel)) cs
      end
  end.

Section calls.
(** The depth to which instances may start or notify each other. *)
Variable depth : nat.
Abbreviation after := (after_run depth).
Definition resume := resume_with after.
Definition start_instance_by_definition (def_id bkey : string) (v : vars) : EM Instance :=
  start_instance_with after def_id "" bkey v "" "" "".
Definition start_instance_tenant (tenant key bkey : string) (v : vars) : EM Instance :=
  def ← store_get (LatestDefinitionForTenant tenant key);
  match def with
  | None => fail (EWrap ("engine: unknown process " ++ quote key ++ " (tenant " ++ quote tenant ++ "): ") ENotFound)
  | Some def => start_instance_by_definition (pd_id def) bkey v
  end.
Definition start_instance := start_instance_tenant "".
Definition cancel_instance := cancel_instance_with after.
Definition correlate_message := correlate_with after.
Definition broadcast_signal := broadcast_with after.

(** [SuspendInstance], [ResumeInstance], [SetVariables] *)
Definition suspend_instance (id : string) : EM unit :=
  found ← store_get (GetInstance id);
  i ← or_not_found found;
  if negb (bool_decide (in_state i = InstanceActive)) then
    fail (EMsg ("engine: instance " ++ id ++ " is " ++ instance_state_string (in_state i)))
  else if in_suspended i then mret tt
  else store_put (fun m => (PutInstance (set_in_suspended true i) m).2).
Definition resume_instance (id : string) : EM unit :=
  resume id (fun PD =>
    i ← inst_get;
    if in_suspended i then inst_set (set_in_suspended false) ;; mret true else mret false).
Definition set_variables (id : string) (v : vars) : EM unit :=
  resume id (fun PD =>
    merge_vars v ;;
    emit HistVariablesSet ""
      (detail [("names", VList (map VStr (sort_strings (map fst (map_to_list v)))))]) ;;
    mret true).

(** ** User tasks *)

(** The token still waits for the record. *)
Definition waiting_on (st : TokenState) (ref : string) (t : option Token) : bool :=
  match t with
  | Some t => bool_decide (tk_state t = st) && String.eqb (tk_wait t) ref
  | None => false
  end.

(** [ClaimTask] *)
Definition claim_body (task user : string) (PD : ParsedDef) : M bool :=
  found ← lift (store_get (GetTask task));
  t ← or_not_found found;
  if negb (bool_decide (ta_state t = TaskCreated)) then
    fail (EMsg ("engine: task " ++ task ++ " is " ++ task_state_string (ta_state t)))
  else
    tok ← tok_live (ta_token t);
    if negb (waiting_on TokenWaitTask (ta_id t) tok) then
      fail (EMsg ("engine: task " ++ task ++ " is no longer active"))
    else if nonempty (ta_assignee t) && negb (String.eqb (ta_assignee t) user) then
      fail (EMsg ("engine: task " ++ task ++ " already assigned to " ++ ta_assignee t))
    else lift (store_put (PutTask (set_ta_assignee user t))) ;; mret false.
Definition claim_task (task user : string) : EM unit :=
  found ← store_get (GetTask task);
  t ← or_not_found found;
  resume (ta_inst t) (claim_body task user).

(** [CompleteTask]: the closure, on the record [t] read before. *)
Definition stash_of (t : Token) : option vars :=
  match tk_locals t !! agentProposalVar with Some (VMap m) => Some m | _ => None end.
Definition approved_by (v : vars) : bool := match v !! "approved" with Some x => truthy x | None => true end.
Definition apply_stash (stash : vars) (spec : AgentSpec) : M unit :=
  apply_agent_output spec
    (match stash !! "output" with Some (VMap m) => Some m | _ => None end)
    (match stash !! "text" with Some (VStr s) => s | _ => "" end).
Definition complete_task_body (task : string) (t : Task) (v : vars) (user : string) (PD : ParsedDef) : M bool :=
  tok ← tok_live (ta_token t);
  if negb (waiting_on TokenWaitTask (ta_id t) tok) then
    fail (EMsg ("engine: task " ++ task ++ " is no longer active"))
  else
    now ← lift e_now;
    lift (store_put (PutTask (set_ta_by user (set_ta_completed now (set_ta_state TaskCompleted t))))) ;;
    merge_vars v ;;
    emit HistTaskCompleted (ta_element t) (detail [("taskId", VStr (ta_id t)); ("by", VStr user)]) ;;
    x ← tok_get (ta_token t);
    match element_of x with
    | None => complete_activity (ta_token t)
    | Some el =>
        match el_agent el, stash_of x with
        | Some spec, Some stash =>
            tok_set (ta_token t) (fun x => set_tk_locals (delete agentProposalVar (tk_locals x)) x) ;;
            emit HistAgentCompleted (el_id el)
              (detail [("approvedBy", VStr user); ("approved", VBool (approved_by v))]) ;;
            when (approved_by v) (apply_stash stash spec) ;;
            finish_sync (ta_token t) el
        | _, _ =>
            ignore (apply_outputs el (ta_token t)) ;;
            clear_input_locals el (ta_token t) ;;
            complete_activity (ta_token t)
        end
    end ;;
    mret true.
(** The form validator may fill in defaults; a nil map is [None]. *)
Definition validate_form (t : Task) (v : option vars) : EM (option vars) :=
  match e_forms with
  | None => mret v
  | Some validate =>
      if String.eqb (ta_form t) "" then mret v
      else n ← tick; of_outcome (validate n (ta_form t) v)
  end.
Definition complete_task (task : string) (v : option vars) (user : string) : EM unit :=
  found ← store_get (GetTask task);
  t ← or_not_found found;
  if negb (bool_decide (ta_state t = TaskCreated)) then
    fail (EMsg ("engine: task " ++ task ++ " is " ++ task_state_string (ta_state t)))
  else
    v ← validate_form t v;
    resume (ta_inst t) (complete_task_body task t (default ∅ v) user).

(** ** External workers *)
Definition fetch_external_tasks (topic worker : string) (lock_for limit : Z) : EM (list ExternalTask) :=
  now ← e_now;
  store_call (FetchAndLockExternalTasks topic worker (time_add now lock_for) now limit).
Definition complete_external_body (id worker : string) (t : ExternalTask) (v : vars) (PD : ParsedDef) : M bool :=
  tok ← tok_live (ex_token t);
  if negb (waiting_on TokenWaitExternal (ex_id t) tok) then
    fail (EMsg ("engine: external task " ++ id ++ " is no longer active"))
  else
    lift (store_put (PutExternalTask (set_ex_state ExternalDone t))) ;;
    merge_vars v ;;
    x ← tok_get (ex_token t);
    emit HistElementCompleted (tk_element x) (detail [("worker", VStr worker)]) ;;
    match element_of x with
    | Some el => ignore (apply_outputs el (ex_token t)) ;; clear_input_locals el (ex_token t)
    | None => mret tt
    end ;;
    complete_activity (ex_token t) ;;
    mret true.
Definition fail_external_body (id message code : string) (t : ExternalTask) (PD : ParsedDef) : M bool :=
  tok ← tok_live (ex_token t);
  if negb (waiting_on TokenWaitExternal (ex_id t) tok) then
    fail (EMsg ("engine: external task " ++ id ++ " is no longer active"))
  else if nonempty code then
    lift (store_put (PutExternalTask (set_ex_state ExternalFailed t))) ;;
    throw_error (ex_token t) code message ;;
    mret true
  else
    let t := set_ex_retries (ex_retries t - 1) t in
    if 0 <? ex_retries t then
      lift (store_put (PutExternalTask (set_ex_lock_until zero_time (set_ex_locked_by "" t)))) ;; mret true
    else
      lift (store_put (PutExternalTask (set_ex_state ExternalFailed t))) ;;
      raise_incident (ex_token t) "" ("external task on topic " ++ quote (ex_topic t) ++ " failed: " ++ message) ;;
      mret true.
(** The checks of the worker's report, before the instance is locked. *)
Definition check_external (id worker : string) : EM ExternalTask :=
  found ← store_get (GetExternalTask id);
  t ← or_not_found found;
  if negb (bool_decide (ex_state t = ExternalPending)) then
    fail (EMsg ("engine: external task " ++ id ++ " is " ++ external_state_string (ex_state t)))
  else if negb (String.eqb (ex_locked_by t) worker) then
    fail (EMsg ("engine: external task " ++ id ++ " locked by " ++ quote (ex_locked_by t) ++ ", not " ++ quote worker))
  else mret t.
Definition complete_external_task (id worker : string) (v : vars) : EM unit :=
  t ← check_external id worker;
  resume (ex_inst t) (complete_external_body id worker t v).
Definition fail_external_task (id worker message code : string) : EM unit :=
  t ← check_external id worker;
  resume (ex_inst t) (fail_external_body id message code t).

(** ** Agent workers *)
Definition fetch_agent_jobs (topic worker : string) (lock_for limit : Z) : EM (list AgentJob) :=
  now ← e_now;
  store_call (FetchAndLockAgentJobs topic worker (time_add now lock_for) now limit).
Definition complete_agent_body (j : AgentJob) (output : option vars) (text : string)
    (calls : list AgentToolCall) (u : AgentUsage) (PD : ParsedDef) : M bool :=
  tok ← tok_live (ag_token j);
  if negb (waiting_on TokenWaitAgent (ag_id j) tok) then
    fail (EMsg ("engine: agent job " ++ ag_id j ++ " is no longer active"))
  else
    x ← tok_get (ag_token j);
    match (el ← element_of x; spec ← el_agent el; Some (el, spec)) with
    | None => fail (EMsg ("engine: agent job " ++ ag_id j ++ " element gone"))
    | Some (el, spec) =>
        lift (store_put (PutAgentJob (set_ag_state AgentDone j))) ;;
        accept_agent_result (ag_token j) el spec output text calls u ;;
        mret true
    end.
Definition fail_agent_body (id message code : string) (j : AgentJob) (PD : ParsedDef) : M bool :=
  tok ← tok_live (ag_token j);
  if negb (waiting_on TokenWaitAgent (ag_id j) tok) then
    fail (EMsg ("engine: agent job " ++ id ++ " is no longer active"))
  else if nonempty code then
    lift (store_put (PutAgentJob (set_ag_state AgentFailed j))) ;;
    throw_error (ag_token j) code message ;;
    mret true
  else
    let j := set_ag_retries (ag_retries j - 1) j in
    if 0 <? ag_retries j then
      lift (store_put (PutAgentJob (set_ag_lock_until zero_time (set_ag_locked_by "" j)))) ;; mret true
    else
      lift (store_put (PutAgentJob (set_ag_state AgentFailed j))) ;;
      raise_incident (ag_token j) "" ("agent job on topic " ++ quote (ag_topic j) ++ " failed: " ++ message) ;;
      mret true.
Definition check_agent (id worker : string) : EM AgentJob :=
  found ← store_get (GetAgentJob id);
  j ← or_not_found found;
  if negb (bool_decide (ag_state j = AgentPending)) then
    fail (EMsg ("engine: agent job " ++ id ++ " is " ++ agent_state_string (ag_state j)))
  else if negb (String.eqb (ag_locked_by j) worker) then
    fail (EMsg ("engine: agent job " ++ id ++ " locked by " ++ quote (ag_locked_by j) ++ ", not " ++ quote worker))
  else mret j.
Definition complete_agent_job (id worker : string) (output : option vars) (text : string)
    (calls : list AgentToolCall) (u : AgentUsage) : EM unit :=
  j ← check_agent id worker;
  resume (ag_inst j) (complete_agent_body j output text calls u).
Definition fail_agent_job (id worker message code : string) : EM unit :=
  j ← check_agent id worker;
  resume (ag_inst j) (fail_agent_body id message code j).

(** ** Incidents *)
Definition resolve_body (inc : Incident) (PD : ParsedDef) : M bool :=
  now ← lift e_now;
  lift (store_put (PutIncident (set_ic_resolved_at now (set_ic_resolved true inc)))) ;;
  emit HistIncidentResolved (ic_element inc) (detail [("incidentId", VStr (ic_id inc))]) ;;
  tok ← tok_live (ic_token inc);
  match tok with
  | Some t => when (bool_decide (tk_state t = TokenWaitRetry)) (park (ic_token inc) TokenActive "")
  | None => mret tt
  end ;;
  mret true.
Definition resolve_incident (id : string) : EM unit :=
  found ← store_get (GetIncident id);
  inc ← or_not_found found;
  if ic_resolved inc then fail (EMsg ("engine: incident " ++ id ++ " already resolved"))
  else resume (ic_inst inc) (resolve_body inc).
End calls.
End api.
