(* ===== verification/EngineSched.v ===== *)
(** * Jobs, recovery and retention ([src/engine/scheduler.go],
    [src/engine/engine.go], [src/engine/housekeeping.go])

    The background loops call [run_due_jobs] and [run_housekeeping] at each
    tick; [reconcile] runs once at the start. *)
From S2P Require Import Prelude GoFloat GoUtf8 GoTime ExprValue ExprLexer ExprFuncs StoreTypes StoreQuery StoreMemory BpmnModel EngineBase EngineCancel EngineFlow EngineErrors EngineActivity EngineRun EngineApi.
Local Open Scope string_scope.
Local Open Scope Z_scope.

Definition job_kind_string (k : JobKind) : string :=
  match k with JobTimer => "timer" | JobAsync => "async" | JobRetry => "retry" end.

Section sched.
Context {U : Unicode} {R : Regexp} {MO : MapOrder} {E : Engine}.
Variable depth : nat.

(** ** Executing jobs *)

(** [requeueFailedJob]: unless its instance has ended, a failed job goes back
    to the store or becomes an incident. *)
Definition instance_gone (cause : goerr) : bool :=
  is_not_found cause || scontains (error_text cause) "is completed"
  || scontains (error_text cause) "is terminated".
Definition requeue_failed_job (j : Job) (cause : goerr) : EM unit :=
  if instance_gone cause then mret tt
  else if 1 <? jb_retries j then
    now ← e_now;
    store_put (PutJob (set_jb_due (time_add now e_backoff) (set_jb_retries (jb_retries j - 1) j)))
  else
    id ← new_id "incd";
    now ← e_now;
    store_put (PutIncident
      {| ic_id := id; ic_inst := jb_inst j; ic_token := jb_token j; ic_element := jb_element j;
         ic_message := "job " ++ jb_id j ++ " (" ++ job_kind_string (jb_kind j) ++ ") failed permanently: "
                       ++ error_text cause;
         ic_code := ""; ic_created := now; ic_resolved := false; ic_resolved_at := zero_time |}).

(** [executeJob] *)
Definition continue_body (j : Job) (PD : ParsedDef) : M bool :=
  tok ← tok_live (jb_token j);
  if negb (waiting_on TokenWaitRetry (jb_id j) tok) then mret false
  else park (jb_token j) TokenActive "" ;; mret true.
Definition timer_start (j : Job) : EM unit :=
  def ← store_get (LatestDefinitionForTenant (jb_tenant j) (jb_def_key j));
  match def with
  | None => mret tt
  | Some def =>
      ignore (start_instance_with (after_run depth) (pd_id def) "" "" ∅ (jb_element j) "" "") ;;
      when (repeats_again j) (id ← new_id "job"; store_put (PutJob (next_job j id)))
  end.
Definition execute_job (j : Job) : EM unit :=
  if String.eqb (jb_inst j) "" && nonempty (jb_def_key j) then timer_start j
  else
    r ← attempt (resume depth (jb_inst j)
          (match jb_kind j with
           | JobTimer => fun PD => timer_fired j
           | _ => continue_body j
           end));
    match r with
    | inl err => requeue_failed_job j err
    | inr _ => mret tt
    end.

(** [RunDueJobs] *)
Definition run_due_jobs (limit : Z) : EM Z :=
  now ← e_now;
  jobs ← store_call (DueJobs now limit);
  for_each execute_job jobs ;;
  mret (Z.of_nat (length jobs)).

(** ** [reconcile] *)
Definition reconcile_token (k : string) (t : Token) (PD : ParsedDef) : M bool :=
  match tk_state t with
  | TokenWaitChild =>
      if String.eqb (tk_wait t) scopeWaitRef then mret false
      else
        child ← lift (store_get (GetInstance (tk_wait t)));
        match child with
        | None =>
            raise_incident k "" "call-activity child instance was never started (crash during handoff); resolve to retry" ;;
            mret true
        | Some child =>
            if bool_decide (in_state child = InstanceActive) then mret false
            else
              match element_of t with
              | Some el =>
                  for_each (fun m =>
                    r ← attempt (lift (expr_eval (io_source m) (in_vars child)));
                    match r with inr v => set_var (io_target m) v | inl _ => mret tt end) (el_outputs el)
              | None => mret tt
              end ;;
              complete_activity k ;;
              mret true
        end
  | TokenWaitTask =>
      task ← lift (store_get (GetTask (tk_wait t)));
      match task with
      | Some task =>
          if bool_decide (ta_state task = TaskCreated) then mret false
          else raise_incident k "" "user task record finished but the flow never advanced (crash during completion); resolve to recreate the task" ;;
               mret true
      | None => mret false
      end
  | TokenWaitTimer | TokenWaitRetry =>
      if negb (has_prefix (tk_wait t) "job_") then mret false
      else
        job ← lift (store_get (GetJob (tk_wait t)));
        match job with
        | Some _ => mret false
        | None => park k TokenActive "" ;; mret true
        end
  | _ => mret false
  end.
(** The loop over the tokens; whether any of them changed. *)
Fixpoint any_token (f : string -> Token -> M bool) (keys : list string) : M bool :=
  match keys with
  | [] => mret false
  | k :: keys =>
      t ← tok_live k;
      a ← match t with Some t => f k t | None => mret false end;
      b ← any_token f keys;
      mret (a || b)
  end.
Definition reconcile_body (PD : ParsedDef) : M bool :=
  n ← lift tick;
  i ← inst_get;
  any_token (fun k t => reconcile_token k t PD) (range_keys n (map fst (map_to_list (in_tokens i)))).
Definition all_created_tasks : TaskFilter := created_tasks "".
Definition cancel_orphan (t : Task) : EM unit :=
  i ← store_get (GetInstance (ta_inst t));
  if match i with Some i => bool_decide (in_state i = InstanceActive) | None => false end then mret tt
  else store_put (PutTask (set_ta_state TaskCanceled t)).
Definition reconcile : EM unit :=
  insts ← store_get (ListInstances (instances_by InstanceActive "" zero_time 0));
  for_each (fun i => ignore (resume depth (in_id i) reconcile_body)) insts ;;
  tasks ← store_get (ListTasks all_created_tasks);
  for_each cancel_orphan tasks.

(** ** [RunHousekeeping] *)
Record HousekeepingPolicy := { hp_ttl : Z; hp_interval : Z; hp_batch : Z }.
(** The defaults of [WithHousekeeping]. *)
Definition with_housekeeping (p : HousekeepingPolicy) : HousekeepingPolicy :=
  {| hp_ttl := hp_ttl p;
     hp_interval := if hp_interval p <=? 0 then hour else hp_interval p;
     hp_batch := if hp_batch p <=? 0 then 500 else hp_batch p |}.
Definition live_parent (i : Instance) (m : Memory) : bool :=
  nonempty (in_parent i)
  && match GetInstance (in_parent i) m with
     | Some p => bool_decide (in_state p = InstanceActive)
     | None => false
     end.
Definition purge_one (i : Instance) : EM Z :=
  live ← store_get (live_parent i);
  if (live : bool) then mret 0 else store_put (PurgeInstance (in_id i)) ;; mret 1.
Definition purge_state (p : HousekeepingPolicy) (cutoff : Z) (st : InstanceState) : EM Z :=
  insts ← store_get (ListInstances (instances_by st "" cutoff (hp_batch p)));
  count_sum purge_one insts.
Definition run_housekeeping (policy : option HousekeepingPolicy) (now : Z) : EM Z :=
  match policy with
  | None => mret 0
  | Some p =>
      if hp_ttl p <=? 0 then mret 0
      else let cutoff := time_add now (- hp_ttl p) in
           a ← purge_state p cutoff InstanceCompleted;
           b ← purge_state p cutoff InstanceTerminated;
           mret (a + b)
  end.
End sched.
