(* ===== verification/EngineSamples.v ===== *)
(** * A concrete engine and concrete processes

    The parameters of the engine instantiated with functions, so that the
    model can be run: a clock that advances by a microsecond at each reading,
    no handlers, and a parser that knows the processes of this file. *)
From S2P Require Import Prelude GoFloat GoUtf8 GoTime ExprValue ExprLexer ExprFuncs ExprEval StoreTypes StoreQuery StoreMemory BpmnModel EngineBase EngineCancel EngineFlow EngineErrors EngineActivity EngineRun EngineApi EngineSched.
Local Open Scope string_scope.
Local Open Scope Z_scope.

(** ** Processes *)

(** An element with the fields the samples use. *)
Definition element (id : string) (t : ElementType) (inc out : list string) (expr : string) (retries : Z) : Element :=
  MkElement id "" t inc out "" None "" false "" "" [] [] "" "" "" "" "" retries expr "" "" "" None false None None [] [] false.
Definition plain_node (id : string) (t : ElementType) (inc out : list string) : Element := element id t inc out "" 0.
Definition flow (id source target cond : string) : SequenceFlow :=
  {| sq_id := id; sq_name := ""; sq_source := source; sq_target := target; sq_cond := cond |}.
Definition container (els : list Element) (fl : list SequenceFlow) : Container :=
  MkContainer (list_to_map (map (fun e => (el_id e, e)) els)) (list_to_map (map (fun f => (sq_id f, f)) fl)) (map el_id els).
Definition process (id : string) (c : Container) : Process :=
  {| pr_id := id; pr_name := ""; pr_exec := true; pr_container := c |}.
Definition document (p : Process) : Definitions :=
  {| df_id := ""; df_ns := ""; df_processes := [p]; df_messages := ∅; df_signals := ∅; df_errors := ∅ |}.

(** An inclusive fork whose second branch may end before the join. *)
Definition join_container : Container := container
  [plain_node "start" TypeStartEvent [] ["f0"]; plain_node "fork" TypeInclusiveGateway ["f0"] ["fa"; "fb"];
   plain_node "choice" TypeExclusiveGateway ["fb"] ["fx"; "fe"]; plain_node "join" TypeInclusiveGateway ["fa"; "fx"] ["fj"];
   plain_node "end" TypeEndEvent ["fj"] []; plain_node "other" TypeEndEvent ["fe"] []]
  [flow "f0" "start" "fork" ""; flow "fa" "fork" "join" ""; flow "fb" "fork" "choice" "";
   flow "fx" "choice" "join" "go"; flow "fe" "choice" "other" "not go"; flow "fj" "join" "end" ""].
(** A user task. *)
Definition user_container : Container := container
  [plain_node "start" TypeStartEvent [] ["f0"]; plain_node "approve" TypeUserTask ["f0"] ["f1"]; plain_node "end" TypeEndEvent ["f1"] []]
  [flow "f0" "start" "approve" ""; flow "f1" "approve" "end" ""].
(** A script that fails, with one retry. *)
Definition script_container : Container := container
  [plain_node "start" TypeStartEvent [] ["f0"]; element "script" TypeScriptTask ["f0"] ["f1"] "1 + missing.field.x" 2;
   plain_node "end" TypeEndEvent ["f1"] []]
  [flow "f0" "start" "script" ""; flow "f1" "script" "end" ""].

(** A timer start event whose duration is not one. *)
Definition bad_timer : EventDefinition :=
  {| ev_kind := KindTimer; ev_date := ""; ev_duration := "soon"; ev_cycle := ""; ev_message := ""; ev_signal := ""; ev_code := "" |}.
Definition timer_container : Container := container
  [MkElement "timer" "" TypeStartEvent [] ["f1"] "" (Some bad_timer) "" false "" "" [] [] "" "" "" "" "" 0 "" "" "" "" None false None None [] [] false;
   plain_node "start" TypeStartEvent [] ["f0"]; plain_node "end" TypeEndEvent ["f0"; "f1"] []]
  [flow "f0" "start" "end" ""; flow "f1" "timer" "end" ""].

(** ** The engine *)
#[local] Existing Instance latin1_only.
#[local] Existing Instance literal_regexp.
#[local] Existing Instance key_order.
Definition sample_parse (xml : string) : goerr + Definitions :=
  if String.eqb xml "join" then inr (document (process "join" join_container))
  else if String.eqb xml "user" then inr (document (process "user" user_container))
  else if String.eqb xml "script" then inr (document (process "script" script_container))
  else if String.eqb xml "timer" then inr (document (process "timer" timer_container))
  else inl (EMsg "bpmn: invalid document").
Definition sample_engine : Engine :=
  {| e_clock n := 1700000000 * second + Z.of_nat n * 1000; e_wall n := 0; e_suffix := "abcd";
     e_handlers := ∅; e_decisions := None; e_agents := ∅; e_default_agent := None; e_guard := None;
     e_forms := None; e_backoff := 5 * second; e_parse := sample_parse |}.
Definition empty_world : world := {| w_store := new_memory; w_tick := 0; w_seq := 0; w_defs := ∅ |}.
#[local] Existing Instance sample_engine.

(** Deploy the process and start an instance of it. *)
Definition launch (key : string) (v : vars) : EM Instance :=
  _ ← deploy key ""; start_instance 5 key "key-1" v.
Definition launched (key : string) (v : vars) : world := (launch key v empty_world).2.
(** Where the tokens of an instance are. *)
Definition places (i : Instance) : list (string * TokenState) :=
  map (fun t => (tk_element t, tk_state t)) (tokens_of i).
Definition look {A} (r : res goerr A * world) : option A := match r.1 with Ok a => Some a | _ => None end.

(** A running instance with one token. *)
Definition sample_def (key : string) : ProcDef :=
  {| pd_id := "def_1"; pd_tenant := ""; pd_key := key; pd_version := 1; pd_name := key; pd_xml := key; pd_deployed := 0 |}.
Definition parsed (key : string) (c : Container) : ParsedDef :=
  {| pd_def := sample_def key; pd_doc := document (process key c); pd_proc := process key c |}.
Definition sample_instance (key : string) (v : vars) (t : Token) : Instance :=
  new_instance (sample_def key) "inst_1" "key-1" v "" "" 0 t.
Definition sample_rt (key : string) (v : vars) (t : Token) : rt := new_rt empty_world (sample_instance key v t).
