(* ===== verification/EngineLocal.v ===== *)
(** * What an operation does to the token it works on

    The results of the engine's functions on a token of a running instance:
    incidents and their resolution, retries, and the flows a token takes. *)
From S2P Require Import Prelude GoFloat GoUtf8 GoTime ExprValue ExprLexer ExprFuncs ExprEval StoreTypes StoreQuery StoreMemory BpmnModel EngineBase EngineCancel EngineFlow EngineErrors EngineActivity EngineRun EngineApi EngineSched EngineSamples.
Local Open Scope string_scope.
Local Open Scope Z_scope.

(** ** Running the primitives *)
Section primitives.
Context {U : Unicode} {R : Regexp} {MO : MapOrder} {E : Engine}.

Lemma run_bind {S A B} (m : ST S A) (f : A -> ST S B) s a s' r :
  m s = (Ok a, s') -> f a s' = r -> (m ≫= f) s = r.
Proof. intros Hm <-. unfold mbind, ST_bind. by rewrite Hm. Qed.

(** The program changes the world only, and its value and the new world
    satisfy [V]. *)
Definition outside {A} (m : M A) (s : rt) (V : A -> world -> Prop) : Prop :=
  exists a w, m s = (Ok a, set_rt_world w s) /\ V a w.
Lemma outside_bind {A B} (m : M A) (f : A -> M B) s V W :
  outside m s V -> (forall a w, V a w -> outside (f a) (set_rt_world w s) W) -> outside (m ≫= f) s W.
Proof.
  intros (a & w & Hm & HV) Hf. destruct (Hf a w HV) as (b & w' & Hb & HW).
  exists b, w'. split; [|done]. eapply run_bind; [exact Hm|]. by rewrite Hb.
Qed.
Lemma outside_ret {A} (a : A) s (V : A -> world -> Prop) : V a (rt_world s) -> outside (mret a) s V.
Proof. intros H. exists a, (rt_world s). split; [by destruct s|done]. Qed.
Lemma outside_lift {A} (m : EM A) s a w V : m (rt_world s) = (Ok a, w) -> V a w -> outside (lift m) s V.
Proof. intros Hm HV. exists a, w. split; [|done]. unfold lift. by rewrite Hm. Qed.

(** The tables of the store other than the history. *)
Definition same_records (w w' : world) : Prop :=
  exists h q, w_store w' = set_m_hist_seq q (set_m_history h (w_store w)).
Lemma same_records_refl w : same_records w w.
Proof. exists (m_history (w_store w)), (m_hist_seq (w_store w)). by destruct (w_store w). Qed.
Lemma same_records_trans w1 w2 w3 : same_records w1 w2 -> same_records w2 w3 -> same_records w1 w3.
Proof. intros (h1 & q1 & H1) (h2 & q2 & H2). exists h2, q2. rewrite H2, H1. done. Qed.

Lemma now_run s : outside (lift e_now) s (fun t w =>
  t = e_clock (w_tick (rt_world s)) /\ w_store w = w_store (rt_world s) /\ w_tick w = S (w_tick (rt_world s))).
Proof. by eapply outside_lift. Qed.
Lemma new_id_run p s : outside (lift (new_id p)) s (fun _ w => w_store w = w_store (rt_world s)).
Proof. by eapply outside_lift. Qed.
Lemma put_run f s : outside (lift (store_put f)) s (fun _ w => w_store w = f (w_store (rt_world s))).
Proof. by eapply outside_lift. Qed.
Lemma inst_run s : inst_get s = (Ok (rt_inst s), s).
Proof. done. Qed.
Lemma emit_run typ el d s : outside (emit typ el d) s (fun _ w => same_records (rt_world s) w).
Proof.
  unfold emit. eapply (outside_bind _ _ s (fun i w => i = rt_inst s /\ w = rt_world s)).
  { eexists _, _. split; [|done]. by destruct s. }
  intros i w [-> ->]. eapply outside_bind; [apply now_run|]. cbn. intros t w (-> & Hw & _).
  eapply outside_lift; [done|]. cbn. rewrite Hw. unfold AppendHistory. cbn.
  by eexists _, _.
Qed.

Lemma get_run s id t : tok_of s id = Some t -> tok_get id s = (Ok t, s).
Proof. intros H. unfold tok_get, gets, or_nil, mbind, ST_bind. cbn. by rewrite H. Qed.
Lemma live_run s id : tok_live id s = (Ok (in_tokens (rt_inst s) !! id), s).
Proof. done. Qed.
Lemma set_run s id f t : in_tokens (rt_inst s) !! id = Some t -> tok_set id f s = (Ok tt, set_tokens (insert id (f t)) s).
Proof. intros H. unfold tok_set, modify. by rewrite H. Qed.
Lemma tok_of_live s id t : in_tokens (rt_inst s) !! id = Some t -> tok_of s id = Some t.
Proof. intros H. unfold tok_of. by rewrite H. Qed.
End primitives.

(** ** Incidents *)
Section incidents.
Context {U : Unicode} {R : Regexp} {MO : MapOrder} {E : Engine}.

(** [run H] runs the head of a bind by the fact [H : outside m s V]. *)
Ltac run_out H := destruct H as (? & ? & ?Hrun & ?HV); eapply run_bind; [exact Hrun|clear Hrun].

(** The token waits for the incident. *)
Definition parked (id : string) (t : Token) : Token := set_tk_wait id (set_tk_state TokenWaitRetry t).
Definition open_incident (inst tok code : string) (inc : Incident) : Prop :=
  ic_inst inc = inst /\ ic_token inc = tok /\ ic_code inc = code /\ ic_resolved inc = false.
Lemma raise_run tok code msg s t :
  in_tokens (rt_inst s) !! tok = Some t -> tk_id t = tok ->
  exists inc w, raise_incident tok code msg s
    = (Ok tt, set_rt_world w (set_tokens (insert tok (parked (ic_id inc) t)) s))
  /\ open_incident (in_id (rt_inst s)) tok code inc
  /\ m_incidents (w_store w) = <[ic_id inc := inc]> (m_incidents (w_store (rt_world s)))
  /\ m_jobs (w_store w) = m_jobs (w_store (rt_world s)).
Proof.
  intros Ht Hid. unfold raise_incident.
  destruct (new_id_run "incd" s) as (id & w1 & H1 & E1).
  destruct (now_run (set_rt_world w1 s)) as (now & w2 & H2 & -> & E2 & _). cbn in E2.
  set (inc := {| ic_id := id; ic_inst := in_id (rt_inst s); ic_token := tk_id t; ic_element := tk_element t;
     ic_message := msg; ic_code := code; ic_created := e_clock (w_tick w1); ic_resolved := false;
     ic_resolved_at := zero_time |}).
  destruct (put_run (PutIncident inc) (set_rt_world w2 s)) as ([] & w3 & H3 & E3). cbn in E3.
  set (s4 := set_tokens (insert tok (parked id t)) (set_rt_world w3 s)).
  destruct (emit_run HistIncidentCreated (tk_element t)
    (detail [("incidentId", VStr id); ("message", VStr msg)]) s4) as ([] & w4 & H4 & (h & q & E4)).
  exists inc, w4. split_and!; [|by split_and!|..].
  - eapply run_bind; [exact H1|]. eapply run_bind; [apply get_run, tok_of_live; exact Ht|].
    eapply run_bind; [apply inst_run|]. eapply run_bind; [exact H2|].
    eapply run_bind; [exact H3|]. eapply run_bind; [apply live_run|]. cbn. rewrite Hid, Ht.
    eapply run_bind; [by apply set_run|]. exact H4.
  - rewrite E4. cbn. rewrite E3. cbn. by rewrite E2, E1.
  - rewrite E4. cbn. rewrite E3. cbn. by rewrite E2, E1.
Qed.

(** [ResolveIncident] on an incident whose token waits for it. *)
Lemma resolve_run inc PD s t :
  in_tokens (rt_inst s) !! ic_token inc = Some t -> tk_state t = TokenWaitRetry ->
  exists w inc', resolve_body inc PD s
    = (Ok true, set_rt_world w (set_tokens (insert (ic_token inc) (set_tk_wait "" (set_tk_state TokenActive t))) s))
  /\ m_incidents (w_store w) = <[ic_id inc := inc']> (m_incidents (w_store (rt_world s)))
  /\ ic_resolved inc' = true /\ m_jobs (w_store w) = m_jobs (w_store (rt_world s)).
Proof.
  intros Ht Hst. unfold resolve_body.
  destruct (now_run s) as (now & w1 & H1 & -> & E1 & _).
  set (inc' := set_ic_resolved_at (e_clock (w_tick (rt_world s))) (set_ic_resolved true inc)).
  destruct (put_run (PutIncident inc') (set_rt_world w1 s)) as ([] & w2 & H2 & E2). cbn in E2.
  destruct (emit_run HistIncidentResolved (ic_element inc) (detail [("incidentId", VStr (ic_id inc))])
    (set_rt_world w2 s)) as ([] & w3 & H3 & (h & q & E3)). cbn in E3.
  exists w3, inc'. split_and!; [|..].
  - eapply run_bind; [exact H1|]. eapply run_bind; [exact H2|]. eapply run_bind; [exact H3|].
    eapply run_bind; [apply live_run|]. cbn. rewrite Ht.
    rewrite bool_decide_eq_true_2 by done.
    eapply run_bind; [exact (set_run (set_rt_world w3 s) _ _ t Ht)|reflexivity].
  - rewrite E3. cbn. rewrite E2. cbn. by rewrite E1.
  - done.
  - rewrite E3. cbn. rewrite E2. cbn. by rewrite E1.
Qed.

(** The state with the token changed. *)
Definition with_token (tok : string) (t : Token) (w : world) (s : rt) : rt := set_rt_world w (set_tokens (insert tok t) s).
Lemma with_token_twice tok t t' w w' s : with_token tok t' w' (with_token tok t w s) = with_token tok t' w' s.
Proof. unfold with_token, set_tokens. cbn. by rewrite insert_insert_eq. Qed.
Definition reactivated (t : Token) : Token := set_tk_wait "" (set_tk_state TokenActive t).
Lemma raise_resolve_core PD tok code msg s t :
  in_tokens (rt_inst s) !! tok = Some t -> tk_id t = tok ->
  exists inc w w', raise_incident tok code msg s = (Ok tt, with_token tok (parked (ic_id inc) t) w s)
  /\ GetIncident (ic_id inc) (w_store w) = Some inc /\ open_incident (in_id (rt_inst s)) tok code inc
  /\ resolve_body inc PD (with_token tok (parked (ic_id inc) t) w s) = (Ok true, with_token tok (reactivated t) w' s)
  /\ (exists inc', GetIncident (ic_id inc) (w_store w') = Some inc' /\ ic_resolved inc' = true)
  /\ m_jobs (w_store w') = m_jobs (w_store (rt_world s)).
Proof.
  intros Ht Hid. destruct (raise_run tok code msg s t Ht Hid) as (inc & w & Hr & Ho & Hi & Hj).
  assert (ic_token inc = tok) as Etok by apply Ho.
  destruct (resolve_run inc PD (with_token tok (parked (ic_id inc) t) w s) (parked (ic_id inc) t))
    as (w' & inc' & Hs & Hi' & Hres & Hj'); [cbn; rewrite Etok; apply lookup_insert_eq|done|].
  exists inc, w, w'. split_and!; [exact Hr| |done| | |].
  - unfold GetIncident. rewrite Hi. apply lookup_insert_eq.
  - rewrite Hs, Etok. f_equal. apply (with_token_twice tok (parked (ic_id inc) t) (reactivated t)).
  - exists inc'. split; [|done]. unfold GetIncident. rewrite Hi'. apply lookup_insert_eq.
  - rewrite Hj'. exact Hj.
Qed.

(** An incident keeps the token: it waits for the incident, which is
    stored open, and resolving the incident gives back the very token that
    failed, active, with its place and its variables; all else stays. *)
Theorem incident_roundtrip PD tok code msg s t :
  in_tokens (rt_inst s) !! tok = Some t -> tk_id t = tok ->
  exists inc w w', raise_incident tok code msg s = (Ok tt, with_token tok (parked (ic_id inc) t) w s)
  /\ GetIncident (ic_id inc) (w_store w) = Some inc /\ open_incident (in_id (rt_inst s)) tok code inc
  /\ resolve_body inc PD (with_token tok (parked (ic_id inc) t) w s) = (Ok true, with_token tok (reactivated t) w' s)
  /\ (exists inc', GetIncident (ic_id inc) (w_store w') = Some inc' /\ ic_resolved inc' = true)
  /\ m_jobs (w_store w') = m_jobs (w_store (rt_world s)).
Proof. apply raise_resolve_core. Qed.

(** ** Retries *)

(** The counter is a float; it is exact far beyond any number of retries. *)
Lemma counter_exact a : 0 <= a < 1024 -> f_to_int64 (f_of_Z a) = a.
Proof.
  intros Ha. assert (forallb (fun n => f_to_int64 (f_of_Z (Z.of_nat n)) =? Z.of_nat n) (seq 0 1024) = true) as H
    by (vm_compute; reflexivity).
  rewrite forallb_forall in H. specialize (H (Z.to_nat a)). rewrite Z2Nat.id in H by lia.
  apply Z.eqb_eq, H, in_seq. lia.
Qed.

Definition counted (a : Z) (t : Token) : Token := set_tk_locals (<[attemptsVar := vnum a]> (tk_locals t)) t.
Lemma attempts_counted a t : 0 <= a < 1024 -> attempts_of (counted a t) = a.
Proof. intros Ha. unfold attempts_of, counted. cbn. rewrite lookup_insert_eq. by apply counter_exact. Qed.

Definition plain_error (e : goerr) : Prop := match e with EBpmn _ _ => False | _ => True end.
Definition max_retries (el : Element) : Z := or_default_int (el_retries el) 3.
Definition retry_job (s : rt) (tok : string) (el : Element) (a due : Z) (j : Job) : Prop :=
  jb_kind j = JobRetry /\ jb_inst j = in_id (rt_inst s) /\ jb_token j = tok /\ jb_element j = el_id el
  /\ jb_due j = due /\ jb_retries j = max_retries el - a.

Section failing.
Context {PD : ParsedDef}.
Lemma failure_retries tok el err s t :
  in_tokens (rt_inst s) !! tok = Some t -> tk_id t = tok -> plain_error err ->
  0 <= attempts_of t < 1000 -> attempts_of t + 1 < max_retries el ->
  let a := attempts_of t + 1 in
  exists n j w, handle_failure tok el err s
    = (Ok tt, with_token tok (set_tk_wait (jb_id j) (set_tk_state TokenWaitRetry (counted a t))) w s)
  /\ retry_job s tok el a (time_add (e_clock n) (shl64 e_backoff (a - 1))) j
  /\ m_jobs (w_store w) = <[jb_id j := j]> (m_jobs (w_store (rt_world s)))
  /\ m_incidents (w_store w) = m_incidents (w_store (rt_world s)).
Proof.
  intros Ht Hid Herr Ha Hmax a.
  assert (wrap64 (attempts_of t + 1) = a) as Hw by (apply wrap64_id; unfold int64_min, int64_max; lia).
  set (s1 := set_tokens (insert tok (counted a t)) s).
  destruct (new_id_run "job" s1) as (id & w1 & H1 & E1).
  destruct (now_run (set_rt_world w1 s1)) as (due & w2 & H2 & -> & E2 & _). cbn in E2.
  destruct (now_run (set_rt_world w2 s1)) as (now & w3 & H3 & -> & E3 & _). cbn in E3.
  set (j := {| jb_id := id; jb_tenant := ""; jb_kind := JobRetry; jb_inst := in_id (rt_inst s); jb_def_key := "";
     jb_token := tk_id t; jb_element := el_id el;
     jb_due := time_add (e_clock (w_tick w1)) (shl64 e_backoff (a - 1)); jb_repeats := 0; jb_interval := 0;
     jb_retries := max_retries el - a; jb_created := e_clock (w_tick w2) |}).
  destruct (put_run (PutJob j) (set_rt_world w3 s1)) as ([] & w4 & H4 & E4). cbn in E4.
  exists (w_tick w1), j, w4. split_and!; [|by split_and!|by rewrite E4; cbn; rewrite E3, E2, E1|by rewrite E4; cbn; rewrite E3, E2, E1].
  unfold handle_failure. destruct err; try done;
    (eapply run_bind; [apply get_run, tok_of_live; exact Ht|]; cbv zeta; rewrite Hw;
     fold (max_retries el); rewrite (proj2 (Z.ltb_lt a (max_retries el))) by lia;
     eapply run_bind; [apply set_run; exact Ht|]; rewrite (proj2 (Z.ltb_ge a 1)) by lia;
     eapply run_bind; [exact H1|]; eapply run_bind; [apply inst_run|];
     eapply run_bind; [exact H2|]; eapply run_bind; [exact H3|]; eapply run_bind; [exact H4|];
     etrans; [eapply set_run; apply lookup_insert_eq|]; unfold with_token, set_tokens; cbn;
     by rewrite insert_insert_eq).
Qed.
Lemma failure_exhausted tok el err s t :
  in_tokens (rt_inst s) !! tok = Some t -> tk_id t = tok -> plain_error err ->
  0 <= attempts_of t < 1000 -> max_retries el <= attempts_of t + 1 ->
  exists msg, handle_failure tok el err s = raise_incident tok "" msg s.
Proof.
  intros Ht Hid Herr Ha Hmax.
  assert (wrap64 (attempts_of t + 1) = attempts_of t + 1) as Hw by (apply wrap64_id; unfold int64_min, int64_max; lia).
  eexists. unfold handle_failure. destruct err; try done;
    (eapply run_bind; [apply get_run, tok_of_live; exact Ht|]; cbv zeta; rewrite Hw;
     fold (max_retries el); rewrite (proj2 (Z.ltb_ge (attempts_of t + 1) (max_retries el))) by lia; reflexivity).
Qed.

(** C22: an activity that fails with an ordinary error is tried again while
    the limit of its element allows: the token counts the attempt and waits
    for one new retry job, due after the backoff, doubled with each attempt;
    after that the failure becomes an incident on which the token waits, and
    no job is created. *)
Theorem failure_retry_cycle tok el err s t :
  in_tokens (rt_inst s) !! tok = Some t -> tk_id t = tok -> plain_error err -> 0 <= attempts_of t < 1000 ->
  let a := attempts_of t + 1 in
  if a <? max_retries el then
    exists n j w, handle_failure tok el err s
      = (Ok tt, with_token tok (set_tk_wait (jb_id j) (set_tk_state TokenWaitRetry (counted a t))) w s)
    /\ attempts_of (counted a t) = a
    /\ retry_job s tok el a (time_add (e_clock n) (shl64 e_backoff (a - 1))) j
    /\ m_jobs (w_store w) = <[jb_id j := j]> (m_jobs (w_store (rt_world s)))
  else
    exists inc w, handle_failure tok el err s = (Ok tt, with_token tok (parked (ic_id inc) t) w s)
    /\ open_incident (in_id (rt_inst s)) tok "" inc
    /\ GetIncident (ic_id inc) (w_store w) = Some inc /\ m_jobs (w_store w) = m_jobs (w_store (rt_world s)).
Proof.
  intros Ht Hid Herr Ha a. destruct (Z.ltb_spec a (max_retries el)).
  - destruct (failure_retries tok el err s t) as (n & j & w & Hr & Hj & Hm & _); [done..|].
    exists n, j, w. split_and!; [exact Hr|apply attempts_counted; lia|done|done].
  - destruct (failure_exhausted tok el err s t) as (msg & ->); [done..|].
    destruct (raise_run tok "" msg s t Ht Hid) as (inc & w & Hr & Ho & Hi & Hj).
    exists inc, w. split_and!; [exact Hr|done| |done]. unfold GetIncident. rewrite Hi. apply lookup_insert_eq.
Qed.

(** Resolving the incident of an activity that used up its retries gives
    it no fresh ones: the token keeps its count, and the next failure is at
    once an incident again, without a retry job. *)
Theorem resolve_keeps_attempts tok el err err' s t :
  in_tokens (rt_inst s) !! tok = Some t -> tk_id t = tok -> plain_error err -> plain_error err' ->
  0 <= attempts_of t < 1000 -> max_retries el <= attempts_of t + 1 ->
  exists inc w1 w2 inc' w3, handle_failure tok el err s = (Ok tt, with_token tok (parked (ic_id inc) t) w1 s)
  /\ resolve_body inc PD (with_token tok (parked (ic_id inc) t) w1 s) = (Ok true, with_token tok (reactivated t) w2 s)
  /\ handle_failure tok el err' (with_token tok (reactivated t) w2 s)
     = (Ok tt, with_token tok (parked (ic_id inc') t) w3 s)
  /\ open_incident (in_id (rt_inst s)) tok "" inc' /\ m_jobs (w_store w3) = m_jobs (w_store (rt_world s)).
Proof.
  intros Ht Hid He He' Ha Hmax. destruct (failure_exhausted tok el err s t) as (msg & Hf); [done..|].
  destruct (raise_resolve_core PD tok "" msg s t Ht Hid) as (inc & w1 & w2 & Hr & _ & _ & Hres & _ & Hj2).
  set (s2 := with_token tok (reactivated t) w2 s).
  assert (in_tokens (rt_inst s2) !! tok = Some (reactivated t)) as Ht2 by apply lookup_insert_eq.
  destruct (failure_exhausted tok el err' s2 (reactivated t)) as (msg' & Hf'); [done..|].
  destruct (raise_run tok "" msg' s2 (reactivated t) Ht2 Hid) as (inc' & w3 & Hr' & Ho' & _ & Hj3).
  exists inc, w1, w2, inc', w3. split_and!; [by rewrite Hf|exact Hres| |done|by rewrite Hj3].
  etrans; [exact Hf'|]. etrans; [exact Hr'|]. f_equal. apply (with_token_twice tok (reactivated t) (parked (ic_id inc') t)).
Qed.

End failing.

Lemma shl64_exact d k : 0 <= d -> 0 <= k < 64 -> d * 2 ^ k <= int64_max -> shl64 d k = d * 2 ^ k.
Proof.
  intros Hd Hk Hb. unfold shl64. destruct (Z.leb_spec 64 k); [lia|]. rewrite Z.shiftl_mul_pow2 by lia.
  apply wrap64_id. unfold int64_min, int64_max in *. nia.
Qed.
(** The retry job of a failed activity is due after the backoff, doubled
    with each attempt, as long as that fits in 64 bits.  Nothing bounds the
    shift: after the 64th attempt there is no delay at all, and with the
    default of five seconds the 32nd attempt is due in the past. *)
Theorem retry_backoff {PD : ParsedDef} tok el err s t :
  in_tokens (rt_inst s) !! tok = Some t -> tk_id t = tok -> plain_error err ->
  0 <= attempts_of t < 1000 -> attempts_of t + 1 < max_retries el -> 0 <= e_backoff ->
  let a := attempts_of t + 1 in
  exists n j w delay, handle_failure tok el err s
    = (Ok tt, with_token tok (set_tk_wait (jb_id j) (set_tk_state TokenWaitRetry (counted a t))) w s)
  /\ jb_due j = time_add (e_clock n) delay
  /\ (e_backoff * 2 ^ (a - 1) <= int64_max -> delay = e_backoff * 2 ^ (a - 1))
  /\ (64 < a -> delay = 0)
  /\ (e_backoff = 5 * second -> a = 32 -> delay < 0).
Proof.
  intros Ht Hid He Ha Hmax Hb a. destruct (failure_retries tok el err s t) as (n & j & w & Hrun & Hj & _); [done..|].
  exists n, j, w, (shl64 e_backoff (a - 1)). split_and!; [exact Hrun|apply Hj|..].
  - intros Hfit. destruct (Z.le_gt_cases 65 a) as [Hbig|]; [|apply shl64_exact; lia].
    destruct (Z.eq_dec e_backoff 0) as [Hz|]; [rewrite Hz; unfold shl64; rewrite Z.shiftl_0_l; by case_match|].
    pose proof (Z.pow_le_mono_r 2 64 (a - 1)). unfold int64_max in Hfit. nia.
  - intros. unfold shl64. destruct (Z.leb_spec 64 (a - 1)); [done|lia].
  - intros -> ->. by vm_compute.
Qed.
End incidents.

(** ** Taking a flow *)
Section flows.
Context {U : Unicode} {R : Regexp} {MO : MapOrder} {E : Engine} {PD : ParsedDef}.

(** The token on the other side of the flow. *)
Definition moved (f : SequenceFlow) (t : Token) : Token :=
  set_tk_wait "" (set_tk_state TokenActive (set_tk_flow (sq_id f) (set_tk_element (sq_target f) t))).
Definition async_job (s : rt) (tok : string) (target : Element) (j : Job) : Prop :=
  jb_kind j = JobAsync /\ jb_inst j = in_id (rt_inst s) /\ jb_token j = tok /\ jb_element j = el_id target.
(** The token has taken the flow: it is active at the target, or waits there
    for the job of an asynchronous target.  Nothing else of the instance
    changes. *)
Definition takes (tok : string) (t : Token) (f : SequenceFlow) (s s' : rt) : Prop :=
  exists w, (s' = with_token tok (moved f t) w s /\ m_jobs (w_store w) = m_jobs (w_store (rt_world s))
             /\ forall el, element_of (moved f t) = Some el -> el_async el = false)
  \/ exists el j, element_of (moved f t) = Some el /\ el_async el = true /\ async_job s tok el j
     /\ s' = with_token tok (parked (jb_id j) (moved f t)) w s
     /\ m_jobs (w_store w) = <[jb_id j := j]> (m_jobs (w_store (rt_world s))).
(** The token waits for an incident. *)
Definition blocked (tok : string) (t : Token) (s s' : rt) : Prop :=
  exists inc w, s' = with_token tok (parked (ic_id inc) t) w s
  /\ open_incident (in_id (rt_inst s)) tok "" inc /\ GetIncident (ic_id inc) (w_store w) = Some inc.

Lemma async_run tok s t :
  in_tokens (rt_inst s) !! tok = Some t -> tk_id t = tok -> t = set_tk_wait "" (set_tk_state TokenActive t) ->
  exists s', maybe_async tok s = (Ok tt, s') /\
  exists w, (s' = set_rt_world w s /\ m_jobs (w_store w) = m_jobs (w_store (rt_world s))
             /\ forall el, element_of t = Some el -> el_async el = false)
  \/ exists el j, element_of t = Some el /\ el_async el = true /\ async_job s tok el j
     /\ s' = with_token tok (parked (jb_id j) t) w s
     /\ m_jobs (w_store w) = <[jb_id j := j]> (m_jobs (w_store (rt_world s))).
Proof.
  intros Ht Hid Hact. unfold maybe_async.
  destruct (element_of t) as [el|] eqn:Eel; [destruct (el_async el) eqn:Ea|].
  - destruct (new_id_run "job" s) as (id & w1 & H1 & E1).
    destruct (now_run (set_rt_world w1 s)) as (due & w2 & H2 & -> & E2 & _). cbn in E2.
    destruct (now_run (set_rt_world w2 s)) as (now & w3 & H3 & -> & E3 & _). cbn in E3.
    set (j := {| jb_id := id; jb_tenant := ""; jb_kind := JobAsync; jb_inst := in_id (rt_inst s); jb_def_key := "";
      jb_token := tok; jb_element := el_id el; jb_due := e_clock (w_tick w1); jb_repeats := 0; jb_interval := 0;
      jb_retries := 3; jb_created := e_clock (w_tick w2) |}).
    destruct (put_run (PutJob j) (set_rt_world w3 s)) as ([] & w4 & H4 & E4). cbn in E4.
    exists (with_token tok (parked id t) w4 s). split.
    + eapply run_bind; [apply get_run, tok_of_live; exact Ht|]. rewrite Eel, Ea. cbn [when].
      eapply run_bind; [exact H1|]. eapply run_bind; [apply inst_run|]. eapply run_bind; [exact H2|].
      eapply run_bind; [exact H3|]. eapply run_bind; [exact H4|]. exact (set_run (set_rt_world w4 s) _ _ t Ht).
    + exists w4. right. exists el, j. split_and!; try done. rewrite E4. cbn. by rewrite E3, E2, E1.
  - exists s. split.
    + eapply run_bind; [apply get_run, tok_of_live; exact Ht|]. by rewrite Eel, Ea.
    + exists (rt_world s). left. split_and!; [by destruct s|done|congruence].
  - exists s. split.
    + eapply run_bind; [apply get_run, tok_of_live; exact Ht|]. by rewrite Eel.
    + exists (rt_world s). left. split_and!; [by destruct s|done|done].
Qed.
Lemma move_one_run tok s t f :
  in_tokens (rt_inst s) !! tok = Some t -> tk_id t = tok ->
  exists s', move_over tok [f] s = (Ok tt, s') /\ takes tok t f s s'.
Proof.
  intros Ht Hid. set (s1 := set_tokens (insert tok (moved f t)) s).
  destruct (async_run tok s1 (moved f t)) as (s' & Hr & w & H); [apply lookup_insert_eq|done|done|].
  exists s'. split.
  - eapply run_bind; [reflexivity|]. eapply run_bind; [by apply set_run|]. exact Hr.
  - exists w. destruct H as [(-> & Hj & Ha)|(el & j & Hel & Ha & Hj & -> & Hm)]; [left; by split_and!|right].
    exists el, j. split_and!; try done. unfold with_token, s1, set_tokens. cbn. by rewrite insert_insert_eq.
Qed.

(** *** Conditions

    The condition of a flow, evaluated at the [n]th reading of the wall
    clock; a flow without a condition holds. *)
Definition cond_at (n : nat) (env : vars) (f : SequenceFlow) : res expr_error bool :=
  if String.eqb (sq_cond f) "" then Ok true else eval_bool_src (e_wall n) (sq_cond f) env.
Definition says (env : vars) (b : bool) (f : SequenceFlow) : Prop := exists n, cond_at n env f = Ok b.
Definition fails_with (env : vars) (f : SequenceFlow) (e : expr_error) : Prop := exists n, cond_at n env f = Err e.
(** Evaluating the condition stops the process or goes on forever. *)
Definition stuck (env : vars) (f : SequenceFlow) : Prop := exists n, returns (cond_at n env f) = false.
(** The flows with a condition to try, in the order of the model. *)
Definition selectable (c : Container) (default : string) (ids : list string) : list SequenceFlow :=
  omap (fun fid => if String.eqb fid default then None else c_flows c !! fid) ids.

Lemma holds_run env f s : exists n w, w_store w = w_store (rt_world s) /\
  attempt (flow_holds env f) s =
    (match cond_at n env f with Ok b => Ok (inr b) | Err e => Ok (inl (EExpr e)) | Panic p => Panic p | OutOfFuel => OutOfFuel end,
     set_rt_world w s).
Proof.
  unfold flow_holds, cond_at. destruct (String.eqb (sq_cond f) "").
  - exists 0%nat, (rt_world s). split; [done|]. by destruct s.
  - exists (w_tick (rt_world s)), (set_w_tick (S (w_tick (rt_world s))) (rt_world s)). split; [done|].
    unfold attempt, lift, expr_eval_bool, of_expr, tick, mbind, ST_bind. cbn.
    by destruct (eval_bool_src _ _ _).
Qed.

Inductive first_choice (env : vars) (fs : list SequenceFlow) : res goerr ((SequenceFlow * goerr) + option SequenceFlow) -> Prop :=
| fc_take pre f post : fs = (pre ++ f :: post)%list -> Forall (says env false) pre -> says env true f ->
    first_choice env fs (Ok (inr (Some f)))
| fc_none : Forall (says env false) fs -> first_choice env fs (Ok (inr None))
| fc_error pre f post e : fs = (pre ++ f :: post)%list -> Forall (says env false) pre -> fails_with env f e ->
    first_choice env fs (Ok (inl (f, EExpr e)))
| fc_stuck pre f post r : fs = (pre ++ f :: post)%list -> Forall (says env false) pre -> stuck env f ->
    returns r = false -> first_choice env fs r.
Lemma first_choice_cons env f fs r : says env false f -> first_choice env fs r -> first_choice env (f :: fs) r.
Proof.
  intros Hf [pre g post -> Hpre Hg| |pre g post e -> Hpre Hg|pre g post r' -> Hpre Hg Hr].
  - by apply (fc_take _ _ (f :: pre) g post); [|constructor|].
  - by apply fc_none; constructor.
  - by apply (fc_error _ _ (f :: pre) g post); [|constructor|].
  - by apply (fc_stuck _ _ (f :: pre) g post); [|constructor| |].
Qed.
Lemma first_flow_run c default env ids : forall s, exists r w, w_store w = w_store (rt_world s)
  /\ first_flow c default (flow_holds env) ids s = (r, set_rt_world w s)
  /\ first_choice env (selectable c default ids) r.
Proof.
  induction ids as [|fid ids IH]; intros s; cbn [first_flow].
  - exists (Ok (inr None)), (rt_world s). split_and!; [done|by destruct s|by apply fc_none].
  - unfold selectable. cbn [omap list_omap]. destruct (if String.eqb fid default then None else c_flows c !! fid) as [f|]; [|apply IH].
    fold (selectable c default ids). destruct (holds_run env f s) as (n & w & Hw & Hh).
    unfold mbind, ST_bind. rewrite Hh. destruct (cond_at n env f) as [[]|e|p|] eqn:Ec.
    + exists (Ok (inr (Some f))), w. split_and!; [done|done|]. apply (fc_take _ _ [] f (selectable c default ids)); [done..|].
      by exists n.
    + destruct (IH (set_rt_world w s)) as (r & w' & Hw' & -> & Hc). cbn in Hw'.
      exists r, w'. split_and!; [congruence|done|]. apply first_choice_cons; [by exists n|done].
    + exists (Ok (inl (f, EExpr e))), w. split_and!; [done|done|].
      apply (fc_error _ _ [] f (selectable c default ids)); [done..|]. by exists n.
    + exists (Panic p), w. split_and!; [done|done|].
      apply (fc_stuck _ _ [] f (selectable c default ids)); [done..| |done]. exists n. by rewrite Ec.
    + exists OutOfFuel, w. split_and!; [done|done|].
      apply (fc_stuck _ _ [] f (selectable c default ids)); [done..| |done]. exists n. by rewrite Ec.
Qed.

(** C15: an exclusive gateway sends its token over exactly one flow: the first
    of its flows whose condition holds, or the default flow when none holds;
    when there is neither, or a condition fails to evaluate, the token waits
    for an incident.  No token appears or disappears; it returns unless the
    evaluation of a condition does not. *)
Theorem exclusive_gateway_spec tok el s t c env :
  in_tokens (rt_inst s) !! tok = Some t -> tk_id t = tok -> scope_of t = Some c -> env_of (rt_inst s) t = Ok env ->
  let fs := selectable c (el_default el) (el_outgoing el) in
  (exists pre f post, fs = (pre ++ f :: post)%list /\ Forall (says env false) pre /\ stuck env f) \/
  exists s', exclusive_gateway tok el s = (Ok tt, s') /\
    ((exists pre f post, fs = (pre ++ f :: post)%list /\ Forall (says env false) pre /\ says env true f /\ takes tok t f s s')
     \/ (exists f, Forall (says env false) fs /\ default_flow c el = [f] /\ takes tok t f s s')
     \/ (Forall (says env false) fs /\ default_flow c el = [] /\ blocked tok t s s')
     \/ (exists pre f post e, fs = (pre ++ f :: post)%list /\ Forall (says env false) pre /\ fails_with env f e /\ blocked tok t s s')).
Proof.
  intros Ht Hid Hc Henv fs.
  destruct (first_flow_run c (el_default el) env (el_outgoing el) s) as (r & w & Hw & Hff & Hch). fold fs in Hch.
  assert (forall k, first_flow c (el_default el) (flow_holds env) (el_outgoing el) s = (Ok k, set_rt_world w s) ->
    exclusive_gateway tok el s = (match k with
      | inl (f, err) => raise_incident tok "" ("condition on flow " ++ sq_id f ++ ": " ++ error_text err)
      | inr o => match (match o with Some f => [f] | None => default_flow c el end) with
          | f :: _ => emit HistElementCompleted (el_id el) (detail [("flow", VStr (sq_id f))]) ;; move_over tok [f]
          | [] => raise_incident tok "" ("exclusive gateway " ++ el_id el ++ ": no condition matched and no default flow")
          end end) (set_rt_world w s)) as Hrun.
  { intros k Hk. unfold exclusive_gateway.
    eapply run_bind; [apply get_run, tok_of_live; exact Ht|]. rewrite Hc.
    eapply run_bind; [reflexivity|]. eapply (run_bind _ _ s env s).
    { unfold tok_env. eapply run_bind; [apply get_run, tok_of_live; exact Ht|].
      eapply run_bind; [apply inst_run|]. unfold of_outcome. by rewrite Henv. }
    by eapply run_bind. }
  assert (forall msg, exists s', raise_incident tok "" msg (set_rt_world w s) = (Ok tt, s') /\ blocked tok t s s') as Hraise.
  { intros msg. destruct (raise_run tok "" msg (set_rt_world w s) t Ht Hid) as (inc & w' & Hr & Ho & Hi & _).
    eexists. split; [exact Hr|]. exists inc, w'. split_and!; [done..|]. unfold GetIncident. rewrite Hi.
    apply lookup_insert_eq. }
  assert (forall f, exists s', (emit HistElementCompleted (el_id el) (detail [("flow", VStr (sq_id f))]) ;; move_over tok [f])
      (set_rt_world w s) = (Ok tt, s') /\ takes tok t f s s') as Htake.
  { intros f. destruct (emit_run HistElementCompleted (el_id el) (detail [("flow", VStr (sq_id f))]) (set_rt_world w s))
      as ([] & w1 & H1 & (h & q & E1)). cbn in E1.
    destruct (move_one_run tok (set_rt_world w1 s) t f Ht Hid) as (s' & Hr & Htk).
    exists s'. split; [by eapply run_bind|]. destruct Htk as (w2 & Htk). exists w2. cbn in Htk.
    rewrite E1 in Htk. cbn in Htk. rewrite Hw in Htk. exact Htk. }
  destruct Hch as [pre f post -> Hpre Hf|Hn|pre f post e -> Hpre Hf|pre f post r -> Hpre Hf Hr].
  - right. destruct (Htake f) as (s' & Hr & Htk). exists s'. rewrite (Hrun _ Hff). split; [done|]. left. by exists pre, f, post.
  - right. pose proof (Hrun _ Hff) as ->. destruct (default_flow c el) as [|f l] eqn:Ed.
    + destruct (Hraise ("exclusive gateway " ++ el_id el ++ ": no condition matched and no default flow")) as (s' & -> & Hb).
      exists s'. split; [done|]. right; right; left. done.
    + assert (l = []) as -> by (unfold default_flow in Ed; repeat case_match; simplify_eq; done).
      destruct (Htake f) as (s' & -> & Htk). exists s'. split; [done|]. right; left. by exists f.
  - right. destruct (Hraise ("condition on flow " ++ sq_id f ++ ": " ++ error_text (EExpr e))) as (s' & Hr & Hb).
    exists s'. rewrite (Hrun _ Hff). split; [done|]. right; right; right. by exists pre, f, post, e.
  - left. by exists pre, f, post.
Qed.
End flows.

(** ** The properties on a concrete instance *)
#[local] Existing Instance latin1_only.
#[local] Existing Instance literal_regexp.
#[local] Existing Instance key_order.
#[local] Existing Instance sample_engine.

Definition script_pd : ParsedDef := parsed "script" script_container.
Definition script_el : Element := element "script" TypeScriptTask ["f0"] ["f1"] "1 + missing.field.x" 2.
Definition script_token : Token := first_token "tok_1" "script".
Definition script_rt : rt := sample_rt "script" ∅ script_token.
Definition failed_once : Token := counted 1 script_token.
Definition failed_rt : rt := sample_rt "script" ∅ failed_once.

Lemma incident_roundtrip_witness :
  exists inc w w', raise_incident "tok_1" "" "boom" script_rt = (Ok tt, with_token "tok_1" (parked (ic_id inc) script_token) w script_rt)
  /\ resolve_body inc script_pd (with_token "tok_1" (parked (ic_id inc) script_token) w script_rt)
     = (Ok true, with_token "tok_1" (reactivated script_token) w' script_rt).
Proof.
  destruct (incident_roundtrip script_pd "tok_1" "" "boom" script_rt script_token) as (inc & w & w' & H1 & _ & _ & H2 & _);
    [reflexivity|reflexivity|]. exists inc, w, w'. split; assumption.
Defined.

Lemma failure_retry_cycle_witness :
  (exists n j w, handle_failure (PD := script_pd) "tok_1" script_el (EMsg "boom") script_rt
     = (Ok tt, with_token "tok_1" (set_tk_wait (jb_id j) (set_tk_state TokenWaitRetry (counted 1 script_token))) w script_rt)
   /\ retry_job script_rt "tok_1" script_el 1 (time_add (e_clock n) (5 * second)) j)
  /\ (exists inc w, handle_failure (PD := script_pd) "tok_1" script_el (EMsg "boom") failed_rt
     = (Ok tt, with_token "tok_1" (parked (ic_id inc) failed_once) w failed_rt)).
Proof.
  split.
  - destruct (failure_retry_cycle (PD := script_pd) "tok_1" script_el (EMsg "boom") script_rt script_token)
      as (n & j & w & H1 & _ & H2 & _); [reflexivity|reflexivity|exact I|split; [discriminate|reflexivity]|].
    exists n, j, w. split; [exact H1|exact H2].
  - destruct (failure_retry_cycle (PD := script_pd) "tok_1" script_el (EMsg "boom") failed_rt failed_once)
      as (inc & w & H & _); [reflexivity|reflexivity|exact I|split; [discriminate|reflexivity]|].
    exists inc, w. exact H.
Defined.

Lemma resolve_keeps_attempts_witness :
  exists w2 inc' w3, handle_failure (PD := script_pd) "tok_1" script_el (EMsg "again") (with_token "tok_1" (reactivated failed_once) w2 failed_rt)
     = (Ok tt, with_token "tok_1" (parked (ic_id inc') failed_once) w3 failed_rt)
  /\ m_jobs (w_store w3) = ∅.
Proof.
  destruct (resolve_keeps_attempts (PD := script_pd) "tok_1" script_el (EMsg "boom") (EMsg "again") failed_rt failed_once)
    as (inc & w1 & w2 & inc' & w3 & _ & _ & H & _ & Hj);
    [reflexivity|reflexivity|exact I|exact I|split; [discriminate|reflexivity]|discriminate|].
  exists w2, inc', w3. split; assumption.
Defined.

(** A task with many retries, after its 31st failure. *)
Definition stubborn_el : Element := element "script" TypeScriptTask ["f0"] ["f1"] "1 + missing.field.x" 40.
Definition failed_often : Token := counted 31 script_token.
Lemma retry_backoff_witness :
  exists n j w delay, handle_failure (PD := script_pd) "tok_1" stubborn_el (EMsg "boom") (sample_rt "script" ∅ failed_often)
    = (Ok tt, with_token "tok_1" (set_tk_wait (jb_id j) (set_tk_state TokenWaitRetry (counted 32 failed_often))) w
                (sample_rt "script" ∅ failed_often))
  /\ jb_due j = time_add (e_clock n) delay /\ delay < 0.
Proof.
  destruct (retry_backoff (PD := script_pd) "tok_1" stubborn_el (EMsg "boom") (sample_rt "script" ∅ failed_often) failed_often)
    as (n & j & w & delay & H1 & H2 & _ & _ & H3);
    [reflexivity|reflexivity|exact I|split; [discriminate|reflexivity]|reflexivity|discriminate|].
  exists n, j, w, delay. split; [exact H1|]. split; [exact H2|]. apply H3; reflexivity.
Defined.

Definition choice_el : Element := plain_node "choice" TypeExclusiveGateway ["fb"] ["fx"; "fe"].
Definition choice_token : Token := first_token "tok_1" "choice".
Definition choice_rt : rt := sample_rt "join" {["go" := VBool true]} choice_token.
Lemma exclusive_gateway_spec_witness :
  exists env, env_of (rt_inst choice_rt) choice_token = Ok env /\
  ((exists pre f post, selectable join_container "" ["fx"; "fe"] = (pre ++ f :: post)%list /\ Forall (says env false) pre /\ stuck env f) \/
   exists s', exclusive_gateway (PD := parsed "join" join_container) "tok_1" choice_el choice_rt = (Ok tt, s')).
Proof.
  eexists. split; [reflexivity|].
  destruct (exclusive_gateway_spec (PD := parsed "join" join_container) "tok_1" choice_el choice_rt choice_token join_container
    _ ltac:(reflexivity) ltac:(reflexivity) ltac:(reflexivity) ltac:(reflexivity)) as [H|(s' & H & _)];
    [left; exact H|right; exists s'; exact H].
Defined.
