(* ===== verification/EngineHandlers.v ===== *)
(** * Which handler an error reaches ([propagateError] of [src/engine/exec.go])

    The loop looks through the scopes of a token from the inside out.  Here a
    scope has a handler by itself: an event sub-process of the scope, or else an
    error boundary event on the sub-process that the scope is.  The error goes
    to the innermost scope that has one. *)
From S2P Require Import Prelude GoFloat GoUtf8 GoTime ExprValue ExprLexer ExprFuncs ExprEval StoreTypes StoreQuery StoreMemory BpmnModel EngineBase EngineCancel EngineFlow EngineErrors EngineApi EngineSamples EngineLocal.
Local Open Scope string_scope.

Inductive handler := EventSub (id : string) (start : Element) | Boundary (b : Element).

Section handlers.
Context {U : Unicode} {R : Regexp} {MO : MapOrder} {E : Engine} {PD : ParsedDef}.

Definition catches_code (code : string) (b : Element) : bool :=
  match el_event b with Some ev => catches_error code ev | None => false end.
(** The handler of the scope with this path, if it has one. *)
Definition handler_at (code : string) (path : list string) : option handler :=
  c ← container_at path;
  match error_start c code with
  | Some (id, start) => Some (EventSub id start)
  | None =>
      scope ← last path;
      pc ← container_at (removelast path);
      Boundary <$> find (catches_code code) (boundary_events pc scope)
  end.
(** What a handler does: its scope ends, and the error goes on inside the event
    sub-process, or at the boundary event. *)
Definition handle (code message : string) (path owners : list string) (h : handler) : M unit :=
  match h with
  | EventSub id start =>
      kill_scope path owners id ;; set_error_vars code message ;;
      _ ← spawn_token (el_id start) (path ++ [id])%list (owners ++ [""])%list "" ∅; mret tt
  | Boundary b =>
      enter_error_boundary b (default "" (last path)) path owners (removelast path) (removelast owners)
        (default "" (last owners)) code message
  end.
(** Boundary events have a definition, as the parser gives them. *)
Definition boundaries_defined : Prop := forall path c scope b, container_at path = Some c -> b ∈ boundary_events c scope -> el_event b <> None.

Lemma error_boundary_run code bs (s : rt) : (forall b, b ∈ bs -> el_event b <> None) ->
  error_boundary code bs s = (Ok (find (catches_code code) bs), s).
Proof.
  induction bs as [|b bs IH]; intros H; cbn [error_boundary find]; [done|]. unfold catches_code at 1.
  destruct (el_event b) as [ev|] eqn:E1; [|by destruct (H b); [left|]].
  eapply run_bind; [reflexivity|]. destruct (catches_error code ev); [done|]. apply IH. intros b' Hb'. apply H. by right.
Qed.
Lemma last_rev_cons {A} (x : A) l : last (rev (x :: l)) = Some x.
Proof. cbn. by rewrite last_snoc. Qed.
Lemma removelast_rev_cons {A} (x : A) l : removelast (rev (x :: l)) = rev l.
Proof. cbn. apply removelast_last. Qed.
(** One round of the loop. *)
Lemma propagate_round (Hd : boundaries_defined) t code message rp ro (s : rt) : length rp = length ro ->
  propagate_loop t code message rp ro s =
  match handler_at code (rev rp) with
  | Some h => handle code message (rev rp) (rev ro) h s
  | None => match rp, ro with
            | _ :: rp, _ :: ro => propagate_loop t code message rp ro s
            | _, _ => unhandled_error t code message s
            end
  end.
Proof.
  intros Hl. unfold handler_at. destruct rp as [|scope rp], ro as [|owner ro]; try done.
  - cbn [propagate_loop rev]. cbv zeta. destruct (container_at []) as [c|] eqn:Ec; cbn; [|done].
    by destruct (error_start c code) as [[id start]|].
  - cbn [propagate_loop]. cbv zeta. change (rev (scope :: rp)) with (rev rp ++ [scope])%list. change (rev (owner :: ro)) with (rev ro ++ [owner])%list.
    destruct (container_at (rev rp ++ [scope])) as [c|] eqn:Ec; cbn [mbind option_bind]; [|done].
    destruct (error_start c code) as [[id start]|]; [done|]. rewrite last_snoc, removelast_last. cbn [mbind option_bind].
    destruct (container_at (rev rp)) as [pc|] eqn:Ep; cbn [mbind option_bind]; [|by eapply run_bind].
    eapply run_bind; [apply error_boundary_run; intros b; by apply (Hd _ _ _ _ Ep)|].
    destruct (find (catches_code code) (boundary_events pc scope)) as [b|]; [|done]. cbn [fmap option_fmap option_map handle].
    by rewrite !last_snoc, !removelast_last.
Qed.

(** C16: an error that no activity handles goes to the innermost scope around
    its token that has a handler for its code, and to that handler alone; only
    when no scope has one, up to the process itself, the instance ends with an
    incident. *)
Theorem innermost_handler t code message : boundaries_defined -> length (tk_scope t) = length (tk_owners t) ->
  (forall d h, (d <= length (tk_scope t))%nat -> handler_at code (take d (tk_scope t)) = Some h ->
     (forall d', (d < d' <= length (tk_scope t))%nat -> handler_at code (take d' (tk_scope t)) = None) ->
     forall s, propagate_error t code message s = handle code message (take d (tk_scope t)) (take d (tk_owners t)) h s) /\
  ((forall d, (d <= length (tk_scope t))%nat -> handler_at code (take d (tk_scope t)) = None) ->
     forall s, propagate_error t code message s = unhandled_error t code message s).
Proof.
  intros Hd. unfold propagate_error. generalize (tk_scope t) (tk_owners t). intros path owners Hl.
  assert (forall n, (n <= length path)%nat -> (forall d, (n < d <= length path)%nat -> handler_at code (take d path) = None) ->
    forall s, propagate_loop t code message (rev path) (rev owners) s
              = propagate_loop t code message (rev (take n path)) (rev (take n owners)) s) as Hdown.
  { intros n Hn. remember (length path - n)%nat as k eqn:Ek. revert n Hn Ek. induction k as [|k IH]; intros n Hn Ek Hnone s.
    - assert (n = length path) as -> by lia. by rewrite firstn_all, Hl, firstn_all.
    - rewrite (IH (S n)) by (lia || (intros; apply Hnone; lia)).
      destruct (lookup_lt_is_Some_2 path n) as [x Hx]; [lia|]. destruct (lookup_lt_is_Some_2 owners n) as [y Hy]; [lia|].
      rewrite (take_S_r _ _ _ Hx), (take_S_r _ _ _ Hy), !rev_unit, propagate_round by (done || (cbn; rewrite !length_rev, !length_take; lia)).
      change (rev (x :: rev (take n path))) with (rev (rev (take n path)) ++ [x])%list. rewrite rev_involutive.
      rewrite <- (take_S_r _ _ _ Hx), Hnone by lia. done. }
  split.
  - intros d h Hle Hh Hnone s. rewrite (Hdown d) by done. rewrite propagate_round by (done || (rewrite !length_rev, !length_take; lia)).
    by rewrite !rev_involutive, Hh.
  - intros Hnone s. rewrite (Hdown 0%nat) by (lia || (intros; apply Hnone; lia)). rewrite propagate_round by done.
    specialize (Hnone 0%nat ltac:(lia)). rewrite take_0 in Hnone. rewrite !take_0. cbn [rev]. by rewrite Hnone.
Qed.
End handlers.

(** ** On a concrete process *)
#[local] Existing Instance latin1_only.
#[local] Existing Instance literal_regexp.
#[local] Existing Instance key_order.
#[local] Existing Instance sample_engine.
Definition error_event (code : string) : EventDefinition :=
  {| ev_kind := KindError; ev_date := ""; ev_duration := ""; ev_cycle := ""; ev_message := ""; ev_signal := ""; ev_code := code |}.
Definition boundary (id attached code : string) : Element :=
  MkElement id "" TypeBoundaryEvent [] [] "" (Some (error_event code)) attached true "" "" [] [] "" "" "" "" "" 0 "" "" "" "" None false None None [] [] false.
Definition sub_process (id : string) (c : Container) : Element :=
  MkElement id "" TypeSubProcess [] [] "" None "" false "" "" [] [] "" "" "" "" "" 0 "" "" "" "" (Some c) false None None [] [] false.
(** Two sub-processes around a task: the inner one catches the code [paid],
    the outer one every error. *)
Definition task_container : Container := container [plain_node "work" TypeServiceTask [] []] [].
Definition inner_container : Container := container [sub_process "inner" task_container; boundary "late" "inner" "paid"] [].
Definition nested_container : Container := container [sub_process "outer" inner_container; boundary "caught" "outer" ""] [].
Definition nested_pd : ParsedDef := parsed "nested" nested_container.
Definition worker_token : Token := set_tk_owners ["tok_1"; "tok_2"] (set_tk_scope ["outer"; "inner"] (first_token "tok_3" "work")).
Definition nested_rt : rt := sample_rt "nested" ∅ worker_token.

Lemma in_container els fl id el : c_elements (container els fl) !! id = Some el -> el ∈ els.
Proof. intros H%elem_of_list_to_map_2. apply list_elem_of_fmap in H as (e & [= _ ->] & He). done. Qed.
Lemma picked c f ids el : el ∈ pick c f ids -> exists id, c_elements c !! id = Some el /\ f el = true.
Proof.
  unfold pick. rewrite list_elem_of_omap. intros (id & _ & H). exists id. destruct (c_elements c !! id) as [e|]; [|done].
  destruct (f e) eqn:Ef; [|done]. injection H as ->. done.
Qed.
(** A scope whose boundary events, and those of the scopes in it, are defined. *)
Definition defined_in (c : Container) : Prop :=
  forall path c' scope b, container_in c path = Some c' -> b ∈ boundary_events c' scope -> el_event b <> None.
Lemma defined_container els fl :
  (forall el, el ∈ els -> (el_type el = TypeBoundaryEvent -> el_event el <> None) /\ (forall c, el_sub el = Some c -> defined_in c)) ->
  defined_in (container els fl).
Proof.
  intros H [|id path] c' scope b; cbn [container_in].
  - intros [= <-] (i & Hi & Hb)%picked. apply in_container, H in Hi as [Hi _]. apply Hi.
    unfold is_boundary_of in Hb. apply andb_prop in Hb as [Hb _]. by apply bool_decide_eq_true in Hb.
  - destruct (c_elements (container els fl) !! id) as [el|] eqn:Ee; [|done]. apply in_container, H in Ee as [_ Hs].
    destruct (el_sub el) as [c|]; [|done]. by apply Hs.
Qed.
Lemma nested_defined : boundaries_defined (PD := nested_pd).
Proof.
  assert (defined_in task_container) as Ht by (apply defined_container; intros el ->%list_elem_of_singleton; done).
  assert (defined_in inner_container) as Hi.
  { apply defined_container. intros el [->| ->%list_elem_of_singleton]%elem_of_cons; split; try done. by intros c [= <-]. }
  apply defined_container. intros el [->| ->%list_elem_of_singleton]%elem_of_cons; split; try done. by intros c [= <-].
Qed.
(** The inner sub-process does not catch this code, so that the error leaves
    both of them. *)
Lemma innermost_handler_witness :
  propagate_error (PD := nested_pd) worker_token "fraud" "no" nested_rt
  = enter_error_boundary (PD := nested_pd) (boundary "caught" "outer" "") "outer" ["outer"] ["tok_1"] [] [] "tok_1" "fraud" "no" nested_rt.
Proof.
  destruct (innermost_handler (PD := nested_pd) worker_token "fraud" "no" nested_defined eq_refl) as [H _].
  apply (H 1%nat (Boundary (boundary "caught" "outer" "")));
    [cbn; lia|vm_compute; reflexivity|]. intros d Hd. cbn in Hd. assert (d = 2%nat) as -> by lia. vm_compute. reflexivity.
Defined.
