(* ===== verification/EngineCleanup.v ===== *)
(** * Releasing what an instance holds

    The end of an instance against a reference: each table of the store with
    the entries of the instance removed or closed. *)
From S2P Require Import Prelude GoFloat GoUtf8 GoTime ExprValue ExprLexer ExprFuncs ExprEval StoreTypes StoreQuery StoreMemory BpmnModel EngineBase EngineCancel EngineFlow EngineErrors EngineActivity EngineRun EngineApi EngineSched EngineSamples EngineLocal.
Local Open Scope string_scope.
Local Open Scope Z_scope.

(** ** Updating listed entries *)
Section tables.
Context {A : Type} (id : A -> string).

Lemma fold_insert_ne (g : A -> A) l (t : gmap string A) k :
  (forall x, id (g x) = id x) -> k ∉ map id l -> fold_left (fun t x => <[id x := g x]> t) l t !! k = t !! k.
Proof.
  intros Hg. revert t. induction l as [|x l IH]; intros t Hk; cbn in *; [done|].
  rewrite IH by set_solver. apply lookup_insert_ne. set_solver.
Qed.
Lemma fold_insert_in (g : A -> A) l (t : gmap string A) x :
  (forall x, id (g x) = id x) -> NoDup (map id l) -> x ∈ l ->
  fold_left (fun t x => <[id x := g x]> t) l t !! id x = Some (g x).
Proof.
  intros Hg. revert t. induction l as [|y l IH]; intros t Hnd Hx; [set_solver|]. cbn in *.
  apply NoDup_cons in Hnd as [Hy Hnd]. apply elem_of_cons in Hx as [<-|Hx]; [|by apply IH].
  rewrite fold_insert_ne by done. apply lookup_insert_eq.
Qed.
(** Writing a change of every listed entry that [q] accepts is a map over the
    table. *)
Lemma fold_insert_select p q (g : A -> A) (t : gmap string A) :
  keyed id t -> (forall x, id (g x) = id x) ->
  fold_left (fun t x => <[id x := g x]> t) (keep q (select id p false 0 t)) t
  = (fun x => if p x && q x then g x else x) <$> t.
Proof.
  intros Hk Hg. apply map_eq. intros k. rewrite lookup_fmap.
  assert (forall x, x ∈ keep q (select id p false 0 t) <-> p x && q x = true /\ t !! id x = Some x) as Hl.
  { intros x. unfold keep. rewrite list_elem_of_filter, elem_of_select_all, andb_true_iff.
    split; [|naive_solver]. intros (Hq & Hp & k' & Hx). by rewrite (Hk _ _ Hx). }
  assert (NoDup (map id (keep q (select id p false 0 t)))) as Hnd by by apply NoDup_keep_ids, select_all_NoDup.
  destruct (decide (k ∈ map id (keep q (select id p false 0 t)))) as [Hin|Hin].
  - apply list_elem_of_fmap in Hin as (x & -> & Hx). rewrite fold_insert_in by done.
    apply Hl in Hx as [Hpq ->]. cbn. by rewrite Hpq.
  - rewrite fold_insert_ne by done. destruct (t !! k) as [x|] eqn:Ex; [cbn|done].
    destruct (p x && q x) eqn:Epq; [|done]. destruct Hin. apply list_elem_of_fmap. exists x.
    rewrite (Hk _ _ Ex). split; [done|]. apply Hl. by rewrite (Hk _ _ Ex).
Qed.
(** Deleting every listed entry is a filter. *)
Lemma fold_delete_select p (t : gmap string A) :
  keyed id t ->
  fold_left (fun t x => delete (id x) t) (select id p false 0 t) t = filter (fun kx => p kx.2 = false) t.
Proof.
  intros Hk. apply map_eq. intros k. rewrite lookup_fold_delete.
  case_decide as Hin.
  - apply list_elem_of_fmap in Hin as (y & -> & Hy). apply elem_of_select_all in Hy as [Hp [k' Hy]].
    assert (k' = id y) as -> by (symmetry; by apply Hk). symmetry. apply map_lookup_filter_None. right.
    intros x Hx. cbn. congruence.
  - symmetry. destruct (t !! k) as [x|] eqn:Ex.
    + apply map_lookup_filter_Some. split; [done|]. cbn. destruct (p x) eqn:Ep; [|done]. destruct Hin.
      apply list_elem_of_fmap. exists x. split; [by symmetry; apply Hk|]. apply elem_of_select_all. eauto.
    + apply map_lookup_filter_None. by left.
Qed.
Lemma fold_when {B} (q : A -> bool) (f : B -> A -> B) l (t : B) :
  fold_left (fun t x => if q x then f t x else t) l t = fold_left f (keep q l) t.
Proof.
  revert t. induction l as [|x l IH]; intros t; cbn; [done|]. unfold keep in *. cbn. destruct (q x); cbn; apply IH.
Qed.
End tables.

(** ** Loops that write to the store *)

(** The store without its history. *)
Definition tables (m : Memory) : Memory := set_m_history ∅ (set_m_hist_seq ∅ m).

Section loops.
Context {U : Unicode} {R : Regexp} {MO : MapOrder} {E : Engine}.
Abbreviation writes m s f := (outside m s (fun _ w => tables (w_store w) = f (tables (w_store (rt_world s))))).

Lemma loop_writes {A} (f : A -> M unit) (upd : Memory -> A -> Memory) l :
  (forall x s, writes (f x) s (fun m => upd m x)) ->
  forall s, writes (for_each f l) s (fold_left upd l).
Proof.
  intros Hf. induction l as [|x l IH]; intros s; cbn [for_each fold_left].
  - by apply outside_ret.
  - eapply outside_bind; [apply Hf|]. intros [] w Hw. destruct (IH (set_rt_world w s)) as (a & w' & Hr & Hw').
    exists a, w'. split; [by rewrite Hr|]. cbn in *. by rewrite Hw', Hw.
Qed.
Lemma put_writes (f g : Memory -> Memory) s : (forall m, tables (f m) = g (tables m)) -> writes (lift (store_put f)) s g.
Proof.
  intros Hfg. destruct (put_run f s) as (a & w & Hr & Hw). exists a, w. split; [done|]. by rewrite Hw, Hfg.
Qed.
Lemma emit_writes typ el d s : writes (emit typ el d) s (fun m => m).
Proof.
  destruct (emit_run typ el d s) as (a & w & Hr & h & q & Hw). exists a, w. split; [done|]. by rewrite Hw.
Qed.
Lemma seq_writes (m1 m2 : M unit) s f g :
  writes m1 s f -> (forall s, writes m2 s g) -> writes (m1 ;; m2) s (fun m => g (f m)).
Proof.
  intros H1 H2. eapply outside_bind; [exact H1|]. intros [] w Hw. destruct (H2 (set_rt_world w s)) as (a & w' & Hr & Hw').
  exists a, w'. split; [by rewrite Hr|]. cbn in *. by rewrite Hw', Hw.
Qed.
Lemma when_writes (b : bool) m s f : writes m s f -> writes (when b m) s (fun m => if b then f m else m).
Proof. intros H. destruct b; [done|]. by apply outside_ret. Qed.
Lemma read_writes {A} (f : Memory -> A) (k : A -> M unit) s g :
  (forall m, f (tables m) = f m) -> writes (k (f (w_store (rt_world s)))) s g ->
  writes (x ← lift (store_get f); k x) s g.
Proof.
  intros Hf (a & w & Hr & Hw). exists a, w. split; [|done].
  eapply run_bind; [|exact Hr]. unfold lift, store_get, gets. cbn. by destruct s.
Qed.
End loops.

(** A loop that changes one table. *)
Lemma fold_table {T A} (get : Memory -> T) (set : T -> Memory -> Memory) (upd : T -> A -> T) l :
  (forall v m, get (set v m) = v) -> (forall u v m, set v (set u m) = set v m) -> (forall m, set (get m) m = m) ->
  forall m, fold_left (fun m x => set (upd (get m) x) m) l m = set (fold_left upd l (get m)) m.
Proof.
  intros H1 H2 H3. induction l as [|x l IH]; intros m; cbn; [by rewrite H3|]. by rewrite IH, H1, H2.
Qed.
Lemma fold_table_when {T A} (get : Memory -> T) (set : T -> Memory -> Memory) (q : A -> bool) (upd : T -> A -> T) l :
  (forall v m, get (set v m) = v) -> (forall u v m, set v (set u m) = set v m) -> (forall m, set (get m) m = m) ->
  forall m, fold_left (fun m x => if q x then set (upd (get m) x) m else m) l m = set (fold_left upd (keep q l) (get m)) m.
Proof.
  intros H1 H2 H3 m. rewrite fold_when. by apply fold_table.
Qed.

(** ** The reference *)
Definition close_task (id : string) (t : Task) : Task :=
  if String.eqb (ta_inst t) id && bool_decide (ta_state t = TaskCreated) then set_ta_state TaskCanceled t else t.
Definition close_external (id : string) (x : ExternalTask) : ExternalTask :=
  if String.eqb (ex_inst x) id && bool_decide (ex_state x = ExternalPending) then set_ex_state ExternalFailed x else x.
Definition close_agent (id : string) (x : AgentJob) : AgentJob :=
  if String.eqb (ag_inst x) id && bool_decide (ag_state x = AgentPending) then set_ag_state AgentFailed x else x.
Definition released (id : string) (m : Memory) : Memory :=
  {| m_definitions := m_definitions m; m_instances := m_instances m;
     m_tasks := close_task id <$> m_tasks m; m_jobs := drop_of jb_inst id (m_jobs m);
     m_externals := close_external id <$> m_externals m; m_agent_jobs := close_agent id <$> m_agent_jobs m;
     m_subs := drop_of sb_inst id (m_subs m); m_incidents := m_incidents m; m_blobs := m_blobs m;
     m_history := m_history m; m_hist_seq := m_hist_seq m |}.

Section cleanup.
Context {U : Unicode} {R : Regexp} {MO : MapOrder} {E : Engine} {PD : ParsedDef}.

Lemma get_store_run {A} (f : Memory -> A) s : lift (store_get f) s = (Ok (f (w_store (rt_world s))), s).
Proof. unfold lift, store_get, gets. by destruct s. Qed.
Lemma push_loop {A} (g : A -> continuation) l : forall s,
  for_each (fun x => push_cont (g x)) l s = (Ok tt, set_rt_conts (rt_conts s ++ map g l)%list s).
Proof.
  induction l as [|x l IH]; intros s; cbn [for_each map].
  - rewrite app_nil_r. by destruct s.
  - eapply run_bind; [reflexivity|]. rewrite IH. cbn. by rewrite <- app_assoc.
Qed.

(** Reads of tables do not see the history. *)
Lemma list_tables m inst :
  ListJobs inst (tables m) = ListJobs inst m /\ ListTasks (created_tasks inst) (tables m) = ListTasks (created_tasks inst) m
  /\ ListSubscriptions (subs_of_inst inst) (tables m) = ListSubscriptions (subs_of_inst inst) m
  /\ ListExternalTasks inst (tables m) = ListExternalTasks inst m /\ ListAgentJobs inst (tables m) = ListAgentJobs inst m.
Proof. done. Qed.

(** The steps of [cleanupInstanceRecords] on the tables. *)
Definition close_tasks (id : string) (m : Memory) : Memory := set_m_tasks (close_task id <$> m_tasks m) m.
Definition drop_jobs (p : Job -> bool) (m : Memory) : Memory := set_m_jobs (filter (fun kx => p kx.2 = false) (m_jobs m)) m.
Definition drop_subs (p : Subscription -> bool) (m : Memory) : Memory := set_m_subs (filter (fun kx => p kx.2 = false) (m_subs m)) m.
Definition close_externals (id : string) (m : Memory) : Memory := set_m_externals (close_external id <$> m_externals m) m.
Definition close_agents (id : string) (m : Memory) : Memory := set_m_agent_jobs (close_agent id <$> m_agent_jobs m) m.

Lemma fold_tasks id m : memory_ok m -> id <> "" ->
  fold_left (fun m t => PutTask (set_ta_state TaskCanceled t) m) (ListTasks (created_tasks id) m) m = close_tasks id m.
Proof.
  intros Hm Hid. unfold PutTask.
  rewrite (fold_table m_tasks set_m_tasks (fun t x => <[ta_id x := set_ta_state TaskCanceled x]> t)); [|done|done|by intros []].
  unfold close_tasks. f_equal. unfold ListTasks. rewrite <- (keep_all (fun _ => true) (select _ _ _ _ _)) by done.
  rewrite fold_insert_select by (done || apply Hm). apply map_fmap_ext. intros k x _.
  unfold close_task, match_task, str_field, opt_field, in_time_window. cbn.
  rewrite (proj2 (String.eqb_neq id "") Hid). cbn. by rewrite !andb_true_r.
Qed.
Lemma fold_jobs p m : memory_ok m ->
  fold_left (fun m j => DeleteJob (jb_id j) m) (select jb_id p false 0 (m_jobs m)) m = drop_jobs p m.
Proof.
  intros Hm. unfold DeleteJob.
  rewrite (fold_table m_jobs set_m_jobs (fun t x => delete (jb_id x) t)); [|done|done|by intros []].
  unfold drop_jobs. f_equal. apply fold_delete_select, Hm.
Qed.
Lemma fold_subs p m : memory_ok m ->
  fold_left (fun m j => DeleteSubscription (sb_id j) m) (select sb_id p false 0 (m_subs m)) m = drop_subs p m.
Proof.
  intros Hm. unfold DeleteSubscription.
  rewrite (fold_table m_subs set_m_subs (fun t x => delete (sb_id x) t)); [|done|done|by intros []].
  unfold drop_subs. f_equal. apply fold_delete_select, Hm.
Qed.
Lemma fold_externals id m : memory_ok m -> id <> "" ->
  fold_left (fun m x => if bool_decide (ex_state x = ExternalPending) then PutExternalTask (set_ex_state ExternalFailed x) m else m)
    (ListExternalTasks id m) m = close_externals id m.
Proof.
  intros Hm Hid. unfold PutExternalTask.
  rewrite (fold_table_when m_externals set_m_externals (fun x => bool_decide (ex_state x = ExternalPending))
    (fun t x => <[ex_id x := set_ex_state ExternalFailed x]> t)); [|done|done|by intros []].
  unfold close_externals. f_equal. unfold ListExternalTasks.
  rewrite fold_insert_select by (done || apply Hm). apply map_fmap_ext. intros k x _.
  unfold close_external, str_field. by rewrite (proj2 (String.eqb_neq id "") Hid).
Qed.
Lemma fold_agents id m : memory_ok m -> id <> "" ->
  fold_left (fun m x => if bool_decide (ag_state x = AgentPending) then PutAgentJob (set_ag_state AgentFailed x) m else m)
    (ListAgentJobs id m) m = close_agents id m.
Proof.
  intros Hm Hid. unfold PutAgentJob.
  rewrite (fold_table_when m_agent_jobs set_m_agent_jobs (fun x => bool_decide (ag_state x = AgentPending))
    (fun t x => <[ag_id x := set_ag_state AgentFailed x]> t)); [|done|done|by intros []].
  unfold close_agents. f_equal. unfold ListAgentJobs.
  rewrite fold_insert_select by (done || apply Hm). apply map_fmap_ext. intros k x _.
  unfold close_agent, str_field. by rewrite (proj2 (String.eqb_neq id "") Hid).
Qed.

Lemma tables_ok m : memory_ok m -> memory_ok (tables m).
Proof. intros []. split; cbn; try done; intros i; by rewrite !lookup_empty. Qed.
Lemma keyed_fmap {A} (id : A -> string) (f : A -> A) t : (forall x, id (f x) = id x) -> keyed id t -> keyed id (f <$> t).
Proof. intros Hf Hk k x (y & <- & Hy)%lookup_fmap_Some. rewrite Hf. by apply Hk. Qed.
Lemma close_tasks_ok id m : memory_ok m -> memory_ok (close_tasks id m).
Proof. intros []. split; cbn; auto. apply keyed_fmap; [|done]. intros x. unfold close_task. by case_match. Qed.
Lemma drop_jobs_ok p m : memory_ok m -> memory_ok (drop_jobs p m).
Proof. intros []. split; cbn; auto with go. Qed.
Lemma drop_subs_ok p m : memory_ok m -> memory_ok (drop_subs p m).
Proof. intros []. split; cbn; auto with go. Qed.
Lemma close_externals_ok id m : memory_ok m -> memory_ok (close_externals id m).
Proof. intros []. split; cbn; auto. apply keyed_fmap; [|done]. intros x. unfold close_external. by case_match. Qed.

Definition of_inst {A} (inst : A -> string) (id : string) (x : A) : bool := str_field id (inst x).
Lemma released_steps id m : id <> "" ->
  close_agents id (close_externals id (drop_subs (match_sub (subs_of_inst id)) (drop_jobs (of_inst jb_inst id) (close_tasks id m))))
  = released id m.
Proof.
  intros Hid. pose proof (proj2 (String.eqb_neq id "") Hid) as Hne.
  assert (filter (fun kx => of_inst jb_inst id kx.2 = false) (m_jobs m) = drop_of jb_inst id (m_jobs m)) as Ej.
  { apply map_filter_ext. intros k x _. cbn. unfold of_inst, str_field. by rewrite Hne. }
  assert (filter (fun kx => match_sub (subs_of_inst id) kx.2 = false) (m_subs m) = drop_of sb_inst id (m_subs m)) as Es.
  { apply map_filter_ext. intros k x _. cbn. unfold match_sub, str_field, opt_field. cbn. by rewrite Hne, ?andb_true_r. }
  unfold close_agents, close_externals, drop_subs, drop_jobs, close_tasks, released. cbn. by rewrite Ej, Es.
Qed.

Definition child_cancels (id : string) (m : Memory) : list continuation :=
  map (fun ch => CCancel (in_id ch) "parent ended") (ListInstances (instances_by InstanceActive id zero_time 0) m).
(** One loop of the clean-up: the whole program, and its effect on the tables. *)
Lemma stage {A} (f : A -> M unit) (upd : Memory -> A -> Memory) (l : Memory -> list A) (g : Memory -> Memory) s :
  (forall x s, outside (f x) s (fun _ w => tables (w_store w) = upd (tables (w_store (rt_world s))) x)) ->
  l (tables (w_store (rt_world s))) = l (w_store (rt_world s)) ->
  fold_left upd (l (tables (w_store (rt_world s)))) (tables (w_store (rt_world s))) = g (tables (w_store (rt_world s))) ->
  exists w, for_each f (l (w_store (rt_world s))) s = (Ok tt, set_rt_world w s)
  /\ tables (w_store w) = g (tables (w_store (rt_world s))).
Proof.
  intros Hf Hl Hg. destruct (loop_writes f upd (l (w_store (rt_world s))) Hf s) as ([] & w & Hr & Hw).
  exists w. split; [exact Hr|]. by rewrite Hw, <- Hg, Hl.
Qed.
Lemma cleanup_run s : memory_ok (w_store (rt_world s)) -> in_id (rt_inst s) <> "" ->
  let id := in_id (rt_inst s) in
  exists w, cleanup_records s
    = (Ok tt, set_rt_conts (rt_conts s ++ child_cancels id (w_store (rt_world s)))%list (set_rt_world w s))
  /\ tables (w_store w) = released id (tables (w_store (rt_world s))).
Proof.
  intros Hok Hid id. pose proof (tables_ok _ Hok) as Hok0.
  destruct (stage (fun t => lift (store_put (PutTask (set_ta_state TaskCanceled t))) ;;
      emit HistTaskCanceled (ta_element t) (detail [("taskId", VStr (ta_id t))]))
    (fun m t => PutTask (set_ta_state TaskCanceled t) m) (ListTasks (created_tasks id)) (close_tasks id) s) as (w1 & R1 & E1);
    [|done|by apply fold_tasks|].
  { intros x s0. apply (seq_writes _ _ s0 (PutTask (set_ta_state TaskCanceled x)) (fun m => m)); [by apply put_writes|].
    intros. apply emit_writes. }
  pose proof (close_tasks_ok id _ Hok0) as Hok1. rewrite <- E1 in Hok1.
  destruct (stage (fun j => lift (store_put (DeleteJob (jb_id j)))) (fun m j => DeleteJob (jb_id j) m)
    (ListJobs id) (drop_jobs (of_inst jb_inst id)) (set_rt_world w1 s)) as (w2 & R2 & E2);
    [intros; by apply put_writes|done|by apply fold_jobs|].
  pose proof (drop_jobs_ok (of_inst jb_inst id) _ Hok1) as Hok2. cbn in E2. rewrite <- E2 in Hok2.
  destruct (stage (fun j => lift (store_put (DeleteSubscription (sb_id j)))) (fun m j => DeleteSubscription (sb_id j) m)
    (ListSubscriptions (subs_of_inst id)) (drop_subs (match_sub (subs_of_inst id))) (set_rt_world w2 s)) as (w3 & R3 & E3);
    [intros; by apply put_writes|done|by apply fold_subs|].
  pose proof (drop_subs_ok (match_sub (subs_of_inst id)) _ Hok2) as Hok3. cbn in E3. rewrite <- E3 in Hok3.
  destruct (stage (fun x => when (bool_decide (ex_state x = ExternalPending)) (lift (store_put (PutExternalTask (set_ex_state ExternalFailed x)))))
    (fun m x => if bool_decide (ex_state x = ExternalPending) then PutExternalTask (set_ex_state ExternalFailed x) m else m)
    (ListExternalTasks id) (close_externals id) (set_rt_world w3 s)) as (w4 & R4 & E4);
    [intros; by apply when_writes, put_writes|done|by apply fold_externals|].
  pose proof (close_externals_ok id _ Hok3) as Hok4. cbn in E4. rewrite <- E4 in Hok4.
  destruct (stage (fun x => when (bool_decide (ag_state x = AgentPending)) (lift (store_put (PutAgentJob (set_ag_state AgentFailed x)))))
    (fun m x => if bool_decide (ag_state x = AgentPending) then PutAgentJob (set_ag_state AgentFailed x) m else m)
    (ListAgentJobs id) (close_agents id) (set_rt_world w4 s)) as (w5 & R5 & E5);
    [intros; by apply when_writes, put_writes|done|by apply fold_agents|].
  cbn in E5. rewrite E4, E3, E2, E1, released_steps in E5 by done. exists w5. split; [|done].
  assert (m_instances (w_store w5) = m_instances (w_store (rt_world s))) as Hi
    by (change (m_instances (tables (w_store w5)) = m_instances (w_store (rt_world s))); by rewrite E5).
  eapply run_bind; [apply inst_run|]. eapply run_bind; [apply get_store_run|]. eapply run_bind; [exact R1|].
  eapply run_bind; [apply get_store_run|]. eapply run_bind; [exact R2|].
  eapply run_bind; [apply get_store_run|]. eapply run_bind; [exact R3|].
  eapply run_bind; [apply get_store_run|]. eapply run_bind; [exact R4|].
  eapply run_bind; [apply get_store_run|]. eapply run_bind; [exact R5|].
  eapply run_bind; [apply get_store_run|]. etrans; [apply push_loop|]. cbn. unfold child_cancels, ListInstances.
  by rewrite Hi.
Qed.

(** ** Ending *)
Lemma del_loop l : forall s, exists g,
  for_each (fun k => t ← tok_live k; match t with Some _ => tok_del k | None => mret tt end) l s
  = (Ok tt, set_rt_gone g (set_tokens (filter (fun kx => kx.1 ∉ l)) s)).
Proof.
  induction l as [|k l IH]; intros s.
  - exists (rt_gone s). cbn. unfold set_tokens. rewrite map_filter_id by set_solver. by destruct s as [? []].
  - cbn [for_each]. set (s1 := match in_tokens (rt_inst s) !! k with
      | Some t => set_rt_gone (<[k := t]> (rt_gone s)) (set_tokens (delete k) s) | None => s end).
    destruct (IH s1) as (g & Hg). exists g. eapply run_bind.
    { eapply run_bind; [apply live_run|]. instantiate (1 := s1). instantiate (1 := tt). unfold s1, tok_del, modify.
      by destruct (in_tokens (rt_inst s) !! k) eqn:Ek; rewrite ?Ek. }
    rewrite Hg. unfold s1. clear Hg s1. destruct (in_tokens (rt_inst s) !! k) as [t|] eqn:Ek; unfold set_tokens; cbn.
    + assert (filter (fun kx => kx.1 ∉ l) (delete k (in_tokens (rt_inst s))) = filter (fun kx => kx.1 ∉ k :: l) (in_tokens (rt_inst s))) as Hf.
      { apply map_eq. intros j. apply option_eq. intros x. rewrite !map_lookup_filter_Some, lookup_delete_Some. cbn. set_solver. }
      by rewrite Hf.
    + assert (filter (fun kx => kx.1 ∉ l) (in_tokens (rt_inst s)) = filter (fun kx => kx.1 ∉ k :: l) (in_tokens (rt_inst s))) as Hf.
      { apply map_filter_ext. intros j x Hj. cbn. assert (j <> k) by congruence. set_solver. }
      by rewrite Hf.
Qed.
Lemma clear_run s : exists g w, clear_tokens s = (Ok tt, set_rt_gone g (set_tokens (fun _ => ∅) (set_rt_world w s)))
  /\ w_store w = w_store (rt_world s).
Proof.
  set (w := set_w_tick (S (w_tick (rt_world s))) (rt_world s)).
  set (keys := range_keys (w_tick (rt_world s)) (map fst (map_to_list (in_tokens (rt_inst s))))).
  destruct (del_loop keys (set_rt_world w s)) as (g & Hg). exists g, w. split; [|done].
  unfold clear_tokens, for_tokens. eapply run_bind; [reflexivity|]. eapply run_bind; [apply inst_run|].
  etrans; [exact Hg|]. unfold set_tokens. cbn.
  assert (filter (fun kx => kx.1 ∉ keys) (in_tokens (rt_inst s)) = ∅) as Hf.
  { apply map_eq. intros k. rewrite lookup_empty. apply map_lookup_filter_None. right. intros x Hx. cbn.
    intros Hn. apply Hn. unfold keys. rewrite range_keys_perm. apply list_elem_of_fmap. exists (k, x).
    split; [done|]. by apply elem_of_map_to_list. }
  by rewrite Hf.
Qed.

(** What the parent hears. *)
Definition notification (i : Instance) : list continuation :=
  if nonempty (in_parent i) then [CNotify (in_parent i) (in_parent_tok i) (in_id i) (in_vars i)] else [].
Lemma notify_run s : notify_parent s = (Ok tt, set_rt_conts (rt_conts s ++ notification (rt_inst s))%list s).
Proof.
  unfold notify_parent. eapply run_bind; [apply inst_run|]. unfold notification.
  destruct (nonempty _); [done|]. cbn. rewrite app_nil_r. by destruct s.
Qed.

(** The instance [i'] has ended and holds nothing; the store is the one
    before, up to the history, with all that the instance held released; its
    running children are to be cancelled and its parent notified. *)
Definition ended (i i' : Instance) (s s' : rt) (st : InstanceState) : Prop :=
  in_state i' = st /\ in_vars i' = in_vars i /\ in_id i' = in_id i
  /\ tables (w_store (rt_world s')) = released (in_id i) (tables (w_store (rt_world s)))
  /\ rt_conts s' = (rt_conts s ++ child_cancels (in_id i) (w_store (rt_world s)) ++ notification i)%list.

Lemma terminate_run reason s : memory_ok (w_store (rt_world s)) -> in_id (rt_inst s) <> "" ->
  exists s', terminate reason s = (Ok tt, s') /\ in_tokens (rt_inst s') = ∅
  /\ ended (rt_inst s) (rt_inst s') s s' InstanceTerminated.
Proof.
  intros Hok Hid. destruct (clear_run s) as (g & w1 & R1 & E1).
  set (s1 := set_rt_gone g (set_tokens (fun _ => ∅) (set_rt_world w1 s))) in *.
  destruct (now_run s1) as (now & w2 & R2 & -> & E2 & _). cbn in E2.
  set (s3 := set_rt_inst (set_in_ended (e_clock (w_tick (rt_world s1))) (set_in_state InstanceTerminated (rt_inst s1))) (set_rt_world w2 s1)).
  destruct (cleanup_run s3) as (w3 & R3 & E3); [cbn; by rewrite E2, E1|done|]. cbn in E3. rewrite E2, E1 in E3.
  set (s4 := set_rt_conts _ (set_rt_world w3 s3)) in R3.
  destruct (emit_run HistInstanceTerminated "" (detail [("reason", VStr reason)]) s4) as ([] & w4 & R4 & h & q & E4).
  eexists. split; [|split].
  - unfold terminate. eapply run_bind; [exact R1|]. eapply run_bind; [exact R2|]. eapply run_bind; [reflexivity|].
    eapply run_bind; [exact R3|]. eapply run_bind; [exact R4|]. apply notify_run.
  - done.
  - split_and!; [done..| |].
    + cbn. rewrite E4. cbn. exact E3.
    + cbn. rewrite E2, E1. by rewrite <- app_assoc.
Qed.
Lemma complete_run el s : memory_ok (w_store (rt_world s)) -> in_id (rt_inst s) <> "" ->
  exists s', complete_instance el s = (Ok tt, s') /\ in_tokens (rt_inst s') = in_tokens (rt_inst s)
  /\ ended (rt_inst s) (rt_inst s') s s' InstanceCompleted.
Proof.
  intros Hok Hid. destruct (now_run s) as (now & w2 & R2 & -> & E2 & _).
  set (i1 := set_in_ended (e_clock (w_tick (rt_world s))) (set_in_state InstanceCompleted (rt_inst s))).
  set (i2 := if nonempty el then set_in_end_elem el i1 else i1). set (s3 := set_rt_inst i2 (set_rt_world w2 s)).
  assert (in_id i2 = in_id (rt_inst s) /\ in_state i2 = InstanceCompleted /\ in_vars i2 = in_vars (rt_inst s)
    /\ in_tokens i2 = in_tokens (rt_inst s) /\ notification i2 = notification (rt_inst s)) as (I1 & I2 & I3 & I4 & I5)
    by (unfold i2; by destruct (nonempty el)).
  destruct (cleanup_run s3) as (w3 & R3 & E3); [cbn; by rewrite E2|cbn; by rewrite I1|]. cbn in E3. rewrite E2, I1 in E3.
  set (s4 := set_rt_conts _ (set_rt_world w3 s3)) in R3.
  destruct (emit_run HistInstanceCompleted el ∅ s4) as ([] & w4 & R4 & h & q & E4).
  eexists. split; [|split].
  - unfold complete_instance. eapply run_bind; [exact R2|]. eapply run_bind; [reflexivity|].
    eapply (run_bind _ _ _ tt s3); [unfold s3, i2; by destruct (nonempty el)|].
    eapply run_bind; [exact R3|]. eapply run_bind; [exact R4|]. apply notify_run.
  - exact I4.
  - split_and!; [exact I2|exact I3|exact I1| |].
    + cbn. rewrite E4. cbn. exact E3.
    + cbn. rewrite E2, I1, I5. by rewrite <- app_assoc.
Qed.

(** C17: ending an instance always succeeds and leaves nothing behind: its
    jobs and subscriptions are gone, its open user tasks are cancelled, its
    pending external and agent jobs failed, and no record of another instance
    is touched; its running children are to be cancelled and its parent is to
    be told.  Termination also removes every token. *)
Theorem ending_releases el reason s : memory_ok (w_store (rt_world s)) -> in_id (rt_inst s) <> "" ->
  (exists s', complete_instance el s = (Ok tt, s') /\ in_tokens (rt_inst s') = in_tokens (rt_inst s)
    /\ ended (rt_inst s) (rt_inst s') s s' InstanceCompleted)
  /\ (exists s', terminate reason s = (Ok tt, s') /\ in_tokens (rt_inst s') = ∅
    /\ ended (rt_inst s) (rt_inst s') s s' InstanceTerminated).
Proof. intros. split; [by apply complete_run|by apply terminate_run]. Qed.
End cleanup.

#[local] Existing Instance latin1_only.
#[local] Existing Instance literal_regexp.
#[local] Existing Instance key_order.
#[local] Existing Instance sample_engine.
(** The instance that waits at its user task, terminated. *)
Definition waiting_rt : rt :=
  match GetInstance "inst_60a24181e400200000002abcd" (w_store (launched "user" ∅)) with
  | Some i => new_rt (launched "user" ∅) i
  | None => new_rt empty_world (sample_instance "user" ∅ (first_token "tok_1" "start"))
  end.
Lemma ending_releases_witness :
  memory_ok (w_store (rt_world (sample_rt "user" ∅ (first_token "tok_1" "start")))) /\
  exists s', terminate "stop" (sample_rt "user" ∅ (first_token "tok_1" "start")) = (Ok tt, s')
    /\ in_tokens (rt_inst s') = ∅.
Proof.
  split; [exact new_memory_ok|].
  destruct (proj2 (ending_releases "" "stop" (sample_rt "user" ∅ (first_token "tok_1" "start")) new_memory_ok ltac:(discriminate)))
    as (s' & H1 & H2 & _). exists s'. split; [exact H1|exact H2].
Defined.
(** The user task of the waiting instance is cancelled. *)
Example waiting_task_cancelled :
  map (fun p => ta_state p.2) (map_to_list (m_tasks (w_store (rt_world waiting_rt)))) = [TaskCreated]
  /\ map (fun p => ta_state p.2) (map_to_list (m_tasks (w_store (rt_world (terminate "stop" waiting_rt).2)))) = [TaskCanceled].
Proof. split; vm_compute; reflexivity. Qed.
