(* ===== verification/EngineMigrate.v ===== *)
(** * Migration of an instance to another definition ([src/engine/migrate.go])

    The plan is checked against every token before anything is written.  The
    loops over the tokens and over the transforms walk maps, so that the order
    of the report is that of [MapOrder]. *)
From S2P Require Import Prelude GoFloat GoUtf8 GoTime ExprValue ExprLexer ExprFuncs ExprEval StoreTypes StoreQuery StoreMemory BpmnModel EngineBase EngineCancel EngineFlow EngineErrors EngineActivity EngineRun EngineApi EngineSched EngineSamples EngineLocal EngineCleanup.
Local Open Scope string_scope.
Local Open Scope Z_scope.

Record MigrationPlan := {
  mp_target : string; mp_map : gmap string string; mp_vars : gmap string string; mp_dry : bool;
}.
Record TokenMove := { mv_token : string; mv_from : string; mv_to : string; mv_state : TokenState }.
Record MigrationReport := {
  mr_inst : string; mr_target : string; mr_moves : list TokenMove; mr_issues : list string; mr_applied : bool;
}.
Definition HistInstanceMigrated := "instance.migrated".

Section migrate.
Context {U : Unicode} {R : Regexp} {MO : MapOrder} {E : Engine}.

(** [mapID] *)
Definition map_id (plan : MigrationPlan) (id : string) : string := default id (mp_map plan !! id).

(** [currentElementFor] *)
Definition current_element (i : Instance) (t : Token) : EM (option Element) :=
  r ← attempt (definition (in_def_id i));
  mret match r with inl _ => None | inr PD => FindElement (@pd_proc PD) (tk_element t) end.

(** The mapped scope path in the target, or the first scope that is missing. *)
Fixpoint target_scope (plan : MigrationPlan) (c : Container) (path : list string) : string + Container :=
  match path with
  | [] => inr c
  | sc :: path =>
      match c_elements c !! map_id plan sc with
      | Some el => match el_sub el with Some s => target_scope plan s path | None => inl (map_id plan sc) end
      | None => inl (map_id plan sc)
      end
  end.
(** The [switch] on the wait state: what the element is not. *)
Definition wait_issue (st : TokenState) (to : string) (el : Element) : option string :=
  match st with
  | TokenWaitTask =>
      if negb (bool_decide (el_type el = TypeUserTask)) && negb (bool_decide (is_Some (el_agent el)))
      then Some ("waits on a user task but " ++ quote to ++ " is a " ++ type_string (el_type el)) else None
  | TokenWaitMessage =>
      if negb (bool_decide (ev_kind <$> el_event el = Some KindMessage))
      then Some ("waits on a message but " ++ quote to ++ " has no message definition") else None
  | TokenWaitSignal =>
      if negb (bool_decide (ev_kind <$> el_event el = Some KindSignal))
      then Some ("waits on a signal but " ++ quote to ++ " has no signal definition") else None
  | TokenWaitMulti =>
      match el_multi el with
      | None => Some ("multi-instance loop but " ++ quote to ++ " is not multi-instance in target")
      | Some _ => None
      end
  | _ => None
  end.
(** The body of the loop over the tokens: an issue or a move. *)
Definition check_token (plan : MigrationPlan) (target : Process) (i : Instance) (t : Token) : EM (string + TokenMove) :=
  let to := map_id plan (tk_element t) in
  let issue := fun s => mret (inl ("token " ++ tk_id t ++ ": " ++ s)) in
  match FindElement target to with
  | None => issue ("element " ++ quote to ++ " does not exist in target")
  | Some el =>
      match target_scope plan (pr_container target) (tk_scope t) with
      | inl sc => issue ("scope " ++ quote sc ++ " does not exist in target")
      | inr c =>
          match c_elements c !! to with
          | None => issue ("element " ++ quote to ++ " is not inside scope ["
                             ++ String.concat " " (map (map_id plan) (tk_scope t)) ++ "] in target")
          | Some _ =>
              cur ← current_element i t;
              match (match cur with
                     | Some cur => if bool_decide (el_type cur = el_type el) then None
                                   else Some ("type change " ++ type_string (el_type cur) ++ " -> "
                                                ++ type_string (el_type el) ++ " is not migratable")
                     | None => None
                     end) with
              | Some s => issue s
              | None =>
                  match wait_issue (tk_state t) to el with
                  | Some s => issue s
                  | None => mret (inr {| mv_token := tk_id t; mv_from := tk_element t; mv_to := to; mv_state := tk_state t |})
                  end
              end
          end
      end
  end.
(** One transform: an issue or the new value of the variable. *)
Definition check_transform (i : Instance) (x : string * string) : EM (string + string * value) :=
  r ← attempt (expr_eval x.2 (in_vars i));
  mret match r with
       | inl err => inl ("varTransforms." ++ x.1 ++ ": " ++ error_text err)
       | inr v => inr (x.1, v)
       end.
Definition lefts {A B} (l : list (A + B)) : list A := omap (fun x => match x with inl a => Some a | inr _ => None end) l.
Definition rights {A B} (l : list (A + B)) : list B := omap (fun x => match x with inr b => Some b | inl _ => None end) l.

(** The records on the other side. *)
Definition moved_token (plan : MigrationPlan) (t : Token) : Token :=
  set_tk_scope (map (map_id plan) (tk_scope t)) (set_tk_element (map_id plan (tk_element t)) t).
Definition moved_instance (plan : MigrationPlan) (def : ProcDef) (new : vars) (i : Instance) : Instance :=
  {| in_id := in_id i; in_tenant := in_tenant i; in_def_id := pd_id def; in_def_key := pd_key def;
     in_bkey := in_bkey i; in_state := in_state i; in_suspended := in_suspended i; in_parent := in_parent i;
     in_parent_tok := in_parent_tok i; in_vars := (normalize <$> new) ∪ in_vars i;
     in_tokens := moved_token plan <$> in_tokens i; in_multi := in_multi i; in_started := in_started i;
     in_ended := in_ended i; in_end_elem := in_end_elem i; in_rev := in_rev i |}.
Definition moved_task (plan : MigrationPlan) (PD : ParsedDef) (t : Task) : Task :=
  let id := map_id plan (ta_element t) in
  let el := FindElement (@pd_proc PD) id in
  {| ta_id := ta_id t; ta_tenant := ta_tenant t; ta_inst := ta_inst t; ta_token := ta_token t; ta_element := id;
     ta_def_key := pd_key (@pd_def PD);
     ta_name := match el with Some el => or_default (el_name el) (ta_name t) | None => ta_name t end;
     ta_state := ta_state t; ta_assignee := ta_assignee t; ta_users := ta_users t; ta_groups := ta_groups t;
     ta_form := match el with Some el => or_default (el_form el) (ta_form t) | None => ta_form t end;
     ta_priority := ta_priority t; ta_due := ta_due t; ta_created := ta_created t; ta_completed := ta_completed t;
     ta_by := ta_by t |}.
Definition moved_job (plan : MigrationPlan) (j : Job) : Job :=
  {| jb_id := jb_id j; jb_tenant := jb_tenant j; jb_kind := jb_kind j; jb_inst := jb_inst j; jb_def_key := jb_def_key j;
     jb_token := jb_token j; jb_element := map_id plan (jb_element j); jb_due := jb_due j; jb_repeats := jb_repeats j;
     jb_interval := jb_interval j; jb_retries := jb_retries j; jb_created := jb_created j |}.
Definition moved_name (kind : SubKind) (ev : option EventDefinition) (name : string) : string :=
  match ev, kind with
  | Some ev, SubMessage => or_default (ev_message ev) name
  | Some ev, SubSignal => or_default (ev_signal ev) name
  | None, _ => name
  end.
Definition moved_sub (plan : MigrationPlan) (PD : ParsedDef) (s : Subscription) : Subscription :=
  let id := map_id plan (sb_element s) in
  {| sb_id := sb_id s; sb_tenant := sb_tenant s; sb_kind := sb_kind s;
     sb_name := match FindElement (@pd_proc PD) id with
                | Some el => moved_name (sb_kind s) (el_event el) (sb_name s)
                | None => sb_name s
                end;
     sb_ckey := sb_ckey s; sb_inst := sb_inst s; sb_token := sb_token s; sb_element := id; sb_start := sb_start s;
     sb_def_key := sb_def_key s; sb_created := sb_created s |}.

(** The second half of [MigrateInstance]: the instance and its records. *)
Definition apply_migration (plan : MigrationPlan) (PD : ParsedDef) (i : Instance) (new : vars) (moves : Z) : EM unit :=
  let id := in_id i in
  let i' := moved_instance plan (@pd_def PD) new i in
  tasks ← store_get (ListTasks (created_tasks id));
  for_each (fun t => store_put (PutTask (moved_task plan PD t))) tasks ;;
  jobs ← store_get (ListJobs id);
  for_each (fun j => store_put (PutJob (moved_job plan j))) jobs ;;
  subs ← store_get (ListSubscriptions (subs_of_inst id));
  for_each (fun s => store_put (PutSubscription (moved_sub plan PD s))) subs ;;
  store_put (fun m => (PutInstance i' m).2) ;;
  _ ← run_rt (emit HistInstanceMigrated ""
    (detail [("fromDefinitionId", VStr (in_def_id i)); ("toDefinitionId", VStr (pd_id (@pd_def PD)));
             ("tokens", vnum moves)])) i';
  mret tt.

(** Every token and every transform, before anything is written. *)
Definition check_plan (plan : MigrationPlan) (target : Process) (i : Instance)
    : EM (list (string + TokenMove) * list (string + string * value)) :=
  n ← tick;
  toks ← mapM (fun kt => check_token plan target i kt.2) (map_range n (in_tokens i));
  n ← tick;
  new ← mapM (check_transform i) (map_range n (mp_vars plan));
  mret (toks, new).
(** [MigrateInstance], once instance and target are loaded. *)
Definition migrate_loaded (plan : MigrationPlan) (PD : ParsedDef) (i : Instance) (id : string) : EM MigrationReport :=
  '(toks, new) ← check_plan plan (@pd_proc PD) i;
  let report := fun applied =>
    {| mr_inst := id; mr_target := mp_target plan; mr_moves := rights toks;
       mr_issues := (lefts toks ++ lefts new)%list; mr_applied := applied |} in
  if negb (bool_decide (lefts toks ++ lefts new = [])%list) || mp_dry plan then mret (report false)
  else
    apply_migration plan PD i (list_to_map (rights new)) (Z.of_nat (length (rights toks))) ;;
    mret (report true).
(** [MigrateInstance] *)
Definition migrate_instance (id : string) (plan : MigrationPlan) : EM MigrationReport :=
  if String.eqb (mp_target plan) "" then fail (EMsg "engine: migration needs targetDefinitionId")
  else
    r ← attempt (definition (mp_target plan));
    match r with
    | inl err => fail (EWrap "engine: target definition: " err)
    | inr PD =>
        found ← store_get (GetInstance id);
        i ← or_not_found found;
        if negb (bool_decide (in_state i = InstanceActive)) then
          fail (EMsg ("engine: instance " ++ id ++ " is " ++ instance_state_string (in_state i)))
        else if String.eqb (in_def_id i) (mp_target plan) then
          fail (EMsg ("engine: instance " ++ id ++ " already runs " ++ mp_target plan))
        else migrate_loaded plan PD i id
    end.
End migrate.

(** ** What a migration accepts *)
Section acceptance.
Context {U : Unicode} {R : Regexp} {MO : MapOrder} {E : Engine}.

Definition waits_fit (st : TokenState) (el : Element) : Prop :=
  match st with
  | TokenWaitTask => el_type el = TypeUserTask \/ is_Some (el_agent el)
  | TokenWaitMessage => exists ev, el_event el = Some ev /\ ev_kind ev = KindMessage
  | TokenWaitSignal => exists ev, el_event el = Some ev /\ ev_kind ev = KindSignal
  | TokenWaitMulti => is_Some (el_multi el)
  | _ => True
  end.
(** The token has a place in the target: the mapped element exists, inside the
    mapped scopes, with the type it had and able to wait as the token does. *)
Definition fits (plan : MigrationPlan) (target : Process) (cur : option Process) (t : Token) : Prop :=
  let to := map_id plan (tk_element t) in
  exists el c, FindElement target to = Some el
  /\ container_in (pr_container target) (map (map_id plan) (tk_scope t)) = Some c /\ is_Some (c_elements c !! to)
  /\ (forall p e, cur = Some p -> FindElement p (tk_element t) = Some e -> el_type e = el_type el)
  /\ waits_fit (tk_state t) el.
Definition move_of (plan : MigrationPlan) (t : Token) : TokenMove :=
  {| mv_token := tk_id t; mv_from := tk_element t; mv_to := map_id plan (tk_element t); mv_state := tk_state t |}.

Lemma target_scope_spec plan path : forall c,
  match target_scope plan c path with
  | inr d => container_in c (map (map_id plan) path) = Some d
  | inl _ => container_in c (map (map_id plan) path) = None
  end.
Proof.
  induction path as [|sc path IH]; intros c; cbn; [done|].
  destruct (c_elements c !! map_id plan sc) as [el|]; [|done]. destruct (el_sub el); [apply IH|done].
Qed.
Lemma event_kind (o : option EventDefinition) k :
  bool_decide (ev_kind <$> o = Some k) = true <-> exists ev, o = Some ev /\ ev_kind ev = k.
Proof. rewrite bool_decide_eq_true, fmap_Some. naive_solver. Qed.
Lemma wait_issue_spec st to el : wait_issue st to el = None <-> waits_fit st el.
Proof.
  destruct st; cbn; try done.
  - do 2 case_bool_decide; cbn; naive_solver.
  - rewrite <- event_kind. by destruct (bool_decide _).
  - rewrite <- event_kind. by destruct (bool_decide _).
  - destruct (el_multi el); split; [by eexists|done|done|by intros []].
Qed.

(** *** Reads that only fill the cache of definitions *)
Definition same_defs (w w' : world) : Prop :=
  w_store w' = w_store w /\ forall id, (definition id w').1 = (definition id w).1.
#[export] Instance same_defs_preorder : PreOrder same_defs.
Proof.
  split; [by intros w|]. intros a b c [H1 H2] [H3 H4]. split; [congruence|]. intros id. by rewrite H4.
Qed.
Definition quiet {A} (m : EM A) (w : world) (V : A -> Prop) : Prop :=
  exists a w', m w = (Ok a, w') /\ same_defs w w' /\ V a.

Lemma quiet_ret {A} (a : A) w (V : A -> Prop) : V a -> quiet (mret a) w V.
Proof. intros HV. by exists a, w. Qed.
Lemma quiet_bind {A B} (m : EM A) (f : A -> EM B) w V W :
  quiet m w V -> (forall a w', same_defs w w' -> V a -> quiet (f a) w' W) -> quiet (m ≫= f) w W.
Proof.
  intros (a & w1 & Hm & Hs & HV) Hf. destruct (Hf a w1 Hs HV) as (b & w2 & Hb & Hs' & HW).
  exists b, w2. unfold mbind, ST_bind. rewrite Hm. split_and!; [done|by etrans|done].
Qed.
(** What [definition] answers depends on the cache and the store. *)
Definition loaded (c : option ParsedDef) (d : option ProcDef) (id : string) : res goerr ParsedDef :=
  match c, d with
  | Some pd, _ => Ok pd
  | None, None => Err ENotFound
  | None, Some def =>
      match e_parse (pd_xml def) with
      | inl err => Err (EWrap ("engine: stored definition " ++ id ++ " is invalid: ") err)
      | inr doc =>
          match first_executable doc with
          | Some proc => Ok {| pd_def := def; pd_doc := doc; pd_proc := proc |}
          | None => Panic "nil pointer dereference"
          end
      end
  end.
Lemma definition_value id w : (definition id w).1 = loaded (w_defs w !! id) (GetDefinition id (w_store w)) id.
Proof.
  unfold definition, loaded, store_get, gets, modify, mbind, ST_bind, or_not_found, or_nil.
  repeat (case_step; cbn); congruence.
Qed.
Lemma definition_world id w : exists d, (definition id w).2 = set_w_defs d w
  /\ forall k, d !! k = w_defs w !! k \/ k = id /\ w_defs w !! k = None /\ exists PD, d !! k = Some PD /\ (definition id w).1 = Ok PD.
Proof.
  unfold definition, store_get, gets, modify, mbind, ST_bind, or_not_found, or_nil.
  repeat (case_step; cbn); try (exists (w_defs w); split; [by destruct w|by left]).
  eexists. split; [done|]. intros k. destruct (decide (id = k)) as [<-|]; [right|left; by rewrite lookup_insert_ne].
  rewrite lookup_insert_eq. eauto 6.
Qed.
Lemma definition_same id w : same_defs w (definition id w).2.
Proof.
  destruct (definition_world id w) as (d & -> & Hd). split; [done|]. intros k. rewrite !definition_value. cbn.
  destruct (Hd k) as [->|(-> & Hn & PD & -> & Hr)]; [done|]. rewrite definition_value in Hr. cbn. by rewrite Hr.
Qed.
Lemma quiet_tick w : quiet tick w (fun _ => True).
Proof. eexists _, _. split_and!; [done| |done]. split; [done|]. intros id. by rewrite !definition_value. Qed.
Lemma quiet_mapM {A B} (f : A -> EM B) (V : A -> B -> Prop) l w :
  (forall x w', same_defs w w' -> x ∈ l -> quiet (f x) w' (V x)) -> quiet (mapM f l) w (Forall2 V l).
Proof.
  revert w. induction l as [|x l IH]; intros w Hf; cbn; [by apply quiet_ret|].
  eapply quiet_bind; [apply Hf; [done|left]|]. intros y w1 H1 Hy.
  eapply quiet_bind; [apply IH; intros z w2 H2 Hz; apply Hf; [by etrans|by right]|].
  intros ys w2 _ Hys. apply quiet_ret. by constructor.
Qed.

Definition process_of (r : res goerr ParsedDef) : option Process :=
  match r with Ok PD => Some (@pd_proc PD) | _ => None end.
Lemma quiet_current i t w : returns (definition (in_def_id i) w).1 = true ->
  quiet (current_element i t) w (fun o => o = (p ← process_of (definition (in_def_id i) w).1; FindElement p (tk_element t))).
Proof.
  intros Hr. pose proof (definition_same (in_def_id i) w) as Hs. unfold quiet, current_element, attempt, mbind, ST_bind.
  destruct (definition (in_def_id i) w) as [[PD|e|p|] w'] eqn:Ed; try done; cbn; eexists _, _; (split; [done|by split]).
Qed.

(** *** The two loops of checks *)
Lemma check_token_spec plan target i t w : returns (definition (in_def_id i) w).1 = true ->
  quiet (check_token plan target i t) w (fun r => match r with
    | inr m => fits plan target (process_of (definition (in_def_id i) w).1) t /\ m = move_of plan t
    | inl _ => ~ fits plan target (process_of (definition (in_def_id i) w).1) t
    end).
Proof.
  intros Hr. unfold check_token, fits. set (to := map_id plan (tk_element t)).
  destruct (FindElement target to) as [el|]; [|apply quiet_ret; intros (? & ? & ? & _); congruence].
  pose proof (target_scope_spec plan (tk_scope t) (pr_container target)) as Hs.
  destruct (target_scope _ _ _) as [sc|c]; [apply quiet_ret; intros (? & ? & _ & ? & _); congruence|].
  destruct (c_elements c !! to) as [e|] eqn:Ee; [|apply quiet_ret; intros (? & c' & _ & ? & [] & _); congruence].
  eapply quiet_bind; [by apply quiet_current|]. intros cur w' _ Hcur.
  assert (forall p e, process_of (definition (in_def_id i) w).1 = Some p -> FindElement p (tk_element t) = Some e -> cur = Some e)
    as Hc by (intros p x Hp Hx; by rewrite Hcur, Hp).
  assert (forall x, cur = Some x -> exists p, process_of (definition (in_def_id i) w).1 = Some p /\ FindElement p (tk_element t) = Some x)
    as Hc' by (intros x Hx; rewrite Hx in Hcur; symmetry in Hcur; by apply bind_Some in Hcur).
  destruct cur as [x|].
  - case_bool_decide as Ht.
    + destruct (wait_issue _ _ _) as [s|] eqn:Ew; apply quiet_ret.
      * intros (el' & ? & [= <-] & _ & _ & _ & Hw). apply (wait_issue_spec _ to) in Hw. congruence.
      * split; [|done]. exists el, c. split_and!; [done..| |by apply (wait_issue_spec _ to)].
        intros p y Hp Hy. specialize (Hc p y Hp Hy). congruence.
    + apply quiet_ret. intros (el' & ? & [= <-] & _ & _ & Hty & _). destruct (Hc' x eq_refl) as (p & Hp & Hx). eauto.
  - destruct (wait_issue _ _ _) as [s|] eqn:Ew; apply quiet_ret.
    + intros (el' & ? & [= <-] & _ & _ & _ & Hw). apply (wait_issue_spec _ to) in Hw. congruence.
    + split; [|done]. exists el, c. split_and!; [done..| |by apply (wait_issue_spec _ to)].
      intros p y Hp Hy. discriminate (Hc p y Hp Hy).
Qed.

(** The value of a transform at some reading of the clock. *)
Definition evaluates (src : string) (v : vars) (x : value) : Prop := exists n, eval_src (e_wall n) src v = Ok x.
Definition fails_to_evaluate (src : string) (v : vars) : Prop := exists n err, eval_src (e_wall n) src v = Err err.
Lemma check_transform_spec i x w : (forall n, returns (eval_src (e_wall n) x.2 (in_vars i)) = true) ->
  quiet (check_transform i x) w (fun r => match r with
    | inr nv => nv.1 = x.1 /\ evaluates x.2 (in_vars i) nv.2
    | inl _ => fails_to_evaluate x.2 (in_vars i)
    end).
Proof.
  intros Hr. destruct (quiet_tick w) as (n & w' & Ht & Hs & _). specialize (Hr n).
  unfold quiet, check_transform, attempt, expr_eval, of_expr, mbind, ST_bind. rewrite Ht.
  destruct (eval_src (e_wall n) x.2 (in_vars i)) as [v|e|p|] eqn:Ee; try done; cbn; eexists _, _;
    (split; [done|split; [done|]]); [split; [done|by exists n]|by exists n, e].
Qed.

Lemma Forall2_sides {A B C} (P : A -> Prop) (g : A -> C) (l : list A) (rs : list (B + C)) :
  Forall2 (fun x r => match r with inr m => P x /\ m = g x | inl _ => ~ P x end) l rs ->
  (lefts rs = [] -> Forall P l /\ rights rs = map g l) /\ (lefts rs <> [] -> Exists (fun x => ~ P x) l).
Proof.
  induction 1 as [|x r l rs Hx _ [IH1 IH2]]; [by split|].
  destruct r as [b|c]; cbn; split; [done|by left| |].
  - intros Hl. destruct (IH1 Hl) as [? Hm]. destruct Hx as [? ->]. split; [by constructor|]. cbn. f_equal. exact Hm.
  - intros Hl. right. by apply IH2.
Qed.

(** *** The records of the instance on the other side *)
Definition of_inst {A} (inst : A -> string) (id : string) (g : A -> A) (x : A) : A :=
  if String.eqb (inst x) id then g x else x.
(** The store of the migrated instance: its open tasks, its jobs and its
    subscriptions have moved with it; nothing else changes. *)
Definition migrated (plan : MigrationPlan) (PD : ParsedDef) (new : vars) (i : Instance) (m : Memory) : Memory :=
  {| m_definitions := m_definitions m;
     m_instances := <[in_id i := set_in_rev (in_rev i + 1) (moved_instance plan (@pd_def PD) new i)]> (m_instances m);
     m_tasks := of_inst ta_inst (in_id i) (fun t => if bool_decide (ta_state t = TaskCreated) then moved_task plan PD t else t) <$> m_tasks m;
     m_jobs := of_inst jb_inst (in_id i) (moved_job plan) <$> m_jobs m;
     m_externals := m_externals m; m_agent_jobs := m_agent_jobs m;
     m_subs := of_inst sb_inst (in_id i) (moved_sub plan PD) <$> m_subs m;
     m_incidents := m_incidents m; m_blobs := m_blobs m; m_history := m_history m; m_hist_seq := m_hist_seq m |}.

Lemma put_loop {A} (f : A -> Memory -> Memory) l : forall w,
  for_each (fun x => store_put (f x)) l w = (Ok tt, set_w_store (fold_left (fun m x => f x m) l (w_store w)) w).
Proof.
  induction l as [|x l IH]; intros w; cbn [for_each fold_left]; [by destruct w|].
  unfold mbind, ST_bind. cbn. by rewrite IH.
Qed.
Lemma move_tasks plan PD id m : keyed ta_id (m_tasks m) -> id <> "" ->
  fold_left (fun m t => PutTask (moved_task plan PD t) m) (ListTasks (created_tasks id) m) m
  = set_m_tasks (of_inst ta_inst id (fun t => if bool_decide (ta_state t = TaskCreated) then moved_task plan PD t else t) <$> m_tasks m) m.
Proof.
  intros Hm Hid. unfold PutTask.
  rewrite (fold_table m_tasks set_m_tasks (fun t x => <[ta_id x := moved_task plan PD x]> t)); [|done|done|by intros []].
  f_equal. unfold ListTasks. rewrite <- (keep_all (fun _ => true) (select _ _ _ _ _)) by done.
  rewrite fold_insert_select by done. apply map_fmap_ext. intros k x _.
  unfold of_inst, match_task, str_field, opt_field, in_time_window. cbn.
  rewrite (proj2 (String.eqb_neq id "") Hid). cbn. rewrite !andb_true_r.
  destruct (String.eqb (ta_inst x) id), (bool_decide (ta_state x = TaskCreated)); done.
Qed.
Lemma move_jobs plan id m : keyed jb_id (m_jobs m) -> id <> "" ->
  fold_left (fun m t => PutJob (moved_job plan t) m) (ListJobs id m) m
  = set_m_jobs (of_inst jb_inst id (moved_job plan) <$> m_jobs m) m.
Proof.
  intros Hm Hid. unfold PutJob.
  rewrite (fold_table m_jobs set_m_jobs (fun t x => <[jb_id x := moved_job plan x]> t)); [|done|done|by intros []].
  f_equal. unfold ListJobs. rewrite <- (keep_all (fun _ => true) (select _ _ _ _ _)) by done.
  rewrite fold_insert_select by done. apply map_fmap_ext. intros k x _.
  unfold of_inst, str_field. by rewrite (proj2 (String.eqb_neq id "") Hid), andb_true_r.
Qed.
Lemma move_subs plan PD id m : keyed sb_id (m_subs m) -> id <> "" ->
  fold_left (fun m t => PutSubscription (moved_sub plan PD t) m) (ListSubscriptions (subs_of_inst id) m) m
  = set_m_subs (of_inst sb_inst id (moved_sub plan PD) <$> m_subs m) m.
Proof.
  intros Hm Hid. unfold PutSubscription.
  rewrite (fold_table m_subs set_m_subs (fun t x => <[sb_id x := moved_sub plan PD x]> t)); [|done|done|by intros []].
  f_equal. unfold ListSubscriptions. rewrite <- (keep_all (fun _ => true) (select _ _ _ _ _)) by done.
  rewrite fold_insert_select by done. apply map_fmap_ext. intros k x _.
  unfold of_inst, match_sub, str_field, opt_field. cbn.
  by rewrite (proj2 (String.eqb_neq id "") Hid), !andb_true_r.
Qed.

(** [emit] outside a run. *)
Lemma emit_alone typ el d i w : exists ev s,
  hv_seq ev = 0 /\ hv_inst ev = in_id i /\ hv_type ev = typ /\ hv_detail ev = d
  /\ run_rt (emit typ el d) i w = (Ok (tt, s), set_w_store (AppendHistory ev (w_store w)).2 (set_w_tick (S (w_tick w)) w)).
Proof.
  eexists {| hv_seq := 0; hv_inst := in_id i; hv_time := e_clock (w_tick w); hv_type := typ; hv_element := el; hv_detail := d |}, _.
  split_and!; [done..|]. unfold run_rt, emit, lift, inst_get, gets, e_now, tick, store_put, modify, mbind, ST_bind, mret, ST_ret.
  cbv beta iota zeta. reflexivity.
Qed.
Lemma apply_run plan PD i new n w : memory_ok (w_store w) -> in_id i <> "" ->
  exists ev w', apply_migration plan PD i new n w = (Ok tt, w')
  /\ hv_seq ev = 0 /\ hv_inst ev = in_id i /\ hv_type ev = HistInstanceMigrated
  /\ hv_detail ev = detail [("fromDefinitionId", VStr (in_def_id i)); ("toDefinitionId", VStr (pd_id (@pd_def PD))); ("tokens", vnum n)]
  /\ w_store w' = (AppendHistory ev (migrated plan PD new i (w_store w))).2.
Proof.
  intros Hm Hid. unfold apply_migration, store_get, gets, mbind, ST_bind. cbv beta iota.
  rewrite put_loop, move_tasks by (done || apply Hm). cbv beta iota zeta.
  rewrite put_loop, move_jobs by (done || apply Hm). cbv beta iota zeta.
  rewrite put_loop, move_subs by (done || apply Hm). cbv beta iota zeta.
  unfold store_put, modify. cbv beta iota zeta.
  edestruct (emit_alone HistInstanceMigrated) as (ev & s & H1 & H2 & H3 & H4 & ->).
  eexists ev, _. cbv beta iota zeta. split_and!; [reflexivity|done..].
Qed.

Lemma Forall2_rights {A B C} (P : A -> Prop) (V : A -> C -> Prop) (l : list A) (rs : list (B + C)) :
  Forall2 (fun x r => match r with inr c => V x c | inl _ => P x end) l rs ->
  (lefts rs = [] -> Forall2 V l (rights rs)) /\ (lefts rs <> [] -> Exists P l).
Proof.
  induction 1 as [|x r l rs Hx _ [IH1 IH2]]; [split; [constructor|done]|].
  destruct r as [b|c]; cbn; split; [done|by left| |].
  - intros Hl. by constructor; auto.
  - intros Hl. right. by apply IH2.
Qed.
(** The new values, one for each transform. *)
Definition derives (plan : MigrationPlan) (v new : vars) : Prop :=
  forall name, match mp_vars plan !! name, new !! name with
               | Some src, Some x => evaluates src v x
               | None, None => True
               | _, _ => False
               end.
Lemma derives_list plan v n l :
  Forall2 (fun x nv => nv.1 = x.1 /\ evaluates x.2 v nv.2) (map_range n (mp_vars plan)) l -> derives plan v (list_to_map l).
Proof.
  intros Hl name. assert (l.*1 = (map_range n (mp_vars plan)).*1) as Hk by (induction Hl as [|???? [? ?]]; cbn; congruence).
  assert (NoDup (l.*1)) as Hnd by (rewrite Hk, map_range_perm; apply NoDup_fst_map_to_list).
  destruct (mp_vars plan !! name) as [src|] eqn:Es.
  - apply (elem_of_map_range n), list_elem_of_lookup in Es as [j Hj].
    destruct (Forall2_lookup_l _ _ _ _ _ Hl Hj) as ([k x] & Hx & Hkx & He). cbn in *. subst k.
    apply list_elem_of_lookup_2 in Hx. by rewrite (elem_of_list_to_map_1 l name x).
  - rewrite not_elem_of_list_to_map_1; [done|]. rewrite Hk. intros Hin.
    apply list_elem_of_fmap in Hin as ([k s] & -> & Hin). apply elem_of_map_range in Hin. cbn in *. congruence.
Qed.

Lemma check_plan_spec plan target i w :
  returns (definition (in_def_id i) w).1 = true ->
  (forall name src n, mp_vars plan !! name = Some src -> returns (eval_src (e_wall n) src (in_vars i)) = true) ->
  let fit := fits plan target (process_of (definition (in_def_id i) w).1) in
  quiet (check_plan plan target i) w (fun r =>
    (lefts r.1 = [] -> (forall k t, in_tokens i !! k = Some t -> fit t) /\ rights r.1 ≡ₚ map (move_of plan) (tokens_of i))
    /\ (lefts r.1 <> [] -> exists k t, in_tokens i !! k = Some t /\ ~ fit t)
    /\ (lefts r.2 = [] -> derives plan (in_vars i) (list_to_map (rights r.2)))
    /\ (lefts r.2 <> [] -> exists name src, mp_vars plan !! name = Some src /\ fails_to_evaluate src (in_vars i))).
Proof.
  intros Hcur Hev fit. unfold check_plan. eapply quiet_bind; [apply quiet_tick|]. intros n w1 H1 _.
  eapply quiet_bind.
  { apply (quiet_mapM _ (fun kt r => match r with inr m => fit kt.2 /\ m = move_of plan kt.2 | inl _ => ~ fit kt.2 end)).
    intros kt w2 H2 _. assert (same_defs w w2) as [_ Hd] by by etrans. unfold fit. rewrite <- Hd.
    apply check_token_spec. by rewrite Hd. }
  intros toks w2 _ Htoks. eapply quiet_bind; [apply quiet_tick|]. intros n2 w3 _ _.
  eapply quiet_bind.
  { apply (quiet_mapM _ (fun x r => match r with inr nv => nv.1 = x.1 /\ evaluates x.2 (in_vars i) nv.2
                                             | inl _ => fails_to_evaluate x.2 (in_vars i) end)).
    intros [name src] w4 _ Hx. apply elem_of_map_range in Hx. apply check_transform_spec. intros m. by eapply Hev. }
  intros new w4 _ Hnew. apply quiet_ret. cbn [fst snd].
  apply (Forall2_sides (fun kt => fit kt.2) (fun kt => move_of plan kt.2)) in Htoks as [Ht1 Ht2].
  apply (Forall2_rights (fun x => fails_to_evaluate x.2 (in_vars i)) (fun x nv => nv.1 = x.1 /\ evaluates x.2 (in_vars i) nv.2))
    in Hnew as [Hn1 Hn2].
  split_and!.
  - intros Hl. destruct (Ht1 Hl) as [Hf ->]. split.
    + intros k t Hk. rewrite Forall_forall in Hf. by apply (Hf (k, t)), elem_of_map_range.
    + unfold tokens_of. rewrite List.map_map, (map_range_perm n). done.
  - intros Hl. apply Exists_exists in Ht2 as ([k t] & Hin & Hf); [|done]. apply elem_of_map_range in Hin. eauto.
  - intros Hl. by eapply derives_list, Hn1.
  - intros Hl. apply Exists_exists in Hn2 as ([k t] & Hin & Hf); [|done]. apply elem_of_map_range in Hin. eauto.
Qed.

(** C21: a migration of a running instance ends with a report.  Either the
    report is marked as applied: the plan was no dry run, every token fits the
    target, and the instance, its open tasks, jobs and subscriptions are
    exactly the mapped ones, with one event added; or nothing is written, and
    the plan was a dry run, some token does not fit or some transform fails. *)
Theorem migrate_spec plan id w i PD :
  memory_ok (w_store w) -> id <> "" -> GetInstance id (w_store w) = Some i -> in_state i = InstanceActive ->
  mp_target plan <> "" -> in_def_id i <> mp_target plan ->
  (definition (mp_target plan) w).1 = Ok PD -> returns (definition (in_def_id i) w).1 = true ->
  (forall name src n, mp_vars plan !! name = Some src -> returns (eval_src (e_wall n) src (in_vars i)) = true) ->
  let fit := fits plan (@pd_proc PD) (process_of (definition (in_def_id i) w).1) in
  exists report w', migrate_instance id plan w = (Ok report, w') /\
  if mr_applied report then
    mp_dry plan = false /\ (forall k t, in_tokens i !! k = Some t -> fit t)
    /\ mr_moves report ≡ₚ map (move_of plan) (tokens_of i)
    /\ exists new ev, derives plan (in_vars i) new
       /\ hv_seq ev = 0 /\ hv_inst ev = id /\ hv_type ev = HistInstanceMigrated
       /\ w_store w' = (AppendHistory ev (migrated plan PD new i (w_store w))).2
  else
    w_store w' = w_store w
    /\ (mp_dry plan = true \/ (exists k t, in_tokens i !! k = Some t /\ ~ fit t)
        \/ exists name src, mp_vars plan !! name = Some src /\ fails_to_evaluate src (in_vars i)).
Proof.
  intros Hm Hid Hi Ha Ht Hne HPD Hcur Hev fit. unfold migrate_instance.
  rewrite (proj2 (String.eqb_neq _ _) Ht). destruct (definition_same (mp_target plan) w) as [Hst Hdf].
  unfold attempt, mbind, ST_bind. destruct (definition (mp_target plan) w) as [r w1] eqn:Ed.
  cbn in HPD, Hst, Hdf. subst r. unfold store_get, gets, or_not_found. cbv beta iota. rewrite Hst, Hi.
  unfold mret, ST_ret. cbv beta iota. rewrite bool_decide_eq_true_2 by done. cbn [negb]. rewrite (proj2 (String.eqb_neq _ _) Hne).
  unfold migrate_loaded. destruct (check_plan_spec plan (@pd_proc PD) i w1) as ([toks new] & w2 & Hc & [Hst2 _] & H1 & H2 & H3 & H4);
    [by rewrite Hdf|done|]. rewrite Hdf in H1, H2. cbn [fst snd] in H1, H2, H3, H4. rewrite Hst in Hst2.
  assert (in_id i = id) as Hii by by eapply ok_instances.
  unfold mbind, ST_bind. rewrite Hc. cbv beta iota. case_bool_decide as Hl; cbn [negb orb].
  - apply app_nil in Hl as [Hl1 Hl2]. destruct (mp_dry plan) eqn:Hdry.
    { eexists _, _. split; [reflexivity|]. cbn. auto. }
    destruct (apply_run plan PD i (list_to_map (rights new)) (Z.of_nat (length (rights toks))) w2)
      as (ev & w3 & -> & E1 & E2 & E3 & _ & E4); [by rewrite Hst2|by rewrite Hii|].
    eexists _, _. split; [reflexivity|]. cbn. destruct (H1 Hl1). split_and!; [done..|].
    exists (list_to_map (rights new)), ev. rewrite <- Hst2. split_and!; [auto|done|congruence|done|done].
  - eexists _, _. split; [reflexivity|]. cbn. split; [done|]. right.
    destruct (lefts toks) as [|s l] eqn:El; [|left; by apply H2]. right. apply H4. intros Hn. by rewrite Hn in Hl.
Qed.

End acceptance.

(** ** The properties on a concrete engine *)
#[local] Existing Instance latin1_only.
#[local] Existing Instance literal_regexp.
#[local] Existing Instance key_order.
#[local] Existing Instance sample_engine.

(** The second version of the process renames its user task. *)
Definition renamed_container : Container := container
  [plain_node "start" TypeStartEvent [] ["f0"]; plain_node "check" TypeUserTask ["f0"] ["f1"]; plain_node "end" TypeEndEvent ["f1"] []]
  [flow "f0" "start" "check" ""; flow "f1" "check" "end" ""].
Definition second_version (key : string) (c : Container) : ParsedDef :=
  {| pd_def := {| pd_id := "def_2"; pd_tenant := ""; pd_key := key; pd_version := 2; pd_name := key; pd_xml := key; pd_deployed := 0 |};
     pd_doc := document (process key c); pd_proc := process key c |}.
Definition waiting_task : Token := set_tk_state TokenWaitTask (first_token "tok_1" "approve").
Definition old_instance : Instance := sample_instance "user" ∅ waiting_task.
Definition upgrade_store : Memory := (PutInstance old_instance new_memory).2.
Definition upgrade_world : world :=
  {| w_store := upgrade_store; w_tick := 0; w_seq := 0;
     w_defs := {["def_1" := parsed "user" user_container; "def_2" := second_version "user" renamed_container]} |}.
Definition upgrade (moves : list (string * string)) (dry : bool) : MigrationPlan :=
  {| mp_target := "def_2"; mp_map := list_to_map moves; mp_vars := ∅; mp_dry := dry |}.
Definition applied_of (r : res goerr MigrationReport * world) : option (bool * list string) :=
  (fun r => (mr_applied r, mr_issues r)) <$> look r.

(** The token of the renamed task needs the mapping; a dry run only reports. *)
Example upgrade_reports :
  applied_of (migrate_instance "inst_1" (upgrade [("approve", "check")] false) upgrade_world) = Some (true, [])
  /\ applied_of (migrate_instance "inst_1" (upgrade [("approve", "check")] true) upgrade_world) = Some (false, [])
  /\ applied_of (migrate_instance "inst_1" (upgrade [] false) upgrade_world)
     = Some (false, ["token tok_1: element " ++ quote "approve" ++ " does not exist in target"])
  /\ applied_of (migrate_instance "inst_1" (upgrade [("approve", "end")] false) upgrade_world)
     = Some (false, ["token tok_1: type change userTask -> endEvent is not migratable"]).
Proof. vm_compute. auto. Qed.

Lemma migrate_spec_witness :
  exists report w', migrate_instance "inst_1" (upgrade [("approve", "check")] false) upgrade_world = (Ok report, w')
  /\ (mr_applied report = true \/ w_store w' = upgrade_store).
Proof.
  destruct (migrate_spec (upgrade [("approve", "check")] false) "inst_1" upgrade_world
    (set_in_rev 1 old_instance) (second_version "user" renamed_container)) as (report & w' & Hr & H);
    [|discriminate|vm_compute; reflexivity|reflexivity|discriminate|discriminate|vm_compute; reflexivity|vm_compute; reflexivity| |].
  - apply (run_op_ok_core (OPutInstance old_instance) new_memory new_memory_ok). exact I.
  - intros name src n Hn. discriminate Hn.
  - exists report, w'. split; [exact Hr|]. destruct (mr_applied report); [by left|right]. exact (proj1 H).
Defined.

(** A token that waits at a parallel join keeps the ID of the flow it came
    over.  When the target names its flows otherwise, a join that all tokens
    have reached is not ready after the migration. *)
Definition arrived (id flow : string) : Token := set_tk_flow flow (set_tk_state TokenJoining (first_token id "join")).
Definition both_arrived : Instance :=
  set_in_tokens {["tok_1" := arrived "tok_1" "fa"; "tok_2" := arrived "tok_2" "fb"]} (sample_instance "fork" ∅ (arrived "tok_1" "fa")).
Definition join_of (flows : list string) : Element := plain_node "join" TypeParallelGateway flows ["out"].
Example renamed_flows_block_join :
  parallel_join_ready both_arrived (arrived "tok_1" "fa") (join_of ["fa"; "fb"]) = true
  /\ (let i := moved_instance (upgrade [("fa", "ga"); ("fb", "gb")] false) (sample_def "fork") ∅ both_arrived in
      parallel_join_ready i (moved_token (upgrade [("fa", "ga"); ("fb", "gb")] false) (arrived "tok_1" "fa")) (join_of ["ga"; "gb"]) = false).
Proof. vm_compute. auto. Qed.
