(* ===== verification/Dmn.v ===== *)
(** * Decision tables ([src/dmn/dmn.go], [src/dmn/unary.go])

    A table is evaluated by the expression language: [ev] is [expr.Eval].
    Each evaluation has a place in the table, a list of numbers, and what it
    answers may depend on the place: two of them read the clock at different
    times. *)
From Stdlib Require Import Ascii.
From S2P Require Import Prelude GoFloat GoUtf8 GoTime ExprValue ExprLexer ExprDuration ExprFuncs ExprEval StoreTypes StoreMemory EngineBase.
Local Open Scope go_scope.
Local Open Scope string_scope.
Local Open Scope Z_scope.

(** [HitPolicy] and [Aggregation] are Go strings. *)
Definition HitUnique := "UNIQUE".
Definition HitFirst := "FIRST".
Definition HitAny := "ANY".
Definition HitPriority := "PRIORITY".
Definition HitCollect := "COLLECT".
Definition AggNone := "".
Definition AggSum := "SUM".
Definition AggMin := "MIN".
Definition AggMax := "MAX".
Definition AggCount := "COUNT".

Record Input := { ip_label : string; ip_expr : string }.
Record Output := { op_name : string; op_label : string; op_values : list string }.
Record Rule := { ru_inputs : list string; ru_outputs : list string; ru_desc : string }.
Record Decision := {
  de_id : string; de_name : string; de_policy : string; de_agg : string;
  de_inputs : list Input; de_outputs : list Output; de_rules : list Rule;
}.

(** An error with the context [prefix: %w]. *)
Definition within {A} (prefix : string) (r : res goerr A) : res goerr A :=
  match r with Err e => Err (EWrap prefix e) | _ => r end.
Definition fail_with {A} (msg : string) : res goerr A := Err (EMsg msg).

(** ** [Validate]: the first problem *)
Section validate.
Context {U : Unicode}.
Fixpoint bad_rule (d : Decision) (n : Z) (rules : list Rule) : option string :=
  match rules with
  | [] => None
  | r :: rules =>
      let at_ := "dmn: decision " ++ de_id d ++ " rule " ++ fmt_int n ++ " has " in
      if negb (Nat.eqb (length (ru_inputs r)) (length (de_inputs d))) then
        Some (at_ ++ fmt_int (Z.of_nat (length (ru_inputs r))) ++ " input entries, want "
                ++ fmt_int (Z.of_nat (length (de_inputs d))))
      else if negb (Nat.eqb (length (ru_outputs r)) (length (de_outputs d))) then
        Some (at_ ++ fmt_int (Z.of_nat (length (ru_outputs r))) ++ " output entries, want "
                ++ fmt_int (Z.of_nat (length (de_outputs d))))
      else bad_rule d (n + 1) rules
  end.
Definition policies : list string := [HitUnique; HitFirst; HitAny; HitPriority; HitCollect; ""].
Definition Validate (d : Decision) : option string :=
  if String.eqb (de_id d) "" then Some "dmn: decision without id"
  else if negb (existsb (String.eqb (de_policy d)) policies) then
    Some ("dmn: decision " ++ de_id d ++ ": unsupported hit policy " ++ quote (de_policy d))
  else if Nat.eqb (length (de_inputs d)) 0 then Some ("dmn: decision " ++ de_id d ++ " has no inputs")
  else if Nat.eqb (length (de_outputs d)) 0 then Some ("dmn: decision " ++ de_id d ++ " has no outputs")
  else match bad_rule d 1 (de_rules d) with
       | Some e => Some e
       | None =>
           if String.eqb (de_policy d) HitPriority then
             match head (filter (fun o => op_values o = []) (de_outputs d)) with
             | Some o => Some ("dmn: decision " ++ de_id d ++ ": PRIORITY needs allowed values on output " ++ quote (op_name o))
             | None => None
             end
           else None
       end.

End validate.

(** ** Unary tests *)

(** [splitTop]: [cur] is the part read so far. *)
Definition is_quote (c : ascii) : bool := Ascii.eqb c "034" || Ascii.eqb c "'".
Fixpoint split_loop (sep : ascii) (s : string) (prev : option ascii) (depth : Z) (in_str : option ascii) (cur : string)
  : list string :=
  match s with
  | EmptyString => [trim_space cur]
  | String c s =>
      let cur' := cur ++ String c "" in
      match in_str with
      | Some q =>
          let closed := Ascii.eqb c q && negb (bool_decide (prev = Some "\"%char)) in
          split_loop sep s (Some c) depth (if closed then None else in_str) cur'
      | None =>
          if is_quote c then split_loop sep s (Some c) depth (Some c) cur'
          else if Ascii.eqb c "(" || Ascii.eqb c "[" then split_loop sep s (Some c) (depth + 1) None cur'
          else if Ascii.eqb c ")" || Ascii.eqb c "]" then split_loop sep s (Some c) (depth - 1) None cur'
          else if Ascii.eqb c sep && (depth =? 0) then trim_space cur :: split_loop sep s (Some c) depth None ""
          else split_loop sep s (Some c) depth None cur'
      end
  end.
Definition split_top (s : string) (sep : ascii) : list string := split_loop sep s None 0 None "".

Definition place := list nat.
Definition first_is (s chars : string) : bool := match s with String c _ => is_byte c chars | EmptyString => false end.
Definition last_is (s chars : string) : bool :=
  match String.get (String.length s - 1) s with Some c => is_byte c chars | None => false end.
Definition is_negation (cell : string) : bool := has_prefix cell "not(" && has_suffix cell ")".
Definition is_range (cell : string) : bool :=
  (3 <? slen cell) && first_is cell "[(" && last_is cell "])" && scontains cell "..".
Definition equal_loose (a b : value) : bool := String.eqb (stringify (normalize a)) (stringify (normalize b)).
(** The operator a cell begins with, and the text after it. *)
Fixpoint leading_op (ops : list string) (cell : string) : option (string * string) :=
  match ops with
  | [] => None
  | op :: ops => match strip_prefix op cell with Some rest => Some (op, rest) | None => leading_op ops cell end
  end.

Section tables.
Context {U : Unicode} {MO : MapOrder}.
Variable ev : place -> string -> vars -> res goerr value.

(** [evalCell], [evalWithInput], [matchRange] *)
Definition eval_cell (p : place) (src : string) (input : value) (v : vars) : res goerr value :=
  ev p src (<["__input" := input]> v).
Definition eval_with_input (p : place) (src : string) (input : value) (v : vars) : res goerr bool :=
  let! x := eval_cell p src input v in
  match x with
  | VBool b => Ok b
  | _ => fail_with ("dmn: test " ++ quote src ++ " did not yield a boolean")
  end.
Definition match_range (p : place) (cell : string) (input : value) (v : vars) : res goerr bool :=
  let inner := sslice 1 (String.length cell - 1) cell in
  match sindex inner ".." with
  | None => fail_with ("dmn: bad range " ++ quote cell)
  | Some i =>
      let low := if first_is cell "[" then ">=" else ">" in
      let high := if last_is cell "]" then "<=" else "<" in
      eval_with_input p ("__input " ++ low ++ " (" ++ stake i inner ++ ") && __input " ++ high
                           ++ " (" ++ sdrop (i + 2) inner ++ ")") input v
  end.

(** The loop over the parts of a list: the first that matches. *)
Fixpoint match_any (test : nat -> string -> res goerr bool) (n : nat) (parts : list string) : res goerr bool :=
  match parts with
  | [] => Ok false
  | x :: parts => let! ok := test n x in if ok then Ok true else match_any test (S n) parts
  end.

(** [matchUnaryTest]; each nested test is shorter than the cell. *)
Fixpoint match_unary (fuel : nat) (p : place) (cell : string) (input : value) (v : vars) : res goerr bool :=
  match fuel with
  | O => OutOfFuel
  | S fuel =>
      let cell := trim_space cell in
      if String.eqb cell "" || String.eqb cell "-" then Ok true
      else if is_negation cell then
        let! ok := match_unary fuel p (sslice 4 (String.length cell - 1) cell) input v in Ok (negb ok)
      else if is_range cell then match_range p cell input v
      else
        let parts := split_top cell "," in
        if Nat.ltb 1 (length parts) then
          match_any (fun n x => match_unary fuel (p ++ [n])%list x input v) 0 parts
        else
          match leading_op ["<="; ">="; "!="; "<"; ">"] cell with
          | Some (op, rest) => eval_with_input p ("__input " ++ op ++ " (" ++ rest ++ ")") input v
          | None =>
              let src := str_replace_all cell "?" "__input" in
              let! x := eval_cell p src input v in
              match x with
              | VBool b => if scontains src "__input" then Ok b else Ok (equal_loose input x)
              | _ => Ok (equal_loose input x)
              end
          end
  end.
Definition match_cell (p : place) (cell : string) (input : value) (v : vars) : res goerr bool :=
  match_unary (S (String.length cell)) p cell input v.

(** ** Rules *)

(** [ruleMatches]: the tests from left to right, up to the first that fails. *)
Fixpoint rule_matches (p : place) (n : nat) (inputs : list Input) (cells : list string) (vals : list value) (v : vars)
  : res goerr bool :=
  match cells, vals, inputs with
  | [], _, _ => Ok true
  | cell :: cells, x :: vals, ip :: inputs =>
      let! ok := within ("input " ++ fmt_int (Z.of_nat (S n)) ++ " (" ++ ip_label ip ++ "): ")
                   (match_cell (p ++ [n])%list cell x v) in
      if ok then rule_matches p (S n) inputs cells vals v else Ok false
  | _, _, _ => Panic "index out of range"
  end.
(** [ruleOutputs] *)
Fixpoint rule_outputs (p : place) (n : nat) (outs : list Output) (cells : list string) (v : vars) (acc : vars)
  : res goerr vars :=
  match cells, outs with
  | [], _ => Ok acc
  | oe :: cells, o :: outs =>
      if String.eqb oe "" || String.eqb oe "-" then rule_outputs p (S n) outs cells v (<[op_name o := VNil]> acc)
      else
        let! x := within ("output " ++ quote (op_name o) ++ ": ") (ev (p ++ [n])%list oe v) in
        rule_outputs p (S n) outs cells v (<[op_name o := x]> acc)
  | _, [] => Panic "index out of range"
  end.
(** One rule: its outputs when it matches. *)
Definition run_rule (d : Decision) (n : nat) (r : Rule) (vals : list value) (v : vars) : res goerr (option vars) :=
  within ("dmn: decision " ++ de_id d ++ " rule " ++ fmt_int (Z.of_nat (S n)) ++ ": ")
    (let! ok := rule_matches [1%nat; n] 0 (de_inputs d) (ru_inputs r) vals v in
     if ok then let! out := rule_outputs [2%nat; n] 0 (de_outputs d) (ru_outputs r) v ∅ in Ok (Some out)
     else Ok None).
(** The loop over the rules: the outputs of those that match and their
    numbers; [FIRST] stops at the first. *)
Fixpoint run_rules (d : Decision) (policy : string) (n : nat) (rules : list Rule) (vals : list value) (v : vars)
  : res goerr (list (vars * Z)) :=
  match rules with
  | [] => Ok []
  | r :: rules =>
      let! out := run_rule d n r vals v in
      match out with
      | None => run_rules d policy (S n) rules vals v
      | Some m =>
          if String.eqb policy HitFirst then Ok [(m, Z.of_nat (S n))]
          else let! rest := run_rules d policy (S n) rules vals v in Ok ((m, Z.of_nat (S n)) :: rest)
      end
  end.
Fixpoint eval_inputs (d : Decision) (n : nat) (inputs : list Input) (v : vars) : res goerr (list value) :=
  match inputs with
  | [] => Ok []
  | ip :: inputs =>
      let! x := within ("dmn: decision " ++ de_id d ++ " input " ++ fmt_int (Z.of_nat (S n)) ++ " (" ++ ip_label ip ++ "): ")
                  (ev [0%nat; n] (ip_expr ip) v) in
      let! xs := eval_inputs d (S n) inputs v in Ok (x :: xs)
  end.

(** ** Hit policies *)

(** [scalarize] *)
Definition scalarize (d : Decision) (m : vars) : value :=
  match de_outputs d with [o] => vget m (op_name o) | _ => VMap m end.
(** [allowedValueString], [priorityRank] *)
Definition allowed_value_string (p : place) (s : string) : res goerr string :=
  match ev p s ∅ with
  | Ok x => Ok (stringify x)
  | Err _ => Ok s
  | Panic w => Panic w
  | OutOfFuel => OutOfFuel
  end.
Fixpoint rank_of (p : place) (n : nat) (values : list string) (got : string) : res goerr nat :=
  match values with
  | [] => Ok n
  | a :: values =>
      let! s := allowed_value_string (p ++ [n])%list a in
      if String.eqb s got then Ok n else rank_of p (S n) values got
  end.
Definition priority_rank (d : Decision) (n : nat) (m : vars) : res goerr nat :=
  match de_outputs d with
  | [] => Panic "index out of range"
  | o :: _ => rank_of [3%nat; n] 0 (op_values o) (stringify (vget m (op_name o)))
  end.
Fixpoint best_ranked (d : Decision) (n : nat) (best : vars) (rank : nat) (ms : list vars) : res goerr vars :=
  match ms with
  | [] => Ok best
  | m :: ms =>
      let! r := priority_rank d n m in
      if Nat.ltb r rank then best_ranked d (S n) m r ms else best_ranked d (S n) best rank ms
  end.
(** The output on which two matches differ, if any. *)
Definition disagree (n : nat) (first m : vars) : option string :=
  head (omap (fun kv => if String.eqb (stringify (vget m kv.1)) (stringify kv.2) then None else Some kv.1) (map_range n first)).
Fixpoint any_disagree (n : nat) (first : vars) (ms : list vars) : option string :=
  match ms with
  | [] => None
  | m :: ms => match disagree n first m with Some k => Some k | None => any_disagree (S n) first ms end
  end.
Definition show_rules (l : list Z) : string := "[" ++ sjoin " " (map fmt_int l) ++ "]".

(** [collect] *)
Definition agg_step (agg : string) (first : bool) (acc f : f64) : option f64 :=
  if String.eqb agg AggSum then Some (fadd acc f)
  else if String.eqb agg AggMin then Some (if first || flt f acc then f else acc)
  else if String.eqb agg AggMax then Some (if first || flt acc f then f else acc)
  else None.
Fixpoint aggregate (d : Decision) (name : string) (first : bool) (acc : f64) (ms : list vars) : res goerr f64 :=
  match ms with
  | [] => Ok acc
  | m :: ms =>
      match vget m name with
      | VNum f =>
          match agg_step (de_agg d) first acc f with
          | Some acc => aggregate d name false acc ms
          | None => fail_with ("dmn: decision " ++ de_id d ++ ": unsupported aggregation " ++ quote (de_agg d))
          end
      | x => fail_with ("dmn: decision " ++ de_id d ++ ": COLLECT " ++ de_agg d ++ " on non-numeric output " ++ fmt_v x)
      end
  end.
Definition collect (d : Decision) (ms : list vars) : res goerr value :=
  if String.eqb (de_agg d) AggCount then Ok (vnum (Z.of_nat (length ms)))
  else if negb (String.eqb (de_agg d) AggNone) then
    match de_outputs d with
    | [o] => let! acc := aggregate d (op_name o) true f_zero ms in Ok (VNum acc)
    | _ => fail_with ("dmn: decision " ++ de_id d ++ ": COLLECT aggregation needs exactly one output")
    end
  else Ok (VList (map (scalarize d) ms)).

(** The [switch] of [Evaluate] over the matches. *)
Definition hit (d : Decision) (policy : string) (hits : list (vars * Z)) : res goerr value :=
  let rules := show_rules (map snd hits) in
  match map fst hits with
  | [] => Ok VNil
  | first :: rest =>
      if String.eqb policy HitUnique then
        match rest with
        | [] => Ok (scalarize d first)
        | _ => fail_with ("dmn: decision " ++ de_id d ++ ": UNIQUE violated, rules " ++ rules ++ " all matched")
        end
      else if String.eqb policy HitFirst then Ok (scalarize d first)
      else if String.eqb policy HitAny then
        match any_disagree 1 first rest with
        | Some k => fail_with ("dmn: decision " ++ de_id d ++ ": ANY violated, rules " ++ rules ++ " disagree on " ++ quote k)
        | None => Ok (scalarize d first)
        end
      else if String.eqb policy HitPriority then
        let! rank := priority_rank d 0 first in
        let! best := best_ranked d 1 first rank rest in Ok (scalarize d best)
      else if String.eqb policy HitCollect then collect d (first :: rest)
      else fail_with ("dmn: decision " ++ de_id d ++ ": unsupported hit policy " ++ quote policy)
  end.
(** [Evaluate] *)
Definition policy_of (d : Decision) : string := if String.eqb (de_policy d) "" then HitUnique else de_policy d.
Definition Evaluate (d : Decision) (v : vars) : res goerr value :=
  let! vals := eval_inputs d 0 (de_inputs d) v in
  let! hits := run_rules d (policy_of d) 0 (de_rules d) vals v in
  hit d (policy_of d) hits.

(** ** [Registry] *)
Abbreviation registry := (gmap string Decision).
Definition Register (d : Decision) (r : registry) : option string * registry :=
  match Validate d with
  | Some e => (Some e, r)
  | None => (None, <[de_id d := d]> r)
  end.
Definition Get (id : string) (r : registry) : option Decision := r !! id.
Definition List (n : nat) (r : registry) : list string := map fst (map_range n r).
Definition EvaluateDecision (key : string) (v : vars) (r : registry) : res goerr value :=
  match Get key r with
  | None => fail_with ("dmn: unknown decision " ++ quote key)
  | Some d => Evaluate d v
  end.
End tables.

(** ** Termination *)
Section termination.
Context {U : Unicode} {MO : MapOrder}.

(** A list of several parts has parts shorter than the text. *)
Lemma split_loop_length sep s : forall prev depth q cur,
  (exists y, split_loop sep s prev depth q cur = [y] /\ (String.length y <= String.length cur + String.length s)%nat)
  \/ Forall (fun y => String.length y < String.length cur + String.length s)%nat (split_loop sep s prev depth q cur).
Proof.
  induction s as [|c s IH]; intros prev depth q cur; cbn [split_loop].
  - left. eexists. split; [done|]. pose proof (trim_space_length cur). cbn. lia.
  - assert (String.length (cur ++ String c "") + String.length s = String.length cur + String.length (String c s))%nat as Hl
      by (rewrite string_app_length; cbn; lia).
    repeat case_match; rewrite <- Hl; try apply IH. right. constructor.
    + pose proof (trim_space_length cur). rewrite string_app_length. cbn. lia.
    + destruct (IH (Some c) depth None "") as [(y & -> & Hy)|Hf]; [constructor; [|constructor]|eapply Forall_impl; [exact Hf|]];
        [|intros y Hy]; rewrite string_app_length; cbn in *; lia.
Qed.
Lemma split_top_shorter s sep : (1 < length (split_top s sep))%nat ->
  Forall (fun y => String.length y < String.length s)%nat (split_top s sep).
Proof.
  unfold split_top. destruct (split_loop_length sep s None 0 None "") as [(y & -> & _)|Hf]; cbn; [lia|]. done.
Qed.
Lemma negation_shorter cell : is_negation cell = true ->
  (String.length (sslice 4 (String.length cell - 1) cell) < String.length cell)%nat.
Proof.
  unfold is_negation. intros [H _]%andb_prop. apply has_prefix_spec in H as [r ->].
  unfold sslice. rewrite string_app_length. cbn [String.length]. change (String.length "not(") with 4%nat.
  pose proof (stake_sdrop (4 + String.length r - 1 - 4) (sdrop 4 ("not(" ++ r))) as Hs.
  apply (f_equal String.length) in Hs. rewrite string_app_length, !sdrop_length, string_app_length in Hs.
  change (String.length "not(") with 4%nat in Hs. lia.
Qed.

(** An evaluator that always comes back. *)
Definition total (ev : place -> string -> vars -> res goerr value) : Prop :=
  forall p src v, returns (ev p src v) = true.
Section total.
Variable ev : place -> string -> vars -> res goerr value.
Hypothesis Hev : total ev.

Lemma within_returns {A} s (r : res goerr A) : returns (within s r) = returns r.
Proof. by destruct r. Qed.
Lemma input_returns p src x v : returns (eval_with_input ev p src x v) = true.
Proof. apply returns_bind; [apply Hev|]. by intros []. Qed.
Lemma range_returns p cell x v : returns (match_range ev p cell x v) = true.
Proof. unfold match_range. case_match; [|done]. cbv zeta. apply input_returns. Qed.
Lemma any_returns test parts : forall n,
  (forall m x, x ∈ parts -> returns (test m x) = true) -> returns (match_any test n parts) = true.
Proof.
  induction parts as [|x parts IH]; intros n Ht; cbn; [done|].
  apply returns_bind; [apply Ht; left|]. intros [] _; [done|]. apply IH. intros m y Hy. apply Ht. by right.
Qed.
Lemma match_unary_returns fuel : forall p cell x v,
  (String.length cell < fuel)%nat -> returns (match_unary ev fuel p cell x v) = true.
Proof.
  induction fuel as [|fuel IH]; intros p cell x v Hf; [lia|]. cbn [match_unary].
  pose proof (trim_space_length cell) as Ht. set (c := trim_space cell) in *. clearbody c.
  destruct (_ || _); [done|]. destruct (is_negation c) eqn:En.
  { apply negation_shorter in En. apply returns_bind; [apply IH; lia|done]. }
  destruct (is_range c); [apply range_returns|]. cbv zeta.
  destruct (Nat.ltb_spec 1 (length (split_top c ","))) as [Hl|].
  { apply any_returns. intros m y Hy. apply IH. pose proof (split_top_shorter _ _ Hl) as Hs.
    rewrite Forall_forall in Hs. specialize (Hs y Hy). cbn in Hs. lia. }
  destruct (leading_op _ c) as [[op rest]|]; [apply input_returns|].
  apply returns_bind; [apply Hev|]. intros [] _; try done. by case_match.
Qed.
Lemma cell_returns p cell x v : returns (match_cell ev p cell x v) = true.
Proof. apply match_unary_returns. lia. Qed.

Lemma rule_matches_returns p v inputs : forall n cells vals,
  length cells = length inputs -> length vals = length inputs ->
  returns (rule_matches ev p n inputs cells vals v) = true.
Proof.
  induction inputs as [|ip inputs IH]; intros n [|c cells] [|x vals] Hc Hv; try done. cbn.
  apply returns_bind; [rewrite within_returns; apply cell_returns|]. intros [] _; [|done]. apply IH; cbn in *; lia.
Qed.
Lemma rule_outputs_returns p v outs : forall n cells acc,
  length cells = length outs -> returns (rule_outputs ev p n outs cells v acc) = true.
Proof.
  induction outs as [|o outs IH]; intros n [|c cells] acc Hc; try done. cbn.
  destruct (_ || _); [by apply IH; cbn in *; lia|].
  apply returns_bind; [rewrite within_returns; apply Hev|]. intros x _. apply IH. cbn in *. lia.
Qed.

(** The shape that [Validate] checks. *)
Definition rectangular (d : Decision) (r : Rule) : Prop :=
  length (ru_inputs r) = length (de_inputs d) /\ length (ru_outputs r) = length (de_outputs d).
Lemma bad_rule_spec d rules : forall n, bad_rule d n rules = None <-> Forall (rectangular d) rules.
Proof.
  induction rules as [|r rules IH]; intros n; cbn; [done|]. rewrite Forall_cons. unfold rectangular at 1.
  destruct (Nat.eqb_spec (length (ru_inputs r)) (length (de_inputs d))); cbn; [|naive_solver].
  destruct (Nat.eqb_spec (length (ru_outputs r)) (length (de_outputs d))); cbn; [|naive_solver].
  rewrite IH. naive_solver.
Qed.
Lemma valid_shape d : Validate d = None ->
  In (de_policy d) policies /\ de_outputs d <> [] /\ Forall (rectangular d) (de_rules d).
Proof.
  unfold Validate. destruct (String.eqb _ ""); [done|]. destruct (existsb _ policies) eqn:Ep; [|done]. cbn [negb].
  destruct (Nat.eqb _ 0); [done|]. destruct (Nat.eqb_spec (length (de_outputs d)) 0); [done|].
  destruct (bad_rule d 1 (de_rules d)) eqn:Eb; [done|]. intros _. apply bad_rule_spec in Eb. split_and!; [|by intros Ho; rewrite Ho in *|done].
  apply existsb_exists in Ep as (x & Hx & Heq). apply String.eqb_eq in Heq. by subst.
Qed.

Lemma run_rule_returns d n r vals v : rectangular d r -> length vals = length (de_inputs d) ->
  returns (run_rule ev d n r vals v) = true.
Proof.
  intros [H1 H2] Hv. unfold run_rule. rewrite within_returns. apply returns_bind; [by apply rule_matches_returns|].
  intros [] _; [|done]. apply returns_bind; [by apply rule_outputs_returns|done].
Qed.
Lemma run_rules_returns d policy vals v rules : forall n, Forall (rectangular d) rules ->
  length vals = length (de_inputs d) -> returns (run_rules ev d policy n rules vals v) = true.
Proof.
  induction rules as [|r rules IH]; intros n Hr Hv; cbn; [done|]. inversion Hr; subst.
  apply returns_bind; [by apply run_rule_returns|]. intros [m|] _; [|by apply IH].
  destruct (String.eqb policy HitFirst); [done|]. apply returns_bind; [by apply IH|done].
Qed.
Lemma eval_inputs_returns d v inputs : forall n, returns (eval_inputs ev d n inputs v) = true.
Proof.
  induction inputs as [|ip inputs IH]; intros n; cbn; [done|].
  apply returns_bind; [rewrite within_returns; apply Hev|]. intros x _. by apply returns_bind.
Qed.
Lemma eval_inputs_length d v inputs : forall n vals, eval_inputs ev d n inputs v = Ok vals -> length vals = length inputs.
Proof.
  induction inputs as [|ip inputs IH]; intros n vals; cbn; [by intros [= <-]|].
  rewrite bind_Ok. intros (x & _ & H). apply bind_Ok in H as (xs & Hxs & [= <-]). cbn. by rewrite (IH _ _ Hxs).
Qed.
Lemma rank_returns p got values : forall n, exists k, rank_of ev p n values got = Ok k.
Proof.
  induction values as [|a values IH]; intros n; cbn; [by eexists|]. unfold allowed_value_string.
  specialize (Hev (p ++ [n])%list a ∅). destruct (ev (p ++ [n])%list a ∅); try done; cbn; case_match; eauto.
Qed.
Lemma priority_returns d n m : de_outputs d <> [] -> exists k, priority_rank ev d n m = Ok k.
Proof. intros Ho. unfold priority_rank. destruct (de_outputs d); [done|]. apply rank_returns. Qed.
Lemma best_returns d ms : de_outputs d <> [] -> forall n best rank, returns (best_ranked ev d n best rank ms) = true.
Proof.
  intros Ho. induction ms as [|m ms IH]; intros n best rank; cbn; [done|].
  destruct (priority_returns d n m Ho) as [k ->]. cbn. case_match; apply IH.
Qed.
Lemma aggregate_returns d name ms : forall first acc, returns (aggregate d name first acc ms) = true.
Proof. induction ms as [|m ms IH]; intros first acc; cbn; [done|]. repeat case_match; done. Qed.
Lemma hit_returns d policy hits : de_outputs d <> [] -> returns (hit ev d policy hits) = true.
Proof.
  intros Ho. unfold hit. destruct (map fst hits) as [|first rest]; [done|].
  destruct (String.eqb policy HitUnique); [by destruct rest|]. destruct (String.eqb policy HitFirst); [done|].
  destruct (String.eqb policy HitAny); [by case_match|].
  destruct (String.eqb policy HitPriority).
  { destruct (priority_returns d 0 first Ho) as [k ->]. cbn. apply returns_bind; [by apply best_returns|done]. }
  destruct (String.eqb policy HitCollect); [|done]. unfold collect. repeat case_match; try done.
  apply returns_bind; [apply aggregate_returns|done].
Qed.
End total.

(** A table that passed [Validate] always evaluates to a value or an
    error: no cell, however written, is out of range or nested beyond the
    bound, as long as the expressions in it come back. *)
Theorem evaluate_returns ev d v : total ev -> Validate d = None -> returns (Evaluate ev d v) = true.
Proof.
  intros Hev (_ & Ho & Hr)%valid_shape. unfold Evaluate.
  apply returns_bind; [by apply eval_inputs_returns|]. intros vals Hv. apply eval_inputs_length in Hv.
  apply returns_bind; [by apply run_rules_returns|]. intros hits _. by apply hit_returns.
Qed.
End termination.

(** ** The hit policies *)
Section policies.
Context {U : Unicode} {MO : MapOrder}.
Variable ev : place -> string -> vars -> res goerr value.

(** Rules from number [k] on, none of which fails. *)
Lemma run_rules_hits d policy vals v rules : forall k outs,
  imap (fun n r => run_rule ev d (k + n) r vals v) rules = map Ok outs ->
  exists l, run_rules ev d policy k rules vals v = Ok l
  /\ map fst l = if String.eqb policy HitFirst then take 1 (omap id outs) else omap id outs.
Proof.
  induction rules as [|r rules IH]; intros k [|o outs] H; try done; cbn [imap map] in H.
  { exists []. split; [done|]. by case_match. }
  injection H as Ho H. rewrite Nat.add_0_r in Ho. cbn [run_rules]. rewrite Ho. cbn [rbind].
  destruct (IH (S k) outs) as (l & Hl & Hm).
  { rewrite <- H. apply imap_ext. intros n x _. cbn. f_equal. lia. }
  destruct o as [m|]; cbn [omap list_omap id]; [|exists l; by split].
  destruct (String.eqb policy HitFirst); [by eexists|]. rewrite Hl. cbn. eexists. split; [done|]. cbn. by f_equal.
Qed.

Lemma best_ranked_spec d ms : forall n best rank m,
  best_ranked ev d n best rank ms = Ok m ->
  (m = best /\ forall i m' k', ms !! i = Some m' -> priority_rank ev d (n + i) m' = Ok k' -> (rank <= k')%nat)
  \/ exists j k, ms !! j = Some m /\ priority_rank ev d (n + j) m = Ok k /\ (k < rank)%nat
     /\ forall i m' k', ms !! i = Some m' -> priority_rank ev d (n + i) m' = Ok k' ->
          (k <= k')%nat /\ (i < j -> k < k')%nat.
Proof.
  induction ms as [|x ms IH]; intros n best rank m; cbn [best_ranked]; [intros [= ->]; by left|].
  destruct (priority_rank ev d n x) as [r|e|p|] eqn:Er; try done. cbn [rbind].
  assert (forall i, n + S i = S n + i)%nat as Hs by lia.
  destruct (Nat.ltb_spec r rank) as [Hlt|Hge]; intros H; apply IH in H.
  - right. destruct H as [[-> Ha]|(j & k & Hj & Hk & Hkr & Ha)].
    + exists 0%nat, r. rewrite Nat.add_0_r. split_and!; [done..|]. intros [|i] m' k'; cbn.
      * rewrite Nat.add_0_r. intros [= <-] Hk'. assert (r = k') by congruence. lia.
      * rewrite Hs. intros Hi Hk'. specialize (Ha i m' k' Hi Hk'). lia.
    + exists (S j), k. rewrite Hs. split_and!; [done..|lia|]. intros [|i] m' k'; cbn.
      * rewrite Nat.add_0_r. intros [= <-] Hk'. assert (r = k') by congruence. lia.
      * rewrite Hs. intros Hi Hk'. destruct (Ha i m' k' Hi Hk'). lia.
  - destruct H as [[-> Ha]|(j & k & Hj & Hk & Hkr & Ha)].
    + left. split; [done|]. intros [|i] m' k'; cbn.
      * rewrite Nat.add_0_r. intros [= <-] Hk'. assert (r = k') by congruence. lia.
      * rewrite Hs. apply Ha.
    + right. exists (S j), k. rewrite Hs. split_and!; [done..|]. intros [|i] m' k'; cbn.
      * rewrite Nat.add_0_r. intros [= <-] Hk'. assert (r = k') by congruence. lia.
      * rewrite Hs. intros Hi Hk'. destruct (Ha i m' k' Hi Hk'). lia.
Qed.

(** [ANY]: the match gives the same text for every output of the first. *)
Definition agrees (first m : vars) : Prop :=
  forall k x, first !! k = Some x -> stringify (vget m k) = stringify x.
Lemma disagree_spec n first m : disagree n first m = None <-> agrees first m.
Proof.
  unfold disagree, agrees. rewrite head_None. setoid_rewrite <- (elem_of_map_range n). generalize (map_range n first).
  induction l as [|[k x] l IH]; cbn; [split; [intros _ k x Hin; by apply elem_of_nil in Hin|done]|].
  setoid_rewrite elem_of_cons. destruct (String.eqb_spec (stringify (vget m k)) (stringify x)) as [He|Hne].
  - rewrite IH. split; [intros H k' x' [[= -> ->]|Hin]; eauto|eauto].
  - split; [done|]. intros H. destruct Hne. apply H. by left.
Qed.
Lemma any_disagree_spec first ms : forall n, any_disagree n first ms = None <-> Forall (agrees first) ms.
Proof.
  induction ms as [|m ms IH]; intros n; cbn; [done|]. rewrite Forall_cons, <- (disagree_spec n), <- (IH (S n)).
  destruct (disagree n first m); naive_solver.
Qed.

(** Aggregation of the numbers [fs] of one output. *)
Lemma aggregate_fold d name agg ms fs : de_agg d = agg -> (forall b a f, is_Some (agg_step agg b a f)) ->
  map (fun m => vget m name) ms = map VNum fs -> forall first acc,
  aggregate d name first acc ms
  = Ok (fst (fold_left (fun s f => (default (fst s) (agg_step agg (snd s) (fst s) f), false)) fs (acc, first))).
Proof.
  intros <- Hs. revert fs. induction ms as [|m ms IH]; intros [|f fs] H first acc; try done; cbn in H.
  injection H as Hm H. cbn [aggregate fold_left fst snd]. rewrite Hm. destruct (Hs first acc f) as [a Ha]. rewrite Ha. cbn. by apply IH.
Qed.

Lemma fold_best (lt : f64 -> f64 -> bool) fs : (forall a, lt a a = false) ->
  (forall a b c, lt a b = true -> lt b c = true -> lt a c = true) -> forall acc seen,
  acc ∈ seen -> (forall f, f ∈ seen -> lt f acc = false) ->
  let r := fst (fold_left (fun s f => (if snd s || lt f (fst s) then f else fst s, false)) fs (acc, false)) in
  r ∈ (seen ++ fs)%list /\ forall f, f ∈ (seen ++ fs)%list -> lt f r = false.
Proof.
  intros Hi Ht. induction fs as [|f fs IH]; intros acc seen Hin Hle; cbn [fold_left fst snd orb].
  { rewrite app_nil_r. by split. }
  replace (seen ++ f :: fs)%list with ((seen ++ [f]) ++ fs)%list by by rewrite <- app_assoc.
  destruct (lt f acc) eqn:Ef; apply IH.
  - set_solver.
  - intros g Hg. apply elem_of_app in Hg as [Hg|Hg%list_elem_of_singleton]; [|by subst].
    specialize (Hle g Hg). destruct (lt g f) eqn:Eg; [|done]. specialize (Ht _ _ _ Eg Ef). congruence.
  - set_solver.
  - intros g Hg. apply elem_of_app in Hg as [Hg|Hg%list_elem_of_singleton]; [by apply Hle|by subst].
Qed.
Lemma collect_number d o fs hits : de_outputs d = [o] -> hits <> [] ->
  map (fun m => vget m (op_name o)) hits = map VNum fs ->
  (de_agg d = AggSum -> collect d hits = Ok (VNum (fold_left fadd fs f_zero)))
  /\ (de_agg d = AggMin -> exists x, collect d hits = Ok (VNum x) /\ x ∈ fs /\ forall f, f ∈ fs -> flt f x = false)
  /\ (de_agg d = AggMax -> exists x, collect d hits = Ok (VNum x) /\ x ∈ fs /\ forall f, f ∈ fs -> flt x f = false).
Proof.
  intros Ho Hne Hfs. unfold collect. rewrite Ho. destruct fs as [|f fs]; [by destruct hits|].
  split_and!; intros Ha; rewrite Ha; cbn [String.eqb Ascii.eqb Bool.eqb AggCount AggSum AggMin AggMax AggNone negb].
  - rewrite (aggregate_fold d _ AggSum hits (f :: fs)) by (done || by intros; eexists). cbn [rbind]. do 2 f_equal.
    clear. generalize true. generalize f_zero. induction (f :: fs) as [|g l IH]; intros a b; cbn; [done|apply IH].
  - rewrite (aggregate_fold d _ AggMin hits (f :: fs)) by (done || by intros; eexists). cbn [rbind fold_left fst snd].
    eexists. split; [done|]. apply (fold_best flt fs flt_irrefl flt_trans f [f]); [set_solver|].
    intros g ->%list_elem_of_singleton. apply flt_irrefl.
  - rewrite (aggregate_fold d _ AggMax hits (f :: fs)) by (done || by intros; eexists). cbn [rbind fold_left fst snd].
    eexists. split; [done|]. pose proof (fold_best (fun a b => flt b a) fs flt_irrefl) as H.
    specialize (H (fun a b c Hab Hbc => flt_trans c b a Hbc Hab) f [f]). apply H; [set_solver|].
    intros g ->%list_elem_of_singleton. apply flt_irrefl.
Qed.

Lemma priority_spec d first rest : total ev -> de_outputs d <> [] ->
  exists j m k, (first :: rest) !! j = Some m
  /\ (let! rank := priority_rank ev d 0 first in let! best := best_ranked ev d 1 first rank rest in Ok (scalarize d best))
     = Ok (scalarize d m)
  /\ priority_rank ev d j m = Ok k
  /\ forall i m' k', (first :: rest) !! i = Some m' -> priority_rank ev d i m' = Ok k' -> (k <= k')%nat /\ (i < j -> k < k')%nat.
Proof.
  intros Hev Ho. destruct (priority_returns ev Hev d 0 first Ho) as [r Hr]. rewrite Hr. cbn [rbind].
  pose proof (best_returns ev Hev d rest Ho 1 first r) as Hb.
  destruct (best_ranked ev d 1 first r rest) as [m|e|p|] eqn:Em; try done.
  - cbn [rbind]. destruct (best_ranked_spec _ _ _ _ _ _ Em) as [[-> Ha]|(j & k & Hj & Hk & Hkr & Ha)].
    + exists 0%nat, first, r. split_and!; [done..|]. intros [|i] m' k'; cbn.
      * intros [= <-] Hk'. assert (r = k') by congruence. lia.
      * intros Hi Hk'. specialize (Ha i m' k' Hi Hk'). lia.
    + exists (S j), m, k. split_and!; [done..|]. intros [|i] m' k'; cbn.
      * intros [= <-] Hk'. assert (r = k') by congruence. lia.
      * intros Hi Hk'. destruct (Ha i m' k' Hi Hk'). lia.
  - exfalso. clear Hb Hr. revert Em. generalize 1%nat. revert r first. induction rest as [|x rest IH]; intros r first n; cbn; [done|].
    destruct (priority_returns ev Hev d n x Ho) as [k ->]. cbn. case_match; apply IH.
Qed.

End policies.

(** ** The properties on concrete tables *)
#[local] Existing Instance latin1_only.
#[local] Existing Instance literal_regexp.
#[local] Existing Instance key_order.

(** The evaluator of the expression language; an evaluation that does not
    come back counts as an error. *)
Definition bounded_eval : place -> string -> vars -> res goerr value := fun _ src v =>
  match eval_src 0 src v with
  | Ok x => Ok x
  | Err e => Err (EExpr e)
  | Panic w => Err (EMsg w)
  | OutOfFuel => Err (EMsg "endless evaluation")
  end.
Lemma bounded_total : total bounded_eval.
Proof. intros p src v. unfold bounded_eval. by destruct (eval_src 0 src v). Qed.

(** Two rules: any amount is [first], an amount over 100 is [second]. *)
Definition two_rules (policy agg : string) (values : list string) (first second : string) : Decision :=
  {| de_id := "d"; de_name := ""; de_policy := policy; de_agg := agg;
     de_inputs := [{| ip_label := "amount"; ip_expr := "amount" |}];
     de_outputs := [{| op_name := "grade"; op_label := ""; op_values := values |}];
     de_rules := [{| ru_inputs := ["-"]; ru_outputs := [first]; ru_desc := "" |};
                  {| ru_inputs := ["> 100"]; ru_outputs := [second]; ru_desc := "" |}] |}.
Definition amount (z : Z) : vars := {["amount" := vnum z]}.
Definition decide_on (d : Decision) (z : Z) : option value :=
  match Evaluate bounded_eval d (amount z) with Ok x => Some x | _ => None end.

Example policies_sample :
  decide_on (two_rules HitUnique "" [] "'low'" "'high'") 50 = Some (VStr "low")
  /\ decide_on (two_rules HitUnique "" [] "'low'" "'high'") 500 = None
  /\ decide_on (two_rules HitFirst "" [] "'low'" "'high'") 500 = Some (VStr "low")
  /\ decide_on (two_rules HitAny "" [] "'low'" "'high'") 500 = None
  /\ decide_on (two_rules HitCollect "" [] "'low'" "'high'") 500 = Some (VList [VStr "low"; VStr "high"])
  /\ decide_on (two_rules HitCollect AggMax [] "1" "amount / 2") 500 = Some (vnum 250)
  /\ decide_on (two_rules HitPriority "" ["'high'"; "'low'"] "'low'" "'high'") 500 = Some (VStr "high").
Proof. vm_compute. auto 10. Qed.
(** Allowed values without quotes are read as variables, which are nil: every
    output gets the last rank, and PRIORITY answers with the first match. *)
Example unquoted_values_lose_priority :
  allowed_value_string bounded_eval [] "high" = Ok ""
  /\ decide_on (two_rules HitPriority "" ["high"; "low"] "'low'" "'high'") 500 = Some (VStr "low").
Proof. vm_compute. auto. Qed.
(** A list of ranges, or of negations, is taken for one range or negation. *)
Example lists_of_ranges_fail :
  let test := fun cell => match_cell bounded_eval [] cell (vnum 3) ∅ in
  test "[1..5]" = Ok true /\ test "[1..5], 9" = Ok true /\ is_ok (test "[1..5],[7..9]") = false
  /\ is_ok (test "not(1), not(2)") = false.
Proof. vm_compute. auto. Qed.

Lemma evaluate_returns_witness :
  Validate (two_rules HitUnique "" [] "'low'" "'high'") = None /\
  returns (Evaluate bounded_eval (two_rules HitUnique "" [] "'low'" "'high'") (amount 500)) = true.
Proof. split; [reflexivity|apply evaluate_returns; [exact bounded_total|reflexivity]]. Defined.

Definition graded (s : string) : option vars := Some {["grade" := VStr s]}.
