(* ===== verification/DmnParser.v ===== *)
(** * The parser of decision documents ([src/dmn/parser.go])

    [encoding/xml] decodes a document into the raw shapes of this file (the
    parameter [DmnDecoder]), which the parser turns into decisions. *)
From Stdlib Require Import Ascii.
From S2P Require Import Prelude GoFloat GoUtf8 ExprValue EngineBase Dmn.
Local Open Scope go_scope.
Local Open Scope string_scope.

Record xInput := { xp_label : string; xp_text : string }.
Record xOutput := { xo_name : string; xo_label : string; xo_values : option string }.
Record xRule := { xl_desc : string; xl_inputs : list string; xl_outputs : list string }.
Record xTable := {
  xg_policy : string; xg_agg : string; xg_inputs : list xInput; xg_outputs : list xOutput; xg_rules : list xRule;
}.
Record xDecision := { xd_id : string; xd_name : string; xd_table : option xTable }.
Class DmnDecoder := unmarshal_dmn : string -> string + list xDecision.

Definition orStr (a b : string) : string := if String.eqb a "" then b else a.

Section parser.
Context {U : Unicode} {D : DmnDecoder} {MO : MapOrder}.

Definition make_output (x : xOutput) : Output :=
  {| op_name := orStr (xo_name x) (xo_label x); op_label := xo_label x;
     op_values := match xo_values x with Some t => map trim_space (split_top t ",") | None => [] end |}.
Definition make_rule (x : xRule) : Rule :=
  {| ru_inputs := map trim_space (xl_inputs x); ru_outputs := map trim_space (xl_outputs x);
     ru_desc := trim_space (xl_desc x) |}.
Definition make_decision (x : xDecision) (t : xTable) : Decision :=
  {| de_id := xd_id x; de_name := xd_name x; de_policy := str_upper (orStr (xg_policy t) "UNIQUE");
     de_agg := str_upper (xg_agg t);
     de_inputs := map (fun i => {| ip_label := xp_label i; ip_expr := trim_space (xp_text i) |}) (xg_inputs t);
     de_outputs := map make_output (xg_outputs t); de_rules := map make_rule (xg_rules t) |}.
Fixpoint make_decisions (xs : list xDecision) : res string (list Decision) :=
  match xs with
  | [] => Ok []
  | x :: xs =>
      match xd_table x with
      | None => make_decisions xs
      | Some t =>
          let d := make_decision x t in
          match Validate d with
          | Some err => Err err
          | None => let! ds := make_decisions xs in Ok (d :: ds)
          end
      end
  end.
Definition Parse (data : string) : res string (list Decision) :=
  match unmarshal_dmn data with
  | inl err => Err ("dmn: malformed XML: " ++ err)
  | inr [] => Err "dmn: no decisions in document"
  | inr xs =>
      let! out := make_decisions xs in
      match out with [] => Err "dmn: document contains no decision tables" | _ => Ok out end
  end.

Fixpoint register_all (ds : list Decision) (r : gmap string Decision) : option string * gmap string Decision :=
  match ds with
  | [] => (None, r)
  | d :: ds => match Register d r with (Some err, r) => (Some err, r) | (None, r) => register_all ds r end
  end.
Definition RegisterXML (data : string) (r : gmap string Decision) : res string (list Decision) * gmap string Decision :=
  match Parse data with
  | Ok ds => match register_all ds r with (None, r) => (Ok ds, r) | (Some err, r) => (Err err, r) end
  | e => (e, r)
  end.

(** Every decision of a document that parses is valid, so that registering
    them cannot stop half way. *)
Lemma make_decisions_valid xs ds : make_decisions xs = Ok ds -> Forall (fun d => Validate d = None) ds.
Proof.
  revert ds. induction xs as [|x xs IH]; intros ds; cbn; [intros [= <-]; constructor|].
  destruct (xd_table x) as [t|]; [|by apply IH]. destruct (Validate _) eqn:E; [done|].
  destruct (make_decisions xs) as [l| | |]; try done. cbn. intros [= <-]. constructor; [done|by apply IH].
Qed.
Lemma make_decisions_returns xs : returns (make_decisions xs) = true.
Proof.
  induction xs as [|x xs IH]; cbn; [done|]. destruct (xd_table x); [|done]. destruct (Validate _); [done|].
  by destruct (make_decisions xs).
Qed.
Lemma register_all_valid ds r : Forall (fun d => Validate d = None) ds ->
  register_all ds r = (None, fold_left (fun r d => <[de_id d := d]> r) ds r).
Proof. intros H. revert r. induction H as [|d ds Hd _ IH]; intros r; cbn; [done|]. unfold Register. by rewrite Hd, IH. Qed.

(** A document is registered as a whole or not at all: when it parses,
    each of its decisions is valid and is in the registry under its ID (the
    last one of an ID), and no other entry changes; when it does not, the
    registry is as before. *)
Theorem register_xml_atomic data r :
  match Parse data with
  | Ok ds => ds <> [] /\ Forall (fun d => Validate d = None) ds /\
      RegisterXML data r = (Ok ds, fold_left (fun r d => <[de_id d := d]> r) ds r)
  | Err e => RegisterXML data r = (Err e, r)
  | _ => False
  end.
Proof.
  unfold RegisterXML, Parse. destruct (unmarshal_dmn data) as [|[|x xs]]; [done..|].
  pose proof (make_decisions_returns (x :: xs)) as Hr. destruct (make_decisions (x :: xs)) as [l| | |] eqn:El; try done.
  cbn. destruct l as [|d l]; [done|]. pose proof (make_decisions_valid _ _ El) as Hv.
  rewrite (register_all_valid _ r Hv). by split_and!.
Qed.
End parser.
