(* ===== verification/Forms.v ===== *)
(** * Forms ([src/form/form.go])

    A form is a list of fields; [Validate] checks what a user submits and
    writes the defaults into the submitted map.  A nil map is [None].  The JSON
    decoders are parameters: [Deploy] reads the first value of the document
    strictly, [Get] the whole stored text. *)
From S2P Require Import Prelude GoFloat GoUtf8 GoTime ExprValue ExprLexer ExprDuration ExprFuncs ExprEval StoreTypes StoreQuery StoreMemory EngineBase.
Local Open Scope go_scope.
Local Open Scope string_scope.
Local Open Scope Z_scope.

(** [Field], [Definition] *)
Record Field := {
  fi_id : string; fi_label : string; fi_type : string; fi_required : bool; fi_options : list string;
  fi_min : option f64; fi_max : option f64; fi_pattern : string; fi_default : value;
  fi_visible : string; fi_readonly : bool;
}.
Record Form := { fo_key : string; fo_name : string; fo_fields : list Field }.

(** [json.Decoder.Decode] with unknown fields refused, [json.Unmarshal]. *)
Class FormCodec := { decode_form : string -> string + Form; unmarshal_form : string -> string + Form }.

(** [Registry] *)
Record Registry := { rg_store : Memory; rg_cache : gmap string Form }.
Definition NewRegistry (st : Memory) : Registry := {| rg_store := st; rg_cache := ∅ |}.
Definition BlobKind := "form".

Section forms.
Context {U : Unicode} {R : Regexp}.

(** ** Deployment *)
Definition field_types : list string := ["string"; "text"; "number"; "boolean"; "enum"; "date"].
(** The loop of [Deploy] over the fields: the first problem. *)
Fixpoint bad_field (n : Z) (seen : list string) (fields : list Field) : option string :=
  match fields with
  | [] => None
  | f :: fields =>
      if String.eqb (fi_id f) "" then Some ("form: field " ++ fmt_int n ++ " has no id")
      else if bool_decide (fi_id f ∈ seen) then Some ("form: duplicate field " ++ quote (fi_id f))
      else if String.eqb (fi_type f) "" then Some ("form: field " ++ quote (fi_id f) ++ " has no type")
      else if negb (bool_decide (fi_type f ∈ field_types)) then
        Some ("form: field " ++ quote (fi_id f) ++ " has unknown type " ++ quote (fi_type f))
      else if String.eqb (fi_type f) "enum" && bool_decide (fi_options f = []) then
        Some ("form: enum field " ++ quote (fi_id f) ++ " needs options")
      else match (if String.eqb (fi_pattern f) "" then inr true else regexp_match (fi_pattern f) "") with
           | inl err => Some ("form: field " ++ quote (fi_id f) ++ " pattern: " ++ err)
           | inr _ => bad_field (n + 1) (fi_id f :: seen) fields
           end
  end.

Section codec.
Context {C : FormCodec}.
Definition Deploy (now : Z) (doc : string) (r : Registry) : (string + Form) * Registry :=
  match decode_form doc with
  | inl err => (inl ("form: invalid definition: " ++ err), r)
  | inr def =>
      if String.eqb (fo_key def) "" then (inl "form: definition needs a key", r)
      else match bad_field 0 [] (fo_fields def) with
           | Some err => (inl err, r)
           | None =>
               (inr def, {| rg_store := PutBlob {| bl_kind := BlobKind; bl_key := fo_key def; bl_tenant := "";
                                                    bl_data := doc; bl_updated := now |} (rg_store r);
                            rg_cache := <[fo_key def := def]> (rg_cache r) |})
           end
  end.

(** ** Lookup *)
Inductive get_error := FormNotFound | FormCorrupt (msg : string).
Definition Get (key : string) (r : Registry) : (get_error + Form) * Registry :=
  match rg_cache r !! key with
  | Some d => (inr d, r)
  | None =>
      match GetBlob BlobKind key (rg_store r) with
      | None => (inl FormNotFound, r)
      | Some b =>
          match unmarshal_form (bl_data b) with
          | inl err => (inl (FormCorrupt ("form: stored definition " ++ quote key ++ " is corrupt: " ++ err)), r)
          | inr def => (inr def, {| rg_store := rg_store r; rg_cache := <[key := def]> (rg_cache r) |})
          end
      end
  end.
Definition ListForms (r : Registry) : list Form :=
  omap (fun b => match unmarshal_form (bl_data b) with inr def => Some def | inl _ => None end)
    (ListBlobs BlobKind (rg_store r)).
Definition Delete (key : string) (r : Registry) : Registry :=
  {| rg_store := DeleteBlob BlobKind key (rg_store r); rg_cache := delete key (rg_cache r) |}.
End codec.

(** ** Validation *)

(** [toFloat] of this package: only some of the number types. *)
Definition form_float (v : value) : option f64 :=
  match v with
  | VNum f => Some f
  | VInt KInt z | VInt KInt64 z => Some (f_of_Z z)
  | _ => None
  end.
Definition below (bound : option f64) (x : f64) : bool := match bound with Some b => flt x b | None => false end.
Definition above (bound : option f64) (x : f64) : bool := match bound with Some b => flt b x | None => false end.
Definition fmt_bound (bound : option f64) : string := match bound with Some b => fmt_g b | None => "" end.
Definition mismatches (pattern s : string) : bool :=
  if String.eqb pattern "" then false else match regexp_match pattern s with inr ok => negb ok | inl _ => false end.
Definition is_date (s : string) : bool :=
  bool_decide (is_Some (time_parse LRFC3339 s)) || bool_decide (is_Some (time_parse LDate s)).
(** [checkField] *)
Definition check_field (f : Field) (x : value) : option string :=
  let what := "field " ++ quote (fi_id f) in
  if bool_decide (fi_type f ∈ ["string"; "text"; "date"]) then
    match x with
    | VStr s =>
        let len := f_of_Z (slen s) in
        if below (fi_min f) len then Some (what ++ " shorter than " ++ fmt_bound (fi_min f))
        else if above (fi_max f) len then Some (what ++ " longer than " ++ fmt_bound (fi_max f))
        else if mismatches (fi_pattern f) s then Some (what ++ " does not match " ++ fi_pattern f)
        else if String.eqb (fi_type f) "date" && negb (is_date s) then Some (what ++ " is not a date")
        else None
    | _ => Some (what ++ " must be a string")
    end
  else if String.eqb (fi_type f) "number" then
    match form_float x with
    | None => Some (what ++ " must be a number")
    | Some n =>
        if below (fi_min f) n then Some (what ++ " below minimum " ++ fmt_bound (fi_min f))
        else if above (fi_max f) n then Some (what ++ " above maximum " ++ fmt_bound (fi_max f))
        else None
    end
  else if String.eqb (fi_type f) "boolean" then
    match x with VBool _ => None | _ => Some (what ++ " must be a boolean") end
  else if String.eqb (fi_type f) "enum" then
    let bad := Some (what ++ " must be one of [" ++ sjoin " " (fi_options f) ++ "]") in
    match x with
    | VStr s => if existsb (String.eqb s) (fi_options f) then None else bad
    | _ => bad
    end
  else None.

Section validate.
(** [expr.Eval], which may read the clock at the field with that number. *)
Variable ev : nat -> string -> vars -> res goerr value.

Definition lookup_var (k : string) (v : option vars) : value := match v with Some m => vget m k | None => VNil end.
Definition visible (n : nat) (f : Field) (v : option vars) : res goerr bool :=
  if String.eqb (fi_visible f) "" then Ok true
  else match ev n (fi_visible f) (default ∅ v) with
       | Ok x => Ok (truthy x)
       | Err _ => Ok false
       | Panic w => Panic w
       | OutOfFuel => OutOfFuel
       end.
(** One field: a problem, and the variables with its default. *)
Definition check_one (n : nat) (f : Field) (v : option vars) : res goerr (list string * option vars) :=
  let! shown := visible n f v in
  if negb shown then Ok ([], v)
  else match lookup_var (fi_id f) v with
       | VNil =>
           match fi_default f, v with
           | VNil, _ | _, None => Ok (if fi_required f then ["field " ++ quote (fi_id f) ++ " is required"] else [], v)
           | d, Some m => Ok ([], Some (<[fi_id f := d]> m))
           end
       | x =>
           if fi_readonly f then Ok (["field " ++ quote (fi_id f) ++ " is read-only"], v)
           else match check_field f x with Some p => Ok ([p], v) | None => Ok ([], v) end
       end.
Fixpoint check_fields (n : nat) (fields : list Field) (v : option vars) : res goerr (list string * option vars) :=
  match fields with
  | [] => Ok ([], v)
  | f :: fields =>
      let! (ps, v) := check_one n f v in
      let! (qs, v) := check_fields (S n) fields v in
      Ok ((ps ++ qs)%list, v)
  end.
(** [Validate]: an error, the variables with the defaults, the registry. *)
Context {C : FormCodec}.
Definition Validate (key : string) (v : option vars) (r : Registry) : res goerr (option string * option vars) * Registry :=
  match Get key r with
  | (inl FormNotFound, r) => (Ok (None, v), r)
  | (inl (FormCorrupt msg), r) => (Ok (Some msg, v), r)
  | (inr def, r) =>
      (let! (ps, v) := check_fields 0 (fo_fields def) v in
       Ok (match ps with [] => None | _ => Some ("form: " ++ sjoin "; " ps) end, v), r)
  end.
End validate.
End forms.

(** ** What a form accepts *)
Section acceptance.
Context {U : Unicode} {R : Regexp}.

Definition within_bounds (f : Field) (x : f64) : Prop := below (fi_min f) x = false /\ above (fi_max f) x = false.
(** The values of a field, by its type. *)
Inductive field_ok (f : Field) : value -> Prop :=
| ok_text s : fi_type f ∈ ["string"; "text"; "date"] -> within_bounds f (f_of_Z (slen s)) ->
    mismatches (fi_pattern f) s = false -> (fi_type f = "date" -> is_date s = true) -> field_ok f (VStr s)
| ok_number x n : fi_type f = "number" -> form_float x = Some n -> within_bounds f n -> field_ok f x
| ok_boolean b : fi_type f = "boolean" -> field_ok f (VBool b)
| ok_enum s : fi_type f = "enum" -> s ∈ fi_options f -> field_ok f (VStr s)
| ok_other x : fi_type f ∉ field_types -> field_ok f x.

Lemma options_spec s l : existsb (String.eqb s) l = true <-> s ∈ l.
Proof.
  rewrite existsb_exists. split.
  - intros (y & Hy & ->%String.eqb_eq). by apply list_elem_of_In.
  - intros Hs. exists s. split; [by apply list_elem_of_In|apply String.eqb_refl].
Qed.
Lemma check_text f s : fi_type f ∈ ["string"; "text"; "date"] -> check_field f (VStr s) = None <->
  within_bounds f (f_of_Z (slen s)) /\ mismatches (fi_pattern f) s = false /\ (fi_type f = "date" -> is_date s = true).
Proof.
  intros Ht. unfold check_field, within_bounds. rewrite bool_decide_eq_true_2 by done. cbv zeta.
  destruct (below _ _); [by split; [|intros [[] ?]]|]. destruct (above _ _); [by split; [|intros [[] ?]]|].
  destruct (mismatches _ _); [by split; [|intros (? & ? & ?)]|].
  destruct (String.eqb_spec (fi_type f) "date") as [Hd|Hd]; cbn [andb]; [|by split].
  destruct (is_date s); [by split|split; [done|]]. intros (_ & _ & H). by specialize (H Hd).
Qed.
Lemma check_number f x : fi_type f = "number" -> check_field f x = None <-> exists n, form_float x = Some n /\ within_bounds f n.
Proof.
  intros Ht. unfold check_field, within_bounds. rewrite Ht. cbn. destruct (form_float x) as [n|]; [|by split; [|intros (? & ? & ?)]].
  destruct (below _ _) eqn:Eb; [split; [done|intros (? & [= <-] & ? & ?); congruence]|].
  destruct (above _ _) eqn:Ea; [split; [done|intros (? & [= <-] & ? & ?); congruence]|]. split; [eauto|done].
Qed.
Lemma check_field_spec f x : check_field f x = None <-> field_ok f x.
Proof.
  split.
  - destruct (decide (fi_type f ∈ ["string"; "text"; "date"])) as [Ht|Ht].
    { destruct x; try (unfold check_field; by rewrite bool_decide_eq_true_2). intros (? & ? & ?)%check_text; [by constructor|done]. }
    destruct (decide (fi_type f = "number")) as [Hn|Hn]; [intros (n & ? & ?)%check_number; [by eapply ok_number|done]|].
    unfold check_field. rewrite bool_decide_eq_false_2, (proj2 (String.eqb_neq _ _) Hn) by done.
    destruct (String.eqb_spec (fi_type f) "boolean"); [destruct x; try done; by constructor|].
    destruct (String.eqb_spec (fi_type f) "enum"); [destruct x; try done; case_match eqn:Eo; [|done]|].
    + intros _. apply ok_enum; [done|]. by apply options_spec.
    + intros _. apply ok_other. unfold field_types. set_solver.
  - intros [s Ht ???|y n Ht ??|b Ht|s Ht Hs|y Ht].
    + by apply check_text.
    + apply check_number; eauto.
    + unfold check_field. by rewrite Ht.
    + unfold check_field. rewrite Ht. cbn. by rewrite (proj2 (options_spec _ _) Hs).
    + unfold check_field, field_types in *. rewrite bool_decide_eq_false_2 by set_solver.
      repeat (rewrite (proj2 (String.eqb_neq _ _)) by set_solver). done.
Qed.

Section validation.
Variable ev : nat -> string -> vars -> res goerr value.
Hypothesis Hev : forall n src v, returns (ev n src v) = true.

(** The field is shown to a user who has entered [u]. *)
Definition shown (n : nat) (f : Field) (u : option vars) : Prop :=
  fi_visible f = "" \/ exists x, ev n (fi_visible f) (default ∅ u) = Ok x /\ truthy x = true.
#[local] Instance nil_dec (x : value) : Decision (x = VNil).
Proof. destruct x; [by left|by right..]. Defined.
#[local] Instance shown_dec n f u : Decision (shown n f u).
Proof.
  unfold shown. destruct (decide (fi_visible f = "")) as [|Hn]; [by left; left|].
  destruct (ev n (fi_visible f) (default ∅ u)) as [x| | |]; [|right; intros [|(? & ? & _)]; done..].
  destruct (truthy x) eqn:Ex; [left; right; eauto|right; intros [|(? & [= <-] & ?)]; congruence].
Defined.
(** What was entered is acceptable for the field. *)
Definition accepts (n : nat) (f : Field) (u : option vars) : Prop :=
  shown n f u ->
  match lookup_var (fi_id f) u with
  | VNil => fi_required f = false \/ fi_default f <> VNil /\ u <> None
  | x => fi_readonly f = false /\ field_ok f x
  end.
(** The variables with the defaults of the shown fields that were left out,
    from field [n] on. *)
Definition fill_one (n : nat) (f : Field) (u : option vars) : option vars :=
  if bool_decide (shown n f u /\ lookup_var (fi_id f) u = VNil /\ fi_default f <> VNil)
  then (<[fi_id f := fi_default f]>) <$> u else u.
Fixpoint filled (n : nat) (fields : list Field) (u : option vars) : option vars :=
  match fields with [] => u | f :: fields => filled (S n) fields (fill_one n f u) end.

Lemma visible_shown n f u : visible ev n f u = Ok (bool_decide (shown n f u)).
Proof.
  assert (exists b, visible ev n f u = Ok b /\ (b = true <-> shown n f u)) as (b & -> & Hb).
  { unfold visible, shown. destruct (String.eqb_spec (fi_visible f) "") as [He|Hn]; [exists true; split; [done|split; [by left|done]]|].
    specialize (Hev n (fi_visible f) (default ∅ u)). destruct (ev n (fi_visible f) (default ∅ u)) as [x|e| |]; try done.
    - exists (truthy x). split; [done|]. split; [eauto|]. intros [|(y & [= <-] & ?)]; done.
    - exists false. split; [done|]. split; [done|]. intros [|(y & ? & ?)]; done. }
  f_equal. destruct b; symmetry; [by apply bool_decide_eq_true_2, Hb|].
  apply bool_decide_eq_false_2. by intros Hs%Hb.
Qed.
Lemma check_one_spec n f u : exists ps, check_one ev n f u = Ok (ps, fill_one n f u) /\ (ps = [] <-> accepts n f u).
Proof.
  unfold check_one, fill_one, accepts. rewrite visible_shown. cbn [rbind].
  case_bool_decide as Hs; cbn [negb]; [|rewrite bool_decide_eq_false_2 by tauto; exists []; by split].
  destruct (decide (lookup_var (fi_id f) u = VNil)) as [Hn|Hn].
  - rewrite Hn. destruct (decide (fi_default f = VNil)) as [Hd|Hd].
    + rewrite Hd, bool_decide_eq_false_2 by tauto. eexists. split; [reflexivity|].
      destruct (fi_required f); split; try done; [|by left]. intros H. destruct (H Hs) as [|[]]; done.
    + rewrite bool_decide_eq_true_2 by done. destruct u as [m|]; cbn [fmap option_fmap option_map].
      * exists []. split; [by destruct (fi_default f)|]. split; [|done]. intros _ _. by right.
      * eexists. split; [by destruct (fi_default f)|].
        destruct (fi_required f); split; try done; [|by left]. intros H. destruct (H Hs) as [|[_ ]]; done.
  - rewrite bool_decide_eq_false_2 by tauto.
    assert (forall x, x = lookup_var (fi_id f) u -> x <> VNil ->
      exists ps, (if fi_readonly f then Ok (E := goerr) (["field " ++ quote (fi_id f) ++ " is read-only"], u)
                  else match check_field f x with Some p => Ok ([p], u) | None => Ok ([], u) end) = Ok (ps, u)
        /\ (ps = [] <-> (shown n f u -> fi_readonly f = false /\ field_ok f x))) as Hx.
    { intros x _ _. destruct (fi_readonly f); [eexists; split; [done|]; split; [done|by intros []]|].
      pose proof (check_field_spec f x) as Hc. destruct (check_field f x).
      - eexists. split; [done|]. split; [done|]. intros [_ H]; [done|]. by apply Hc in H.
      - exists []. split; [done|]. split; [|done]. intros _ _. split; [done|by apply Hc]. }
    specialize (Hx _ eq_refl Hn). by destruct (lookup_var (fi_id f) u).
Qed.
Lemma check_fields_spec fields : forall n u, exists ps,
  check_fields ev n fields u = Ok (ps, filled n fields u)
  /\ (ps = [] <-> forall j f, fields !! j = Some f -> accepts (n + j) f (filled n (take j fields) u)).
Proof.
  induction fields as [|f fields IH]; intros n u; cbn [check_fields filled].
  { exists []. split; [done|]. split; [|done]. intros _ j f Hj. by rewrite lookup_nil in Hj. }
  destruct (check_one_spec n f u) as (ps & -> & Hp). cbn [rbind].
  destruct (IH (S n) (fill_one n f u)) as (qs & -> & Hq). cbn [rbind]. eexists. split; [done|].
  rewrite app_nil, Hp, Hq. split.
  - intros [H1 H2] [|j] g Hj; cbn in *; [injection Hj as <-; by rewrite Nat.add_0_r|]. rewrite Nat.add_succ_r. by apply H2.
  - intros H. split; [specialize (H 0%nat f eq_refl); by rewrite Nat.add_0_r in H|].
    intros j g Hj. specialize (H (S j) g Hj). cbn in H. by rewrite Nat.add_succ_r in H.
Qed.

(** Defaults only fill what is missing. *)
Definition filled_in (fields : list Field) (k : string) (u u' : option vars) : Prop :=
  lookup_var k u = VNil /\ exists f, f ∈ fields /\ fi_id f = k /\ lookup_var k u' = fi_default f.
Lemma lookup_fill n f u k : lookup_var k (fill_one n f u) = lookup_var k u \/ filled_in [f] k u (fill_one n f u).
Proof.
  unfold fill_one. case_bool_decide as H; [|by left]. destruct H as (_ & Hn & Hd). destruct u as [m|]; [|by left]. cbn.
  unfold vget. destruct (decide (fi_id f = k)) as [<-|Hne]; [right|left; by rewrite lookup_insert_ne].
  split; [done|]. exists f. cbn. unfold vget. rewrite lookup_insert_eq. split_and!; [by left|done..].
Qed.
Lemma lookup_filled fields k : forall n u,
  lookup_var k (filled n fields u) = lookup_var k u \/ filled_in fields k u (filled n fields u).
Proof.
  induction fields as [|f fields IH]; intros n u; cbn [filled]; [by left|].
  destruct (IH (S n) (fill_one n f u)) as [He|(Hn & g & Hg & Hk & Hl)], (lookup_fill n f u k) as [He'|(Hn' & g' & Hg' & Hk' & Hl')].
  - left. congruence.
  - right. split; [done|]. exists g'. split_and!; [by apply list_elem_of_singleton in Hg' as ->; left|done|congruence].
  - right. split; [congruence|]. exists g. by split_and!; [right|..].
  - right. split; [done|]. exists g. by split_and!; [right|..].
Qed.
End validation.

Lemma validate_returns `{C : FormCodec} (ev : nat -> string -> vars -> res goerr value) key v r :
  (forall n src u, returns (ev n src u) = true) -> returns (Validate ev key v r).1 = true.
Proof.
  intros Hev. unfold Validate. destruct (Get key r) as [[[|]|def] r']; [done..|]. cbn [fst].
  by destruct (check_fields_spec ev Hev (fo_fields def) 0 v) as (ps & -> & _).
Qed.
End acceptance.

(** ** The properties on a concrete form *)
#[local] Existing Instance latin1_only.
#[local] Existing Instance literal_regexp.

Definition plain_field (id type visible : string) (required : bool) (lo : option f64) (d : value) : Field :=
  {| fi_id := id; fi_label := ""; fi_type := type; fi_required := required; fi_options := []; fi_min := lo; fi_max := None;
     fi_pattern := ""; fi_default := d; fi_visible := visible; fi_readonly := false |}.
(** An amount, a reason when the amount is large, and a level that defaults. *)
Definition claim_form : Form :=
  {| fo_key := "claim"; fo_name := "";
     fo_fields := [plain_field "amount" "number" "" true (Some f_one) VNil;
                   plain_field "reason" "text" "amount > 100" true None VNil;
                   plain_field "level" "string" "" true None (VStr "standard")] |}.
(** A codec for the text [claim]; the strict decoder stops after the first
    value, the other refuses what follows it. *)
Definition claim_codec : FormCodec :=
  {| decode_form doc := if has_prefix doc "claim" then inr claim_form else inl "unexpected token";
     unmarshal_form doc := if String.eqb doc "claim" then inr claim_form
                           else inl "invalid character after top-level value" |}.
#[local] Existing Instance claim_codec.
Definition form_eval : nat -> string -> vars -> res goerr value := fun _ src v =>
  match eval_src 0 src v with
  | Ok x => Ok x
  | Err e => Err (EExpr e)
  | _ => Err (EMsg "endless evaluation")
  end.
Definition deployed (doc : string) : Registry := (Deploy 0 doc (NewRegistry new_memory)).2.
Definition submit (r : Registry) (v : option vars) : option (option string) :=
  match (Validate form_eval "claim" v r).1 with Ok (err, _) => Some err | _ => None end.

Example claim_samples :
  submit (deployed "claim") (Some {["amount" := vnum 50]}) = Some None
  /\ submit (deployed "claim") (Some {["amount" := vnum 0]}) = Some (Some ("form: field " ++ quote "amount" ++ " below minimum 1"))
  /\ submit (deployed "claim") (Some {["amount" := vnum 500]}) = Some (Some ("form: field " ++ quote "reason" ++ " is required"))
  /\ submit (NewRegistry new_memory) (Some ∅) = Some None.
Proof. vm_compute. auto. Qed.
(** A submission without a variables map does not get the defaults. *)
Example nil_map_misses_defaults :
  let form := {| fo_key := "level"; fo_name := ""; fo_fields := [plain_field "level" "string" "" true None (VStr "standard")] |} in
  let check := fun v => fst <$> check_fields form_eval 0 (fo_fields form) v in
  check (Some ∅) = Ok [] /\ check None = Ok ["field " ++ quote "level" ++ " is required"].
Proof. vm_compute. auto. Qed.
(** [Deploy] accepts a document with text after its first value and stores it
    whole; after a restart the stored form is corrupt, and every task with the
    form is refused. *)
Example trailing_text_corrupts :
  let r := deployed "claim, and more" in
  is_ok (E := string) (match (Get "claim" r).1 with inr _ => Ok tt | inl _ => Err "" end) = true
  /\ submit r (Some {["amount" := vnum 50]}) = Some None
  /\ submit (NewRegistry (rg_store r)) (Some {["amount" := vnum 50]})
     = Some (Some ("form: stored definition " ++ quote "claim" ++ " is corrupt: invalid character after top-level value")).
Proof. vm_compute. auto. Qed.

