(* ===== verification/RestTypes.v ===== *)
(** * What the REST interface reads and writes
    ([src/rest/query.go], [trace.go], [webhook.go], the request types of the
    handlers)

    Query parameters, the trace context, the bodies of requests and of
    responses, the window of idempotency keys, and the matching of paths that
    [net/http] does for the server.  JSON is the parameter [RestCodec]; random
    numbers and pages that only report on the process are the parameter [Host]. *)
From Stdlib Require Import Ascii.
From S2P Require Import Prelude GoFloat GoUtf8 GoTime GoDuration ExprValue ExprDuration StoreTypes StoreQuery StoreMemory EngineBase EngineMigrate RestAuth Forms.
Local Open Scope go_scope.
Local Open Scope string_scope.
Local Open Scope Z_scope.

(** ** Query parameters *)

(** [r.URL.Query().Get] and all values of a name. *)
Definition query_all (k : string) (r : Request) : list string :=
  omap (fun kv => if String.eqb kv.1 k then Some kv.2 else None) (hr_query r).
Definition query (k : string) (r : Request) : string := default "" (head (query_all k r)).

Definition queryInt (r : Request) (name : string) (def : Z) : Z :=
  let v := query name r in if String.eqb v "" then def else default def (atoi v).
Definition queryBool (r : Request) (name : string) : bool := String.eqb (query name r) "true".
Definition queryTime (r : Request) (name : string) : Z :=
  let v := query name r in if String.eqb v "" then zero_time else default zero_time (time_parse LRFC3339 v).
Definition pageLimit (r : Request) : Z :=
  let n := queryInt r "limit" 100 in
  let n := if n <=? 0 then 100 else n in
  if 1000 <? n then 1000 else n.
Definition tenantOf (r : Request) : string :=
  let t := header "X-Tenant-Id" r in if String.eqb t "" then query "tenantId" r else t.

Definition parseScalar (s : string) : value :=
  if String.eqb s "true" then VBool true
  else if String.eqb s "false" then VBool false
  else if String.eqb s "null" then VNil
  else match parse_float s with Some f => VNum f | None => VStr s end.
Definition parse_var_match (spec : string) : option VarMatch :=
  match cut spec ":" with
  | None => None
  | Some (name, r) =>
      match cut r ":" with
      | None =>
          Some (if String.eqb r "exists" then {| vm_name := name; vm_op := "exists"; vm_value := VNil |}
                else {| vm_name := name; vm_op := "eq"; vm_value := parseScalar r |})
      | Some (op, v) => Some {| vm_name := name; vm_op := op; vm_value := parseScalar v |}
      end
  end.
Definition parseVarMatches (r : Request) : list VarMatch := omap parse_var_match (query_all "var" r).

(** A state that is no state of the program: nothing is in it. *)
Inductive state_query (A : Type) := AnyState | InState (s : A) | NoSuchState.
Arguments AnyState {A}. Arguments InState {A} s. Arguments NoSuchState {A}.
Definition instance_state (s : string) : state_query InstanceState :=
  if String.eqb s "" then AnyState
  else if String.eqb s "active" then InState InstanceActive
  else if String.eqb s "completed" then InState InstanceCompleted
  else if String.eqb s "terminated" then InState InstanceTerminated else NoSuchState.
Definition task_state (s : string) : state_query TaskState :=
  if String.eqb s "" then AnyState
  else if String.eqb s "created" then InState TaskCreated
  else if String.eqb s "completed" then InState TaskCompleted
  else if String.eqb s "canceled" then InState TaskCanceled else NoSuchState.

(** ** The outside world *)

(** [rand.Read] by its call and the number of bytes; pages about the process
    ([/healthz], [/v1/stats], [/metrics], [/openapi.json], [/docs]); the moments
    at which the authenticators of a request read the clock and fetch keys. *)
Class Host := {
  h_random : nat -> nat -> string + string;
  h_page : nat -> string -> string;
  h_moments : nat -> nat -> moment;
  h_equal_fold : string -> string -> bool;
}.

(** *** The trace context *)
Definition is_hex (c : ascii) : bool := is_byte c "0123456789abcdef".
Fixpoint hex_run (n : nat) (s : string) : option string :=
  match n, s with
  | O, _ => Some s
  | S n, String c s => if is_hex c then hex_run n s else None
  | S _, EmptyString => None
  end.
Definition is_traceparent (s : string) : bool :=
  match (r ← strip_prefix "00-" s; r ← hex_run 32 r; r ← strip_prefix "-" r; r ← hex_run 16 r;
         r ← strip_prefix "-" r; hex_run 2 r) with
  | Some EmptyString => true
  | _ => false
  end.
Record traceInfo := { ti_id : string; ti_parent : string }.
Fixpoint hex_encode (s : string) : string :=
  match s with
  | EmptyString => ""
  | String c s => String (hex_digit (byte_val c / 16)) (String (hex_digit (byte_val c mod 16)) (hex_encode s))
  end.

(** ** Request bodies *)
Record startInstanceReq := { sr_key : string; sr_id : string; sr_bkey : string; sr_vars : vars }.
Record taskActionReq := { tr_user : string; tr_vars : option vars }.
Record messageReq := { mq_name : string; mq_ckey : string; mq_vars : vars }.
Record fetchReq := { fr_topic : string; fr_worker : string; fr_max : Z; fr_lock : string }.
Record externalActionReq := { xr_worker : string; xr_vars : vars; xr_message : string; xr_code : string }.
Record completeAgentReq := {
  cr_worker : string; cr_output : option vars; cr_text : string; cr_calls : list AgentToolCall; cr_usage : AgentUsage;
}.
Record failAgentReq := { fa_worker : string; fa_message : string; fa_code : string }.
Record batchReq := { br_ids : list string; br_reason : string }.
Record WebhookChannel := {
  wc_name : string; wc_kind : string; wc_event : string; wc_correlation : string; wc_dedupe : string;
  wc_secret : string; wc_vars : gmap string string; wc_tenant : string;
}.
Definition webhookBlobKind := "webhook".

(** The strict decoder of request bodies, [json.Unmarshal] and [json.Marshal];
    an object that is absent decodes as the empty one, which the engine does not
    tell apart. *)
Class RestCodec := {
  decode_start : string -> string + startInstanceReq;
  decode_vars : string -> string + vars;
  decode_task_action : string -> string + taskActionReq;
  decode_message : string -> string + messageReq;
  decode_fetch : string -> string + fetchReq;
  decode_external : string -> string + externalActionReq;
  decode_plan : string -> string + MigrationPlan;
  decode_batch : string -> string + batchReq;
  decode_fetch_agent : string -> string + fetchReq;
  decode_complete_agent : string -> string + completeAgentReq;
  decode_fail_agent : string -> string + failAgentReq;
  decode_secret : string -> string + string;
  decode_channel : string -> string + WebhookChannel;
  marshal_channel : WebhookChannel -> string;
  unmarshal_channel : string -> string + WebhookChannel;
  unmarshal_payload : string -> string + vars;
}.

(** ** Responses *)
Record DefView := { dv_id : string; dv_key : string; dv_version : Z; dv_name : string; dv_deployed : Z }.
Definition defView (d : ProcDef) : DefView :=
  {| dv_id := pd_id d; dv_key := pd_key d; dv_version := pd_version d; dv_name := pd_name d; dv_deployed := pd_deployed d |}.
Record batchResult := { bt_id : string; bt_ok : bool; bt_error : string }.
Record ProcessStats := {
  ps_key : string; ps_active : Z; ps_completed : Z; ps_terminated : Z; ps_suspended : Z;
  ps_incidents : Z; ps_tasks : Z; ps_avg : f64; ps_p50 : f64; ps_p95 : f64; ps_day : Z;
}.
Record page (A : Type) := { pg_items : list A; pg_count : Z; pg_next : string }.
Arguments pg_items {A} _. Arguments pg_count {A} _. Arguments pg_next {A} _.

(** The value that a handler encodes, or the text it writes. *)
Inductive body :=
| BNone
| BText (s : string)
| BError (msg : string)
| BStatus (s : string)
| BActivated (n : Z) (deduplicated : bool)
| BDefinition (d : DefView)
| BDefinitions (l : list DefView)
| BInstance (i : Instance)
| BInstances (p : page Instance)
| BTask (t : Task)
| BTasks (p : page Task)
| BHistory (l : list HistoryEvent)
| BIncidents (l : list Incident)
| BExternals (l : list ExternalTask)
| BAgentJobs (l : list AgentJob)
| BMigration (r : MigrationReport)
| BBatch (op : string) (succeeded failed : Z) (results : list batchResult)
| BDecisions (ids : list string)
| BForm (f : Form)
| BForms (l : list Form)
| BTaskForm (f : Form) (v : vars)
| BNames (l : list string)
| BValue (v : string)
| BChannel (c : WebhookChannel)
| BChannels (l : list WebhookChannel)
| BStats (l : list ProcessStats)
| BStream (inst type_prefix : string).
Record response := { rp_code : Z; rp_headers : list (string * string); rp_body : body }.

(** [writePage]: a cursor when the page is full. *)
Definition make_page {A} (id : A -> string) (limit : Z) (items : list A) : page A :=
  let n := Z.of_nat (length items) in
  {| pg_items := items; pg_count := n;
     pg_next := if (0 <? limit) && (n =? limit) then match last items with Some x => id x | None => "" end else "" |}.

(** ** The window of idempotency keys *)
Record dedupeCache := { dd_seen : gmap string Z; dd_limit : Z; dd_ttl : Z }.
Definition newDedupeCache : dedupeCache := {| dd_seen := ∅; dd_limit := 8192; dd_ttl := hour |}.
Definition live_at (now ttl : Z) (at_ : Z) : bool := time_sub now at_ <? ttl.
Definition remember (key : string) (now : Z) (d : dedupeCache) : bool * dedupeCache :=
  if match dd_seen d !! key with Some t => live_at now (dd_ttl d) t | None => false end then (true, d)
  else
    let seen := dd_seen d in
    let full m := dd_limit d <=? Z.of_nat (size (m : gmap string Z)) in
    let seen := if full seen then
                  let kept := filter (fun kt => live_at now (dd_ttl d) kt.2 = true) seen in
                  if full kept then ∅ else kept
                else seen in
    (false, {| dd_seen := <[key := now]> seen; dd_limit := dd_limit d; dd_ttl := dd_ttl d |}).

(** ** Paths ([http.ServeMux]; paths without percent-encoded slashes) *)

(** The segments of a path that begins with a slash; no pattern matches
    another one. *)
Definition segments (p : string) : list string :=
  match p with String c r => if Ascii.eqb c "/" then split_at "/" "" r else [] | EmptyString => [] end.
(** A path that [cleanPath] leaves alone. *)
Fixpoint clean_segments (l : list string) : bool :=
  match l with
  | [] => true
  | [s] => negb (String.eqb s "." || String.eqb s "..")
  | s :: l => negb (String.eqb s "" || String.eqb s "." || String.eqb s "..") && clean_segments l
  end.
Definition clean_path (p : string) : bool := has_prefix p "/" && clean_segments (segments p).
(** A wildcard [{x}] of a pattern matches one segment. *)
Definition wildcard (s : string) : option string :=
  if has_prefix s "{" && has_suffix s "}" then Some (sslice 1 (String.length s - 1) s) else None.
Fixpoint match_segments (pat path : list string) : option (list (string * string)) :=
  match pat, path with
  | [], [] => Some []
  | p :: pat, s :: path =>
      match wildcard p with
      | Some x => if String.eqb s "" then None else m ← match_segments pat path; Some ((x, s) :: m)
      | None => if String.eqb p s then match_segments pat path else None
      end
  | _, _ => None
  end.
Definition match_method (pat method : string) : bool :=
  String.eqb pat method || (String.eqb pat "GET" && String.eqb method "HEAD").

(** ** Lemmas on paths *)
Definition has_no (c : ascii) (s : string) : bool := forallb (fun d => negb (Ascii.eqb d c)) (string_to_list s).
Lemma split_join c acc s : sjoin (String c "") (split_at c acc s) = acc ++ s.
Proof.
  revert acc. induction s as [|d s IH]; intros acc; cbn [split_at].
  - cbn. by rewrite string_app_nil_r.
  - destruct (Ascii.eqb_spec d c) as [->|Hd].
    + specialize (IH ""). change ("" ++ s) with s in IH. destruct (split_at c "" s) as [|x l] eqn:E; [by destruct s as [|d s]; cbn in E; [|destruct (Ascii.eqb d c)]|].
      change (acc ++ String c "" ++ sjoin (String c "") (x :: l) = acc ++ String c s). by rewrite IH.
    + rewrite IH. by rewrite <- string_app_assoc.
Qed.
Lemma has_no_app c a b : has_no c (a ++ b) = has_no c a && has_no c b.
Proof. induction a as [|d a IH]; [done|]. unfold has_no in *. cbn. by rewrite IH, andb_assoc. Qed.
Lemma split_has_no c acc s : has_no c acc = true -> Forall (fun x => has_no c x = true) (split_at c acc s).
Proof.
  revert acc. induction s as [|d s IH]; intros acc Ha; cbn [split_at]; [by constructor|].
  destruct (Ascii.eqb d c) eqn:E; [constructor; [done|by apply IH]|]. apply IH. rewrite has_no_app, Ha. unfold has_no. cbn. by rewrite E.
Qed.
Lemma has_no_contains c s : has_no c s = true -> scontains s (String c "") = false.
Proof.
  unfold scontains. intros H. assert (sindex s (String c "") = None) as ->; [|done].
  induction s as [|d s IH]; [done|]. unfold has_no in H. cbn in H. apply andb_prop in H as [H1 H2].
  cbn [sindex]. unfold has_prefix. cbn [strip_prefix]. apply negb_true_iff in H1.
  rewrite Ascii.eqb_sym, H1. by rewrite IH.
Qed.
Lemma segments_path p l : segments p = l -> l <> [] -> p = "/" ++ sjoin "/" l /\ Forall (fun x => has_no "/" x = true) l.
Proof.
  destruct p as [|c p]; [by intros <-|]. cbn. destruct (Ascii.eqb_spec c "/") as [->|]; [|by intros <-].
  intros <- _. rewrite split_join. split; [done|]. by apply split_has_no.
Qed.
(** A pattern without wildcards matches itself alone. *)
Lemma match_literal pat l m :
  forallb (fun x => negb (bool_decide (is_Some (wildcard x)))) pat = true -> match_segments pat l = Some m -> l = pat.
Proof.
  revert l m. induction pat as [|x pat IH]; intros [|y l] m; cbn; try done. intros [Hx Hp]%andb_prop.
  destruct (wildcard x); [done|]. destruct (String.eqb_spec x y) as [->|]; [|done]. intros H. f_equal. by eapply IH.
Qed.
Lemma split_none c acc s : has_no c s = true -> split_at c acc s = [acc ++ s].
Proof.
  revert acc. induction s as [|d s IH]; intros acc H; cbn [split_at]; [by rewrite string_app_nil_r|].
  unfold has_no in H. cbn in H. apply andb_prop in H as [Hd Hs]. apply negb_true_iff in Hd. rewrite Hd, IH by done.
  by rewrite <- string_app_assoc.
Qed.
(** Two patterns that match one path overlap: segment by segment they are
    equal or one of them is a wildcard. *)
Fixpoint overlap (a b : list string) : bool :=
  match a, b with
  | [], [] => true
  | x :: a, y :: b =>
      (String.eqb x y || bool_decide (is_Some (wildcard x)) || bool_decide (is_Some (wildcard y))) && overlap a b
  | _, _ => false
  end.
Lemma match_overlap a b l m m' : match_segments a l = Some m -> match_segments b l = Some m' -> overlap a b = true.
Proof.
  revert b l m m'. induction a as [|x a IH]; intros [|y b] [|z l] m m'; cbn; try done.
  destruct (wildcard x) as [wx|]; destruct (wildcard y) as [wy|]; cbn; rewrite ?orb_true_r; cbn.
  - destruct (String.eqb z ""); [done|]. destruct (match_segments a l) eqn:Ea, (match_segments b l) eqn:Eb; try done. intros _ _. by eapply IH.
  - destruct (String.eqb z ""); [done|]. destruct (String.eqb y z); [|done].
    destruct (match_segments a l) eqn:Ea; [|done]. intros _ Hb. by eapply IH.
  - destruct (String.eqb x z); [|done]. destruct (String.eqb z ""); [done|].
    destruct (match_segments b l) eqn:Eb; [|done]. intros Ha _. by eapply IH.
  - destruct (String.eqb_spec x z) as [->|]; [|done]. destruct (String.eqb_spec y z) as [->|]; [|done].
    rewrite String.eqb_refl. cbn. apply IH.
Qed.
