(* ===== verification/Rest.v ===== *)
(** * The REST server ([src/rest/server.go], [handlers.go], [ops.go], [agent.go],
    [formapi.go], [vaultapi.go], [webhook.go], [analytics.go])

    [Server] holds the engine's world and what the options configure.  A
    handler is a function in the monad [H]: it changes the server and ends in a
    response, either at its end or by an early return ([Err]).  The table
    [routes] names the handler and the least role of each pattern; [serve_http]
    puts the trace context, CORS, authentication, the tenant header and the
    recovery of panics around it.  Logging is left out. *)
From Stdlib Require Import Ascii.
From S2P Require Import Prelude GoFloat GoUtf8 GoTime GoDuration ExprValue ExprLexer ExprDuration ExprFuncs ExprEval StoreTypes StoreQuery StoreMemory Vault BpmnModel EngineBase EngineFlow EngineActivity EngineApi EngineMigrate Dmn DmnParser Forms RestAuth RestTypes.
Local Open Scope go_scope.
Local Open Scope string_scope.
Local Open Scope Z_scope.

Record Server := {
  sv_world : world; sv_decisions : option (gmap string Decision); sv_vault : option Vault.Vault;
  sv_forms : option (gmap string Form); sv_auth : list authenticator; sv_cors : option CORSConfig;
  sv_dedupe : dedupeCache;
}.
Definition set_sv_world (v : world) (s : Server) : Server :=
  {| sv_world := v; sv_decisions := sv_decisions s; sv_vault := sv_vault s; sv_forms := sv_forms s;
     sv_auth := sv_auth s; sv_cors := sv_cors s; sv_dedupe := sv_dedupe s |}.
Definition set_sv_decisions (v : option (gmap string Decision)) (s : Server) : Server :=
  {| sv_world := sv_world s; sv_decisions := v; sv_vault := sv_vault s; sv_forms := sv_forms s;
     sv_auth := sv_auth s; sv_cors := sv_cors s; sv_dedupe := sv_dedupe s |}.
Definition set_sv_vault (v : option Vault.Vault) (s : Server) : Server :=
  {| sv_world := sv_world s; sv_decisions := sv_decisions s; sv_vault := v; sv_forms := sv_forms s;
     sv_auth := sv_auth s; sv_cors := sv_cors s; sv_dedupe := sv_dedupe s |}.
Definition set_sv_forms (v : option (gmap string Form)) (s : Server) : Server :=
  {| sv_world := sv_world s; sv_decisions := sv_decisions s; sv_vault := sv_vault s; sv_forms := v;
     sv_auth := sv_auth s; sv_cors := sv_cors s; sv_dedupe := sv_dedupe s |}.
Definition set_sv_auth (v : list authenticator) (s : Server) : Server :=
  {| sv_world := sv_world s; sv_decisions := sv_decisions s; sv_vault := sv_vault s; sv_forms := sv_forms s;
     sv_auth := v; sv_cors := sv_cors s; sv_dedupe := sv_dedupe s |}.
Definition set_sv_cors (v : option CORSConfig) (s : Server) : Server :=
  {| sv_world := sv_world s; sv_decisions := sv_decisions s; sv_vault := sv_vault s; sv_forms := sv_forms s;
     sv_auth := sv_auth s; sv_cors := v; sv_dedupe := sv_dedupe s |}.
Definition set_sv_dedupe (v : dedupeCache) (s : Server) : Server :=
  {| sv_world := sv_world s; sv_decisions := sv_decisions s; sv_vault := sv_vault s; sv_forms := sv_forms s;
     sv_auth := sv_auth s; sv_cors := sv_cors s; sv_dedupe := v |}.

(** [New] and its options. *)
Definition Option_ := Server -> Server.
Definition WithAPIKey (key : string) : Option_ := fun s => set_sv_auth (sv_auth s ++ [APIKeyAuth key RoleAdmin])%list s.
Definition WithSigningKey (key : string) : Option_ := fun s => set_sv_auth (sv_auth s ++ [SignedToken key])%list s.
Definition WithAuth (a : authenticator) : Option_ := fun s => set_sv_auth (sv_auth s ++ [a])%list s.
Definition WithCORS (c : CORSConfig) : Option_ := set_sv_cors (Some c).
Definition WithDecisions (r : gmap string Decision) : Option_ := set_sv_decisions (Some r).
Definition WithVault (v : Vault.Vault) : Option_ := set_sv_vault (Some v).
Definition WithForms (cache : gmap string Form) : Option_ := set_sv_forms (Some cache).
Definition New (e : world) (opts : list Option_) : Server :=
  fold_left (fun s o => o s) opts
    {| sv_world := e; sv_decisions := None; sv_vault := None; sv_forms := None; sv_auth := []; sv_cors := None;
       sv_dedupe := newDedupeCache |}.
Definition authRequired (s : Server) : bool := match sv_auth s with [] => false | _ => true end.

(** ** Handlers *)
Definition H (A : Type) : Type := Server -> res response A * Server.
#[export] Instance H_ret : MRet H := fun A a s => (Ok a, s).
#[export] Instance H_bind : MBind H := fun A B f m s =>
  match m s with
  | (Ok a, s') => f a s'
  | (Err e, s') => (Err e, s')
  | (Panic w, s') => (Panic w, s')
  | (OutOfFuel, s') => (OutOfFuel, s')
  end.
Definition server {A} (f : Server -> A) : H A := fun s => (Ok (f s), s).
Definition change (f : Server -> Server) : H unit := fun s => (Ok tt, f s).

(** [Server.json], [Server.error] *)
Definition json (code : Z) (b : body) : response :=
  {| rp_code := code; rp_headers := [("Content-Type", "application/json")]; rp_body := b |}.
Definition text (type s : string) : response :=
  {| rp_code := 200; rp_headers := [("Content-Type", type)]; rp_body := BText s |}.
Definition answer (code : Z) (b : body) : H response := mret (json code b).
Definition refuse {A} (code : Z) (msg : string) : H A := fun s => (Err (json code (BError msg)), s).
(** A check with an early return. *)
Definition check (ok : bool) (code : Z) (msg : string) : H unit := if ok then mret tt else refuse code msg.

(** What the server knows of a request when a handler runs. *)
Record rq := { q_req : Request; q_trace : traceInfo; q_principal : option Principal; q_path : list (string * string) }.
Definition with_path (m : list (string * string)) (q : rq) : rq :=
  {| q_req := q_req q; q_trace := q_trace q; q_principal := q_principal q; q_path := m |}.
(** [r.PathValue], [r.URL.Query().Get] *)
Definition path_value (k : string) (q : rq) : string :=
  match find (fun kv => String.eqb kv.1 k) (q_path q) with Some kv => kv.2 | None => "" end.
Definition qget (k : string) (q : rq) : string := query k (q_req q).

Section rest.
Context {U : Unicode} {R : Regexp} {MO : MapOrder} {E : Engine} {A : AuthCodec} {AE : Aead} {FC : FormCodec}
  {DD : DmnDecoder} {RC : RestCodec} {HO : Host} (depth : nat).

(** [Server.fail] *)
Definition contains_one (l : list string) (s : string) : bool := existsb (scontains s) l.
Definition fail_code (not_found : bool) (msg : string) : Z :=
  if not_found then 404
  else if contains_one ["bpmn:"; "dmn:"; "expr:"; "form:"] msg then 422
  else if contains_one ["is completed"; "is terminated"; "already"; "locked by"; "no longer active"] msg then 409
  else 400.
Definition fail_text {T} (msg : string) : H T := refuse (fail_code false msg) msg.
Definition fail_err {T} (e : goerr) : H T := refuse (fail_code (is_not_found e) (error_text e)) (error_text e).

(** A call of the engine: its error goes to [fail]. *)
Definition on_world {T} (m : EM T) : Server -> res goerr T * Server := fun s =>
  let '(r, w) := m (sv_world s) in (r, set_sv_world w s).
Definition eng {T} (m : EM T) : H T := fun s =>
  match on_world m s with
  | (Ok a, s) => (Ok a, s)
  | (Err e, s) => fail_err e s
  | (Panic w, s) => (Panic w, s)
  | (OutOfFuel, s) => (OutOfFuel, s)
  end.
(** The clock, which counts as a call. *)
Definition wall : EM Z := n ← tick; mret (e_wall n).

(** [decodeJSON] and [io.ReadAll(io.LimitReader(...))]. *)
Definition max_json : Z := 2 ^ 23.
Definition max_form : Z := 2 ^ 20.
Definition read_all (limit : Z) (q : rq) : string :=
  let b := hr_body (q_req q) in if limit <? slen b then stake (Z.to_nat limit) b else b.
Definition decodeJSON {T} (decode : string -> string + T) (q : rq) : H T :=
  match decode (read_all max_json q) with
  | inl err => refuse 400 ("invalid JSON body: " ++ err)
  | inr x => mret x
  end.
Definition handler := rq -> H response.

(** *** Pages about the process *)
Definition page_text (name : string) : H string := n ← eng tick; mret (h_page n name).
Definition handleHealth : handler := fun _ => t ← page_text "health"; answer 200 (BText t).
Definition handleStats : handler := fun _ => t ← page_text "stats"; answer 200 (BText t).
Definition handleMetrics : handler := fun _ => t ← page_text "metrics"; mret (text "text/plain; version=0.0.4" t).
Definition handleOpenAPI : handler := fun _ => t ← page_text "openapi"; answer 200 (BText t).
Definition handleDocs : handler := fun _ => t ← page_text "docs"; mret (text "text/html; charset=utf-8" t).

(** *** Definitions *)
Definition handleDeploy : handler := fun q =>
  let xml := read_all max_json q in
  check (negb (String.eqb xml "")) 400 "request body must be BPMN XML" ;;
  def ← eng (deploy_tenant (tenantOf (q_req q)) xml (qget "name" q));
  answer 201 (BDefinition (defView def)).
Definition handleListDefinitions : handler := fun q =>
  defs ← eng (store_get (ListDefinitions (negb (String.eqb (qget "latest" q) "false"))));
  answer 200 (BDefinitions (map defView defs)).
Definition get_definition (q : rq) : H ProcDef :=
  eng (d ← store_get (GetDefinition (path_value "id" q)); or_not_found d).
Definition handleGetDefinition : handler := fun q =>
  def ← get_definition q; answer 200 (BDefinition (defView def)).
Definition handleGetDefinitionXML : handler := fun q =>
  def ← get_definition q; mret (text "application/xml" (pd_xml def)).

(** *** Instances *)

(** The trace context rides in the variables of a new instance. *)
Definition traced (q : rq) (v : vars) : vars :=
  let tp := ti_parent (q_trace q) in
  if String.eqb tp "" then v
  else match v !! traceparentVar with Some _ => v | None => <[traceparentVar := VStr tp]> v end.
Definition handleStartInstance : handler := fun q =>
  req ← decodeJSON decode_start q;
  let v := traced q (sr_vars req) in
  inst ← (if negb (String.eqb (sr_id req) "") then eng (start_instance_by_definition depth (sr_id req) (sr_bkey req) v)
          else if negb (String.eqb (sr_key req) "") then
            eng (start_instance_tenant depth (tenantOf (q_req q)) (sr_key req) (sr_bkey req) v)
          else refuse 400 "definitionKey or definitionId required");
  answer 201 (BInstance inst).
Definition instance_filter (q : rq) (st : option InstanceState) : InstanceFilter :=
  let r := q_req q in
  {| if_tenant := tenantOf r; if_def_key := qget "definitionKey" q; if_def_id := qget "definitionId" q;
     if_bkey := qget "businessKey" q; if_state := st; if_parent := qget "parentId" q; if_vars := parseVarMatches r;
     if_started_after := queryTime r "startedAfter"; if_started_before := queryTime r "startedBefore";
     if_ended_after := queryTime r "endedAfter"; if_ended_before := queryTime r "endedBefore";
     if_cursor := qget "cursor" q; if_desc := queryBool r "desc"; if_limit := pageLimit r |}.
Definition handleListInstances : handler := fun q =>
  insts ← match instance_state (qget "state" q) with
          | NoSuchState => mret []
          | InState st => eng (store_get (ListInstances (instance_filter q (Some st))))
          | AnyState => eng (store_get (ListInstances (instance_filter q None)))
          end;
  answer 200 (BInstances (make_page in_id (pageLimit (q_req q)) insts)).
Definition get_instance (id : string) : EM Instance := i ← store_get (GetInstance id); or_not_found i.
Definition handleGetInstance : handler := fun q =>
  inst ← eng (get_instance (path_value "id" q)); answer 200 (BInstance inst).
(** A call without a result. *)
Definition done (status : string) (m : EM unit) : H response := eng m ;; answer 200 (BStatus status).
Definition handleCancelInstance : handler := fun q =>
  let reason := qget "reason" q in
  done "terminated" (cancel_instance depth (path_value "id" q) (if String.eqb reason "" then "cancelled via API" else reason)).
Definition handleSetVariables : handler := fun q =>
  v ← decodeJSON decode_vars q; done "ok" (set_variables depth (path_value "id" q) v).
Definition handleHistory : handler := fun q =>
  let r := q_req q in
  evs ← eng (store_get (ListHistory (path_value "id" q)
               {| hf_type := qget "type" q; hf_after := queryInt r "afterSeq" 0; hf_limit := queryInt r "limit" 1000 |}));
  answer 200 (BHistory evs).
Definition handleInstanceIncidents : handler := fun q =>
  incs ← eng (store_get (ListIncidents {| nf_inst := path_value "id" q; nf_resolved := None; nf_limit := 0 |}));
  answer 200 (BIncidents incs).
Definition handleSuspendInstance : handler := fun q => done "suspended" (suspend_instance (path_value "id" q)).
Definition handleResumeInstance : handler := fun q => done "resumed" (resume_instance depth (path_value "id" q)).
Definition handleMigrateInstance : handler := fun q =>
  plan ← decodeJSON decode_plan q;
  report ← eng (migrate_instance (path_value "id" q) plan);
  answer (if negb (mr_applied report) && negb (mp_dry plan) then 422 else 200) (BMigration report).

(** *** Batches *)
Definition batch_op (op reason : string) : option (string -> EM unit) :=
  if String.eqb op "cancel" then
    Some (fun id => cancel_instance depth id (if String.eqb reason "" then "batch cancel" else reason))
  else if String.eqb op "suspend" then Some suspend_instance
  else if String.eqb op "resume" then Some (resume_instance depth)
  else if String.eqb op "resolve-incidents" then Some (resolve_incident depth)
  else None.
Fixpoint run_batch (apply : string -> EM unit) (ids : list string) : EM (list batchResult) :=
  match ids with
  | [] => mret []
  | id :: ids =>
      r ← attempt (apply id);
      rest ← run_batch apply ids;
      mret (match r with
            | inl err => {| bt_id := id; bt_ok := false; bt_error := error_text err |}
            | inr _ => {| bt_id := id; bt_ok := true; bt_error := "" |}
            end :: rest)
  end.
Definition count (p : batchResult -> bool) (l : list batchResult) : Z := Z.of_nat (length (keep p l)).
Definition handleBatch : handler := fun q =>
  let op := path_value "op" q in
  req ← decodeJSON decode_batch q;
  check (negb (Z.of_nat (length (br_ids req)) =? 0)) 400 "ids required" ;;
  check (Z.of_nat (length (br_ids req)) <=? 1000) 400 "batch limited to 1000 ids" ;;
  match batch_op op (br_reason req) with
  | None => refuse 400 ("unknown batch op: " ++ op)
  | Some apply =>
      results ← eng (run_batch apply (br_ids req));
      answer 200 (BBatch op (count bt_ok results) (count (fun r => negb (bt_ok r)) results) results)
  end.

(** *** Tasks *)
Definition task_filter (q : rq) (st : option TaskState) : TaskFilter :=
  let r := q_req q in
  {| tf_tenant := tenantOf r; tf_inst := qget "instanceId" q; tf_assignee := qget "assignee" q;
     tf_unassigned := queryBool r "unassigned"; tf_user := qget "candidateUser" q; tf_group := qget "candidateGroup" q;
     tf_state := st; tf_def_key := qget "definitionKey" q; tf_element := qget "elementId" q; tf_vars := parseVarMatches r;
     tf_created_after := queryTime r "createdAfter"; tf_created_before := queryTime r "createdBefore";
     tf_due_before := queryTime r "dueBefore"; tf_cursor := qget "cursor" q; tf_desc := queryBool r "desc";
     tf_limit := pageLimit r |}.
Definition handleListTasks : handler := fun q =>
  tasks ← match task_state (qget "state" q) with
          | NoSuchState => mret []
          | InState st => eng (store_get (ListTasks (task_filter q (Some st))))
          | AnyState => eng (store_get (ListTasks (task_filter q (Some TaskCreated))))
          end;
  answer 200 (BTasks (make_page ta_id (pageLimit (q_req q)) tasks)).
Definition get_task (id : string) : EM Task := t ← store_get (GetTask id); or_not_found t.
Definition handleGetTask : handler := fun q =>
  t ← eng (get_task (path_value "id" q)); answer 200 (BTask t).
Definition handleClaimTask : handler := fun q =>
  req ← decodeJSON decode_task_action q; done "claimed" (claim_task depth (path_value "id" q) (tr_user req)).
Definition handleCompleteTask : handler := fun q =>
  req ← decodeJSON decode_task_action q;
  done "completed" (complete_task depth (path_value "id" q) (tr_vars req) (tr_user req)).

(** *** Messages and signals *)
Definition handleMessage : handler := fun q =>
  req ← decodeJSON decode_message q;
  check (negb (String.eqb (mq_name req) "")) 400 "name required" ;;
  n ← eng (correlate_message depth (mq_name req) (mq_ckey req) (mq_vars req));
  answer 200 (BActivated n false).
Definition handleSignal : handler := fun q =>
  req ← decodeJSON decode_message q;
  check (negb (String.eqb (mq_name req) "")) 400 "name required" ;;
  n ← eng (broadcast_signal depth (mq_name req) (mq_vars req));
  answer 200 (BActivated n false).

(** *** External workers and agents *)
Definition lock_duration (prefix s : string) : H Z :=
  if String.eqb s "" then mret (5 * minute)
  else match parse_duration s with
       | Ok d => mret d
       | Err msg => refuse 400 (prefix ++ msg)
       | Panic w => fun s => (Panic w, s)
       | OutOfFuel => fun s => (OutOfFuel, s)
       end.
Definition handleFetchExternal : handler := fun q =>
  req ← decodeJSON decode_fetch q;
  check (negb (String.eqb (fr_topic req) "" || String.eqb (fr_worker req) "")) 400 "topic and workerId required" ;;
  lock ← lock_duration "bad lockDuration: " (fr_lock req);
  tasks ← eng (fetch_external_tasks (fr_topic req) (fr_worker req) lock (if fr_max req <=? 0 then 10 else fr_max req));
  answer 200 (BExternals tasks).
Definition handleCompleteExternal : handler := fun q =>
  req ← decodeJSON decode_external q;
  done "completed" (complete_external_task depth (path_value "id" q) (xr_worker req) (xr_vars req)).
Definition handleFailExternal : handler := fun q =>
  req ← decodeJSON decode_external q;
  done "failed" (fail_external_task depth (path_value "id" q) (xr_worker req) (xr_message req) (xr_code req)).
Definition handleFetchAgentJobs : handler := fun q =>
  req ← decodeJSON decode_fetch_agent q;
  check (negb (String.eqb (fr_topic req) "" || String.eqb (fr_worker req) "")) 400 "topic and workerId required" ;;
  lock ← lock_duration "" (fr_lock req);
  jobs ← eng (fetch_agent_jobs (fr_topic req) (fr_worker req) lock (if fr_max req <=? 0 then 5 else fr_max req));
  answer 200 (BAgentJobs jobs).
Definition handleCompleteAgentJob : handler := fun q =>
  req ← decodeJSON decode_complete_agent q;
  done "completed" (complete_agent_job depth (path_value "id" q) (cr_worker req) (cr_output req) (cr_text req) (cr_calls req) (cr_usage req)).
Definition handleFailAgentJob : handler := fun q =>
  req ← decodeJSON decode_fail_agent q;
  done "failed" (fail_agent_job depth (path_value "id" q) (fa_worker req) (fa_message req) (fa_code req)).
Definition handleListAgentJobs : handler := fun q =>
  jobs ← eng (store_get (ListAgentJobs (qget "instanceId" q))); answer 200 (BAgentJobs jobs).

(** *** Incidents *)
Definition handleListIncidents : handler := fun q =>
  let v := qget "resolved" q in
  incs ← eng (store_get (ListIncidents
           {| nf_inst := ""; nf_resolved := if String.eqb v "" then None else Some (String.eqb v "true");
              nf_limit := queryInt (q_req q) "limit" 200 |}));
  answer 200 (BIncidents incs).
Definition handleResolveIncident : handler := fun q => done "resolved" (resolve_incident depth (path_value "id" q)).

(** *** Decisions *)
Definition handleDeployDecision : handler := fun q =>
  reg ← server sv_decisions;
  match reg with
  | None => refuse 501 "decision registry not configured"
  | Some reg =>
      let xml := read_all max_json q in
      check (negb (String.eqb xml "")) 400 "request body must be DMN XML" ;;
      let '(r, reg) := RegisterXML xml reg in
      change (set_sv_decisions (Some reg)) ;;
      match r with
      | Ok ds => answer 201 (BDecisions (map de_id ds))
      | Err msg => fail_text msg
      | Panic w => fun s => (Panic w, s)
      | OutOfFuel => fun s => (OutOfFuel, s)
      end
  end.
Definition handleListDecisions : handler := fun q =>
  reg ← server sv_decisions;
  match reg with
  | None => answer 200 (BNames [])
  | Some reg => n ← eng tick; answer 200 (BNames (Dmn.List n reg))
  end.

(** *** Forms: the registry shares the engine's store *)
Definition on_forms {T} (f : Forms.Registry -> T * Forms.Registry) : H T := fun s =>
  let '(x, r) := f {| rg_store := w_store (sv_world s); rg_cache := default ∅ (sv_forms s) |} in
  (Ok x, set_sv_forms (Some (rg_cache r)) (set_sv_world (set_w_store (rg_store r) (sv_world s)) s)).
Definition handleDeployForm : handler := fun q =>
  now ← eng wall;
  r ← on_forms (Forms.Deploy now (read_all max_form q));
  match r with inl err => refuse 422 err | inr def => answer 201 (BForm def) end.
Definition handleListForms : handler := fun q =>
  defs ← on_forms (fun r => (ListForms r, r)); answer 200 (BForms defs).
Definition get_form (key : string) : H Form :=
  r ← on_forms (Forms.Get key);
  match r with
  | inr def => mret def
  | inl FormNotFound => refuse 404 "form: not found"
  | inl (FormCorrupt msg) => fail_text msg
  end.
Definition handleGetForm : handler := fun q => def ← get_form (path_value "key" q); answer 200 (BForm def).
Definition no_content : H response := answer 204 BNone.
Definition handleDeleteForm : handler := fun q => on_forms (fun r => (tt, Forms.Delete (path_value "key" q) r)) ;; no_content.
Definition handleTaskForm : handler := fun q =>
  t ← eng (get_task (path_value "id" q));
  check (negb (String.eqb (ta_form t) "")) 404 "task has no form" ;;
  def ← get_form (ta_form t);
  inst ← eng (store_get (GetInstance (ta_inst t)));
  answer 200 (BTaskForm def (match inst with Some i => in_vars i | None => ∅ end)).

(** *** Secrets *)
Definition handleListSecrets : handler := fun q =>
  names ← eng (store_get Vault.List); answer 200 (BNames names).
Definition handlePutSecret (v : Vault.Vault) : handler := fun q =>
  secret ← decodeJSON decode_secret q;
  n ← eng tick;
  now ← eng wall;
  r ← eng (store_call (Vault.Set_ v (path_value "name" q) secret (h_random n nonce_size) now));
  match r with Ok _ => no_content | Err e => fail_text (vault_error_text e) | Panic w => (fun s => (Panic w, s)) | OutOfFuel => (fun s => (OutOfFuel, s)) end.
Definition handleGetSecretValue (v : Vault.Vault) : handler := fun q =>
  r ← eng (store_get (Vault.Get v (path_value "name" q)));
  match r with
  | Ok val => answer 200 (BValue val)
  | Err SecretNotFound => refuse 404 (vault_error_text SecretNotFound)
  | Err e => fail_text (vault_error_text e)
  | Panic w => fun s => (Panic w, s)
  | OutOfFuel => fun s => (OutOfFuel, s)
  end.
Definition handleDeleteSecret : handler := fun q => eng (store_put (Vault.Delete (path_value "name" q))) ;; no_content.

(** *** Webhooks *)
Definition handlePutWebhook : handler := fun q =>
  ch ← decodeJSON decode_channel q;
  check (negb (String.eqb (wc_event ch) "")) 422 "webhook channel needs an event name" ;;
  let kind := if String.eqb (wc_kind ch) "" then "message" else wc_kind ch in
  check (String.eqb kind "message" || String.eqb kind "signal") 422 ("unknown webhook kind " ++ quote kind) ;;
  let ch := {| wc_name := path_value "name" q; wc_kind := kind; wc_event := wc_event ch; wc_correlation := wc_correlation ch;
               wc_dedupe := wc_dedupe ch; wc_secret := wc_secret ch; wc_vars := wc_vars ch; wc_tenant := wc_tenant ch |} in
  now ← eng wall;
  eng (store_put (PutBlob {| bl_kind := webhookBlobKind; bl_key := wc_name ch; bl_tenant := "";
                             bl_data := marshal_channel ch; bl_updated := now |})) ;;
  answer 200 (BChannel ch).
Definition without_secret (c : WebhookChannel) : WebhookChannel :=
  {| wc_name := wc_name c; wc_kind := wc_kind c; wc_event := wc_event c; wc_correlation := wc_correlation c;
     wc_dedupe := wc_dedupe c; wc_secret := ""; wc_vars := wc_vars c; wc_tenant := wc_tenant c |}.
Definition handleListWebhooks : handler := fun q =>
  blobs ← eng (store_get (ListBlobs webhookBlobKind));
  answer 200 (BChannels (omap (fun b => match unmarshal_channel (bl_data b) with
                                        | inr c => Some (without_secret c) | inl _ => None end) blobs)).
Definition handleDeleteWebhook : handler := fun q =>
  eng (store_put (DeleteBlob webhookBlobKind (path_value "name" q))) ;; no_content.

(** The idempotency key: the header beats the expression, whose errors do
    not count. *)
Definition dedupe_key (ch : WebhookChannel) (payload : vars) (q : rq) : H string :=
  let h := header "X-Idempotency-Key" (q_req q) in
  if String.eqb h "" && negb (String.eqb (wc_dedupe ch) "") then
    r ← eng (attempt (expr_eval (wc_dedupe ch) payload));
    mret match r with inr v => stringify v | inl _ => h end
  else mret h.
Definition seen_before (key : string) : H bool :=
  now ← eng wall;
  d ← server sv_dedupe;
  let '(seen, d) := remember key now d in
  change (set_sv_dedupe d) ;; mret seen.
(** An expression over the payload, whose error is the answer. *)
Definition eval_payload (what src : string) (payload : vars) : H value :=
  r ← eng (attempt (expr_eval src payload));
  match r with inr v => mret v | inl err => refuse 422 (what ++ ": " ++ error_text err) end.
Fixpoint eval_vars (l : list (string * string)) (payload acc : vars) : H vars :=
  match l with
  | [] => mret acc
  | (name, src) :: l => v ← eval_payload ("vars." ++ name) src payload; eval_vars l payload (<[name := v]> acc)
  end.
(** What an event that is not a repetition does. *)
Definition deliver_event (ch : WebhookChannel) (payload : vars) : H response :=
  correlation ← (if String.eqb (wc_correlation ch) "" then mret ""
                 else v ← eval_payload "correlation expression" (wc_correlation ch) payload; mret (stringify v));
  v ← (if bool_decide (wc_vars ch = ∅) then mret {["payload" := VMap payload]}
       else n ← eng tick; eval_vars (map_range n (wc_vars ch)) payload ∅);
  n ← eng (if String.eqb (wc_kind ch) "signal" then broadcast_signal depth (wc_event ch) v
           else correlate_message depth (wc_event ch) correlation v);
  answer 200 (BActivated n false).
Definition receive_event (ch : WebhookChannel) (payload : vars) (q : rq) : H response :=
  key ← dedupe_key ch payload q;
  seen ← (if String.eqb key "" then mret false else seen_before (wc_name ch ++ nul ++ key));
  if (seen : bool) then answer 200 (BActivated 0 true) else deliver_event ch payload.
Definition handleWebhookEvent : handler := fun q =>
  b ← eng (store_get (GetBlob webhookBlobKind (path_value "name" q)));
  match b with
  | None => refuse 404 "unknown webhook channel"
  | Some b =>
      match unmarshal_channel (bl_data b) with
      | inl _ => refuse 500 "corrupt channel config"
      | inr ch =>
          check (String.eqb (wc_secret ch) "" || String.eqb (header "X-Webhook-Secret" (q_req q)) (wc_secret ch)) 401 "bad webhook secret" ;;
          let raw := read_all max_json q in
          match (if String.eqb raw "" then inr ∅ else unmarshal_payload raw) with
          | inl err => refuse 400 ("webhook payload must be a JSON object: " ++ err)
          | inr payload => receive_event ch payload q
          end
      end
  end.

(** *** Analytics *)
Definition new_stats (key : string) : ProcessStats :=
  {| ps_key := key; ps_active := 0; ps_completed := 0; ps_terminated := 0; ps_suspended := 0; ps_incidents := 0;
     ps_tasks := 0; ps_avg := f_zero; ps_p50 := f_zero; ps_p95 := f_zero; ps_day := 0 |}.
Definition one (b : bool) : Z := if b then 1 else 0.
(** One instance in the first loop. *)
Definition count_instance (day_ago : Z) (i : Instance) (st : ProcessStats) : ProcessStats :=
  let st_is s := bool_decide (in_state i = s) in
  {| ps_key := ps_key st; ps_active := ps_active st + one (st_is InstanceActive);
     ps_completed := ps_completed st + one (st_is InstanceCompleted); ps_terminated := ps_terminated st + one (st_is InstanceTerminated);
     ps_suspended := ps_suspended st + one (st_is InstanceActive && in_suspended i); ps_incidents := ps_incidents st;
     ps_tasks := ps_tasks st; ps_avg := ps_avg st; ps_p50 := ps_p50 st; ps_p95 := ps_p95 st;
     ps_day := ps_day st + one (st_is InstanceCompleted && (day_ago <? in_ended i)) |}.
Definition add_incident (st : ProcessStats) : ProcessStats :=
  {| ps_key := ps_key st; ps_active := ps_active st; ps_completed := ps_completed st; ps_terminated := ps_terminated st;
     ps_suspended := ps_suspended st; ps_incidents := ps_incidents st + 1; ps_tasks := ps_tasks st; ps_avg := ps_avg st;
     ps_p50 := ps_p50 st; ps_p95 := ps_p95 st; ps_day := ps_day st |}.
Definition add_task (st : ProcessStats) : ProcessStats :=
  {| ps_key := ps_key st; ps_active := ps_active st; ps_completed := ps_completed st; ps_terminated := ps_terminated st;
     ps_suspended := ps_suspended st; ps_incidents := ps_incidents st; ps_tasks := ps_tasks st + 1; ps_avg := ps_avg st;
     ps_p50 := ps_p50 st; ps_p95 := ps_p95 st; ps_day := ps_day st |}.
Abbreviation stats_map := (gmap string ProcessStats).
Definition count_instances (day_ago : Z) (insts : list Instance) : stats_map :=
  fold_left (fun (m : stats_map) i => <[in_def_key i := count_instance day_ago i (default (new_stats (in_def_key i)) (m !! in_def_key i))]> m) insts ∅.
(** The process of each instance. *)
Definition inst_keys (insts : list Instance) : gmap string string :=
  fold_left (fun (m : gmap string string) i => <[in_id i := in_def_key i]> m) insts ∅.
(** The durations of the completed instances of a process, in order. *)
Definition millis (i : Instance) : Z := Z.quot (time_sub (in_ended i) (in_started i)) 1000000.
Definition durations (key : string) (insts : list Instance) : list f64 :=
  map (fun i => f_of_Z (millis i))
    (keep (fun i => String.eqb (in_def_key i) key && bool_decide (in_state i = InstanceCompleted)) insts).
#[export] Instance fle_dec : RelDecision (fun a b => fle a b = true).
Proof. intros a b. solve_decision. Defined.
Definition f_half : f64 := fdiv f_one (f_of_Z 2).
Definition percentile (sorted : list f64) (p : f64) : f64 :=
  let len := Z.of_nat (length sorted) in
  if len =? 0 then f_zero
  else
    let idx := f_to_int64 (fadd (fmul p (f_of_Z len)) f_half) - 1 in
    let idx := if idx <? 0 then 0 else idx in
    let idx := if len <=? idx then len - 1 else idx in
    nth (Z.to_nat idx) sorted f_zero.
Definition f_95 : f64 := default f_zero (parse_float "0.95").
Definition with_times (ds : list f64) (st : ProcessStats) : ProcessStats :=
  match ds with
  | [] => st
  | _ =>
      let ds := merge_sort (fun a b => fle a b = true) ds in
      let sum := fold_left fadd ds f_zero in
      {| ps_key := ps_key st; ps_active := ps_active st; ps_completed := ps_completed st; ps_terminated := ps_terminated st;
         ps_suspended := ps_suspended st; ps_incidents := ps_incidents st; ps_tasks := ps_tasks st;
         ps_avg := fdiv sum (f_of_Z (Z.of_nat (length ds))); ps_p50 := percentile ds f_half; ps_p95 := percentile ds f_95;
         ps_day := ps_day st |}
  end.
#[export] Instance stats_le_dec : RelDecision (fun a b : ProcessStats => str_le (ps_key a) (ps_key b) = true).
Proof. intros a b. solve_decision. Defined.
Definition process_stats (day_ago : Z) (insts : list Instance) (incs : list Incident) (tasks : list Task) : list ProcessStats :=
  let m := count_instances day_ago insts in
  let keys := inst_keys insts in
  let m := fold_left (fun (m : stats_map) inc => match keys !! ic_inst inc with Some k => alter add_incident k m | None => m end) incs m in
  let m := fold_left (fun (m : stats_map) t => alter add_task (ta_def_key t) m) tasks m in
  merge_sort (fun a b => str_le (ps_key a) (ps_key b) = true)
    (map (fun kx => with_times (durations kx.1 insts) kx.2) (map_to_list m)).
Definition all_instances (tenant : string) : InstanceFilter :=
  {| if_tenant := tenant; if_def_key := ""; if_def_id := ""; if_bkey := ""; if_state := None; if_parent := ""; if_vars := [];
     if_started_after := zero_time; if_started_before := zero_time; if_ended_after := zero_time; if_ended_before := zero_time;
     if_cursor := ""; if_desc := false; if_limit := 0 |}.
Definition open_tasks (tenant : string) : TaskFilter :=
  {| tf_tenant := tenant; tf_inst := ""; tf_assignee := ""; tf_unassigned := false; tf_user := ""; tf_group := "";
     tf_state := Some TaskCreated; tf_def_key := ""; tf_element := ""; tf_vars := []; tf_created_after := zero_time;
     tf_created_before := zero_time; tf_due_before := zero_time; tf_cursor := ""; tf_desc := false; tf_limit := 0 |}.
Definition handleProcessAnalytics : handler := fun q =>
  let tenant := tenantOf (q_req q) in
  insts ← eng (store_get (ListInstances (all_instances tenant)));
  now ← eng wall;
  incs ← eng (store_get (ListIncidents {| nf_inst := ""; nf_resolved := Some false; nf_limit := 0 |}));
  tasks ← eng (store_get (ListTasks (open_tasks tenant)));
  answer 200 (BStats (process_stats (now - 24 * hour) insts incs tasks)).

(** *** Live events: the subscribers, their queues and filters *)
Record subscriber := { ss_inst : string; ss_type : string; ss_queue : list HistoryEvent }.
Definition stream_capacity : Z := 256.
(** [fanout]: a client whose queue is full misses the event. *)
Definition fanout (ev : HistoryEvent) (subs : list subscriber) : list subscriber :=
  map (fun s => if Z.of_nat (length (ss_queue s)) <? stream_capacity
                then {| ss_inst := ss_inst s; ss_type := ss_type s; ss_queue := (ss_queue s ++ [ev])%list |} else s) subs.
Definition wanted (inst type : string) (ev : HistoryEvent) : bool :=
  (String.eqb inst "" || String.eqb (hv_inst ev) inst) && (String.eqb type "" || has_prefix (hv_type ev) type).
(** One round of the loop of [handleSSE]: what is written for the next event. *)
Definition stream_next (s : subscriber) : option (option HistoryEvent * subscriber) :=
  match ss_queue s with
  | [] => None
  | ev :: rest =>
      Some (if wanted (ss_inst s) (ss_type s) ev then Some ev else None,
            {| ss_inst := ss_inst s; ss_type := ss_type s; ss_queue := rest |})
  end.
Definition handleSSE : handler := fun q =>
  mret {| rp_code := 200;
          rp_headers := [("Content-Type", "text/event-stream"); ("Cache-Control", "no-cache"); ("Connection", "keep-alive")];
          rp_body := BStream (qget "instanceId" q) (qget "type" q) |}.

(** ** Routes *)

(** [guard] *)
Definition guard (min : string) (h : handler) : handler := fun q =>
  required ← server authRequired;
  if negb required then h q
  else match q_principal q with
       | None => refuse 401 "authentication required"
       | Some p => if has p min then h q else refuse 403 ("role " ++ quote min ++ " required")
       end.
Record route := { ro_method : string; ro_pattern : string; ro_role : option string; ro_handler : handler }.
Definition open_route (method pattern : string) (h : handler) : route :=
  {| ro_method := method; ro_pattern := pattern; ro_role := None; ro_handler := h |}.
Definition guarded (method pattern min : string) (h : handler) : route :=
  {| ro_method := method; ro_pattern := pattern; ro_role := Some min; ro_handler := guard min h |}.

Definition agent_routes : list route :=
  [guarded "POST" "/v1/agent-jobs/fetch" RoleOperator handleFetchAgentJobs;
   guarded "POST" "/v1/agent-jobs/{id}/complete" RoleOperator handleCompleteAgentJob;
   guarded "POST" "/v1/agent-jobs/{id}/fail" RoleOperator handleFailAgentJob;
   guarded "GET" "/v1/agent-jobs" RoleViewer handleListAgentJobs].
Definition vault_routes (v : option Vault.Vault) : list route :=
  match v with
  | None => []
  | Some v =>
      [guarded "GET" "/v1/secrets" RoleAdmin handleListSecrets;
       guarded "PUT" "/v1/secrets/{name}" RoleAdmin (handlePutSecret v);
       guarded "GET" "/v1/secrets/{name}/value" RoleAdmin (handleGetSecretValue v);
       guarded "DELETE" "/v1/secrets/{name}" RoleAdmin handleDeleteSecret]
  end.
Definition form_routes (configured : bool) : list route :=
  if negb configured then []
  else
    [guarded "POST" "/v1/forms" RoleAdmin handleDeployForm;
     guarded "GET" "/v1/forms" RoleViewer handleListForms;
     guarded "GET" "/v1/forms/{key}" RoleViewer handleGetForm;
     guarded "DELETE" "/v1/forms/{key}" RoleAdmin handleDeleteForm;
     guarded "GET" "/v1/tasks/{id}/form" RoleViewer handleTaskForm].
Definition webhook_routes : list route :=
  [guarded "PUT" "/v1/webhooks/{name}" RoleAdmin handlePutWebhook;
   guarded "GET" "/v1/webhooks" RoleViewer handleListWebhooks;
   guarded "DELETE" "/v1/webhooks/{name}" RoleAdmin handleDeleteWebhook;
   open_route "POST" "/v1/webhooks/{name}" handleWebhookEvent].
Definition core_routes : list route :=
  [open_route "GET" "/healthz" handleHealth;
   open_route "GET" "/openapi.json" handleOpenAPI;
   open_route "GET" "/docs" handleDocs;
   guarded "GET" "/metrics" RoleViewer handleMetrics;
   guarded "GET" "/v1/stats" RoleViewer handleStats;
   guarded "POST" "/v1/definitions" RoleAdmin handleDeploy;
   guarded "GET" "/v1/definitions" RoleViewer handleListDefinitions;
   guarded "GET" "/v1/definitions/{id}" RoleViewer handleGetDefinition;
   guarded "GET" "/v1/definitions/{id}/xml" RoleViewer handleGetDefinitionXML;
   guarded "POST" "/v1/instances" RoleOperator handleStartInstance;
   guarded "GET" "/v1/instances" RoleViewer handleListInstances;
   guarded "GET" "/v1/instances/{id}" RoleViewer handleGetInstance;
   guarded "DELETE" "/v1/instances/{id}" RoleOperator handleCancelInstance;
   guarded "PUT" "/v1/instances/{id}/variables" RoleOperator handleSetVariables;
   guarded "POST" "/v1/instances/{id}/suspend" RoleOperator handleSuspendInstance;
   guarded "POST" "/v1/instances/{id}/resume" RoleOperator handleResumeInstance;
   guarded "POST" "/v1/instances/{id}/migrate" RoleAdmin handleMigrateInstance;
   guarded "GET" "/v1/instances/{id}/history" RoleViewer handleHistory;
   guarded "GET" "/v1/instances/{id}/incidents" RoleViewer handleInstanceIncidents;
   guarded "GET" "/v1/tasks" RoleViewer handleListTasks;
   guarded "GET" "/v1/tasks/{id}" RoleViewer handleGetTask;
   guarded "POST" "/v1/tasks/{id}/claim" RoleOperator handleClaimTask;
   guarded "POST" "/v1/tasks/{id}/complete" RoleOperator handleCompleteTask;
   guarded "POST" "/v1/messages" RoleOperator handleMessage;
   guarded "POST" "/v1/signals" RoleOperator handleSignal;
   guarded "POST" "/v1/external-tasks/fetch" RoleOperator handleFetchExternal;
   guarded "POST" "/v1/external-tasks/{id}/complete" RoleOperator handleCompleteExternal;
   guarded "POST" "/v1/external-tasks/{id}/fail" RoleOperator handleFailExternal;
   guarded "GET" "/v1/incidents" RoleViewer handleListIncidents;
   guarded "POST" "/v1/incidents/{id}/resolve" RoleOperator handleResolveIncident;
   guarded "POST" "/v1/batch/{op}" RoleOperator handleBatch;
   guarded "GET" "/v1/events" RoleViewer handleSSE;
   guarded "POST" "/v1/decisions" RoleAdmin handleDeployDecision;
   guarded "GET" "/v1/decisions" RoleViewer handleListDecisions].
Definition routes (s : Server) : list route :=
  (core_routes ++ agent_routes ++ vault_routes (sv_vault s)
   ++ form_routes (bool_decide (is_Some (sv_forms s))) ++ webhook_routes
   ++ [guarded "GET" "/v1/analytics/processes" RoleViewer handleProcessAnalytics])%list.

(** [http.ServeMux]: the route of a request, and the answers without one. *)
Definition route_match (method path : string) (r : route) : option (list (string * string)) :=
  if match_method (ro_method r) method then match_segments (segments (ro_pattern r)) (segments path) else None.
Fixpoint find_route (method path : string) (l : list route) : option (route * list (string * string)) :=
  match l with
  | [] => None
  | r :: l => match route_match method path r with Some m => Some (r, m) | None => find_route method path l end
  end.
Definition methods_of (path : string) (l : list route) : list string :=
  let ms := omap (fun r => match match_segments (segments (ro_pattern r)) (segments path) with
                           | Some _ => Some (ro_method r) | None => None end) l in
  sort_strings (remove_dups (if bool_decide ("GET" ∈ ms) then "HEAD" :: ms else ms)).
Definition plain (code : Z) (headers : list (string * string)) (s : string) : response :=
  {| rp_code := code; rp_headers := headers; rp_body := BText s |}.
Definition serve_mux (q : rq) : H response :=
  table ← server routes;
  let method := hr_method (q_req q) in
  let path := hr_path (q_req q) in
  if negb (String.eqb method "CONNECT") && negb (clean_path path) then mret (plain 301 [] "Moved Permanently")
  else match find_route method path table with
       | Some (r, m) => ro_handler r (with_path m q)
       | None =>
           match methods_of path table with
           | [] => mret (plain 404 [] "404 page not found")
           | ms => mret (plain 405 [("Allow", sjoin ", " ms)] "Method Not Allowed")
           end
       end.

(** ** [ServeHTTP] *)
Definition publicPath (p : string) : bool := String.eqb p "/healthz" || String.eqb p "/openapi.json" || String.eqb p "/docs".
Definition publicRequest (r : Request) : bool :=
  publicPath (hr_path r)
  || String.eqb (hr_method r) "POST"
     && match strip_prefix "/v1/webhooks/" (hr_path r) with
        | Some name => negb (String.eqb name "") && negb (scontains name "/")
        | None => false
        end.

Definition randHex (n : nat) : H string :=
  k ← eng tick;
  mret (hex_encode match h_random k n with inr b => b | inl _ => list_to_string (repeat zero n) end).
Definition ensureTrace (r : Request) : H traceInfo :=
  let tp := header "Traceparent" r in
  if is_traceparent tp then mret {| ti_id := sslice 3 35 tp; ti_parent := tp |}
  else
    id ← randHex 16;
    span ← randHex 8;
    mret {| ti_id := id; ti_parent := "00-" ++ id ++ "-" ++ span ++ "-01" |}.

Definition resolve_principal (r : Request) : H (res string (option Principal)) :=
  n ← eng tick;
  auth ← server sv_auth;
  let '(p, auth) := chain_auth auth r (h_moments n) in
  change (set_sv_auth auth) ;; mret p.
(** The request with the principal's tenant, and the principal. *)
Definition confine (r : Request) (p : Principal) : Request :=
  if String.eqb (pr_tenant p) "" then r else set_header "X-Tenant-Id" (pr_tenant p) r.
Definition authenticated (r : Request) : H (Request * option Principal) :=
  required ← server authRequired;
  if negb required || publicRequest r then mret (r, None)
  else
    p ← resolve_principal r;
    match p with
    | Err msg => refuse 401 msg
    | Ok None => refuse 401 "authentication required"
    | Ok (Some p) => mret (confine r p, Some p)
    | Panic w => fun s => (Panic w, s)
    | OutOfFuel => fun s => (OutOfFuel, s)
    end.
Definition handle_request (tr : traceInfo) (r : Request) : H response :=
  '(r, p) ← authenticated r;
  serve_mux {| q_req := r; q_trace := tr; q_principal := p; q_path := [] |}.

(** The deferred recovery: a panic becomes an answer. *)
Definition recovered (m : H response) : H response := fun s =>
  match m s with
  | (Panic _, s) => (Ok (json 500 (BError "internal error")), s)
  | (Err r, s) => (Ok r, s)
  | x => x
  end.
Definition with_headers (hs : list (string * string)) (r : response) : response :=
  {| rp_code := rp_code r; rp_headers := (hs ++ rp_headers r)%list; rp_body := rp_body r |}.
Definition serve_http (r : Request) : H response :=
  tr ← ensureTrace r;
  cors ← server sv_cors;
  let '(hs, preflight) := match cors with Some c => apply_cors h_equal_fold c r | None => ([], false) end in
  let hs := ("X-Trace-Id", ti_id tr) :: hs in
  if (preflight : bool) then mret (with_headers hs {| rp_code := 204; rp_headers := []; rp_body := BNone |})
  else res ← recovered (handle_request tr r); mret (with_headers hs res).
(** Requests one after the other. *)
Definition serve_all (rs : list Request) (s : Server) : Server := fold_left (fun s r => (serve_http r s).2) rs s.
End rest.
