(* ===== verification/EngineJobs.v ===== *)
(** * Identifiers, jobs and reports from outside

    The order of the IDs the engine draws; what becomes of a claimed job; and
    which reports of workers and users are accepted. *)
From S2P Require Import Prelude GoFloat GoUtf8 GoTime ExprValue ExprLexer ExprFuncs ExprEval StoreTypes StoreQuery StoreMemory BpmnModel EngineBase EngineCancel EngineFlow EngineErrors EngineActivity EngineRun EngineApi EngineSched EngineSamples EngineLocal EngineCleanup.
Local Open Scope string_scope.
Local Open Scope Z_scope.

(** ** The order of IDs *)
Definition then_compare (c d : comparison) : comparison := match c with Eq => d | c => c end.
Lemma hex_digit_compare x y : 0 <= x < 16 -> 0 <= y < 16 -> Ascii.compare (hex_digit x) (hex_digit y) = (x ?= y).
Proof.
  intros Hx Hy.
  assert (forallb (fun x => forallb (fun y => bool_decide (Ascii.compare (hex_digit x) (hex_digit y) = (x ?= y)))
    (map Z.of_nat (seq 0 16))) (map Z.of_nat (seq 0 16)) = true) as H by (vm_compute; reflexivity).
  rewrite forallb_forall in H. specialize (H x). rewrite forallb_forall in H.
  assert (forall z, 0 <= z < 16 -> In z (map Z.of_nat (seq 0 16))) as Hin.
  { intros z Hz. apply in_map_iff. exists (Z.to_nat z). split; [lia|]. apply in_seq. lia. }
  eapply bool_decide_eq_true, H; by apply Hin.
Qed.
Lemma hex_pad_compare n : forall z z' a b, 0 <= z < 16 ^ Z.of_nat n -> 0 <= z' < 16 ^ Z.of_nat n ->
  String.compare (hex_pad n z a) (hex_pad n z' b) = then_compare (z ?= z') (String.compare a b).
Proof.
  induction n as [|n IH]; intros z z' a b Hz Hz'.
  - cbn in Hz, Hz'. assert (z = 0) as -> by lia. assert (z' = 0) as -> by lia. done.
  - cbn [hex_pad]. rewrite Nat2Z.inj_succ, Z.pow_succ_r in Hz, Hz' by lia.
    rewrite IH by (split; [apply Z.div_pos; lia|apply Z.div_lt_upper_bound; lia]).
    cbn [String.compare]. rewrite hex_digit_compare by (apply Z.mod_pos_bound; lia).
    pose proof (Z.div_mod z 16 ltac:(lia)) as E. pose proof (Z.div_mod z' 16 ltac:(lia)) as E'.
    pose proof (Z.mod_pos_bound z 16 ltac:(lia)). pose proof (Z.mod_pos_bound z' 16 ltac:(lia)).
    destruct (Z.compare_spec (z / 16) (z' / 16)); cbn;
      destruct (Z.compare_spec (z mod 16) (z' mod 16)); destruct (Z.compare_spec z z'); cbn; try done; lia.
Qed.
Lemma hex_pad_app n : forall z a r, hex_pad n z a ++ r = hex_pad n z (a ++ r).
Proof. induction n as [|n IH]; intros z a r; cbn [hex_pad]; [done|]. by rewrite IH. Qed.
Lemma hex_min_small n z : (0 < n)%nat -> 0 <= z < 16 ^ Z.of_nat n -> hex_min n z = hex_pad n z "".
Proof.
  intros Hn Hz. unfold hex_min. destruct (Z.ltb_spec z 0); [lia|]. f_equal. apply Nat.max_l.
  unfold hex_len. destruct (Z.eqb_spec z 0); [lia|].
  assert (Z.log2 z < 4 * Z.of_nat n) as Hl.
  { apply Z.log2_lt_pow2; [lia|]. change 16 with (2 ^ 4) in Hz. rewrite <- Z.pow_mul_r in Hz by lia. lia. }
  assert (Z.log2 z / 4 < Z.of_nat n) by (apply Z.div_lt_upper_bound; lia).
  pose proof (Z.log2_nonneg z). pose proof (Z.div_pos (Z.log2 z) 4 ltac:(lia) ltac:(lia)). lia.
Qed.
Lemma hex_min_long n k z : (n <= S k)%nat -> 16 ^ Z.of_nat k <= z < 16 ^ Z.of_nat (S k) -> hex_min n z = hex_pad (S k) z "".
Proof.
  intros Hn Hz. pose proof (Z.pow_pos_nonneg 16 (Z.of_nat k) ltac:(lia) ltac:(lia)).
  unfold hex_min. destruct (Z.ltb_spec z 0); [lia|]. f_equal.
  unfold hex_len. destruct (Z.eqb_spec z 0); [lia|].
  change 16 with (2 ^ 4) in Hz. rewrite <- !Z.pow_mul_r in Hz by lia.
  assert (Z.log2 z / 4 = Z.of_nat k) as ->.
  { destruct Hz as [H1 H2]. apply Z.log2_le_pow2 in H1; [|lia]. apply Z.log2_lt_pow2 in H2; [|lia].
    symmetry. apply (Z.div_unique _ 4 _ (Z.log2 z - 4 * Z.of_nat k)); lia. }
  rewrite Nat2Z.id. lia.
Qed.
Lemma compare_app p a b : String.compare (p ++ a) (p ++ b) = String.compare a b.
Proof. induction p as [|c p IH]; cbn; [done|]. unfold Ascii.compare. by rewrite N.compare_refl. Qed.

(** The IDs the engine draws sort in the order in which it draws them: by
    the microsecond of the clock, then by the counter, while the clock has 13
    hexadecimal digits (from 1978 to 2112) and the counter at most 8; two
    draws never give the same ID, not even when the clock stands still. *)
Theorem ids_ordered prefix t t' q q' s :
  16 ^ 12 <= t / 1000 < 16 ^ 13 -> 16 ^ 12 <= t' / 1000 < 16 ^ 13 -> 0 <= q < 2 ^ 32 -> 0 <= q' < 2 ^ 32 ->
  String.compare (mk_id prefix t q s) (mk_id prefix t' q' s) = then_compare (t / 1000 ?= t' / 1000) (q ?= q')
  /\ (mk_id prefix t q s = mk_id prefix t' q' s -> q = q').
Proof.
  intros Ht Ht' Hq Hq'.
  assert (String.compare (mk_id prefix t q s) (mk_id prefix t' q' s) = then_compare (t / 1000 ?= t' / 1000) (q ?= q')) as Hc.
  { unfold mk_id. rewrite !compare_app. rewrite !(hex_min_long 11 12) by (done || lia).
    rewrite !(hex_min_small 8) by (done || lia). rewrite !hex_pad_app. cbn [String.append]. rewrite hex_pad_compare by (cbn; lia).
    rewrite hex_pad_compare by (cbn; lia). rewrite str_compare_refl.
    destruct (t / 1000 ?= t' / 1000); cbn; [|done|done]. by destruct (q ?= q'). }
  split; [done|]. intros Heq. rewrite Heq, str_compare_refl in Hc.
  destruct (t / 1000 ?= t' / 1000); cbn in Hc; try done. symmetry in Hc. by apply Z.compare_eq in Hc.
Qed.
Lemma ids_ordered_witness :
  String.compare (mk_id "inst" 1700000000000000000 7 "ab") (mk_id "inst" 1700000000000000999 8 "ab") = Lt.
Proof.
  destruct (ids_ordered "inst" 1700000000000000000 1700000000000000999 7 8 "ab") as [H _];
    [vm_compute; split; [discriminate|reflexivity]..|]. rewrite H. reflexivity.
Defined.

(** ** Repeating timers *)

(** The due times of a job and of the jobs that repeat it. *)
Fixpoint firings (fuel : nat) (j : Job) : list Z :=
  match fuel with
  | O => []
  | S fuel => jb_due j :: (if repeats_again j then firings fuel (next_job j (jb_id j)) else [])
  end.
(** A cycle of [n] repetitions fires exactly [n] times, at the first due
    time and then at multiples of the interval; a cycle without a limit never
    stops; without an interval a timer fires once. *)
Theorem cycle_firings j fuel :
  let at_multiples k := map (fun i => jb_due j + Z.of_nat i * jb_interval j) (seq 0 k) in
  (0 < jb_interval j -> jb_repeats j = -1 -> firings fuel j = at_multiples fuel)
  /\ (0 < jb_interval j -> 1 <= jb_repeats j <= Z.of_nat fuel -> firings fuel j = at_multiples (Z.to_nat (jb_repeats j)))
  /\ (jb_interval j <= 0 -> (0 < fuel)%nat -> firings fuel j = at_multiples 1%nat).
Proof.
  assert (forall (k : nat) (d i : Z), map (fun n => d + Z.of_nat n * i) (seq 0 (S k)) = d :: map (fun n => (d + i) + Z.of_nat n * i) (seq 0 k)) as Hs.
  { intros k d i. cbn [seq map]. f_equal; [lia|]. rewrite <- seq_shift, map_map. apply map_ext. intros n. lia. }
  cbv zeta. split_and!.
  - revert j. induction fuel as [|fuel IH]; intros j Hi Hr; [done|]. cbn [firings].
    assert (repeats_again j = true) as -> by (unfold repeats_again; rewrite Hr, (proj2 (Z.ltb_lt 0 _) Hi); done).
    rewrite Hs. f_equal. rewrite IH; [done|done|]. cbn. by rewrite Hr.
  - revert j. induction fuel as [|fuel IH]; intros j Hi Hr; [lia|]. cbn [firings].
    assert (repeats_again j = (1 <? jb_repeats j)) as ->.
    { unfold repeats_again. by rewrite (proj2 (Z.ltb_lt 0 _) Hi), (proj2 (Z.eqb_neq (jb_repeats j) (-1))), orb_false_r by lia. }
    destruct (Z.ltb_spec 1 (jb_repeats j)).
    + replace (Z.to_nat (jb_repeats j)) with (S (Z.to_nat (jb_repeats j - 1))) by lia. rewrite Hs. f_equal.
      assert (jb_repeats (next_job j (jb_id j)) = jb_repeats j - 1) as Er
        by (cbn; by rewrite (proj2 (Z.ltb_lt 0 (jb_repeats j))) by lia).
      rewrite IH; [by rewrite Er|done|rewrite Er; lia].
    + assert (jb_repeats j = 1) as -> by lia. change (Z.to_nat 1) with 1%nat. cbn [seq map]. f_equal. lia.
  - intros Hi Hf. destruct fuel as [|fuel]; [lia|]. cbn [firings seq map]. unfold repeats_again.
    rewrite (proj2 (Z.ltb_ge 0 _) Hi). cbn [andb]. f_equal. lia.
Qed.
Definition cycle_job : Job :=
  {| jb_id := "job_1"; jb_tenant := ""; jb_kind := JobTimer; jb_inst := "inst_1"; jb_def_key := ""; jb_token := "tok_1";
     jb_element := "timer"; jb_due := 0; jb_repeats := 3; jb_interval := second; jb_retries := 3; jb_created := 0 |}.
Lemma cycle_firings_witness : firings 10 cycle_job = [0; second; 2 * second].
Proof. rewrite (proj1 (proj2 (cycle_firings cycle_job 10))); [reflexivity|reflexivity|split; discriminate]. Defined.

(** ** Reports from outside *)

(** The call fails and changes no record. *)
Definition rejected {A} (m : EM A) (w : world) : Prop :=
  is_ok (m w).1 = false /\ w_store (m w).2 = w_store w.
(** A token of the running instance still waits for the record. *)
Definition still_waits (st : TokenState) (ref tok inst : string) (m : Memory) : bool :=
  match GetInstance inst m with
  | Some i => bool_decide (in_state i = InstanceActive) && waiting_on st ref (in_tokens i !! tok)
  | None => false
  end.

Section reports.
Context {U : Unicode} {R : Regexp} {MO : MapOrder} {E : Engine} (depth : nat).

Lemma definition_keeps id w : w_store (definition id w).2 = w_store w.
Proof.
  unfold definition, store_get, gets, modify, mbind, ST_bind, or_not_found, or_nil. cbn.
  repeat (case_step; cbn); done.
Qed.
Lemma rejected_fail {A} e w : rejected (A := A) (fail e) w.
Proof. done. Qed.
Lemma rejected_bind {A B} (m : EM A) (f : A -> EM B) w :
  w_store (m w).2 = w_store w -> (forall a w', (m w) = (Ok a, w') -> rejected (f a) w') -> rejected (m ≫= f) w.
Proof.
  intros Hw Hf. unfold rejected, mbind, ST_bind in *. destruct (m w) as [[a|e|p|] w'] eqn:Em; try done.
  destruct (Hf a w' eq_refl) as [H1 H2]. split; [done|]. by rewrite H2.
Qed.
Lemma rejected_found {A B} (o : option A) (f : A -> EM B) w :
  (forall a, o = Some a -> rejected (f a) w) -> rejected (or_not_found o ≫= f) w.
Proof. intros Hf. apply rejected_bind; [by destruct o|]. intros a w' H. destruct o; [|done]. injection H as <- <-. by apply Hf. Qed.
Lemma rejected_get {A B} (f : Memory -> A) (k : A -> EM B) w :
  rejected (k (f (w_store w))) w -> rejected (store_get f ≫= k) w.
Proof. done. Qed.

(** The change fails on the instance as it is stored, without a write. *)
Lemma resume_rejected id (mutate : forall PD : ParsedDef, M bool) w :
  (forall i PD s, GetInstance id (w_store w) = Some i -> in_state i = InstanceActive -> rt_inst s = i ->
     w_store (rt_world s) = w_store w -> exists e, mutate PD s = (Err e, s)) ->
  rejected (resume depth id mutate) w.
Proof.
  intros Hm. unfold resume, resume_with. apply rejected_bind.
  2: { intros a w' Ha. exfalso. revert Ha. unfold resume_ok, store_get, gets, mbind, ST_bind, or_not_found. cbn.
       destruct (GetInstance id (w_store w)) as [i|] eqn:Ei; [|done]. cbn. case_bool_decide as Hact; [|done]. cbn.
       pose proof (definition_keeps (in_def_id i) w) as Hd. destruct (definition (in_def_id i) w) as [[PD|e|p|] w1]; try done.
       cbn in Hd. unfold run_rt, change_and_drain, mbind, ST_bind.
       by destruct (Hm i PD (new_rt w1 i)) as [e ->]. }
  unfold resume_ok, store_get, gets, mbind, ST_bind, or_not_found. cbn.
  destruct (GetInstance id (w_store w)) as [i|] eqn:Ei; [|done]. cbn. case_bool_decide as Hact; [|done]. cbn.
  pose proof (definition_keeps (in_def_id i) w) as Hd. destruct (definition (in_def_id i) w) as [[PD|e|p|] w1]; try done.
  cbn in Hd. unfold run_rt, change_and_drain, mbind, ST_bind.
  destruct (Hm i PD (new_rt w1 i)) as [e ->]; done.
Qed.
Lemma not_waiting st ref tok inst m i :
  still_waits st ref tok inst m = false -> GetInstance inst m = Some i -> in_state i = InstanceActive ->
  waiting_on st ref (in_tokens i !! tok) = false.
Proof. unfold still_waits. intros H Hi Ha. by rewrite Hi, (bool_decide_eq_true_2 _ Ha) in H. Qed.
Lemma validate_keeps t v w : w_store (validate_form t v w).2 = w_store w.
Proof.
  unfold validate_form. destruct e_forms as [f|]; [|done]. destruct (String.eqb _ _); [done|].
  unfold tick, mbind, ST_bind. cbn. done.
Qed.

Lemma check_external_spec id worker w :
  (exists e, check_external id worker w = (Err e, w))
  \/ exists t, GetExternalTask id (w_store w) = Some t /\ ex_state t = ExternalPending /\ ex_locked_by t = worker
       /\ check_external id worker w = (Ok t, w).
Proof.
  unfold check_external, store_get, gets, or_not_found, mbind, ST_bind. cbn.
  destruct (GetExternalTask id (w_store w)) as [t|]; [cbn|by left; eexists].
  case_bool_decide as Hs; [cbn|by left; eexists].
  destruct (String.eqb_spec (ex_locked_by t) worker) as [Hl|Hl]; [right; by exists t|by left; eexists].
Qed.
Lemma check_agent_spec id worker w :
  (exists e, check_agent id worker w = (Err e, w))
  \/ exists j, GetAgentJob id (w_store w) = Some j /\ ag_state j = AgentPending /\ ag_locked_by j = worker
       /\ check_agent id worker w = (Ok j, w).
Proof.
  unfold check_agent, store_get, gets, or_not_found, mbind, ST_bind. cbn.
  destruct (GetAgentJob id (w_store w)) as [j|]; [cbn|by left; eexists].
  case_bool_decide as Hs; [cbn|by left; eexists].
  destruct (String.eqb_spec (ag_locked_by j) worker) as [Hl|Hl]; [right; by exists j|by left; eexists].
Qed.

(** C18: a user task, an external task or an agent job can be completed,
    failed or claimed only while it is open and the token it was made for
    still waits for it in an active instance; any other report, a second
    completion or one for a token that has moved on or an instance that has
    ended, fails and changes no record. *)
Theorem stale_reports_rejected w :
  (forall task v user,
     match GetTask task (w_store w) with
     | Some t => bool_decide (ta_state t = TaskCreated) && still_waits TokenWaitTask (ta_id t) (ta_token t) (ta_inst t) (w_store w)
     | None => false
     end = false ->
     rejected (complete_task depth task v user) w /\ rejected (claim_task depth task user) w)
  /\ (forall id worker v message code,
     match GetExternalTask id (w_store w) with
     | Some t => bool_decide (ex_state t = ExternalPending) && String.eqb (ex_locked_by t) worker
                 && still_waits TokenWaitExternal (ex_id t) (ex_token t) (ex_inst t) (w_store w)
     | None => false
     end = false ->
     rejected (complete_external_task depth id worker v) w /\ rejected (fail_external_task depth id worker message code) w)
  /\ (forall id worker out text calls u message code,
     match GetAgentJob id (w_store w) with
     | Some j => bool_decide (ag_state j = AgentPending) && String.eqb (ag_locked_by j) worker
                 && still_waits TokenWaitAgent (ag_id j) (ag_token j) (ag_inst j) (w_store w)
     | None => false
     end = false ->
     rejected (complete_agent_job depth id worker out text calls u) w /\ rejected (fail_agent_job depth id worker message code) w).
Proof.
  split_and!.
  - intros task v user H. split.
    + unfold complete_task. apply rejected_get, rejected_found. intros t Ht. rewrite Ht in H.
      case_bool_decide as Hc; [|done]. cbn in H |- *. apply rejected_bind; [apply validate_keeps|].
      intros v' w' Hv. pose proof (validate_keeps t v w) as Hw. rewrite Hv in Hw. cbn in Hw.
      apply resume_rejected. intros i PD s Hi Ha <- Hs. rewrite Hw in Hi, Hs.
      unfold complete_task_body, tok_live, gets, mbind, ST_bind. rewrite (not_waiting _ _ _ _ _ _ H Hi Ha). by eexists.
    + unfold claim_task. apply rejected_get, rejected_found. intros t Ht. apply resume_rejected. intros i PD s Hi Ha <- Hs.
      unfold claim_body. rewrite Ht in H. unfold mbind, ST_bind. rewrite get_store_run. rewrite Hs, Ht. cbn.
      case_bool_decide as Hc; [|by eexists]. cbn in H |- *. by rewrite (not_waiting _ _ _ _ _ _ H Hi Ha); eexists.
  - intros id worker v message code H.
    destruct (check_external_spec id worker w) as [[e He]|(t & Ht & Hp & Hl & Hc)].
    { split; apply (rejected_bind _ _ w); try (by rewrite He); intros a w'; by rewrite He. }
    rewrite Ht, (bool_decide_eq_true_2 _ Hp), Hl, String.eqb_refl in H. cbn in H.
    split; apply (rejected_bind _ _ w); try (by rewrite Hc); intros a w'; rewrite Hc; intros [= <- <-];
      apply resume_rejected; intros i PD s Hi Ha <- Hs;
      unfold complete_external_body, fail_external_body, tok_live, gets, mbind, ST_bind;
      rewrite (not_waiting _ _ _ _ _ _ H Hi Ha); by eexists.
  - intros id worker out text calls u message code H.
    destruct (check_agent_spec id worker w) as [[e He]|(j & Hj & Hp & Hl & Hc)].
    { split; apply (rejected_bind _ _ w); try (by rewrite He); intros a w'; by rewrite He. }
    rewrite Hj, (bool_decide_eq_true_2 _ Hp), Hl, String.eqb_refl in H. cbn in H.
    split; apply (rejected_bind _ _ w); try (by rewrite Hc); intros a w'; rewrite Hc; intros [= <- <-];
      apply resume_rejected; intros i PD s Hi Ha <- Hs;
      unfold complete_agent_body, fail_agent_body, tok_live, gets, mbind, ST_bind;
      rewrite (not_waiting _ _ _ _ _ _ H Hi Ha); by eexists.
Qed.

(** ** Claimed jobs *)

(** The work of a job of an instance. *)
Definition job_work (j : Job) : EM unit :=
  resume depth (jb_inst j)
    (match jb_kind j with JobTimer => fun PD => timer_fired j | _ => continue_body j end).
Definition permanent_failure (j : Job) (inc : Incident) : Prop :=
  ic_inst inc = jb_inst j /\ ic_token inc = jb_token j /\ ic_element inc = jb_element j /\ ic_resolved inc = false.

End reports.

(** ** The properties on a concrete engine *)
#[local] Existing Instance latin1_only.
#[local] Existing Instance literal_regexp.
#[local] Existing Instance key_order.
#[local] Existing Instance sample_engine.

Definition sample_task : string := "task_60a24181e400b00000004abcd".
(** The user task is open; completed once, it cannot be completed again. *)
Definition completed_world : world := (complete_task 5 sample_task (Some ∅) "ann" (launched "user" ∅)).2.
Lemma stale_reports_rejected_witness :
  (complete_task 5 sample_task (Some ∅) "ann" (launched "user" ∅)).1 = Ok tt
  /\ rejected (complete_task 5 sample_task (Some ∅) "bob") completed_world.
Proof.
  split; [vm_compute; reflexivity|].
  refine (proj1 (proj1 (stale_reports_rejected 5 completed_world) sample_task ∅ "bob" _)). vm_compute. reflexivity.
Defined.

(** A timer job of an element that its process does not have. *)
Definition lost_job : Job :=
  {| jb_id := "job_1"; jb_tenant := ""; jb_kind := JobTimer; jb_inst := "inst_1"; jb_def_key := ""; jb_token := "tok_1";
     jb_element := "gone"; jb_due := 0; jb_repeats := 0; jb_interval := 0; jb_retries := 3; jb_created := 0 |}.
Definition loaded_world : world :=
  {| w_store := (PutInstance (sample_instance "user" ∅ (first_token "tok_1" "approve")) new_memory).2;
     w_tick := 0; w_seq := 0; w_defs := {["def_1" := parsed "user" user_container]} |}.

(** A deployment that fails on its start events leaves the definition stored:
    it is the latest version of its process, and can be started. *)
Example failed_deploy_stays :
  is_ok (deploy "timer" "" empty_world).1 = false
  /\ (pd_version <$> LatestDefinitionForTenant "" "timer" (w_store (deploy "timer" "" empty_world).2)) = Some 1
  /\ (in_state <$> look (start_instance 5 "timer" "" ∅ (deploy "timer" "" empty_world).2)) = Some InstanceCompleted.
Proof. split_and!; vm_compute; reflexivity. Qed.
