(* ===== verification/SqlStore.v ===== *)
(** * The store over a database ([src/store/sqlstore.go])

    [SQL] keeps every record as a row: its JSON in one column, what narrows the
    scans in the others.  The statements are the texts of the source, with the
    placeholders of the dialect; the database that runs them is the parameter
    [Database], and JSON the parameter [RecordJson].  A call of the database may
    fail, and its state may depend on anything, so that failures can come and
    go; one client uses it.

    A method returns its error in the monad [ST]; [Memory]'s methods of the same
    names are those of [StoreMemory]. *)
From Stdlib Require Import Ascii.
From S2P Require Import Prelude GoFloat GoUtf8 GoTime ExprValue ExprDuration ExprFuncs StoreTypes StoreQuery StoreMemory EngineBase EngineApi.
Local Open Scope string_scope.
Local Open Scope Z_scope.

(** ** The database ([database/sql]) *)
Inductive sql_value := SText (s : string) | SInt (z : Z) | SNull.
(** [Exec]: an error, or a result whose [RowsAffected] gives an error or a
    number. *)
Inductive exec_result := ExecErr (msg : string) | Affected (n : string + Z).
(** [Query]: an error, or the rows and the error after which they ended. *)
Inductive query_result := QueryErr (msg : string) | QueryRows (rows : list (list sql_value)) (err : option string).
Class Database := {
  db_state : Type;
  db_exec : string -> list sql_value -> db_state -> exec_result * db_state;
  db_query : string -> list sql_value -> db_state -> query_result * db_state;
}.

(** [json.Marshal], where it succeeds, and [json.Unmarshal]. *)
Class Json (A : Type) := { encode : A -> option string; decode : string -> string + A }.
Class RecordJson := {
  json_definition : Json ProcDef; json_instance : Json Instance; json_task : Json Task; json_job : Json Job;
  json_external : Json ExternalTask; json_agent : Json AgentJob; json_sub : Json Subscription;
  json_incident : Json Incident; json_blob : Json Blob; json_event : Json HistoryEvent;
}.
#[export] Existing Instances json_definition json_instance json_task json_job json_external json_agent json_sub
  json_incident json_blob json_event.

(** ** Statements *)
Inductive SQLDialect := DialectPostgres | DialectSQLite | DialectMySQL.

Definition Schema : string := "CREATE TABLE IF NOT EXISTS fliable_records (
  kind     VARCHAR(16)  NOT NULL,
  id       VARCHAR(255) NOT NULL,
  tenant   VARCHAR(255) NOT NULL DEFAULT '',
  k        VARCHAR(255) NOT NULL DEFAULT '',
  instance VARCHAR(255) NOT NULL DEFAULT '',
  state    VARCHAR(32)  NOT NULL DEFAULT '',
  due      BIGINT       NOT NULL DEFAULT 0,
  seq      BIGINT       NOT NULL DEFAULT 0,
  data     TEXT         NOT NULL,
  PRIMARY KEY (kind, id)
);
CREATE INDEX IF NOT EXISTS fliable_records_kind_instance ON fliable_records (kind, instance);
CREATE INDEX IF NOT EXISTS fliable_records_kind_due ON fliable_records (kind, due);
CREATE INDEX IF NOT EXISTS fliable_records_kind_k ON fliable_records (kind, k);".

(** [q], on the ASCII texts of the statements. *)
Fixpoint number_marks (n : Z) (s : string) : string :=
  match s with
  | EmptyString => EmptyString
  | String c s => if Ascii.eqb c "?"%char then "$" ++ fmt_int (n + 1) ++ number_marks (n + 1) s else String c (number_marks n s)
  end.
Definition q (d : SQLDialect) (query : string) : string :=
  match d with DialectPostgres => number_marks 0 query | _ => query end.

Definition upsert_text (d : SQLDialect) : string :=
  match d with
  | DialectMySQL => "INSERT INTO fliable_records (kind,id,tenant,k,instance,state,due,seq,data)
VALUES (?,?,?,?,?,?,?,?,?)
ON DUPLICATE KEY UPDATE tenant=VALUES(tenant), k=VALUES(k), instance=VALUES(instance),
state=VALUES(state), due=VALUES(due), seq=VALUES(seq), data=VALUES(data)"
  | _ => "INSERT INTO fliable_records (kind,id,tenant,k,instance,state,due,seq,data)
VALUES (?,?,?,?,?,?,?,?,?)
ON CONFLICT (kind, id) DO UPDATE SET tenant=excluded.tenant, k=excluded.k,
instance=excluded.instance, state=excluded.state, due=excluded.due, seq=excluded.seq, data=excluded.data"
  end.
Definition get_text := "SELECT data FROM fliable_records WHERE kind=? AND id=?".
Definition scan_text := "SELECT data FROM fliable_records WHERE kind=?".
Definition scan_instance_text := "SELECT data FROM fliable_records WHERE kind=? AND instance=?".
Definition delete_text := "DELETE FROM fliable_records WHERE kind=? AND id=?".
Definition purge_text := "DELETE FROM fliable_records WHERE instance=?".
Definition claim_text := "UPDATE fliable_records SET data=?, due=? WHERE kind=? AND id=? AND state=? AND due<=?".
Definition max_text := "SELECT MAX(seq) FROM fliable_records WHERE kind=? AND instance=?".

Record row := {
  r_kind : string; r_id : string; r_tenant : string; r_k : string; r_instance : string; r_state : string;
  r_due : Z; r_seq : Z; r_data : string;
}.
Definition row_args (r : row) : list sql_value :=
  [SText (r_kind r); SText (r_id r); SText (r_tenant r); SText (r_k r); SText (r_instance r); SText (r_state r);
   SInt (r_due r); SInt (r_seq r); SText (r_data r)].

(** [Scan] into a [string], and into a [sql.NullInt64] ([None] is not valid). *)
Definition scan_string (v : sql_value) : string + string :=
  match v with
  | SText s => inr s
  | SInt z => inr (fmt_int z)
  | SNull => inl "sql: Scan error on column index 0: converting NULL to string is unsupported"
  end.
Definition scan_null_int (v : sql_value) : string + option Z :=
  match v with
  | SNull => inr None
  | SInt z => inr (Some z)
  | SText s => match atoi s with Some z => inr (Some z) | None => inl "sql: Scan error on column index 0: invalid syntax" end
  end.
Definition scan_one {A} (f : sql_value -> string + A) (vs : list sql_value) : string + A :=
  match vs with [v] => f v | _ => inl "sql: wrong number of destination arguments in Scan" end.

Definition unixOrZero (t : Z) : Z := if is_zero_time t then 0 else wrap64 t.
Definition marshal {A} `{Json A} (v : A) : string := default "" (encode v).

Section sql.
Context {U : Unicode} {MO : MapOrder} {D : Database} {RJ : RecordJson}.

(** [sq_seq] is [histSeq], the last numbers of the instances that this process
    has written events of. *)
Record SQL := { sq_db : db_state; sq_dialect : SQLDialect; sq_seq : gmap string Z }.
Definition set_sq_db (v : db_state) (s : SQL) : SQL := {| sq_db := v; sq_dialect := sq_dialect s; sq_seq := sq_seq s |}.
Definition set_sq_seq (v : gmap string Z) (s : SQL) : SQL := {| sq_db := sq_db s; sq_dialect := sq_dialect s; sq_seq := v |}.
Definition DB := ST SQL.

Definition exec (text : string) (args : list sql_value) : DB (string + Z) := fun s =>
  match db_exec (q (sq_dialect s) text) args (sq_db s) with
  | (ExecErr e, st) => (Err (EMsg e), set_sq_db st s)
  | (Affected n, st) => (Ok n, set_sq_db st s)
  end.
Definition query (text : string) (args : list sql_value) : DB (list (list sql_value) * option string) := fun s =>
  match db_query (q (sq_dialect s) text) args (sq_db s) with
  | (QueryErr e, st) => (Err (EMsg e), set_sq_db st s)
  | (QueryRows rows err, st) => (Ok (rows, err), set_sq_db st s)
  end.
Definition of_sum {A} (r : string + A) : DB A := match r with inl e => fail (EMsg e) | inr a => mret a end.
(** [QueryRow(...).Scan(...)]; [None] is [sql.ErrNoRows]. *)
Definition query_row {A} (f : sql_value -> string + A) (text : string) (args : list sql_value) : DB (option A) :=
  rs ← query text args;
  of_sum match rs with
         | (r :: _, _) => match scan_one f r with inl e => inl e | inr a => inr (Some a) end
         | ([], Some e) => inl e
         | ([], None) => inr None
         end.

(** [NewSQL] *)
Fixpoint migrate (stmts : list string) : DB unit :=
  match stmts with
  | [] => mret tt
  | stmt :: stmts =>
      let stmt := trim_space stmt in
      if String.eqb stmt "" then migrate stmts
      else fun s => match db_exec stmt [] (sq_db s) with
                    | (ExecErr e, st) => (Err (EWrap "store: migrate: " (EMsg e)), set_sq_db st s)
                    | (Affected _, st) => migrate stmts (set_sq_db st s)
                    end
  end.
Definition NewSQL (db : db_state) (d : SQLDialect) (skip : bool) : res goerr unit * SQL :=
  (if skip then mret tt else migrate (str_split Schema ";")) {| sq_db := db; sq_dialect := d; sq_seq := ∅ |}.

(** ** Rows *)
Definition upsert (r : row) : DB unit :=
  s ← get;
  _ ← exec (upsert_text (sq_dialect s)) (row_args r); mret tt.
Definition unmarshal {A} `{Json A} (data : string) : DB A := of_sum (decode data).
Definition getData {A} `{Json A} (kind id : string) : DB A :=
  d ← query_row scan_string get_text [SText kind; SText id];
  match d with None => fail ENotFound | Some data => unmarshal data end.
Fixpoint scan_rows {B} (fn : string -> B -> DB B) (rows : list (list sql_value)) (acc : B) : DB B :=
  match rows with
  | [] => mret acc
  | r :: rows => data ← of_sum (scan_one scan_string r); acc ← fn data acc; scan_rows fn rows acc
  end.
Definition scanKind {B} (kind inst : string) (fn : string -> B -> DB B) (acc : B) : DB B :=
  rs ← (if String.eqb inst "" then query scan_text [SText kind] else query scan_instance_text [SText kind; SText inst]);
  acc ← scan_rows fn rs.1 acc;
  match rs.2 with Some e => fail (EMsg e) | None => mret acc end.
Definition delete_row (kind id : string) : DB bool :=
  n ← exec delete_text [SText kind; SText id];
  n ← of_sum n;
  mret (0 <? n).

(** The scans that append what they keep, and the common shape of the lists. *)
Definition collect {A} `{Json A} (kind inst : string) (p : A -> bool) : DB (list A) :=
  scanKind kind inst (fun data out => a ← unmarshal data; mret (if p a then out ++ [a] else out)%list) [].
Definition list_by_id {A} `{Json A} (id : A -> string) (kind inst : string) (p : A -> bool) (desc : bool) (limit : Z) : DB (list A) :=
  out ← collect kind inst p;
  mret (limited limit (sort_by_id id desc out)).

(** ** Definitions *)
Definition def_row (d : ProcDef) : row :=
  {| r_kind := "def"; r_id := pd_id d; r_tenant := pd_tenant d; r_k := pd_key d; r_instance := ""; r_state := "";
     r_due := 0; r_seq := pd_version d; r_data := marshal d |}.
Definition PutDefinition (d : ProcDef) : DB unit := upsert (def_row d).
Definition GetDefinition (id : string) : DB ProcDef := getData "def" id.
Definition LatestDefinitionForTenant (tenant key : string) : DB ProcDef :=
  best ← scanKind "def" "" (fun data best =>
           d ← unmarshal data;
           mret (if String.eqb (pd_key d) key && String.eqb (pd_tenant d) tenant
                    && match best with None => true | Some b => pd_version b <? pd_version d end
                 then Some d else best)) None;
  match best with Some d => mret d | None => fail ENotFound end.
Definition LatestDefinition (key : string) : DB ProcDef := LatestDefinitionForTenant "" key.
Definition ListDefinitions (latest_only : bool) : DB (list ProcDef) :=
  all ← collect "def" "" (fun _ => true);
  mret (merge_sort (fun a b => def_le a b = true) (if latest_only then map snd (map_range 1 (by_key all)) else all)).

(** ** Instances *)

(** [PutInstance]; the revision goes up in the caller's record, written or
    not. *)
Definition inst_row (i : Instance) : row :=
  {| r_kind := "inst"; r_id := in_id i; r_tenant := in_tenant i; r_k := in_def_key i; r_instance := in_id i;
     r_state := instance_state_string (in_state i); r_due := 0; r_seq := 0; r_data := marshal i |}.
Definition PutInstance (i : Instance) : DB Instance :=
  let i := set_in_rev (in_rev i + 1) i in
  upsert (inst_row i);; mret i.
Definition GetInstance (id : string) : DB Instance := getData "inst" id.
Definition ListInstances (f : InstanceFilter) : DB (list Instance) :=
  list_by_id in_id "inst" "" (match_instance f) (if_desc f) (if_limit f).
Definition PurgeInstance (id : string) : DB unit :=
  _ ← exec purge_text [SText id];
  modify (fun s : SQL => set_sq_seq (delete id (sq_seq s)) s).

(** ** Tasks *)
Definition task_row (t : Task) : row :=
  {| r_kind := "task"; r_id := ta_id t; r_tenant := ta_tenant t; r_k := ta_def_key t; r_instance := ta_inst t;
     r_state := task_state_string (ta_state t); r_due := 0; r_seq := 0; r_data := marshal t |}.
Definition PutTask (t : Task) : DB unit := upsert (task_row t).
Definition GetTask (id : string) : DB Task := getData "task" id.
(** Whether [matchTask] asks for the variables: the conditions before them hold. *)
Definition before_vars (f : TaskFilter) : TaskFilter :=
  {| tf_tenant := tf_tenant f; tf_inst := tf_inst f; tf_assignee := tf_assignee f; tf_unassigned := tf_unassigned f;
     tf_user := tf_user f; tf_group := tf_group f; tf_state := tf_state f; tf_def_key := tf_def_key f;
     tf_element := tf_element f; tf_vars := []; tf_created_after := tf_created_after f;
     tf_created_before := tf_created_before f; tf_due_before := tf_due_before f; tf_cursor := ""; tf_desc := tf_desc f;
     tf_limit := tf_limit f |}.
Definition asks_vars (f : TaskFilter) (t : Task) : bool :=
  match tf_vars f with [] => false | _ => match_task (before_vars f) t None end.
(** The variables of an instance, through [varsCache]; an error of the database
    counts as an instance that does not exist. *)
Definition cached_vars (inst : string) (cache : gmap string (option vars)) : DB (option vars * gmap string (option vars)) :=
  match cache !! inst with
  | Some v => mret (v, cache)
  | None =>
      r ← attempt (GetInstance inst);
      let v := match r with inl _ => None | inr i => Some (in_vars i) end in
      mret (v, <[inst := v]> cache)
  end.
Definition ListTasks (f : TaskFilter) : DB (list Task) :=
  r ← scanKind "task" (tf_inst f) (fun data (acc : list Task * gmap string (option vars)) =>
        t ← unmarshal data;
        v ← (if asks_vars f t then cached_vars (ta_inst t) acc.2 else mret (None, acc.2));
        mret (if match_task f t v.1 then acc.1 ++ [t] else acc.1, v.2)%list) ([], ∅);
  mret (limited (tf_limit f) (sort_by_id ta_id (tf_desc f) r.1)).

(** ** Jobs *)
Definition job_row (j : Job) : row :=
  {| r_kind := "job"; r_id := jb_id j; r_tenant := jb_tenant j; r_k := jb_def_key j; r_instance := jb_inst j;
     r_state := ""; r_due := unixOrZero (jb_due j); r_seq := 0; r_data := marshal j |}.
Definition PutJob (j : Job) : DB unit := upsert (job_row j).
Definition GetJob (id : string) : DB Job := getData "job" id.
Definition DeleteJob (id : string) : DB unit := _ ← delete_row "job" id; mret tt.
Fixpoint claim_jobs (due claimed : list Job) : DB (list Job) :=
  match due with
  | [] => mret claimed
  | j :: due => delete_row "job" (jb_id j) ≫= fun ok : bool => claim_jobs due (if ok then claimed ++ [j] else claimed)%list
  end.
Definition DueJobs (now limit : Z) : DB (list Job) :=
  due ← collect "job" "" (is_due now);
  claim_jobs (limited limit (merge_sort (fun a b => job_le a b = true) due)) [].
Definition ListJobs (inst : string) : DB (list Job) := list_by_id jb_id "job" inst (fun _ => true) false 0.

(** ** Work for external workers and agents *)
Definition claimPending (kind id data : string) (until now : Z) : DB bool :=
  n ← exec claim_text [SText data; SInt (unixOrZero until); SText kind; SText id; SText "pending"; SInt (wrap64 now)];
  n ← of_sum n;
  mret (0 <? n).
(** The loop over what is available, for either kind of work. *)
Fixpoint claim_all {A} `{Json A} (kind : string) (id : A -> string) (lock : A -> A) (until now : Z) (avail out : list A) : DB (list A) :=
  match avail with
  | [] => mret out
  | t :: avail =>
      claimPending kind (id t) (marshal (lock t)) until now ≫= fun ok : bool =>
      claim_all kind id lock until now avail (if ok then out ++ [lock t] else out)%list
  end.
Definition fetch_work {A} `{Json A} (kind : string) (id : A -> string) (p : A -> bool) (lock : A -> A) (until now limit : Z) : DB (list A) :=
  avail ← list_by_id id kind "" p false limit;
  claim_all kind id lock until now avail [].

Definition ext_row (t : ExternalTask) : row :=
  {| r_kind := "ext"; r_id := ex_id t; r_tenant := ""; r_k := ex_topic t; r_instance := ex_inst t;
     r_state := external_state_string (ex_state t); r_due := unixOrZero (ex_lock_until t); r_seq := 0; r_data := marshal t |}.
Definition PutExternalTask (t : ExternalTask) : DB unit := upsert (ext_row t).
Definition GetExternalTask (id : string) : DB ExternalTask := getData "ext" id.
Definition FetchAndLockExternalTasks (topic worker : string) (until now limit : Z) : DB (list ExternalTask) :=
  fetch_work "ext" ex_id (ext_avail topic now) (ext_lock worker until) until now limit.
Definition ListExternalTasks (inst : string) : DB (list ExternalTask) := list_by_id ex_id "ext" inst (fun _ => true) false 0.

Definition agent_row (j : AgentJob) : row :=
  {| r_kind := "agentjob"; r_id := ag_id j; r_tenant := ag_tenant j; r_k := ag_topic j; r_instance := ag_inst j;
     r_state := agent_state_string (ag_state j); r_due := unixOrZero (ag_lock_until j); r_seq := 0; r_data := marshal j |}.
Definition PutAgentJob (j : AgentJob) : DB unit := upsert (agent_row j).
Definition GetAgentJob (id : string) : DB AgentJob := getData "agentjob" id.
Definition FetchAndLockAgentJobs (topic worker : string) (until now limit : Z) : DB (list AgentJob) :=
  fetch_work "agentjob" ag_id (ag_avail topic now) (ag_lock worker until) until now limit.
Definition ListAgentJobs (inst : string) : DB (list AgentJob) := list_by_id ag_id "agentjob" inst (fun _ => true) false 0.

(** ** Subscriptions *)
Definition sub_row (s : Subscription) : row :=
  {| r_kind := "sub"; r_id := sb_id s; r_tenant := sb_tenant s; r_k := sb_name s; r_instance := sb_inst s; r_state := "";
     r_due := 0; r_seq := 0; r_data := marshal s |}.
Definition PutSubscription (s : Subscription) : DB unit := upsert (sub_row s).
Definition DeleteSubscription (id : string) : DB unit := _ ← delete_row "sub" id; mret tt.
Definition ListSubscriptions (f : SubscriptionFilter) : DB (list Subscription) :=
  list_by_id sb_id "sub" (sf_inst f) (fun s =>
    opt_field (sf_kind f) (sb_kind s) && str_field (sf_name f) (sb_name s) && str_field (sf_ckey f) (sb_ckey s)
    && opt_field (sf_start f) (sb_start s)) false 0.

(** ** Incidents *)
Definition incident_row (i : Incident) : row :=
  {| r_kind := "inc"; r_id := ic_id i; r_tenant := ""; r_k := ""; r_instance := ic_inst i;
     r_state := if ic_resolved i then "resolved" else "open"; r_due := 0; r_seq := 0; r_data := marshal i |}.
Definition PutIncident (i : Incident) : DB unit := upsert (incident_row i).
Definition GetIncident (id : string) : DB Incident := getData "inc" id.
Definition ListIncidents (f : IncidentFilter) : DB (list Incident) :=
  list_by_id ic_id "inc" (nf_inst f) (fun i => opt_field (nf_resolved f) (ic_resolved i)) false (nf_limit f).

(** ** Blobs *)
Definition blob_row (b : Blob) : row :=
  {| r_kind := "blob"; r_id := blob_key (bl_kind b) (bl_key b); r_tenant := bl_tenant b; r_k := bl_kind b; r_instance := "";
     r_state := ""; r_due := 0; r_seq := 0; r_data := marshal b |}.
Definition PutBlob (b : Blob) : DB unit := upsert (blob_row b).
Definition GetBlob (kind key : string) : DB Blob := getData "blob" (blob_key kind key).
Definition ListBlobs (kind : string) : DB (list Blob) :=
  out ← collect "blob" "" (fun b => str_field kind (bl_kind b));
  mret (merge_sort (fun a b => blob_le a b = true) out).
Definition DeleteBlob (kind key : string) : DB unit := _ ← delete_row "blob" (blob_key kind key); mret tt.

(** ** History *)

(** [%s/%016x] *)
Definition hist_id (inst : string) (seq : Z) : string := inst ++ "/" ++ hex_min 16 seq.
Definition hist_row (ev : HistoryEvent) : row :=
  {| r_kind := "hist"; r_id := hist_id (hv_inst ev) (hv_seq ev); r_tenant := ""; r_k := ""; r_instance := hv_inst ev;
     r_state := ""; r_due := 0; r_seq := hv_seq ev; r_data := marshal ev |}.
(** The last number of the instance, read from the database the first time. *)
Definition last_number (inst : string) : DB Z :=
  s ← get;
  match sq_seq s !! inst with
  | Some n => mret n
  | None =>
      m ← query_row scan_null_int max_text [SText "hist"; SText inst];
      let n := default 0 (mjoin m) in
      modify (fun s : SQL => set_sq_seq (<[inst := n]> (sq_seq s)) s);; mret n
  end.
Definition AppendHistory (ev : HistoryEvent) : DB HistoryEvent :=
  let inst := hv_inst ev in
  cur ← last_number inst;
  ev ← (if hv_seq ev =? 0 then
          modify (fun s : SQL => set_sq_seq (<[inst := cur + 1]> (sq_seq s)) s);; mret (set_hv_seq (cur + 1) ev)
        else
          when (cur <? hv_seq ev) (modify (fun s : SQL => set_sq_seq (<[inst := hv_seq ev]> (sq_seq s)) s));; mret ev);
  upsert (hist_row ev);; mret ev.
(** [sort.Slice] on the numbers. *)
Definition seq_le (a b : HistoryEvent) : bool := hv_seq a <=? hv_seq b.
#[export] Instance seq_le_dec : RelDecision (fun a b => seq_le a b = true).
Proof. intros a b. solve_decision. Defined.
Definition ListHistory (inst : string) (f : HistoryFilter) : DB (list HistoryEvent) :=
  out ← collect "hist" inst (match_history f);
  mret (limited (hf_limit f) (merge_sort (fun a b => seq_le a b = true) out)).
End sql.
