(* ===== verification/SqlRefine.v ===== *)
(** * The database store refines the in-memory store

    [DatabaseLaws] says what the statements of [SqlStore] do to the rows of the
    table; [abs] relates a table to a [Memory].  While the database answers,
    every call of the one store answers what the other one does, and keeps them
    related.  What happens when it does not answer follows from the same laws. *)
From stdpp Require Import sorting.
From S2P Require Import Prelude GoFloat GoUtf8 GoTime ExprValue StoreTypes StoreQuery StoreMemory EngineBase EngineApi EngineJobs SqlStore.
Local Open Scope string_scope.
Local Open Scope Z_scope.

(** ** What the statements do *)
Abbreviation table := (gmap (string * string) row).
Inductive change :=
| Upsert (r : row)
| DeleteRow (kind id : string)
| PurgeRows (inst : string)
| Claim (data : string) (due : Z) (kind id state : string) (now : Z).
Inductive selection :=
| ById (kind id : string)
| OfKind (kind : string)
| OfInstance (kind inst : string).

(** The statements as the database gets them, and what the source writes. *)
Definition change_text (d : SQLDialect) (c : change) : string :=
  match c, d with
  | Upsert _, DialectPostgres => "INSERT INTO fliable_records (kind,id,tenant,k,instance,state,due,seq,data)
VALUES ($1,$2,$3,$4,$5,$6,$7,$8,$9)
ON CONFLICT (kind, id) DO UPDATE SET tenant=excluded.tenant, k=excluded.k,
instance=excluded.instance, state=excluded.state, due=excluded.due, seq=excluded.seq, data=excluded.data"
  | Upsert _, DialectSQLite => "INSERT INTO fliable_records (kind,id,tenant,k,instance,state,due,seq,data)
VALUES (?,?,?,?,?,?,?,?,?)
ON CONFLICT (kind, id) DO UPDATE SET tenant=excluded.tenant, k=excluded.k,
instance=excluded.instance, state=excluded.state, due=excluded.due, seq=excluded.seq, data=excluded.data"
  | Upsert _, DialectMySQL => "INSERT INTO fliable_records (kind,id,tenant,k,instance,state,due,seq,data)
VALUES (?,?,?,?,?,?,?,?,?)
ON DUPLICATE KEY UPDATE tenant=VALUES(tenant), k=VALUES(k), instance=VALUES(instance),
state=VALUES(state), due=VALUES(due), seq=VALUES(seq), data=VALUES(data)"
  | DeleteRow _ _, DialectPostgres => "DELETE FROM fliable_records WHERE kind=$1 AND id=$2"
  | DeleteRow _ _, _ => "DELETE FROM fliable_records WHERE kind=? AND id=?"
  | PurgeRows _, DialectPostgres => "DELETE FROM fliable_records WHERE instance=$1"
  | PurgeRows _, _ => "DELETE FROM fliable_records WHERE instance=?"
  | Claim _ _ _ _ _ _, DialectPostgres =>
      "UPDATE fliable_records SET data=$1, due=$2 WHERE kind=$3 AND id=$4 AND state=$5 AND due<=$6"
  | Claim _ _ _ _ _ _, _ => "UPDATE fliable_records SET data=?, due=? WHERE kind=? AND id=? AND state=? AND due<=?"
  end.
Definition source_change (d : SQLDialect) (c : change) : string :=
  match c with Upsert _ => upsert_text d | DeleteRow _ _ => delete_text | PurgeRows _ => purge_text | Claim _ _ _ _ _ _ => claim_text end.
Lemma sent_change d c : q d (source_change d c) = change_text d c.
Proof. destruct c, d; vm_compute; reflexivity. Qed.
Definition change_args (c : change) : list sql_value :=
  match c with
  | Upsert r => row_args r
  | DeleteRow kind id => [SText kind; SText id]
  | PurgeRows inst => [SText inst]
  | Claim data due kind id state now => [SText data; SInt due; SText kind; SText id; SText state; SInt now]
  end.
Definition set_claim (data : string) (due : Z) (r : row) : row :=
  {| r_kind := r_kind r; r_id := r_id r; r_tenant := r_tenant r; r_k := r_k r; r_instance := r_instance r; r_state := r_state r;
     r_due := due; r_seq := r_seq r; r_data := data |}.
Definition claimable (kind id state : string) (now : Z) (T : table) : option row :=
  match T !! (kind, id) with
  | Some r => if String.eqb (r_state r) state && (r_due r <=? now) then Some r else None
  | None => None
  end.
Definition effect (c : change) (T : table) : table :=
  match c with
  | Upsert r => <[(r_kind r, r_id r) := r]> T
  | DeleteRow kind id => delete (kind, id) T
  | PurgeRows inst => filter (fun kr => String.eqb (r_instance kr.2) inst = false) T
  | Claim data due kind id state now =>
      match claimable kind id state now T with Some r => <[(kind, id) := set_claim data due r]> T | None => T end
  end.
(** Whether the statement finds a row, for the statements whose count is read. *)
Definition finds (c : change) (T : table) : option bool :=
  match c with
  | DeleteRow kind id => Some (bool_decide (is_Some (T !! (kind, id))))
  | Claim _ _ kind id state now => Some (bool_decide (is_Some (claimable kind id state now T)))
  | _ => None
  end.
Definition selection_text (d : SQLDialect) (c : selection) : string :=
  match c, d with
  | ById _ _, DialectPostgres => "SELECT data FROM fliable_records WHERE kind=$1 AND id=$2"
  | ById _ _, _ => "SELECT data FROM fliable_records WHERE kind=? AND id=?"
  | OfKind _, DialectPostgres => "SELECT data FROM fliable_records WHERE kind=$1"
  | OfKind _, _ => "SELECT data FROM fliable_records WHERE kind=?"
  | OfInstance _ _, DialectPostgres => "SELECT data FROM fliable_records WHERE kind=$1 AND instance=$2"
  | OfInstance _ _, _ => "SELECT data FROM fliable_records WHERE kind=? AND instance=?"
  end.
Definition largest_text (d : SQLDialect) : string :=
  match d with
  | DialectPostgres => "SELECT MAX(seq) FROM fliable_records WHERE kind=$1 AND instance=$2"
  | _ => "SELECT MAX(seq) FROM fliable_records WHERE kind=? AND instance=?"
  end.
Definition source_selection (c : selection) : string :=
  match c with ById _ _ => get_text | OfKind _ => scan_text | OfInstance _ _ => scan_instance_text end.
Lemma sent_selection d c : q d (source_selection c) = selection_text d c.
Proof. destruct c, d; vm_compute; reflexivity. Qed.
Lemma sent_max d : q d max_text = largest_text d.
Proof. destruct d; vm_compute; reflexivity. Qed.
Definition selection_args (c : selection) : list sql_value :=
  match c with ById kind id => [SText kind; SText id] | OfKind kind => [SText kind] | OfInstance kind inst => [SText kind; SText inst] end.
Definition selects (c : selection) (kr : string * string * row) : bool :=
  match c with
  | ById kind id => String.eqb kr.1.1 kind && String.eqb kr.1.2 id
  | OfKind kind => String.eqb kr.1.1 kind
  | OfInstance kind inst => String.eqb kr.1.1 kind && String.eqb (r_instance kr.2) inst
  end.
Definition selected (c : selection) (T : table) : list row := map snd (keep (selects c) (map_to_list T)).
(** [MAX(seq)]: nothing, or the largest number. *)
Definition largest (rs : list row) (m : option Z) : Prop :=
  match m with
  | None => rs = []
  | Some n => (exists r, r ∈ rs /\ r_seq r = n) /\ forall r, r ∈ rs -> r_seq r <= n
  end.

Definition kinds := ["def"; "inst"; "task"; "job"; "ext"; "agentjob"; "sub"; "inc"; "blob"; "hist"].
(** [up]: the database answers, and goes on answering; of one that does not the
    laws say nothing.  [sends]: the driver and the columns take these arguments
    (lengths, bytes that a text cannot hold); texts are compared byte by byte. *)
Class DatabaseLaws {D : Database} (d : SQLDialect) := {
  tbl : db_state -> table;
  up : db_state -> Prop;
  sends : list sql_value -> Prop;
  sends_kind k : k ∈ kinds -> sends [SText k];
  sends_key r : sends (row_args r) -> sends [SText (r_kind r); SText (r_id r)];
  sends_instance r k : sends (row_args r) -> k ∈ kinds -> sends [SText k; SText (r_instance r)];
  law_change c st : up st -> sends (change_args c) ->
    exists n st', db_exec (change_text d c) (change_args c) st = (Affected (inr n), st') /\ up st' /\
      tbl st' = effect c (tbl st) /\ forall b, finds c (tbl st) = Some b -> (0 <? n) = b;
  law_select c st : up st -> sends (selection_args c) ->
    exists rs st', db_query (selection_text d c) (selection_args c) st = (QueryRows (map (fun r => [SText (r_data r)]) rs) None, st') /\
      up st' /\ tbl st' = tbl st /\ rs ≡ₚ selected c (tbl st);
  law_max inst st : up st -> sends [SText "hist"; SText inst] ->
    exists v m st', db_query (largest_text d) [SText "hist"; SText inst] st = (QueryRows [[v]] None, st') /\
      up st' /\ tbl st' = tbl st /\ scan_null_int v = inr m /\ largest (selected (OfInstance "hist" inst) (tbl st)) m;
}.

(** ** Rows and records *)

(** A record whose JSON reads back as the record. *)
Definition json_ok {A} `{Json A} (x : A) : Prop := exists s, encode x = Some s /\ decode s = inr x.
Lemma decode_marshal {A} `{Json A} (x : A) : json_ok x -> decode (marshal x) = inr x.
Proof. intros (s & Hs & Hd). unfold marshal. by rewrite Hs. Qed.

(** The rows of one kind are those of the records of a table. *)
Section kind.
Context {A} (kind : string) (id : A -> string) (to_row : A -> row).
Hypothesis row_kind : forall x, r_kind (to_row x) = kind.
Hypothesis row_id : forall x, r_id (to_row x) = id x.

Definition holds (T : table) (t : gmap string A) : Prop := forall k, T !! (kind, k) = to_row <$> t !! k.
Definition in_scope (inst : string) (x : A) : bool := str_field inst (r_instance (to_row x)).
Definition selection_of (inst : string) : selection := if String.eqb inst "" then OfKind kind else OfInstance kind inst.

Lemma selects_kind inst k x : selects (selection_of inst) ((kind, k), to_row x) = in_scope inst x.
Proof.
  unfold selection_of, in_scope, str_field. destruct (String.eqb inst ""); cbn; by rewrite String.eqb_refl.
Qed.
Lemma selects_in inst (kr : string * string * row) : selects (selection_of inst) kr = true -> kr.1.1 = kind.
Proof.
  unfold selection_of. destruct (String.eqb inst ""); cbn; [by intros ->%String.eqb_eq|].
  by intros [->%String.eqb_eq _]%andb_prop.
Qed.
Lemma selected_rows T t inst : holds T t ->
  selected (selection_of inst) T ≡ₚ map to_row (keep (in_scope inst) (map snd (map_to_list t))).
Proof.
  intros HT. unfold selected.
  assert (keep (selects (selection_of inst)) (map_to_list T)
    ≡ₚ map (fun kx => ((kind, kx.1), to_row kx.2)) (keep (fun kx => in_scope inst kx.2) (map_to_list t))) as ->.
  { apply NoDup_Permutation.
    - apply NoDup_filter, NoDup_map_to_list.
    - apply (NoDup_fmap_1 fst). rewrite <- list_fmap_compose.
      change (NoDup (map (fun kx : string * A => (kind, kx.1)) (keep (fun kx => in_scope inst kx.2) (map_to_list t)))).
      rewrite <- (map_map fst (pair kind)). apply NoDup_fmap; [intros ? ? [=]; done|].
      pose proof (NoDup_fst_map_to_list t) as Hnd. eapply sublist_NoDup; [exact Hnd|]. apply fmap_sublist, sublist_filter.
    - intros [[k' k] r]. unfold keep. rewrite list_elem_of_filter, (elem_of_map_to_list T (k', k) r). split.
      + intros [Hs Hr]. pose proof (selects_in _ _ Hs) as Hk. cbn in Hk. subst k'. rewrite HT in Hr.
        destruct (t !! k) as [x|] eqn:Ex; [|done]. injection Hr as <-. rewrite selects_kind in Hs.
        apply list_elem_of_fmap. exists (k, x). split; [done|]. apply list_elem_of_filter. split; [done|]. by apply elem_of_map_to_list.
      + intros ([k2 x] & [= -> -> ->] & [Hs Hx]%list_elem_of_filter)%list_elem_of_fmap. apply elem_of_map_to_list in Hx.
        rewrite selects_kind. split; [done|]. by rewrite HT, Hx. }
  rewrite !map_map. cbn.
  assert (forall l : list (string * A), map (fun kx => to_row kx.2) (keep (fun kx => in_scope inst kx.2) l)
    = map to_row (keep (in_scope inst) (map snd l))) as Hl.
  { intros l. induction l as [|[k x] l IH]; [done|]. unfold keep in *. cbn [map snd]. rewrite !filter_cons. cbn [snd].
    case_decide; cbn; by rewrite IH. }
  by rewrite Hl.
Qed.
End kind.

(** What the generic lemmas need to know of a kind of record. *)
Class Stored (A : Type) `{Json A} := {
  st_kind : string;
  st_id : A -> string;
  st_row : A -> row;
  st_inst : A -> string;
  st_row_kind x : r_kind (st_row x) = st_kind;
  st_row_id x : r_id (st_row x) = st_id x;
  st_row_inst x : r_instance (st_row x) = st_inst x;
  st_row_data x : r_data (st_row x) = marshal x;
  st_in : st_kind ∈ kinds;
}.
Section stored.
Context {RJ : RecordJson}.
Local Ltac stored := try (intros; reflexivity); unfold kinds; set_solver.
#[export] Program Instance stored_definition : Stored ProcDef := {| st_kind := "def"; st_id := pd_id; st_row := def_row; st_inst _ := "" |}.
Solve All Obligations with stored.
#[export] Program Instance stored_instance : Stored Instance := {| st_kind := "inst"; st_id := in_id; st_row := inst_row; st_inst := in_id |}.
Solve All Obligations with stored.
#[export] Program Instance stored_task : Stored Task := {| st_kind := "task"; st_id := ta_id; st_row := task_row; st_inst := ta_inst |}.
Solve All Obligations with stored.
#[export] Program Instance stored_job : Stored Job := {| st_kind := "job"; st_id := jb_id; st_row := job_row; st_inst := jb_inst |}.
Solve All Obligations with stored.
#[export] Program Instance stored_external : Stored ExternalTask := {| st_kind := "ext"; st_id := ex_id; st_row := ext_row; st_inst := ex_inst |}.
Solve All Obligations with stored.
#[export] Program Instance stored_agent : Stored AgentJob := {| st_kind := "agentjob"; st_id := ag_id; st_row := agent_row; st_inst := ag_inst |}.
Solve All Obligations with stored.
#[export] Program Instance stored_sub : Stored Subscription := {| st_kind := "sub"; st_id := sb_id; st_row := sub_row; st_inst := sb_inst |}.
Solve All Obligations with stored.
#[export] Program Instance stored_incident : Stored Incident := {| st_kind := "inc"; st_id := ic_id; st_row := incident_row; st_inst := ic_inst |}.
Solve All Obligations with stored.
#[export] Program Instance stored_blob : Stored Blob :=
  {| st_kind := "blob"; st_id b := blob_key (bl_kind b) (bl_key b); st_row := blob_row; st_inst _ := "" |}.
Solve All Obligations with stored.
#[export] Program Instance stored_event : Stored HistoryEvent :=
  {| st_kind := "hist"; st_id ev := hist_id (hv_inst ev) (hv_seq ev); st_row := hist_row; st_inst := hv_inst |}.
Solve All Obligations with stored.
End stored.

(** The rows of a kind are the records [t], all of which JSON can hold. *)
Record tab {A} `{Stored A} (T : table) (t : gmap string A) : Prop := {
  tab_holds : holds st_kind st_row T t;
  tab_json k x : t !! k = Some x -> json_ok x;
  tab_keyed : keyed st_id t;
}.
Section tab.
Context {A} `{Stored A}.
Implicit Types (T : table) (t : gmap string A).
Lemma tab_row T t k x : tab T t -> t !! k = Some x -> T !! (st_kind, k) = Some (st_row x).
Proof. intros Ht Hx. by rewrite (tab_holds _ _ Ht), Hx. Qed.
Lemma tab_put T t x : tab T t -> json_ok x -> tab (<[(r_kind (st_row x), r_id (st_row x)) := st_row x]> T) (<[st_id x := x]> t).
Proof.
  intros [Hh Hj Hk] Hx. rewrite st_row_kind, st_row_id. split.
  - intros k. destruct (decide (k = st_id x)) as [->|Hne]; [by rewrite !lookup_insert_eq|]. rewrite !lookup_insert_ne by congruence. apply Hh.
  - intros k y. rewrite lookup_insert_Some. intros [[_ <-]|[_ ?]]; eauto.
  - by apply keyed_insert.
Qed.
Lemma tab_delete T t k : tab T t -> tab (delete (st_kind, k) T) (delete k t).
Proof.
  intros [Hh Hj Hk]. split.
  - intros k'. destruct (decide (k' = k)) as [->|Hne]; [by rewrite !lookup_delete_eq|]. rewrite !lookup_delete_ne by congruence. apply Hh.
  - intros k' x [_ ?]%lookup_delete_Some. eauto.
  - by apply keyed_delete.
Qed.
Lemma tab_other T T' t : tab T t -> (forall k, T' !! (st_kind, k) = T !! (st_kind, k)) -> tab T' t.
Proof. intros [Hh Hj Hk] HT. split; [|done..]. intros k. by rewrite HT. Qed.
Lemma tab_purge T t inst : tab T t ->
  tab (effect (PurgeRows inst) T) (drop_of st_inst inst t).
Proof.
  intros [Hh Hj Hk]. split.
  - intros k. apply option_eq. intros r. cbn. rewrite map_lookup_filter_Some, Hh, !fmap_Some. cbn. split.
    + intros [(x & Hx & ->) Hi]. exists x. split; [|done]. rewrite drop_of_Some. rewrite st_row_inst, String.eqb_neq in Hi. done.
    + intros (x & [Hx Hi]%drop_of_Some & ->). split; [by exists x|]. by rewrite st_row_inst, String.eqb_neq.
  - intros k x [Hx _]%drop_of_Some. eauto.
  - by apply keyed_filter.
Qed.
Lemma tab_by_id T t k : tab T t -> selected (ById st_kind k) T = map st_row (option_list (t !! k)).
Proof.
  intros Ht. unfold selected.
  assert (keep (selects (ById st_kind k)) (map_to_list T) ≡ₚ map (fun r => ((st_kind, k), r)) (option_list (T !! (st_kind, k)))) as Hp.
  { apply NoDup_Permutation; [apply NoDup_filter, NoDup_map_to_list|by destruct (T !! _); cbn; [apply NoDup_singleton|constructor]|].
    intros [[k1 k2] r]. unfold keep. rewrite list_elem_of_filter, (elem_of_map_to_list T (k1, k2) r). cbn.
    rewrite andb_true_iff, !String.eqb_eq. split.
    - intros [[-> ->] Hr]. rewrite Hr. cbn. set_solver.
    - destruct (T !! (st_kind, k)) eqn:E; cbn; [|set_solver]. intros [= -> -> ->]%list_elem_of_singleton. done. }
  rewrite (tab_holds _ _ Ht) in Hp. destruct (t !! k); cbn in *.
  - by apply Permutation_singleton_r in Hp as ->.
  - by apply Permutation_nil_r in Hp as ->.
Qed.
Lemma tab_selected T t inst : tab T t ->
  selected (selection_of st_kind inst) T ≡ₚ map st_row (keep (fun x => str_field inst (st_inst x)) (map snd (map_to_list t))).
Proof.
  intros Ht. rewrite (selected_rows st_kind st_row T t inst (tab_holds _ _ Ht)). f_equiv. apply Permutation_refl'.
  unfold keep. apply list_filter_iff. intros x. unfold in_scope. by rewrite st_row_inst.
Qed.
End tab.

(** A sort does not depend on the order of what it sorts, when only equal
    elements are in each other's place. *)
Lemma sort_unique {A} (R : A -> A -> Prop) `{!RelDecision R, !Total R, !Transitive R} l l' :
  (forall x y, x ∈ l -> y ∈ l -> R x y -> R y x -> x = y) -> l ≡ₚ l' -> merge_sort R l = merge_sort R l'.
Proof.
  intros Ha Hp. apply (StronglySorted_unique_strong R); [|apply StronglySorted_merge_sort; apply _..|by rewrite !merge_sort_Permutation].
  intros x y. rewrite !merge_sort_Permutation, <- Hp. apply Ha.
Qed.
Lemma str_le_antisym a b : str_le a b = true -> str_le b a = true -> a = b.
Proof.
  rewrite !str_le_lt, !negb_true_iff. intros H1 H2. destruct (str_lt_total a b) as [|[H|H]]; congruence.
Qed.

(** ** Calls of a database that answers *)
Section calls.
Context {U : Unicode} {MO : MapOrder} {D : Database} {RJ : RecordJson} {d : SQLDialect} {L : DatabaseLaws d}.
Implicit Types s : SQL.

Definition tb (s : SQL) : table := tbl (sq_db s).
(** The connection is the one of the laws, and answers. *)
Definition live (s : SQL) : Prop := sq_dialect s = d /\ up (sq_db s).
(** [s'] is [s] after calls that left the table and the counters alone. *)
Definition same (s s' : SQL) : Prop := live s' /\ tb s' = tb s /\ sq_seq s' = sq_seq s.
Definition changed (c : change) (s s' : SQL) : Prop := live s' /\ tb s' = effect c (tb s) /\ sq_seq s' = sq_seq s.
Lemma same_refl s : live s -> same s s. Proof. by split. Qed.
Lemma same_trans s1 s2 s3 : same s1 s2 -> same s2 s3 -> same s1 s3.
Proof. intros (_ & H1 & H2) (? & H3 & H4). split_and!; congruence. Qed.
Lemma same_live s s' : same s s' -> live s'. Proof. by intros []. Qed.

Lemma exec_changes c s : live s -> sends (change_args c) ->
  exists n s', exec (source_change (sq_dialect s) c) (change_args c) s = (Ok (inr n), s') /\ changed c s s' /\
    forall b, finds c (tb s) = Some b -> (0 <? n) = b.
Proof.
  intros [Hd Hu] Hs. unfold exec. rewrite Hd, sent_change. destruct (law_change c (sq_db s) Hu Hs) as (n & st' & -> & Hu' & Ht & Hn).
  exists n, (set_sq_db st' s). by split_and!.
Qed.
Lemma upsert_puts r s : live s -> sends (row_args r) -> exists s', upsert r s = (Ok tt, s') /\ changed (Upsert r) s s'.
Proof.
  intros Hl Hs. destruct (exec_changes (Upsert r) s Hl Hs) as (n & s' & He & Hc & _). exists s'. split; [|done].
  cbn [source_change change_args] in He. unfold upsert, mbind, ST_bind, get. by rewrite He.
Qed.
Lemma delete_deletes kind id s : live s -> sends [SText kind; SText id] ->
  exists s', delete_row kind id s = (Ok (bool_decide (is_Some (tb s !! (kind, id)))), s') /\ changed (DeleteRow kind id) s s'.
Proof.
  intros Hl Hs. destruct (exec_changes (DeleteRow kind id) s Hl Hs) as (n & s' & He & Hc & Hn). exists s'. split; [|done].
  cbn [source_change change_args] in He. unfold delete_row, mbind, ST_bind. rewrite He. cbn. by rewrite (Hn _ eq_refl).
Qed.
Lemma claim_claims kind id data until now s : live s ->
  let c := Claim data (unixOrZero until) kind id "pending" (wrap64 now) in sends (change_args c) ->
  exists s', claimPending kind id data until now s
    = (Ok (bool_decide (is_Some (claimable kind id "pending" (wrap64 now) (tb s)))), s') /\ changed c s s'.
Proof.
  intros Hl c Hs. destruct (exec_changes c s Hl Hs) as (n & s' & He & Hc & Hn). exists s'. split; [|done].
  cbn [source_change change_args c] in He. unfold claimPending, mbind, ST_bind. rewrite He. cbn. by rewrite (Hn _ eq_refl).
Qed.

Lemma query_selects c s : live s -> sends (selection_args c) ->
  exists rs s', query (source_selection c) (selection_args c) s = (Ok (map (fun r => [SText (r_data r)]) rs, None), s') /\
    same s s' /\ rs ≡ₚ selected c (tb s).
Proof.
  intros [Hd Hu] Hs. unfold query. rewrite Hd, sent_selection. destruct (law_select c (sq_db s) Hu Hs) as (rs & st' & -> & Hu' & Ht & Hrs).
  exists rs, (set_sq_db st' s). by split_and!.
Qed.

Section record.
Context {A} `{Stored A}.
Lemma unmarshal_ok (x : A) s : json_ok x -> unmarshal (marshal x) s = (Ok x, s).
Proof. intros Hx. unfold unmarshal. by rewrite decode_marshal. Qed.
(** [getData] *)
Lemma get_reads (t : gmap string A) k s : live s -> tab (tb s) t -> sends [SText st_kind; SText k] ->
  exists s', getData st_kind k s = (match t !! k with Some x => Ok x | None => Err ENotFound end, s') /\ same s s'.
Proof.
  intros Hl Ht Hs. destruct (query_selects (ById st_kind k) s Hl Hs) as (rs & s' & Hq & Hsame & Hrs). exists s'. split; [|done].
  cbn [source_selection selection_args] in Hq. rewrite (tab_by_id _ _ _ Ht) in Hrs.
  unfold getData, query_row, mbind, ST_bind. rewrite Hq. destruct (t !! k) as [x|] eqn:Ex; cbn in Hrs.
  - apply Permutation_singleton_r in Hrs as ->. cbn. rewrite st_row_data. apply unmarshal_ok. by eapply tab_json.
  - by apply Permutation_nil_r in Hrs as ->.
Qed.
(** The rows that a scan reads are the JSON of the records in its scope, in
    some order. *)
Lemma scan_reads {B} (t : gmap string A) inst (fn : string -> B -> DB B) acc s : live s -> tab (tb s) t ->
  (inst <> "" -> sends [SText st_kind; SText inst]) ->
  exists xs s', xs ≡ₚ keep (fun x => str_field inst (st_inst x)) (map snd (map_to_list t)) /\
    (forall x, x ∈ xs -> json_ok x) /\ same s s' /\
    scanKind st_kind inst fn acc s = scan_rows fn (map (fun x => [SText (marshal x)]) xs) acc s'.
Proof.
  intros Hl Ht Hs. set (c := selection_of st_kind inst). assert (sends (selection_args c)) as Hc.
  { unfold c, selection_of. destruct (String.eqb_spec inst ""); cbn; [apply sends_kind, st_in|auto]. }
  destruct (query_selects c s Hl Hc) as (rs & s' & Hq & Hsame & Hrs). unfold c in Hrs. rewrite (tab_selected _ _ inst Ht) in Hrs.
  apply Permutation_map_inv in Hrs as (xs & -> & Hxs). exists xs, s'. symmetry in Hxs. split_and!; [done| |done|].
  - intros x. rewrite Hxs. unfold keep. rewrite list_elem_of_filter, elem_of_values. intros [_ [k Hx]]. by eapply tab_json.
  - unfold scanKind, mbind, ST_bind. unfold c, selection_of in Hq.
    assert (map (fun r => [SText (r_data r)]) (map st_row xs) = map (fun x => [SText (marshal x)]) xs) as Hrows.
    { rewrite map_map. apply map_ext. intros x. by rewrite st_row_data. }
    rewrite Hrows in Hq.
    destruct (String.eqb inst ""); cbn [source_selection selection_args] in Hq; rewrite Hq; cbn [fst snd];
      by destruct (scan_rows _ _ _ _) as [[]].
Qed.
Lemma scan_folds {B} (fn : string -> B -> DB B) (g : B -> A -> B) xs acc s :
  (forall x acc s, json_ok x -> fn (marshal x) acc s = (Ok (g acc x), s)) -> (forall x, x ∈ xs -> json_ok x) ->
  scan_rows fn (map (fun x => [SText (marshal x)]) xs) acc s = (Ok (fold_left g xs acc), s).
Proof.
  intros Hfn. revert acc. induction xs as [|x xs IH]; intros acc Hj; cbn [map scan_rows fold_left]; [done|].
  unfold mbind, ST_bind, of_sum. cbn. rewrite Hfn by (apply Hj; set_solver). apply IH. intros y Hy. apply Hj. set_solver.
Qed.
Lemma fold_keep (p : A -> bool) xs acc : fold_left (fun out a => if p a then out ++ [a] else out)%list xs acc = (acc ++ keep p xs)%list.
Proof.
  revert acc. induction xs as [|x xs IH]; intros acc; cbn [fold_left]; [by rewrite app_nil_r|]. rewrite IH. unfold keep. rewrite filter_cons.
  destruct (p x); [rewrite decide_True by done; by rewrite <- app_assoc|by rewrite decide_False by done].
Qed.
Lemma collect_keeps (t : gmap string A) inst p s : live s -> tab (tb s) t -> (inst <> "" -> sends [SText st_kind; SText inst]) ->
  exists xs s', xs ≡ₚ keep (fun x => str_field inst (st_inst x)) (map snd (map_to_list t)) /\ same s s' /\
    collect st_kind inst p s = (Ok (keep p xs), s').
Proof.
  intros Hl Ht Hs. unfold collect.
  destruct (scan_reads t inst (fun data out => a ← unmarshal data; mret (if p a then out ++ [a] else out)%list) [] s Hl Ht Hs)
    as (xs & s' & Hxs & Hj & Hsame & ->).
  exists xs, s'. split_and!; [done|done|]. rewrite (scan_folds _ (fun out a => if p a then out ++ [a] else out)%list); [|clear; intros x acc s Hx|done].
  - by rewrite fold_keep.
  - unfold mbind, ST_bind. by rewrite unmarshal_ok.
Qed.

(** The order in which the rows come does not matter to a list. *)
Lemma values_keyed (t : gmap string A) x y : keyed st_id t ->
  x ∈ map snd (map_to_list t) -> y ∈ map snd (map_to_list t) -> st_id x = st_id y -> x = y.
Proof.
  intros Hk [k Hx]%elem_of_values [k' Hy]%elem_of_values E. pose proof (Hk _ _ Hx). pose proof (Hk _ _ Hy). congruence.
Qed.
Lemma keep_keep (p r : A -> bool) l : keep p (keep r l) = keep (fun x => r x && p x) l.
Proof.
  unfold keep. rewrite list_filter_filter. apply list_filter_iff. intros x. rewrite andb_true_iff. naive_solver.
Qed.
Lemma keep_perm (p : A -> bool) l l' : l ≡ₚ l' -> keep p l ≡ₚ keep p l'.
Proof. unfold keep. by intros ->. Qed.
Lemma sorted_select (t : gmap string A) inst p desc limit xs : keyed st_id t ->
  xs ≡ₚ keep (fun x => str_field inst (st_inst x)) (map snd (map_to_list t)) ->
  limited limit (sort_by_id st_id desc (keep p xs)) = select st_id (fun x => str_field inst (st_inst x) && p x) desc limit t.
Proof.
  intros Hk Hxs. unfold select. f_equal. apply (keep_perm p) in Hxs. rewrite keep_keep in Hxs.
  apply (sort_unique (id_le st_id desc)); [|exact Hxs]. intros x y Hx Hy Hxy Hyx. rewrite Hxs in Hx, Hy. unfold keep in Hx, Hy.
  apply list_elem_of_filter in Hx as [_ Hx], Hy as [_ Hy]. apply (values_keyed t); [done..|].
  unfold id_le in *. destruct desc; by apply str_le_antisym.
Qed.
Lemma list_selects (t : gmap string A) inst p desc limit s : live s -> tab (tb s) t -> (inst <> "" -> sends [SText st_kind; SText inst]) ->
  exists s', list_by_id st_id st_kind inst p desc limit s
    = (Ok (select st_id (fun x => str_field inst (st_inst x) && p x) desc limit t), s') /\ same s s'.
Proof.
  intros Hl Ht Hs. destruct (collect_keeps t inst p s Hl Ht Hs) as (xs & s' & Hxs & Hsame & Hc). exists s'. split; [|done].
  unfold list_by_id, mbind, ST_bind. rewrite Hc. unfold mret, ST_ret. do 2 f_equal.
  apply sorted_select; [by eapply tab_keyed|done].
Qed.
End record.

(** ** The relation *)
Definition hist_in (i : string) (hs : gmap string (list HistoryEvent)) : list HistoryEvent := default [] (hs !! i).
(** The events of the history are the rows of their kind, with numbers that
    fit the column. *)
Definition events (T : table) (hs : gmap string (list HistoryEvent)) : Prop :=
  exists h : gmap string HistoryEvent, tab T h /\ (forall k ev, h !! k = Some ev -> hv_seq ev < 2 ^ 63) /\
    forall i ev, ev ∈ hist_in i hs <-> hv_inst ev = i /\ h !! st_id ev = Some ev.
(** A lock has a holder, and a time that fits the column. *)
Definition column_time (t : Z) : Prop := t = zero_time \/ - 2 ^ 63 <= t < 2 ^ 63.
Definition lock_ok (holder : string) (until : Z) : Prop := until = zero_time \/ (holder <> "" /\ column_time until).
Definition sendable (T : table) : Prop := forall k r, T !! k = Some r -> sends (row_args r).
Record rel (T : table) (m : Memory) : Prop := {
  rel_definitions : tab T (m_definitions m);
  rel_instances : tab T (m_instances m);
  rel_tasks : tab T (m_tasks m);
  rel_jobs : tab T (m_jobs m);
  rel_externals : tab T (m_externals m);
  rel_agent_jobs : tab T (m_agent_jobs m);
  rel_subs : tab T (m_subs m);
  rel_incidents : tab T (m_incidents m);
  rel_blobs : tab T (m_blobs m);
  rel_history : events T (m_history m);
  rel_ext_locks k t : m_externals m !! k = Some t -> lock_ok (ex_locked_by t) (ex_lock_until t);
  rel_agent_locks k j : m_agent_jobs m !! k = Some j -> lock_ok (ag_locked_by j) (ag_lock_until j);
  rel_sendable : sendable T;
}.
Record abs (s : SQL) (m : Memory) : Prop := {
  abs_live : live s;
  abs_ok : memory_ok m;
  abs_rel : rel (tb s) m;
  abs_seq i n : sq_seq s !! i = Some n -> hist_seq_of i m = n;
}.
Lemma abs_same s s' m : abs s m -> same s s' -> abs s' m.
Proof. intros [Hl Hok Hr Hs] (Hl' & Ht & Hq). split; [done|done|by rewrite Ht|by rewrite Hq]. Qed.

(** Calls that change the rows of one kind only. *)
Record framed (kind : string) (s s' : SQL) : Prop := {
  fr_live : live s';
  fr_other k id : k <> kind -> tb s' !! (k, id) = tb s !! (k, id);
  fr_seq : sq_seq s' = sq_seq s;
  fr_sendable : sendable (tb s) -> sendable (tb s');
}.
Lemma framed_same kind s s' : same s s' -> framed kind s s'.
Proof. intros (Hl & Ht & Hq). split; rewrite ?Ht; done. Qed.
Lemma framed_trans kind s1 s2 s3 : framed kind s1 s2 -> framed kind s2 s3 -> framed kind s1 s3.
Proof.
  intros [H1 H2 H3 H4] [K1 K2 K3 K4]. split; [done| |congruence|auto]. intros k id Hk. by rewrite K2, H2.
Qed.
Lemma framed_other {A} `{Stored A} kind s s' (t : gmap string A) : framed kind s s' -> st_kind <> kind -> tab (tb s) t -> tab (tb s') t.
Proof. intros F Hk Ht. eapply tab_other; [done|]. intros k. by apply (fr_other _ _ _ F). Qed.
Lemma framed_events kind s s' hs : framed kind s s' -> kind <> "hist" -> events (tb s) hs -> events (tb s') hs.
Proof. intros F Hk (h & Ht & He). exists h. split; [|done]. eapply framed_other; [done|by intros E|done]. Qed.

Definition writable {A} `{Stored A} (x : A) : Prop := json_ok x /\ sends (row_args (st_row x)).
Lemma put_puts {A} `{Stored A} (x : A) (t : gmap string A) s : live s -> tab (tb s) t -> writable x ->
  exists s', upsert (st_row x) s = (Ok tt, s') /\ tab (tb s') (<[st_id x := x]> t) /\ framed st_kind s s'.
Proof.
  intros Hl Ht [Hj Hs]. destruct (upsert_puts (st_row x) s Hl Hs) as (s' & -> & Hl' & Htb & Hq). exists s'.
  split_and!; [done|rewrite Htb; by apply tab_put|]. split; [done| |done|]; rewrite Htb; cbn.
  - intros k id Hk. apply lookup_insert_ne. rewrite st_row_kind. congruence.
  - intros Hsend k r [[_ <-]|[_ Hr]]%lookup_insert_Some; [done|by eapply Hsend].
Qed.
Lemma delete_removes {A} `{Stored A} (t : gmap string A) k s : live s -> tab (tb s) t -> sends [SText st_kind; SText k] ->
  exists s', delete_row st_kind k s = (Ok (bool_decide (is_Some (t !! k))), s') /\ tab (tb s') (delete k t) /\ framed st_kind s s'.
Proof.
  intros Hl Ht Hs. destruct (delete_deletes st_kind k s Hl Hs) as (s' & -> & Hl' & Htb & Hq). exists s'. split_and!.
  - do 2 f_equal. rewrite (tab_holds _ _ Ht). apply bool_decide_ext. by rewrite fmap_is_Some.
  - rewrite Htb. by apply tab_delete.
  - split; [done| |done|]; rewrite Htb; cbn.
    + intros k' id Hk. apply lookup_delete_ne. congruence.
    + intros Hsend k' r [_ Hr]%lookup_delete_Some. by eapply Hsend.
Qed.
Lemma row_sends {A} `{Stored A} (t : gmap string A) x s : tab (tb s) t -> sendable (tb s) -> t !! st_id x = Some x ->
  sends [SText st_kind; SText (st_id x)].
Proof.
  intros Ht Hs Hx. rewrite <- (st_row_kind x), <- (st_row_id x). apply sends_key. eapply Hs, tab_row; [done|exact Hx].
Qed.
End calls.

(** ** Claims *)
Section claims.
Context {U : Unicode} {MO : MapOrder} {D : Database} {RJ : RecordJson} {d : SQLDialect} {L : DatabaseLaws d}.
Implicit Types s : SQL.

(** Every job of the list is deleted by this caller. *)
Lemma claim_jobs_all due claimed (t : gmap string Job) s : live s -> tab (tb s) t -> sendable (tb s) ->
  NoDup (map jb_id due) -> (forall j, j ∈ due -> t !! jb_id j = Some j) ->
  exists s', claim_jobs due claimed s = (Ok (claimed ++ due)%list, s') /\
    tab (tb s') (fold_left (fun js j => delete (jb_id j) js) due t) /\ framed "job" s s'.
Proof.
  revert claimed t s. induction due as [|j due IH]; intros claimed t s Hl Ht Hs Hnd Hin; cbn [claim_jobs fold_left].
  - exists s. rewrite app_nil_r. split_and!; [done|done|]. by apply framed_same, same_refl.
  - cbn [map] in Hnd. apply NoDup_cons in Hnd as [Hj Hnd]. assert (t !! jb_id j = Some j) as Hx by (apply Hin; set_solver).
    destruct (delete_removes t (jb_id j) s Hl Ht) as (s1 & Hd & Ht1 & F); [exact (row_sends t j s Ht Hs Hx)|].
    destruct (IH (claimed ++ [j])%list (delete (jb_id j) t) s1) as (s' & Hc & Ht' & F'); [by apply F|done|by apply (fr_sendable _ _ _ F)|done| |].
    { intros j' Hj'. rewrite lookup_delete_ne; [apply Hin; set_solver|]. intros E. apply Hj. rewrite E. by apply list_elem_of_fmap_2. }
    exists s'. split_and!; [|done|by eapply framed_trans].
    unfold mbind, ST_bind. change (delete_row "job" (jb_id j) s) with (delete_row (st_kind (A:=Job)) (jb_id j) s). rewrite Hd, Hx.
    rewrite bool_decide_true by done. by rewrite Hc, <- app_assoc.
Qed.

Section work.
Context {A} `{Stored A} (lock : A -> A) (until now : Z).
Definition lockable (x : A) : Prop :=
  writable (lock x) /\ st_id (lock x) = st_id x /\ set_claim (marshal (lock x)) (unixOrZero until) (st_row x) = st_row (lock x) /\
  r_state (st_row x) = "pending" /\ r_due (st_row x) <= wrap64 now /\
  sends (change_args (Claim (marshal (lock x)) (unixOrZero until) st_kind (st_id x) "pending" (wrap64 now))).
Lemma claim_locks (t : gmap string A) x s : live s -> tab (tb s) t -> t !! st_id x = Some x -> lockable x ->
  exists s', claimPending st_kind (st_id x) (marshal (lock x)) until now s = (Ok true, s') /\
    tab (tb s') (<[st_id x := lock x]> t) /\ framed st_kind s s'.
Proof.
  intros Hl Ht Hx ([Hj Hw] & Hid & Hset & Hst & Hdue & Hs).
  destruct (claim_claims st_kind (st_id x) (marshal (lock x)) until now s Hl Hs) as (s' & -> & Hl' & Htb & Hq).
  assert (claimable st_kind (st_id x) "pending" (wrap64 now) (tb s) = Some (st_row x)) as Hc.
  { unfold claimable. rewrite (tab_row _ _ _ _ Ht Hx), Hst, String.eqb_refl. by rewrite (proj2 (Z.leb_le _ _) Hdue). }
  cbn [effect] in Htb. rewrite Hc in Htb. rewrite Hset in Htb.
  exists s'. rewrite Hc. split_and!; [done| |].
  - rewrite <- Hid. rewrite Htb. rewrite <- (st_row_kind (lock x)), <- Hid, <- (st_row_id (lock x)) at 1. by apply tab_put.
  - split; [done| |done|]; rewrite Htb.
    + intros k id Hk. apply lookup_insert_ne. congruence.
    + intros Hsend k r [[_ <-]|[_ Hr]]%lookup_insert_Some; [done|by eapply Hsend].
Qed.
Lemma claim_all_locks avail out (t : gmap string A) s : live s -> tab (tb s) t ->
  NoDup (map st_id avail) -> (forall x, x ∈ avail -> t !! st_id x = Some x /\ lockable x) ->
  exists s', claim_all st_kind st_id lock until now avail out s = (Ok (out ++ map lock avail)%list, s') /\
    tab (tb s') (fold_left (fun t x => <[st_id x := lock x]> t) avail t) /\ framed st_kind s s'.
Proof.
  revert out t s. induction avail as [|x avail IH]; intros out t s Hl Ht Hnd Hin; cbn [claim_all fold_left map].
  - exists s. rewrite app_nil_r. split_and!; [done|done|]. by apply framed_same, same_refl.
  - cbn [map] in Hnd. apply NoDup_cons in Hnd as [Hx Hnd]. destruct (Hin x ltac:(set_solver)) as [Hlx Hlock].
    destruct (claim_locks t x s Hl Ht Hlx Hlock) as (s1 & Hc & Ht1 & F).
    destruct (IH (out ++ [lock x])%list (<[st_id x := lock x]> t) s1) as (s' & Hc' & Ht' & F'); [by apply F|done|done| |].
    { intros y Hy. destruct (Hin y ltac:(set_solver)) as [Hly ?]. split; [|done]. rewrite lookup_insert_ne; [done|].
      intros E. apply Hx. rewrite E. by apply list_elem_of_fmap_2. }
    exists s'. split_and!; [|done|by eapply framed_trans].
    unfold mbind, ST_bind. rewrite Hc. by rewrite Hc', <- app_assoc.
Qed.
Lemma fetch_locks (t : gmap string A) (avail : A -> bool) limit s : live s -> tab (tb s) t ->
  (forall k x, t !! k = Some x -> avail x = true -> lockable x) ->
  exists s', fetch_work st_kind st_id avail lock until now limit s = (Ok (fetch_and_lock st_id avail lock limit t).1, s') /\
    tab (tb s') (fetch_and_lock st_id avail lock limit t).2 /\ framed st_kind s s'.
Proof.
  intros Hl Ht Hav. destruct (list_selects t "" avail false limit s Hl Ht) as (s1 & Hc & Hsame); [done|].
  rewrite (select_ext st_id _ avail) in Hc by done. set (l := select st_id avail false limit t) in *.
  assert (forall x, x ∈ l -> t !! st_id x = Some x /\ avail x = true) as Hin.
  { intros x Hx. unfold l in Hx. rewrite select_limit in Hx. apply limited_elem_of, elem_of_select_all in Hx as [Ha [k Hk]].
    by rewrite (tab_keyed _ _ Ht _ _ Hk). }
  assert (NoDup (map st_id l)) as Hnd.
  { unfold l. rewrite select_limit. destruct (limited_prefix limit (select st_id avail false 0 t)) as [r Hr].
    pose proof (select_all_NoDup st_id avail false t (tab_keyed _ _ Ht)) as Hn. rewrite Hr, fmap_app in Hn. by apply NoDup_app in Hn as []. }
  pose proof Hsame as (Hl1 & Ht1 & _).
  destruct (claim_all_locks l [] t s1 Hl1) as (s' & Hc' & Ht' & F); [by rewrite Ht1|done| |].
  { intros x Hx. destruct (Hin x Hx). split; [done|]. by eapply Hav. }
  exists s'. unfold fetch_and_lock. fold l. cbn [fst snd]. split_and!; [|done|].
  - unfold fetch_work, mbind, ST_bind. by rewrite Hc, Hc'.
  - eapply framed_trans; [by apply framed_same|done].
Qed.
End work.
End claims.

(** ** History *)
Lemma ST_step {S A B} (m : ST S A) (f : A -> ST S B) s a s1 r : m s = (Ok a, s1) -> f a s1 = r -> (m ≫= f) s = r.
Proof. unfold mbind, ST_bind. by intros -> <-. Qed.
Lemma string_app_inj a b x y : String.length x = String.length y -> a ++ x = b ++ y -> a = b /\ x = y.
Proof.
  revert b. induction a as [|c a IH]; intros [|c' b] Hl E; cbn in E.
  - by split.
  - subst x. cbn in Hl. rewrite string_app_length in Hl. lia.
  - subst y. cbn in Hl. rewrite string_app_length in Hl. lia.
  - injection E as -> E. by destruct (IH b Hl E) as [-> ->].
Qed.
Lemma hex_pad_length n z a : String.length (hex_pad n z a) = (n + String.length a)%nat.
Proof. revert z a. induction n as [|n IH]; intros z a; cbn [hex_pad]; [done|]. rewrite IH. cbn. lia. Qed.
Lemma hist_id_inj i i' n n' : 0 < n < 2 ^ 63 -> 0 < n' < 2 ^ 63 -> hist_id i n = hist_id i' n' -> i = i' /\ n = n'.
Proof.
  intros Hn Hn'. unfold hist_id. rewrite !(hex_min_small 16) by (cbn; lia). intros E.
  apply string_app_inj in E as [-> E]; [|cbn [String.append String.length]; by rewrite !hex_pad_length]. split; [done|].
  pose proof (hex_pad_compare 16 n n' "" "" ltac:(cbn; lia) ltac:(cbn; lia)) as Hc.
  set (a := hex_pad 16 n "") in *. set (b := hex_pad 16 n' "") in *. clearbody a b. injection E as ->. rewrite str_compare_refl in Hc.
  destruct (Z.compare_spec n n') as [|H|H]; cbn in Hc; done.
Qed.

Section history.
Context {U : Unicode} {MO : MapOrder} {D : Database} {RJ : RecordJson} {d : SQLDialect} {L : DatabaseLaws d}.
Implicit Types s : SQL.

Lemma seqs_sorted l : seqs_ok l -> StronglySorted (fun a b => seq_le a b = true) l.
Proof.
  intros [Hs _]. induction Hs as [|ev l _ IH Hev]; constructor; [done|]. eapply Forall_impl; [exact Hev|].
  intros ev' H. cbn in H. apply Z.leb_le. lia.
Qed.
Lemma seqs_unique l a b : seqs_ok l -> a ∈ l -> b ∈ l -> hv_seq a = hv_seq b -> a = b.
Proof.
  intros [Hs _]. induction Hs as [|ev l _ IH Hev]; [set_solver|]. rewrite Forall_forall in Hev.
  intros [->|Ha]%elem_of_cons [->|Hb]%elem_of_cons E; [done| | |by apply IH].
  - specialize (Hev b Hb). lia.
  - specialize (Hev a Ha). lia.
Qed.
Lemma last_largest l : seqs_ok l -> (forall ev, ev ∈ l -> hv_seq ev <= last_seq l) /\ (l <> [] -> exists ev, ev ∈ l /\ hv_seq ev = last_seq l).
Proof.
  intros [Hs _]. destruct l as [|ev l _] using rev_ind; [split; [set_solver|done]|]. unfold last_seq. rewrite last_snoc. split.
  - intros x [Hx|Hx]%elem_of_app; [|apply list_elem_of_singleton in Hx; subst; lia].
    apply Z.lt_le_incl. eapply (StronglySorted_app_1_elem_of (fun a b => hv_seq a < hv_seq b)); [exact Hs|done|set_solver].
  - intros _. exists ev. split; [set_solver|done].
Qed.
Lemma events_in T hs (h : gmap string HistoryEvent) i : i <> "" -> tab T h ->
  (forall i ev, ev ∈ hist_in i hs <-> hv_inst ev = i /\ h !! st_id ev = Some ev) ->
  forall ev, ev ∈ keep (fun x => str_field i (st_inst x)) (map snd (map_to_list h)) <-> ev ∈ hist_in i hs.
Proof.
  intros Hi Ht Hh ev. unfold keep. rewrite list_elem_of_filter, elem_of_values, Hh. unfold str_field.
  destruct (String.eqb_spec i "") as [|_]; [done|]. rewrite orb_false_l, String.eqb_eq.
  change (st_inst ev) with (hv_inst ev). split.
  - intros [-> [k Hk]]. split; [done|]. by rewrite (tab_keyed _ _ Ht _ _ Hk).
  - intros [<- Hk]. eauto.
Qed.

(** [MAX(seq)] is the number of the last event. *)
Lemma last_number_reads i s m : abs s m -> i <> "" -> sends [SText "hist"; SText i] ->
  exists s', last_number i s = (Ok (hist_seq_of i m), s') /\ live s' /\ tb s' = tb s /\
    sq_seq s' !! i = Some (hist_seq_of i m) /\ (forall j, j <> i -> sq_seq s' !! j = sq_seq s !! j).
Proof.
  intros Ha Hi Hs. pose proof (abs_live _ _ Ha) as [Hd Hu]. unfold last_number, mbind at 1, ST_bind at 1, get.
  destruct (sq_seq s !! i) as [n|] eqn:En.
  { rewrite (abs_seq _ _ Ha _ _ En) in *. exists s. by split_and!. }
  unfold query_row, query, mbind, ST_bind. rewrite Hd, sent_max.
  destruct (law_max i (sq_db s) Hu Hs) as (v & o & st' & -> & Hu' & Ht & Hv & Hmax). cbn [scan_one]. rewrite Hv. cbn.
  assert (default 0 o = hist_seq_of i m) as Hn.
  { rewrite (hist_seq_of_last _ _ (abs_ok _ _ Ha)). destruct (hist_of_ok m i (abs_ok _ _ Ha)) as [Hok _].
    destruct (last_largest _ Hok) as [Hle Hex]. destruct (rel_history _ _ (abs_rel _ _ Ha)) as (h & Hth & _ & Hh).
    assert (selected (OfInstance "hist" i) (tbl (sq_db s)) ≡ₚ map hist_row (keep (fun x => str_field i (st_inst x)) (map snd (map_to_list h)))) as Hsel.
    { pose proof (tab_selected _ _ i Hth) as E. unfold selection_of in E. destruct (String.eqb_spec i ""); [done|exact E]. }
    pose proof (events_in _ _ h i Hi Hth Hh) as Hin. change (hist_in i (m_history m)) with (hist_of i m) in Hin.
    destruct o as [n|]; cbn in Hmax |- *.
    - destruct Hmax as [(r & Hr & <-) Hmax]. rewrite Hsel in Hr. apply list_elem_of_fmap in Hr as (ev & -> & Hev%Hin). cbn.
      apply Z.le_antisymm; [by apply Hle|]. destruct Hex as (ev' & Hev' & <-); [by intros E; rewrite E in Hev; apply elem_of_nil in Hev|].
      specialize (Hmax (hist_row ev')). cbn in Hmax. apply Hmax. rewrite Hsel. by apply list_elem_of_fmap_2, Hin.
    - rewrite Hmax in Hsel. apply Permutation_nil in Hsel. destruct (hist_of i m) as [|ev l] eqn:El; [done|].
      assert (ev ∈ keep (fun x => str_field i (st_inst x)) (map snd (map_to_list h))) as Hev by (apply Hin; set_solver).
      destruct (keep _ _); [by apply elem_of_nil in Hev|done]. }
  rewrite Hn. eexists. split; [reflexivity|]. cbn. split_and!; [split; auto|done|by rewrite lookup_insert_eq|].
  intros j Hj. by rewrite lookup_insert_ne.
Qed.

Lemma events_append T T' hs h ev : tab T h -> (forall k ev, h !! k = Some ev -> hv_seq ev < 2 ^ 63) ->
  (forall i ev, ev ∈ hist_in i hs <-> hv_inst ev = i /\ h !! st_id ev = Some ev) ->
  seqs_ok (hist_in (hv_inst ev) hs) -> 0 < hv_seq ev < 2 ^ 63 -> (forall ev', ev' ∈ hist_in (hv_inst ev) hs -> hv_seq ev' < hv_seq ev) ->
  (forall i ev', ev' ∈ hist_in i hs -> 0 < hv_seq ev') ->
  tab T' (<[st_id ev := ev]> h) -> events T' (<[hv_inst ev := (hist_in (hv_inst ev) hs ++ [ev])%list]> hs).
Proof.
  intros Ht Hlt Hh Hok Hev Hnew Hpos Ht'. exists (<[st_id ev := ev]> h). split_and!; [done| |].
  { intros k x [[_ <-]|[_ ?]]%lookup_insert_Some; [lia|eauto]. }
  assert (forall x, h !! st_id x = Some x -> st_id x <> st_id ev) as Hfresh.
  { intros x Hx E. assert (x ∈ hist_in (hv_inst x) hs) as Hin by by apply Hh.
    apply hist_id_inj in E as [Ei Es]; [|split; [by eapply Hpos|by eapply Hlt]|done].
    rewrite Ei in Hin. specialize (Hnew x Hin). lia. }
  intros i x. unfold hist_in at 1. destruct (decide (i = hv_inst ev)) as [->|Hi].
  - rewrite lookup_insert_eq. cbn [default from_option]. unfold id at 1. rewrite elem_of_app, list_elem_of_singleton, Hh. split.
    + intros [[Hx Hk]| ->]; [|split; [done|by rewrite lookup_insert_eq]]. split; [done|].
      rewrite lookup_insert_ne; [done|]. intros E. by apply (Hfresh x Hk).
    + intros [Hx [[E ->]|[_ Hk]]%lookup_insert_Some]; [by right|by left].
  - rewrite lookup_insert_ne by done. change (default [] (hs !! i)) with (hist_in i hs). rewrite Hh. split.
    + intros [Hx Hk]. split; [done|]. rewrite lookup_insert_ne; [done|]. intros E. by apply (Hfresh x Hk).
    + intros [Hx [[E <-]|[_ Hk]]%lookup_insert_Some]; [by rewrite Hx in Hi|done].
Qed.
Lemma rel_hist T T' m hs seqs : rel T m -> (forall k id, k <> "hist" -> T' !! (k, id) = T !! (k, id)) -> events T' hs -> sendable T' ->
  rel T' (set_m_hist_seq seqs (set_m_history hs m)).
Proof.
  intros [] HT He Hs. split; cbn; try done; (eapply tab_other; [eassumption|]; intros k; by apply HT).
Qed.
Lemma append_appends s m ev : abs s m -> op_pre (OAppendHistory ev) m -> hv_inst ev <> "" ->
  writable (StoreMemory.AppendHistory ev m).1 -> hv_seq (StoreMemory.AppendHistory ev m).1 < 2 ^ 63 ->
  exists s', AppendHistory ev s = (Ok (StoreMemory.AppendHistory ev m).1, s') /\ abs s' (StoreMemory.AppendHistory ev m).2.
Proof.
  intros Ha Hpre Hi Hw Hlt. pose proof (abs_ok _ _ Ha) as Hok.
  pose proof (run_op_ok_core (OAppendHistory ev) m Hok Hpre) as Hok'. cbn [run_op] in Hok'.
  destruct (append_history_seq ev m Hok Hpre) as (Hnext & Hhist & Hseq & Hinst).
  set (ev' := (StoreMemory.AppendHistory ev m).1) in *. set (m' := (StoreMemory.AppendHistory ev m).2) in *.
  assert (sends [SText "hist"; SText (hv_inst ev)]) as Hs.
  { rewrite <- Hinst. destruct Hw as [_ Hw]. apply (sends_instance _ "hist" Hw). unfold kinds. set_solver. }
  destruct (last_number_reads _ s m Ha Hi Hs) as (s1 & Hn & Hl1 & Ht1 & Hq1 & Hq1').
  destruct (hist_of_ok m (hv_inst ev) Hok) as [Hseqs _]. destruct (last_largest _ Hseqs) as [Hle _].
  rewrite (hist_seq_of_last _ _ Hok) in Hnext. pose proof (last_seq_nonneg _ Hseqs) as Hnn.
  destruct (rel_history _ _ (abs_rel _ _ Ha)) as (h & Hth & Hbound & Hh).
  assert (exists s2, (cur ← last_number (hv_inst ev);
     ev ← (if hv_seq ev =? 0 then
             modify (fun s : SQL => set_sq_seq (<[hv_inst ev := cur + 1]> (sq_seq s)) s);; mret (set_hv_seq (cur + 1) ev)
           else when (cur <? hv_seq ev) (modify (fun s : SQL => set_sq_seq (<[hv_inst ev := hv_seq ev]> (sq_seq s)) s));; mret ev);
     upsert (hist_row ev);; mret ev) s = (upsert (hist_row ev');; mret ev') s2 /\
     live s2 /\ tb s2 = tb s /\ sq_seq s2 !! hv_inst ev = Some (hv_seq ev') /\
     (forall j, j <> hv_inst ev -> sq_seq s2 !! j = sq_seq s !! j)) as (s2 & Heq & Hl2 & Ht2 & Hq2 & Hq2').
  { unfold mbind at 1, ST_bind at 1. rewrite Hn. unfold ev', StoreMemory.AppendHistory in Hnext |- *. cbn [fst] in Hnext |- *.
    rewrite (hist_seq_of_last _ _ Hok) in *.
    destruct (Z.eqb_spec (hv_seq ev) 0) as [E|E].
    - eexists. split; [reflexivity|]. cbn. split_and!; [done|done|by rewrite lookup_insert_eq|]. intros j Hj. rewrite lookup_insert_ne by done. by apply Hq1'.
    - rewrite (proj2 (Z.ltb_lt _ _)) by done. eexists. split; [reflexivity|]. cbn.
      split_and!; [done|done|by rewrite lookup_insert_eq|]. intros j Hj. rewrite lookup_insert_ne by done. by apply Hq1'. }
  unfold AppendHistory. rewrite Heq. destruct (put_puts ev' h s2 Hl2) as (s' & Hput & Htab & F); [by rewrite Ht2|done|].
  exists s'. split; [unfold mbind, ST_bind; change (hist_row ev') with (st_row ev'); by rewrite Hput|].
  split; [by apply F|done| |].
  - assert (m' = set_m_hist_seq (m_hist_seq m') (set_m_history (m_history m') m)) as -> by done.
    rewrite Hhist. eapply rel_hist; [by apply Ha| | |].
    + intros k id Hk. rewrite (fr_other _ _ _ F) by done. by rewrite Ht2.
    + rewrite <- Hinst in *. eapply events_append; [exact Hth|done|exact Hh|exact Hseqs|lia| | |exact Htab].
      * intros x Hx. specialize (Hle x Hx). lia.
      * intros i x Hx. destruct (hist_of_ok m i Hok) as [[_ Hp] _]. rewrite Forall_forall in Hp. by apply Hp.
    + apply (fr_sendable _ _ _ F). rewrite Ht2. by apply Ha.
  - intros i n. rewrite (fr_seq _ _ _ F). unfold hist_seq_of. rewrite Hseq. destruct (decide (i = hv_inst ev)) as [->|Hne].
    + rewrite Hq2, lookup_insert_eq. by intros [= <-].
    + rewrite Hq2', lookup_insert_ne by done. apply (abs_seq _ _ Ha).
Qed.

Lemma list_history_reads s m i f : abs s m -> i <> "" -> sends [SText "hist"; SText i] ->
  exists s', ListHistory i f s = (Ok (StoreMemory.ListHistory i f m), s') /\ same s s'.
Proof.
  intros Ha Hi Hs. destruct (rel_history _ _ (abs_rel _ _ Ha)) as (h & Hth & _ & Hh).
  destruct (collect_keeps h i (match_history f) s (abs_live _ _ Ha) Hth) as (xs & s' & Hxs & Hsame & Hc); [done|].
  exists s'. split; [|done]. unfold ListHistory, mbind, ST_bind.
  change (collect (A := HistoryEvent) "hist" i (match_history f) s) with (collect (A := HistoryEvent) (st_kind (A := HistoryEvent)) i (match_history f) s). rewrite Hc.
  unfold mret, ST_ret, StoreMemory.ListHistory. do 3 f_equal.
  pose proof (events_in _ _ h i Hi Hth Hh) as Hin. change (hist_in i (m_history m)) with (hist_of i m) in Hin.
  destruct (hist_of_ok m i (abs_ok _ _ Ha)) as [Hok _]. pose proof (seqs_sorted _ Hok) as Hsorted.
  assert (xs ≡ₚ hist_of i m) as Hp.
  { apply NoDup_Permutation.
    - rewrite Hxs. apply (NoDup_fmap_1 st_id), NoDup_keep_ids, NoDup_ids. by eapply tab_keyed.
    - destruct Hok as [Hss _]. clear -Hss. induction Hss as [|ev l _ IH Hev]; constructor; [|done]. rewrite Forall_forall in Hev.
      intros Hin. specialize (Hev ev Hin). lia.
    - intros ev. by rewrite Hxs. }
  apply (StronglySorted_unique_strong (fun a b => seq_le a b = true)).
  - intros a b Ha' Hb Hab Hba. rewrite merge_sort_Permutation in Ha'. unfold keep in *. apply list_elem_of_filter in Ha' as [_ Ha'], Hb as [_ Hb].
    rewrite Hp in Ha'. apply (seqs_unique (hist_of i m)); [done..|]. unfold seq_le in *. apply Z.leb_le in Hab, Hba. lia.
  - apply StronglySorted_merge_sort; [intros a b c; unfold seq_le; rewrite !Z.leb_le; lia|intros a b; unfold seq_le; rewrite !Z.leb_le; lia].
  - by apply keep_sorted.
  - rewrite merge_sort_Permutation. by apply keep_perm.
Qed.

(** *** Tasks *)
Lemma unasked f t v v' : asks_vars f t = false -> match_task f t v = match_task f t v'.
Proof.
  unfold asks_vars, match_task, before_vars. cbn [tf_tenant tf_inst tf_assignee tf_unassigned tf_user tf_group tf_state tf_def_key
    tf_element tf_vars tf_created_after tf_created_before tf_due_before tf_cursor tf_desc tf_limit].
  destruct (tf_vars f) as [|x l]; [done|]. unfold after_cursor at 1. cbn [String.eqb orb]. rewrite !andb_true_r. by intros ->.
Qed.
Lemma scan_tasks f (ti : gmap string Instance) xs acc s : live s -> tab (tb s) ti ->
  (forall t, t ∈ xs -> json_ok t /\ sends [SText "inst"; SText (ta_inst t)]) ->
  (forall i v, acc.2 !! i = Some v -> v = in_vars <$> ti !! i) ->
  exists cache s', scan_rows (fun data (acc : list Task * gmap string (option vars)) =>
        t ← unmarshal data;
        v ← (if asks_vars f t then cached_vars (ta_inst t) acc.2 else mret (None, acc.2));
        mret (if match_task f t v.1 then acc.1 ++ [t] else acc.1, v.2)%list) (map (fun x => [SText (marshal x)]) xs) acc s
    = (Ok (acc.1 ++ keep (fun t => match_task f t (in_vars <$> ti !! ta_inst t)) xs, cache)%list, s') /\ same s s'.
Proof.
  revert acc s. induction xs as [|t xs IH]; intros [out cache] s Hl Hti Hxs Hcache; cbn [map scan_rows fst snd] in *.
  { exists cache, s. rewrite app_nil_r. split; [done|by apply same_refl]. }
  destruct (Hxs t ltac:(set_solver)) as [Hj Hs].
  assert (exists v cache' s1, (if asks_vars f t then cached_vars (ta_inst t) cache else mret (None, cache)) s = (Ok (v, cache'), s1) /\ same s s1 /\
    match_task f t v = match_task f t (in_vars <$> ti !! ta_inst t) /\ (forall i v, cache' !! i = Some v -> v = in_vars <$> ti !! i))
    as (v & cache' & s1 & Hv & Hsame & Hm & Hcache').
  { destruct (asks_vars f t) eqn:Ea; [|exists None, cache, s; split_and!; [done|by apply same_refl|by apply unasked|done]].
    unfold cached_vars. destruct (cache !! ta_inst t) as [v|] eqn:Ec.
    { exists v, cache, s. split_and!; [done|by apply same_refl|by rewrite (Hcache _ _ Ec)|done]. }
    destruct (get_reads ti (ta_inst t) s Hl Hti) as (s1 & Hg & Hsame); [exact Hs|].
    exists (in_vars <$> ti !! ta_inst t), (<[ta_inst t := in_vars <$> ti !! ta_inst t]> cache), s1. split_and!; [|done|done|].
    - unfold mbind, ST_bind, attempt, GetInstance. change (getData (A := Instance) "inst" (ta_inst t) s) with (getData (A := Instance) (st_kind (A := Instance)) (ta_inst t) s).
      rewrite Hg. by destruct (ti !! ta_inst t).
    - intros i v [[<- <-]|[_ Hi]]%lookup_insert_Some; [done|by apply Hcache]. }
  destruct (IH (if match_task f t v then out ++ [t] else out, cache')%list s1) as (cache2 & s2 & H2 & Hsame2).
  { by apply same_live in Hsame. } { destruct Hsame as (_ & -> & _). done. } { intros x Hx. apply Hxs. set_solver. } { done. }
  exists cache2, s2. split; [|by eapply same_trans]. cbn [fst snd] in H2.
  etrans.
  { eapply ST_step; [reflexivity|]. cbv beta. eapply ST_step; [|reflexivity].
    eapply ST_step; [by apply unmarshal_ok|]. cbv beta. eapply ST_step; [exact Hv|reflexivity]. }
  cbn [fst snd].
  rewrite H2. do 2 f_equal. unfold keep. rewrite filter_cons. rewrite <- Hm. f_equal.
  destruct (match_task f t v) eqn:Em; [rewrite decide_True by done; by rewrite <- app_assoc|by rewrite decide_False].
Qed.
Lemma list_tasks_reads s m f : abs s m -> (tf_inst f <> "" -> sends [SText "task"; SText (tf_inst f)]) ->
  exists s', ListTasks f s = (Ok (StoreMemory.ListTasks f m), s') /\ same s s'.
Proof.
  intros Ha Hs. pose proof (abs_rel _ _ Ha) as Hr. unfold ListTasks, mbind at 1, ST_bind at 1.
  match goal with |- context [scanKind "task" _ ?fn ?a s] =>
    destruct (scan_reads (m_tasks m) (tf_inst f) fn a s (abs_live _ _ Ha) (rel_tasks _ _ Hr) Hs) as (xs & s1 & Hxs & Hj & Hsame & Hscan) end.
  destruct (scan_tasks f (m_instances m) xs ([], ∅) s1) as (cache & s' & Hsc & Hsame').
  { by apply same_live in Hsame. } { destruct Hsame as (_ & -> & _). apply Hr. }
  { intros t Ht. split; [by apply Hj|]. rewrite Hxs in Ht. unfold keep in Ht. apply list_elem_of_filter in Ht as [_ [k Hk]%elem_of_values].
    apply (sends_instance (task_row t) "inst"); [|unfold kinds; set_solver].
    eapply (rel_sendable _ _ Hr). exact (tab_row _ _ _ _ (rel_tasks _ _ Hr) Hk). }
  { cbn. by intros i v. }
  exists s'. split; [|by eapply same_trans]. rewrite Hsc in Hscan. cbn [st_kind stored_task] in Hscan. rewrite Hscan. cbn [fst app].
  unfold mret, ST_ret, StoreMemory.ListTasks. do 2 f_equal.
  rewrite (sorted_select (m_tasks m) (tf_inst f) _ _ _ _ (tab_keyed _ _ (rel_tasks _ _ Hr)) Hxs). apply select_ext. intros t.
  change (st_inst t) with (ta_inst t). unfold match_task. destruct (str_field (tf_inst f) (ta_inst t)); [done|]. by rewrite andb_false_r.
Qed.
End history.
