(* ===== verification/SqlCalls.v ===== *)
(** * Calls of the database store against those of the in-memory store

    A call of either store and its answer; the refinement over any sequence of
    calls; and what is lost when the database stops answering, or JSON cannot
    hold a record. *)
From stdpp Require Import sorting.
From S2P Require Import Prelude GoFloat GoUtf8 GoTime ExprValue StoreTypes StoreQuery StoreMemory EngineBase EngineApi EngineJobs SqlStore SqlRefine.
Local Open Scope string_scope.
Local Open Scope Z_scope.

(** ** Calls and answers *)
Inductive store_read :=
| RDefinition (id : string) | RInstance (id : string) | RTask (id : string) | RJob (id : string)
| RExternal (id : string) | RAgent (id : string) | RIncident (id : string) | RBlob (kind key : string)
| RInstances (f : InstanceFilter) | RTasks (f : TaskFilter) | RJobs (inst : string) | RExternals (inst : string)
| RAgents (inst : string) | RSubs (f : SubscriptionFilter) | RIncidents (f : IncidentFilter) | RBlobs (kind : string)
| RHistory (inst : string) (f : HistoryFilter).
Inductive store_call := CallOp (o : store_op) | CallRead (r : store_read).
(** A single record is a list of one. *)
Inductive answer :=
| ADone | ADefs (l : list ProcDef) | AInsts (l : list Instance) | ATasks (l : list Task) | AJobs (l : list Job)
| AExts (l : list ExternalTask) | AAgents (l : list AgentJob) | ASubs (l : list Subscription) | AIncidents (l : list Incident)
| ABlobs (l : list Blob) | AEvents (l : list HistoryEvent).

(** *** In memory *)
Definition found {A} (f : list A -> answer) (o : option A) : res goerr answer :=
  match o with Some x => Ok (f [x]) | None => Err ENotFound end.
Definition mem_answer (o : store_op) (m : Memory) : answer :=
  match o with
  | OPutInstance i => AInsts [(StoreMemory.PutInstance i m).1]
  | ODueJobs now limit => AJobs (StoreMemory.DueJobs now limit m).1
  | OFetchExternalTasks topic w u n l => AExts (StoreMemory.FetchAndLockExternalTasks topic w u n l m).1
  | OFetchAgentJobs topic w u n l => AAgents (StoreMemory.FetchAndLockAgentJobs topic w u n l m).1
  | OAppendHistory ev => AEvents [(StoreMemory.AppendHistory ev m).1]
  | _ => ADone
  end.
Definition mem_read (r : store_read) (m : Memory) : res goerr answer :=
  match r with
  | RDefinition id => found ADefs (StoreMemory.GetDefinition id m)
  | RInstance id => found AInsts (StoreMemory.GetInstance id m)
  | RTask id => found ATasks (StoreMemory.GetTask id m)
  | RJob id => found AJobs (StoreMemory.GetJob id m)
  | RExternal id => found AExts (StoreMemory.GetExternalTask id m)
  | RAgent id => found AAgents (StoreMemory.GetAgentJob id m)
  | RIncident id => found AIncidents (StoreMemory.GetIncident id m)
  | RBlob kind key => found ABlobs (StoreMemory.GetBlob kind key m)
  | RInstances f => Ok (AInsts (StoreMemory.ListInstances f m))
  | RTasks f => Ok (ATasks (StoreMemory.ListTasks f m))
  | RJobs inst => Ok (AJobs (StoreMemory.ListJobs inst m))
  | RExternals inst => Ok (AExts (StoreMemory.ListExternalTasks inst m))
  | RAgents inst => Ok (AAgents (StoreMemory.ListAgentJobs inst m))
  | RSubs f => Ok (ASubs (StoreMemory.ListSubscriptions f m))
  | RIncidents f => Ok (AIncidents (StoreMemory.ListIncidents f m))
  | RBlobs kind => Ok (ABlobs (StoreMemory.ListBlobs kind m))
  | RHistory inst f => Ok (AEvents (StoreMemory.ListHistory inst f m))
  end.
Definition mem_call (c : store_call) (m : Memory) : res goerr answer * Memory :=
  match c with
  | CallOp o => (Ok (mem_answer o m), run_op o m)
  | CallRead r => (mem_read r m, m)
  end.

Section sql.
Context {U : Unicode} {MO : MapOrder} {D : Database} {RJ : RecordJson}.
(** *** Over the database *)
Definition done (m : DB unit) : DB answer := m;; mret ADone.
Definition one {A} (f : list A -> answer) (m : DB A) : DB answer := x ← m; mret (f [x]).
Definition many {A} (f : list A -> answer) (m : DB (list A)) : DB answer := l ← m; mret (f l).
Definition sql_op (o : store_op) : DB answer :=
  match o with
  | OPutDefinition x => done (PutDefinition x)
  | OPutInstance i => one AInsts (PutInstance i)
  | OPurgeInstance id => done (PurgeInstance id)
  | OPutTask x => done (PutTask x)
  | OPutJob x => done (PutJob x)
  | ODeleteJob id => done (DeleteJob id)
  | ODueJobs now limit => many AJobs (DueJobs now limit)
  | OPutExternalTask x => done (PutExternalTask x)
  | OFetchExternalTasks topic w u n l => many AExts (FetchAndLockExternalTasks topic w u n l)
  | OPutAgentJob x => done (PutAgentJob x)
  | OFetchAgentJobs topic w u n l => many AAgents (FetchAndLockAgentJobs topic w u n l)
  | OPutSubscription x => done (PutSubscription x)
  | ODeleteSubscription id => done (DeleteSubscription id)
  | OPutIncident x => done (PutIncident x)
  | OPutBlob x => done (PutBlob x)
  | ODeleteBlob kind key => done (DeleteBlob kind key)
  | OAppendHistory ev => one AEvents (AppendHistory ev)
  end.
Definition sql_read (r : store_read) : DB answer :=
  match r with
  | RDefinition id => one ADefs (GetDefinition id)
  | RInstance id => one AInsts (GetInstance id)
  | RTask id => one ATasks (GetTask id)
  | RJob id => one AJobs (GetJob id)
  | RExternal id => one AExts (GetExternalTask id)
  | RAgent id => one AAgents (GetAgentJob id)
  | RIncident id => one AIncidents (GetIncident id)
  | RBlob kind key => one ABlobs (GetBlob kind key)
  | RInstances f => many AInsts (ListInstances f)
  | RTasks f => many ATasks (ListTasks f)
  | RJobs inst => many AJobs (ListJobs inst)
  | RExternals inst => many AExts (ListExternalTasks inst)
  | RAgents inst => many AAgents (ListAgentJobs inst)
  | RSubs f => many ASubs (ListSubscriptions f)
  | RIncidents f => many AIncidents (ListIncidents f)
  | RBlobs kind => many ABlobs (ListBlobs kind)
  | RHistory inst f => many AEvents (ListHistory inst f)
  end.
Definition sql_call (c : store_call) : DB answer := match c with CallOp o => sql_op o | CallRead r => sql_read r end.

(** ** What a call has to keep to *)
Context {d : SQLDialect} {L : DatabaseLaws d}.
Definition fetch_pre (worker : string) (until now : Z) : Prop := worker <> "" /\ column_time until /\ 0 <= now < 2 ^ 63.
Definition lock_pre {A} `{Stored A} (lock : A -> A) (until now : Z) (x : A) : Prop :=
  writable (lock x) /\ sends (change_args (Claim (marshal (lock x)) (unixOrZero until) st_kind (st_id x) "pending" (wrap64 now))).
Definition sends_scope {A} `{Stored A} (inst : string) : Prop := inst <> "" -> sends [SText st_kind; SText inst].
Definition op_writes (o : store_op) (m : Memory) : Prop :=
  match o with
  | OPutDefinition x => writable x
  | OPutInstance i => writable (set_in_rev (in_rev i + 1) i)
  | OPurgeInstance id => id <> "" /\ sends [SText id]
  | OPutTask x => writable x
  | OPutJob x => writable x
  | ODeleteJob id => sends [SText "job"; SText id]
  | ODueJobs _ _ => True
  | OPutExternalTask x => writable x /\ lock_ok (ex_locked_by x) (ex_lock_until x)
  | OFetchExternalTasks _ w u n _ =>
      fetch_pre w u n /\ forall k x, m_externals m !! k = Some x -> lock_pre (ext_lock w u) u n x
  | OPutAgentJob x => writable x /\ lock_ok (ag_locked_by x) (ag_lock_until x)
  | OFetchAgentJobs _ w u n _ =>
      fetch_pre w u n /\ forall k x, m_agent_jobs m !! k = Some x -> lock_pre (ag_lock w u) u n x
  | OPutSubscription x => writable x
  | ODeleteSubscription id => sends [SText "sub"; SText id]
  | OPutIncident x => writable x
  | OPutBlob x => writable x
  | ODeleteBlob kind key => sends [SText "blob"; SText (blob_key kind key)]
  | OAppendHistory ev => hv_inst ev <> "" /\ writable (StoreMemory.AppendHistory ev m).1 /\ hv_seq (StoreMemory.AppendHistory ev m).1 < 2 ^ 63
  end.
Definition read_pre (r : store_read) : Prop :=
  match r with
  | RDefinition id => sends [SText "def"; SText id]
  | RInstance id => sends [SText "inst"; SText id]
  | RTask id => sends [SText "task"; SText id]
  | RJob id => sends [SText "job"; SText id]
  | RExternal id => sends [SText "ext"; SText id]
  | RAgent id => sends [SText "agentjob"; SText id]
  | RIncident id => sends [SText "inc"; SText id]
  | RBlob kind key => sends [SText "blob"; SText (blob_key kind key)]
  | RTasks f => sends_scope (A := Task) (tf_inst f)
  | RJobs inst => sends_scope (A := Job) inst
  | RExternals inst => sends_scope (A := ExternalTask) inst
  | RAgents inst => sends_scope (A := AgentJob) inst
  | RSubs f => sends_scope (A := Subscription) (sf_inst f)
  | RIncidents f => sends_scope (A := Incident) (nf_inst f)
  | RHistory inst _ => inst <> "" /\ sends [SText "hist"; SText inst]
  | RInstances _ | RBlobs _ => True
  end.
Definition call_pre (c : store_call) (m : Memory) : Prop :=
  match c with CallOp o => op_pre o m /\ op_writes o m | CallRead r => read_pre r end.
Implicit Types s : SQL.

(** ** One kind of record changes *)
Ltac rel_set :=
  intros [] F Ht; split; cbn; try done;
  first [exact Ht | eapply framed_other; [exact F|intros E; cbn in E; discriminate|eassumption]
        | eapply framed_events; [exact F|discriminate|eassumption] | by apply (fr_sendable _ _ _ F)].
Lemma rel_set_definitions s s' m t : rel (tb s) m -> framed "def" s s' -> tab (tb s') t -> rel (tb s') (set_m_definitions t m).
Proof. rel_set. Qed.
Lemma rel_set_instances s s' m t : rel (tb s) m -> framed "inst" s s' -> tab (tb s') t -> rel (tb s') (set_m_instances t m).
Proof. rel_set. Qed.
Lemma rel_set_tasks s s' m t : rel (tb s) m -> framed "task" s s' -> tab (tb s') t -> rel (tb s') (set_m_tasks t m).
Proof. rel_set. Qed.
Lemma rel_set_jobs s s' m t : rel (tb s) m -> framed "job" s s' -> tab (tb s') t -> rel (tb s') (set_m_jobs t m).
Proof. rel_set. Qed.
Lemma rel_set_subs s s' m t : rel (tb s) m -> framed "sub" s s' -> tab (tb s') t -> rel (tb s') (set_m_subs t m).
Proof. rel_set. Qed.
Lemma rel_set_incidents s s' m t : rel (tb s) m -> framed "inc" s s' -> tab (tb s') t -> rel (tb s') (set_m_incidents t m).
Proof. rel_set. Qed.
Lemma rel_set_blobs s s' m t : rel (tb s) m -> framed "blob" s s' -> tab (tb s') t -> rel (tb s') (set_m_blobs t m).
Proof. rel_set. Qed.
Lemma rel_set_externals s s' m t : (forall k x, t !! k = Some x -> lock_ok (ex_locked_by x) (ex_lock_until x)) ->
  rel (tb s) m -> framed "ext" s s' -> tab (tb s') t -> rel (tb s') (set_m_externals t m).
Proof. intros Hl. rel_set. Qed.
Lemma rel_set_agent_jobs s s' m t : (forall k x, t !! k = Some x -> lock_ok (ag_locked_by x) (ag_lock_until x)) ->
  rel (tb s) m -> framed "agentjob" s s' -> tab (tb s') t -> rel (tb s') (set_m_agent_jobs t m).
Proof. intros Hl. rel_set. Qed.

(** The calls that leave the history alone. *)
Lemma abs_op o s s' m kind : abs s m -> framed kind s s' -> op_pre o m -> rel (tb s') (run_op o m) ->
  m_hist_seq (run_op o m) = m_hist_seq m -> abs s' (run_op o m).
Proof.
  intros Ha F Hpre Hr Hseq. split; [by apply F|by apply run_op_ok_core; [apply Ha|]|done|].
  intros i n. rewrite (fr_seq _ _ _ F). unfold hist_seq_of. rewrite Hseq. apply (abs_seq _ _ Ha).
Qed.
Definition refines (c : store_call) s m : Prop :=
  exists s', sql_call c s = ((mem_call c m).1, s') /\ abs s' (mem_call c m).2.

Lemma put_refines {A} `{Stored A} (x : A) t o s m : abs s m -> op_pre o m -> writable x -> tab (tb s) t ->
  sql_op o = done (upsert (st_row x)) -> mem_answer o m = ADone -> m_hist_seq (run_op o m) = m_hist_seq m ->
  (forall s', framed st_kind s s' -> tab (tb s') (<[st_id x := x]> t) -> rel (tb s') (run_op o m)) -> refines (CallOp o) s m.
Proof.
  intros Ha Hpre Hw Ht Ho Hans Hseq Hrel. destruct (put_puts x t s (abs_live _ _ Ha) Ht Hw) as (s' & Hp & Ht' & F).
  exists s'. cbn [sql_call mem_call fst snd]. rewrite Ho, Hans. split; [|by eapply abs_op; eauto].
  eapply ST_step; [exact Hp|done].
Qed.
Lemma delete_refines {A} `{Stored A} (t : gmap string A) k o s m : abs s m -> op_pre o m -> sends [SText st_kind; SText k] -> tab (tb s) t ->
  sql_op o = done (_ ← delete_row st_kind k; mret tt) -> mem_answer o m = ADone -> m_hist_seq (run_op o m) = m_hist_seq m ->
  (forall s', framed st_kind s s' -> tab (tb s') (delete k t) -> rel (tb s') (run_op o m)) -> refines (CallOp o) s m.
Proof.
  intros Ha Hpre Hs Ht Ho Hans Hseq Hrel. destruct (delete_removes t k s (abs_live _ _ Ha) Ht Hs) as (s' & Hp & Ht' & F).
  exists s'. cbn [sql_call mem_call fst snd]. rewrite Ho, Hans. split; [|by eapply abs_op; eauto].
  eapply ST_step; [eapply ST_step; [exact Hp|done]|done].
Qed.

(** *** Locks *)
Lemma fold_lock_in {A} (id : A -> string) (lock : A -> A) l (t : gmap string A) k x :
  fold_left (fun t x => <[id x := lock x]> t) l t !! k = Some x -> t !! k = Some x \/ exists y, x = lock y.
Proof.
  revert t. induction l as [|y l IH]; intros t H; cbn in H; [by left|]. destruct (IH _ H) as [[[_ <-]|[_ ?]]%lookup_insert_Some|?]; eauto.
Qed.
Lemma due_free holder until now : lock_ok holder until -> free_at holder until now = true -> 0 <= now < 2 ^ 63 ->
  unixOrZero until <= wrap64 now.
Proof.
  intros Hl Hf Hn. rewrite (wrap64_id now) by (unfold int64_min, int64_max; lia). unfold unixOrZero, is_zero_time.
  destruct (Z.eqb_spec until zero_time) as [|Hne]; [lia|]. destruct Hl as [|[Hh [|Hr]]]; [done..|].
  rewrite wrap64_id by (unfold int64_min, int64_max; lia). unfold free_at, nonempty in Hf.
  destruct (String.eqb_spec holder ""); [done|]. cbn in Hf. apply negb_true_iff, Z.ltb_ge in Hf. lia.
Qed.
Lemma fetch_refines {A} `{Stored A} (lock : A -> A) (avail : A -> bool) (t : gmap string A) until now limit f o s m :
  abs s m -> op_pre o m -> tab (tb s) t -> (forall k x, t !! k = Some x -> avail x = true -> lockable lock until now x) ->
  sql_op o = many f (fetch_work st_kind st_id avail lock until now limit) ->
  mem_answer o m = f (fetch_and_lock st_id avail lock limit t).1 -> m_hist_seq (run_op o m) = m_hist_seq m ->
  (forall s', framed st_kind s s' -> tab (tb s') (fetch_and_lock st_id avail lock limit t).2 -> rel (tb s') (run_op o m)) -> refines (CallOp o) s m.
Proof.
  intros Ha Hpre Ht Hav Ho Hans Hseq Hrel. destruct (fetch_locks lock until now t avail limit s (abs_live _ _ Ha) Ht Hav) as (s' & Hp & Ht' & F).
  exists s'. cbn [sql_call mem_call fst snd]. rewrite Ho, Hans. split; [|by eapply abs_op; eauto].
  eapply ST_step; [exact Hp|done].
Qed.
Lemma fetch_externals_refine topic w u n l s m : abs s m -> op_writes (OFetchExternalTasks topic w u n l) m ->
  refines (CallOp (OFetchExternalTasks topic w u n l)) s m.
Proof.
  intros Ha [(Hw & Hu & Hn) Hlock]. pose proof (abs_rel _ _ Ha) as Hr.
  assert (run_op (OFetchExternalTasks topic w u n l) m
    = set_m_externals (fetch_and_lock ex_id (ext_avail topic n) (ext_lock w u) l (m_externals m)).2 m /\
    mem_answer (OFetchExternalTasks topic w u n l) m = AExts (fetch_and_lock ex_id (ext_avail topic n) (ext_lock w u) l (m_externals m)).1)
    as [Erun Eans].
  { cbn [run_op mem_answer]. unfold StoreMemory.FetchAndLockExternalTasks. by destruct (fetch_and_lock _ _ _ _ _). }
  eapply (fetch_refines (ext_lock w u) (ext_avail topic n) (m_externals m) u n l AExts); [done|done|apply Hr| |done|exact Eans|by rewrite Erun|].
  - intros k x Hx Hav. destruct (Hlock k x Hx) as [Hwr Hs]. unfold ext_avail in Hav. apply andb_prop in Hav as [[_ Hst]%andb_prop Hfree].
    apply bool_decide_eq_true in Hst. split_and!; [done|done|done|cbn; by rewrite Hst| |done].
    eapply due_free; [by eapply (rel_ext_locks _ _ Hr)|done|done].
  - intros s' F Ht. rewrite Erun. eapply rel_set_externals; [|done|exact F|exact Ht]. intros k x Hx.
    apply fold_lock_in in Hx as [Hx|[y ->]]; [by eapply (rel_ext_locks _ _ Hr)|by right].
Qed.
Lemma fetch_agents_refine topic w u n l s m : abs s m -> op_writes (OFetchAgentJobs topic w u n l) m ->
  refines (CallOp (OFetchAgentJobs topic w u n l)) s m.
Proof.
  intros Ha [(Hw & Hu & Hn) Hlock]. pose proof (abs_rel _ _ Ha) as Hr.
  assert (run_op (OFetchAgentJobs topic w u n l) m
    = set_m_agent_jobs (fetch_and_lock ag_id (ag_avail topic n) (ag_lock w u) l (m_agent_jobs m)).2 m /\
    mem_answer (OFetchAgentJobs topic w u n l) m = AAgents (fetch_and_lock ag_id (ag_avail topic n) (ag_lock w u) l (m_agent_jobs m)).1)
    as [Erun Eans].
  { cbn [run_op mem_answer]. unfold StoreMemory.FetchAndLockAgentJobs. by destruct (fetch_and_lock _ _ _ _ _). }
  eapply (fetch_refines (ag_lock w u) (ag_avail topic n) (m_agent_jobs m) u n l AAgents); [done|done|apply Hr| |done|exact Eans|by rewrite Erun|].
  - intros k x Hx Hav. destruct (Hlock k x Hx) as [Hwr Hs]. unfold ag_avail in Hav. apply andb_prop in Hav as [[_ Hst]%andb_prop Hfree].
    apply bool_decide_eq_true in Hst. split_and!; [done|done|done|cbn; by rewrite Hst| |done].
    eapply due_free; [by eapply (rel_agent_locks _ _ Hr)|done|done].
  - intros s' F Ht. rewrite Erun. eapply rel_set_agent_jobs; [|done|exact F|exact Ht]. intros k x Hx.
    apply fold_lock_in in Hx as [Hx|[y ->]]; [by eapply (rel_agent_locks _ _ Hr)|by right].
Qed.

(** *** Due jobs *)
Lemma job_le_antisym a b : job_le a b = true -> job_le b a = true -> jb_id a = jb_id b.
Proof.
  unfold job_le. rewrite (Z.eqb_sym (jb_due b)). destruct (Z.eqb_spec (jb_due a) (jb_due b)); [apply str_le_antisym|].
  rewrite !Z.ltb_lt. lia.
Qed.
Lemma due_jobs_refine now limit s m : abs s m -> refines (CallOp (ODueJobs now limit)) s m.
Proof.
  intros Ha. pose proof (abs_rel _ _ Ha) as Hr. pose proof (rel_jobs _ _ Hr) as Ht.
  destruct (collect_keeps (m_jobs m) "" (is_due now) s (abs_live _ _ Ha) Ht) as (xs & s1 & Hxs & Hsame & Hc); [done|].
  set (due := (StoreMemory.DueJobs now limit m).1).
  assert (limited limit (merge_sort (fun a b => job_le a b = true) (keep (is_due now) xs)) = due) as Hdue.
  { unfold due, StoreMemory.DueJobs. cbn [fst]. f_equal.
    assert (xs ≡ₚ map snd (map_to_list (m_jobs m))) as Hp by (rewrite Hxs; by rewrite keep_all).
    apply (sort_unique (fun a b => job_le a b = true)); [|by apply keep_perm].
    intros x y Hx Hy Hxy Hyx. unfold keep in Hx, Hy. apply list_elem_of_filter in Hx as [_ Hx], Hy as [_ Hy]. rewrite Hp in Hx, Hy.
    apply (values_keyed (m_jobs m)); [by eapply tab_keyed|done|done|]. by apply job_le_antisym. }
  destruct (due_jobs_spec_core now limit m due _ (abs_ok _ _ Ha) (surjective_pairing _)) as (_ & Hin & _ & _ & _ & _).
  assert (NoDup (map jb_id due)) as Hnd.
  { rewrite <- Hdue. destruct (limited_prefix limit (merge_sort (fun a b => job_le a b = true) (keep (is_due now) xs))) as [r Hpre].
    assert (NoDup (map jb_id (merge_sort (fun a b => job_le a b = true) (keep (is_due now) xs)))) as Hn.
    { rewrite merge_sort_Permutation. apply NoDup_keep_ids. rewrite Hxs. apply NoDup_keep_ids, NoDup_ids. exact (tab_keyed _ _ Ht). }
    rewrite Hpre, fmap_app in Hn. by apply NoDup_app in Hn as []. }
  pose proof Hsame as (Hl1 & Ht1 & _).
  destruct (claim_jobs_all due [] (m_jobs m) s1 Hl1) as (s' & Hcl & Ht' & F); [by rewrite Ht1|rewrite Ht1; by apply Hr|done|by intros j []%Hin|].
  assert (framed "job" s s') as F' by (eapply framed_trans; [by apply framed_same|done]).
  exists s'. cbn [sql_call mem_call sql_op mem_answer fst snd]. split.
  - eapply ST_step; [|done]. eapply ST_step; [exact Hc|]. cbv beta. by rewrite Hdue, Hcl.
  - eapply (abs_op (ODueJobs now limit)); [done|exact F'|done| |done]. cbn [run_op]. unfold StoreMemory.DueJobs. cbn [snd].
    eapply rel_set_jobs; [done|exact F'|exact Ht'].
Qed.

(** *** Purging *)
Lemma tab_unowned {A} `{Stored A} T (t : gmap string A) id : id <> "" -> (forall x, st_inst x = "") -> tab T t ->
  tab (SqlRefine.effect (PurgeRows id) T) t.
Proof.
  intros Hid Hx Ht. replace t with (drop_of st_inst id t); [by apply tab_purge|]. apply map_eq. intros k. apply option_eq. intros x.
  rewrite drop_of_Some. rewrite Hx. naive_solver.
Qed.
Lemma events_purge T m id : memory_ok m -> events T (m_history m) -> events (SqlRefine.effect (PurgeRows id) T) (delete id (m_history m)).
Proof.
  intros Hok (h & Ht & Hb & Hh). exists (drop_of hv_inst id h). split_and!.
  - exact (tab_purge T h id Ht).
  - intros k ev [Hk _]%drop_of_Some. eauto.
  - intros i ev. unfold hist_in. destruct (decide (i = id)) as [->|Hne].
    + rewrite lookup_delete_eq. cbn. rewrite drop_of_Some. split; [intros Hx; by apply elem_of_nil in Hx|by intros [-> []]].
    + rewrite lookup_delete_ne by done. change (default [] (m_history m !! i)) with (hist_in i (m_history m)). rewrite Hh, drop_of_Some.
      naive_solver.
Qed.
Lemma purge_refines id s m : abs s m -> id <> "" -> sends [SText id] -> refines (CallOp (OPurgeInstance id)) s m.
Proof.
  intros Ha Hid Hs. pose proof (abs_rel _ _ Ha) as [R1 R2 R3 R4 R5 R6 R7 R8 R9 R10 R11 R12 R13].
  destruct (exec_changes (PurgeRows id) s (abs_live _ _ Ha) Hs) as (n & s1 & He & (Hl1 & Ht1 & Hq1) & _).
  exists (set_sq_seq (delete id (sq_seq s1)) s1). cbn [sql_call sql_op mem_call mem_answer fst snd]. split.
  { eapply ST_step; [|done]. eapply ST_step; [exact He|done]. }
  pose proof (abs_ok _ _ Ha) as Hok. split; [done|by apply (run_op_ok_core (OPurgeInstance id))| |].
  - unfold tb in *. cbn [sq_db set_sq_seq]. rewrite Ht1. split; cbn [run_op StoreMemory.PurgeInstance m_definitions m_instances m_tasks m_jobs
      m_externals m_agent_jobs m_subs m_incidents m_blobs m_history].
    + by apply tab_unowned.
    + replace (delete id (m_instances m)) with (drop_of in_id id (m_instances m)); [exact (tab_purge _ _ id R2)|].
      apply map_eq. intros k. apply option_eq. intros x. rewrite drop_of_Some, lookup_delete_Some.
      split; intros [? ?]; split_and!; try done; intros E; subst; pose proof (ok_instances _ Hok _ _ ltac:(eassumption)); congruence.
    + exact (tab_purge _ _ id R3).
    + exact (tab_purge _ _ id R4).
    + exact (tab_purge _ _ id R5).
    + exact (tab_purge _ _ id R6).
    + exact (tab_purge _ _ id R7).
    + exact (tab_purge _ _ id R8).
    + by apply tab_unowned.
    + by apply events_purge.
    + intros k x [Hx _]%drop_of_Some. by eapply R11.
    + intros k x [Hx _]%drop_of_Some. by eapply R12.
    + intros k r [Hr _]%map_lookup_filter_Some. by eapply R13.
  - intros i n'. cbn [sq_seq set_sq_seq run_op]. unfold hist_seq_of, StoreMemory.PurgeInstance. cbn [m_hist_seq].
    intros [Hne Hi]%lookup_delete_Some. rewrite lookup_delete_ne by done. rewrite Hq1 in Hi. by apply (abs_seq _ _ Ha).
Qed.

(** ** Every operation *)
Lemma op_refines o s m : abs s m -> op_pre o m -> op_writes o m -> refines (CallOp o) s m.
Proof.
  intros Ha Hpre Hw. pose proof (abs_rel _ _ Ha) as Hr. destruct o; cbn [op_writes] in Hw.
  - eapply (put_refines d0); [done|done|done|apply Hr|done|done|done|]. intros s' F Ht. by eapply rel_set_definitions.
  - set (i' := set_in_rev (in_rev i + 1) i).
    destruct (put_puts i' (m_instances m) s (abs_live _ _ Ha) (rel_instances _ _ Hr) Hw) as (s' & Hp & Ht & F).
    exists s'. cbn [sql_call sql_op mem_call mem_answer fst snd]. split.
    + eapply ST_step; [|done]. eapply ST_step; [exact Hp|done].
    + eapply (abs_op (OPutInstance i)); [done|exact F|done| |done]. by eapply rel_set_instances.
  - destruct Hw. by apply purge_refines.
  - eapply (put_refines t); [done|done|done|apply Hr|done|done|done|]. intros s' F Ht. by eapply rel_set_tasks.
  - eapply (put_refines j); [done|done|done|apply Hr|done|done|done|]. intros s' F Ht. by eapply rel_set_jobs.
  - eapply (delete_refines (m_jobs m) id); [done|done|exact Hw|apply Hr|done|done|done|]. intros s' F Ht. by eapply rel_set_jobs.
  - by apply due_jobs_refine.
  - destruct Hw as [Hw Hl]. eapply (put_refines t); [done|done|done|apply Hr|done|done|done|]. intros s' F Ht. eapply rel_set_externals; try done.
    intros k x [[_ <-]|[_ Hx]]%lookup_insert_Some; [done|by eapply (rel_ext_locks _ _ Hr)].
  - by apply fetch_externals_refine.
  - destruct Hw as [Hw Hl]. eapply (put_refines j); [done|done|done|apply Hr|done|done|done|]. intros s' F Ht. eapply rel_set_agent_jobs; try done.
    intros k x [[_ <-]|[_ Hx]]%lookup_insert_Some; [done|by eapply (rel_agent_locks _ _ Hr)].
  - by apply fetch_agents_refine.
  - eapply (put_refines s0); [done|done|done|apply Hr|done|done|done|]. intros s' F Ht. by eapply rel_set_subs.
  - eapply (delete_refines (m_subs m) id); [done|done|exact Hw|apply Hr|done|done|done|]. intros s' F Ht. by eapply rel_set_subs.
  - eapply (put_refines i); [done|done|done|apply Hr|done|done|done|]. intros s' F Ht. by eapply rel_set_incidents.
  - eapply (put_refines b); [done|done|done|apply Hr|done|done|done|]. intros s' F Ht. by eapply rel_set_blobs.
  - eapply (delete_refines (m_blobs m) (blob_key kind key)); [done|done|exact Hw|apply Hr|done|done|done|]. intros s' F Ht. by eapply rel_set_blobs.
  - destruct Hw as (Hi & Hwr & Hlt). destruct (append_appends s m ev Ha Hpre Hi Hwr Hlt) as (s' & He & Ha').
    exists s'. cbn [sql_call sql_op mem_call mem_answer fst snd]. split; [|done]. eapply ST_step; [exact He|done].
Qed.

(** ** Every read *)
Lemma get_refines {A} `{Stored A} (t : gmap string A) k (f : list A -> answer) r s m : abs s m -> tab (tb s) t -> sends [SText st_kind; SText k] ->
  sql_read r = one f (getData st_kind k) -> mem_read r m = found f (t !! k) -> refines (CallRead r) s m.
Proof.
  intros Ha Ht Hs Hr Hm. destruct (get_reads t k s (abs_live _ _ Ha) Ht Hs) as (s' & Hg & Hsame).
  exists s'. cbn [sql_call mem_call fst snd]. rewrite Hr, Hm. split; [|by eapply abs_same].
  unfold one, mbind, ST_bind. rewrite Hg. by destruct (t !! k).
Qed.
Lemma list_refines {A} `{Stored A} (t : gmap string A) inst p desc limit p' (f : list A -> answer) r s m : abs s m -> tab (tb s) t ->
  sends_scope (A := A) inst -> sql_read r = many f (list_by_id st_id st_kind inst p desc limit) ->
  (forall x, str_field inst (st_inst x) && p x = p' x) ->
  mem_read r m = Ok (f (select st_id p' desc limit t)) -> refines (CallRead r) s m.
Proof.
  intros Ha Ht Hs Hr Hp Hm. destruct (list_selects t inst p desc limit s (abs_live _ _ Ha) Ht Hs) as (s' & Hg & Hsame).
  exists s'. cbn [sql_call mem_call fst snd]. rewrite Hr, Hm. split; [|by eapply abs_same].
  eapply ST_step; [exact Hg|]. unfold mret, ST_ret. do 3 f_equal. by apply select_ext.
Qed.
Lemma blob_le_antisym a b : blob_le a b = true -> blob_le b a = true -> blob_key (bl_kind a) (bl_key a) = blob_key (bl_kind b) (bl_key b).
Proof.
  unfold blob_le. rewrite (String.eqb_sym (bl_kind b)). destruct (String.eqb_spec (bl_kind a) (bl_kind b)) as [E|_].
  - intros H1 H2. by rewrite E, (str_le_antisym _ _ H1 H2).
  - intros H1 H2. by rewrite (str_lt_antisym _ _ H1) in H2.
Qed.
#[local] Instance blob_le_total : Total (fun a b => blob_le a b = true).
Proof.
  intros a b. unfold blob_le. rewrite (String.eqb_sym (bl_kind b)). destruct (String.eqb_spec (bl_kind a) (bl_kind b)); [apply str_le_total|].
  destruct (str_lt_total (bl_kind a) (bl_kind b)) as [|[|]]; auto; done.
Qed.
#[local] Instance blob_le_trans : Transitive (fun a b => blob_le a b = true).
Proof.
  intros a b c. unfold blob_le. destruct (String.eqb_spec (bl_kind a) (bl_kind b)) as [E1|E1], (String.eqb_spec (bl_kind b) (bl_kind c)) as [E2|E2].
  - rewrite E1, E2, String.eqb_refl. intros H1 H2. by eapply str_le_transitive.
  - rewrite E1. destruct (String.eqb_spec (bl_kind b) (bl_kind c)); done.
  - rewrite <- E2. destruct (String.eqb_spec (bl_kind a) (bl_kind b)); done.
  - intros H1 H2. pose proof (str_lt_trans _ _ _ H1 H2) as H3. destruct (String.eqb_spec (bl_kind a) (bl_kind c)) as [E|]; [|done].
    rewrite E, str_lt_irrefl in H3. done.
Qed.
Lemma blobs_refine kind s m : abs s m -> refines (CallRead (RBlobs kind)) s m.
Proof.
  intros Ha. pose proof (abs_rel _ _ Ha) as Hr. pose proof (rel_blobs _ _ Hr) as Ht.
  destruct (collect_keeps (m_blobs m) "" (fun b => str_field kind (bl_kind b)) s (abs_live _ _ Ha) Ht) as (xs & s' & Hxs & Hsame & Hc); [done|].
  exists s'. cbn [sql_call sql_read mem_call mem_read fst snd]. split; [|by eapply abs_same].
  eapply ST_step; [eapply ST_step; [exact Hc|done]|]. unfold mret, ST_ret, StoreMemory.ListBlobs. do 3 f_equal.
  rewrite (keep_all (fun x => str_field "" (st_inst x))) in Hxs by done.
  apply (sort_unique (fun a b => blob_le a b = true)); [|by apply keep_perm]. intros x y Hx Hy Hxy Hyx.
  unfold keep in Hx, Hy. apply list_elem_of_filter in Hx as [_ Hx], Hy as [_ Hy]. rewrite Hxs in Hx, Hy.
  apply (values_keyed (m_blobs m)); [by eapply tab_keyed|done|done|]. by apply blob_le_antisym.
Qed.
Lemma read_refines r s m : abs s m -> read_pre r -> refines (CallRead r) s m.
Proof.
  intros Ha Hp. pose proof (abs_rel _ _ Ha) as Hr. destruct r; cbn [read_pre] in Hp.
  - eapply (get_refines (m_definitions m)); [exact Ha|apply Hr|exact Hp|reflexivity|reflexivity].
  - eapply (get_refines (m_instances m)); [exact Ha|apply Hr|exact Hp|reflexivity|reflexivity].
  - eapply (get_refines (m_tasks m)); [exact Ha|apply Hr|exact Hp|reflexivity|reflexivity].
  - eapply (get_refines (m_jobs m)); [exact Ha|apply Hr|exact Hp|reflexivity|reflexivity].
  - eapply (get_refines (m_externals m)); [exact Ha|apply Hr|exact Hp|reflexivity|reflexivity].
  - eapply (get_refines (m_agent_jobs m)); [exact Ha|apply Hr|exact Hp|reflexivity|reflexivity].
  - eapply (get_refines (m_incidents m)); [exact Ha|apply Hr|exact Hp|reflexivity|reflexivity].
  - eapply (get_refines (m_blobs m)); [exact Ha|apply Hr|exact Hp|reflexivity|reflexivity].
  - eapply (list_refines (m_instances m) "" (match_instance f)); [done|apply Hr|by intros []|done|done|done].
  - destruct (list_tasks_reads s m f Ha Hp) as (s' & Hl & Hsame). exists s'. split; [|by eapply abs_same].
    cbn [sql_call sql_read mem_call mem_read fst]. eapply ST_step; [exact Hl|done].
  - eapply (list_refines (m_jobs m) inst (fun _ => true)); [done|apply Hr|exact Hp|done|intros x; apply andb_true_r|done].
  - eapply (list_refines (m_externals m) inst (fun _ => true)); [done|apply Hr|exact Hp|done|intros x; apply andb_true_r|done].
  - eapply (list_refines (m_agent_jobs m) inst (fun _ => true)); [done|apply Hr|exact Hp|done|intros x; apply andb_true_r|done].
  - eapply (list_refines (m_subs m) (sf_inst f)); [done|apply Hr|exact Hp|reflexivity| |reflexivity]. intros x. unfold match_sub.
    change (st_inst x) with (sb_inst x). destruct (str_field (sf_inst f) (sb_inst x)); [by rewrite andb_true_r|by rewrite andb_false_r].
  - eapply (list_refines (m_incidents m) (nf_inst f)); [done|apply Hr|exact Hp|reflexivity|done|reflexivity].
  - by apply blobs_refine.
  - destruct Hp as [Hi Hs]. destruct (list_history_reads s m inst f Ha Hi Hs) as (s' & Hl & Hsame). exists s'. split; [|by eapply abs_same].
    cbn [sql_call sql_read mem_call mem_read fst]. eapply ST_step; [exact Hl|done].
Qed.

(** ** Any sequence of calls *)
Fixpoint run_sql (cs : list store_call) s : list (res goerr answer) * SQL :=
  match cs with
  | [] => ([], s)
  | c :: cs => let '(r, s) := sql_call c s in let '(rs, s) := run_sql cs s in (r :: rs, s)
  end.
Fixpoint run_mem (cs : list store_call) (m : Memory) : list (res goerr answer) * Memory :=
  match cs with
  | [] => ([], m)
  | c :: cs => let '(r, m) := mem_call c m in let '(rs, m) := run_mem cs m in (r :: rs, m)
  end.
Fixpoint calls_pre (cs : list store_call) (m : Memory) : Prop :=
  match cs with [] => True | c :: cs => call_pre c m /\ calls_pre cs (mem_call c m).2 end.

Lemma calls_agree cs s m : abs s m -> calls_pre cs m ->
  exists s', run_sql cs s = ((run_mem cs m).1, s') /\ abs s' (run_mem cs m).2.
Proof.
  revert s m. induction cs as [|c cs IH]; intros s m Ha Hpre; [by exists s|]. destruct Hpre as [Hc Hpre].
  assert (refines c s m) as (s1 & H1 & Ha1).
  { destruct c as [o|r]; [destruct Hc; by apply op_refines|by apply read_refines]. }
  cbn [run_sql run_mem]. rewrite H1. destruct (mem_call c m) as [r1 m1]. cbn [fst snd] in *.
  destruct (IH s1 m1 Ha1 Hpre) as (s' & H2 & Ha'). rewrite H2. destruct (run_mem cs m1) as [rs m']. by exists s'.
Qed.
(** C3: while the database answers, the SQL store is the in-memory store:
    over any sequence of calls it gives the same answers, those of the claims
    included, and its table goes on holding the state of the other one; in every
    dialect, and in whatever order the database lists its rows. *)
Theorem sql_refines_memory cs s m : abs s m -> calls_pre cs m ->
  exists s', run_sql cs s = ((run_mem cs m).1, s') /\ abs s' (run_mem cs m).2.
Proof. apply calls_agree. Qed.
Lemma abs_empty s : live s -> tb s = ∅ -> sq_seq s = ∅ -> abs s new_memory.
Proof.
  intros Hl Ht Hq. assert (forall A `{Stored A}, tab ∅ (∅ : gmap string A)) as Htab.
  { intros A J S. split; [intros k; by rewrite !lookup_empty|intros k x; by rewrite lookup_empty|apply keyed_empty]. }
  split; [done|apply new_memory_ok| |intros i n; by rewrite Hq, lookup_empty].
  rewrite Ht. split; cbn; try apply Htab; try (intros k x; by rewrite lookup_empty).
  exists ∅. split_and!; [apply Htab|intros k x; by rewrite lookup_empty|]. intros i ev. unfold hist_in. rewrite lookup_empty, lookup_empty. cbn.
  split; [intros H; by apply elem_of_nil in H|by intros []].
Qed.

(** ** Definitions

    Definitions of one key and version in several tenants make the answer of the
    in-memory store depend on the order in which Go walks its map; the database
    has an order of its own, and its answer is the one of that order. *)
Definition walk_order (l0 : list string) : MapOrder.
Proof.
  refine {| range_keys seed l := match seed with O => if decide (l0 ≡ₚ l) then l0 else l | _ => range_keys seed l end |}.
  intros [|seed] l; [by case_decide|apply range_keys_perm].
Defined.
Lemma walk_values (t : gmap string ProcDef) xs : keyed pd_id t -> xs ≡ₚ map snd (map_to_list t) ->
  map snd (@map_range (walk_order (map pd_id xs)) _ 0 t) = xs.
Proof.
  intros Hk Hxs. unfold map_range. cbn [range_keys walk_order].
  assert (map pd_id xs ≡ₚ map fst (map_to_list t)) as Hp.
  { rewrite Hxs, map_map. apply Permutation_refl', map_ext_in. intros [k x] Hin. cbn. apply list_elem_of_In, elem_of_map_to_list in Hin. by apply Hk. }
  rewrite decide_True by done.
  assert (forall x, x ∈ xs -> t !! pd_id x = Some x) as Hin.
  { intros x. rewrite Hxs, elem_of_values. intros [k Hx]. by rewrite (Hk _ _ Hx). }
  clear -Hin. induction xs as [|x xs IH]; [done|]. cbn. rewrite (Hin x) by set_solver. cbn. f_equal. apply IH. intros y Hy. apply Hin. set_solver.
Qed.
Theorem definitions_refine s m : abs s m ->
  (forall tenant key, exists MO' s',
    LatestDefinitionForTenant tenant key s = (match @StoreMemory.LatestDefinitionForTenant MO' tenant key m with
                                              | Some x => Ok x | None => Err ENotFound end, s') /\ abs s' m) /\
  (forall latest, exists MO' s', ListDefinitions latest s = (Ok (@StoreMemory.ListDefinitions MO' latest m), s') /\ abs s' m).
Proof.
  intros Ha. pose proof (rel_definitions _ _ (abs_rel _ _ Ha)) as Ht. pose proof (tab_keyed _ _ Ht) as Hk. split.
  - intros tenant key.
    match goal with |- context [LatestDefinitionForTenant tenant key s] => unfold LatestDefinitionForTenant end.
    match goal with |- context [scanKind "def" "" ?fn ?a] =>
      destruct (scan_reads (m_definitions m) "" fn a s (abs_live _ _ Ha) Ht) as (xs & s' & Hxs & Hj & Hsame & Hscan); [done|] end.
    rewrite (keep_all (fun x => str_field "" (st_inst x))) in Hxs by done.
    exists (walk_order (map pd_id xs)), s'. split; [|by eapply abs_same].
    unfold StoreMemory.LatestDefinitionForTenant. rewrite (walk_values _ _ Hk Hxs). unfold latest_of.
    rewrite (scan_folds _ (fun best d => if String.eqb (pd_key d) key && String.eqb (pd_tenant d) tenant
       && match best with None => true | Some b => pd_version b <? pd_version d end then Some d else best)) in Hscan;
      [|clear; intros x acc s Hx; eapply ST_step; [by apply unmarshal_ok|done]|done].
    eapply ST_step; [exact Hscan|]. by destruct (fold_left _ xs None).
  - intros latest. destruct (collect_keeps (m_definitions m) "" (fun _ => true) s (abs_live _ _ Ha) Ht) as (xs & s' & Hxs & Hsame & Hc); [done|].
    rewrite (keep_all (fun x => str_field "" (st_inst x))) in Hxs by done.
    exists (walk_order (map pd_id xs)), s'. split; [|by eapply abs_same].
    eapply ST_step; [exact Hc|]. rewrite keep_all by done. unfold StoreMemory.ListDefinitions. by rewrite (walk_values _ _ Hk Hxs).
Qed.

(** ** A record that JSON cannot hold *)
Lemma scan_fails {A} `{Json A} (p : A -> bool) rs acc s : Exists (fun r => exists e, decode (A := A) (r_data r) = inl e) rs ->
  exists e, scan_rows (fun data out => a ← unmarshal data; mret (if p a then out ++ [a] else out)%list)
    (map (fun r => [SText (r_data r)]) rs) acc s = (Err (EMsg e), s).
Proof.
  intros Hex. revert acc. induction rs as [|r rs IH]; intros acc; [by apply Exists_nil in Hex|]. cbn [map scan_rows].
  assert (forall f : string -> DB (list A), (of_sum (scan_one scan_string [SText (r_data r)]) ≫= f) s = f (r_data r) s) as Hs by done.
  rewrite Hs. unfold mbind, ST_bind, unmarshal. destruct (decode (r_data r)) as [e|a] eqn:Ed; cbn; [by exists e|].
  apply IH. apply Exists_cons in Hex as [[e He]|Hex]; [by rewrite Ed in He|done].
Qed.
(** An instance with a variable that JSON has no text for (a NaN, an infinity)
    is stored as the empty text, without an error; from then on no list of
    instances can be read, whatever its filter. *)
Theorem unencodable_poisons i s m e :
  abs s m -> encode (set_in_rev (in_rev i + 1) i) = None -> decode (A := Instance) "" = inl e ->
  sends (row_args (inst_row (set_in_rev (in_rev i + 1) i))) ->
  exists s', PutInstance i s = (Ok (set_in_rev (in_rev i + 1) i), s') /\
    forall f, exists msg s2, ListInstances f s' = (Err (EMsg msg), s2).
Proof.
  intros Ha Henc Hdec Hs. set (i' := set_in_rev (in_rev i + 1) i) in *.
  destruct (upsert_puts (inst_row i') s (abs_live _ _ Ha) Hs) as (s' & Hp & Hl & Ht & _). exists s'. split.
  { eapply ST_step; [exact Hp|done]. }
  intros f. assert (sends (selection_args (OfKind "inst"))) as Hk by (apply sends_kind; unfold kinds; set_solver).
  destruct (query_selects (OfKind "inst") s' Hl Hk) as (rs & s1 & Hq & _ & Hrs).
  assert (Exists (fun r => exists e, decode (A := Instance) (r_data r) = inl e) rs) as Hex.
  { apply Exists_exists. exists (inst_row i'). split.
    - rewrite Hrs. unfold selected, keep. apply list_elem_of_fmap. exists (("inst", in_id i'), inst_row i'). split; [done|].
      apply list_elem_of_filter. split; [done|]. apply elem_of_map_to_list. rewrite Ht. cbn. by rewrite lookup_insert_eq.
    - exists e. cbn. unfold marshal. by rewrite Henc. }
  destruct (scan_fails (match_instance f) rs [] s1 Hex) as (msg & Hscan). exists msg, s1.
  unfold ListInstances, list_by_id, collect, scanKind. cbn [String.eqb].
  unfold mbind, ST_bind. cbn [source_selection selection_args] in Hq. rewrite Hq. cbn [fst]. unfold mbind, ST_bind in Hscan. by rewrite Hscan.
Qed.
End sql.
