(* ===== verification/SqlSamples.v ===== *)
(** * A concrete database

    A table in memory that understands the texts of the statements, and that
    stops answering after a number of calls; JSON that knows a few records.
    The refinement applied to a run of it, and what the store loses when the
    database stops in the middle of a claim. *)
From S2P Require Import Prelude GoFloat GoUtf8 GoTime ExprValue StoreTypes StoreQuery StoreMemory StoreJournal EngineBase EngineApi EngineJobs EngineSamples SqlStore SqlRefine SqlCalls.
Local Open Scope string_scope.
Local Open Scope Z_scope.

Section toy.
Variable d : SQLDialect.
(** [ty_fuse]: the calls that are still answered, [None] when all are. *)
Record toy := { ty_table : table; ty_fuse : option nat }.
Definition parse_change (text : string) (args : list sql_value) : option change :=
  if String.eqb text (change_text d (Upsert {| r_kind := ""; r_id := ""; r_tenant := ""; r_k := ""; r_instance := ""; r_state := ""; r_due := 0; r_seq := 0; r_data := "" |})) then
    match args with
    | [SText k; SText i; SText t; SText key; SText inst; SText st; SInt due; SInt sq; SText data] =>
        Some (Upsert {| r_kind := k; r_id := i; r_tenant := t; r_k := key; r_instance := inst; r_state := st;
                        r_due := due; r_seq := sq; r_data := data |})
    | _ => None
    end
  else if String.eqb text (change_text d (DeleteRow "" "")) then
    match args with [SText kind; SText id] => Some (DeleteRow kind id) | _ => None end
  else if String.eqb text (change_text d (PurgeRows "")) then
    match args with [SText inst] => Some (PurgeRows inst) | _ => None end
  else if String.eqb text (change_text d (Claim "" 0 "" "" "" 0)) then
    match args with
    | [SText data; SInt due; SText kind; SText id; SText state; SInt now] => Some (Claim data due kind id state now)
    | _ => None
    end
  else None.
Definition parse_selection (text : string) (args : list sql_value) : option selection :=
  if String.eqb text (selection_text d (ById "" "")) then match args with [SText kind; SText id] => Some (ById kind id) | _ => None end
  else if String.eqb text (selection_text d (OfKind "")) then match args with [SText kind] => Some (OfKind kind) | _ => None end
  else if String.eqb text (selection_text d (OfInstance "" "")) then
    match args with [SText kind; SText inst] => Some (OfInstance kind inst) | _ => None end
  else None.
Definition max_value (rs : list row) : sql_value :=
  match rs with [] => SNull | r :: rs => SInt (fold_left (fun n r => Z.max n (r_seq r)) rs (r_seq r)) end.
(** The fuse burns down; a call after its end is not answered. *)
Definition burn (t : toy) : option toy :=
  match ty_fuse t with
  | None => Some t
  | Some O => None
  | Some (S n) => Some {| ty_table := ty_table t; ty_fuse := Some n |}
  end.
Definition toy_exec (text : string) (args : list sql_value) (t : toy) : exec_result * toy :=
  match burn t with
  | None => (ExecErr "connection refused", t)
  | Some t =>
      match parse_change text args with
      | None => (Affected (inr 0), t)
      | Some c =>
          (Affected (inr (match finds c (ty_table t) with Some false => 0 | _ => 1 end)),
           {| ty_table := SqlRefine.effect c (ty_table t); ty_fuse := ty_fuse t |})
      end
  end.
Definition toy_query (text : string) (args : list sql_value) (t : toy) : query_result * toy :=
  match burn t with
  | None => (QueryErr "connection refused", t)
  | Some t =>
      (match parse_selection text args with
       | Some c => QueryRows (map (fun r => [SText (r_data r)]) (selected c (ty_table t))) None
       | None =>
           match args with
           | [SText kind; SText inst] => QueryRows [[max_value (selected (OfInstance kind inst) (ty_table t))]] None
           | _ => QueryErr "syntax error"
           end
       end, t)
  end.
End toy.
Definition toy_database (d : SQLDialect) : Database := {| db_state := toy; db_exec := toy_exec d; db_query := toy_query d |}.

Lemma parse_change_text d c : parse_change d (change_text d c) (change_args c) = Some c.
Proof. destruct c as [[]| | |]; destruct d; vm_compute; reflexivity. Qed.
Lemma parse_selection_text d c : parse_selection d (selection_text d c) (selection_args c) = Some c.
Proof. destruct c; destruct d; vm_compute; reflexivity. Qed.
Lemma parse_max d args : parse_selection d (largest_text d) args = None.
Proof. destruct d; vm_compute; reflexivity. Qed.
Lemma max_largest rs : exists m, scan_null_int (max_value rs) = inr m /\ largest rs m.
Proof.
  destruct rs as [|r rs]; [by exists None|]. eexists. split; [reflexivity|]. cbn [largest].
  assert (forall n, n <= fold_left (fun n r => Z.max n (r_seq r)) rs n /\
    (forall x, x ∈ rs -> r_seq x <= fold_left (fun n r => Z.max n (r_seq r)) rs n) /\
    (fold_left (fun n r => Z.max n (r_seq r)) rs n = n \/ exists x, x ∈ rs /\ r_seq x = fold_left (fun n r => Z.max n (r_seq r)) rs n)) as H.
  { induction rs as [|x rs IH]; intros n; cbn [fold_left]; [split_and!; [lia|set_solver|by left]|].
    destruct (IH (Z.max n (r_seq x))) as (H1 & H2 & H3). split_and!; [lia| |].
    - intros y [->|Hy]%elem_of_cons; [lia|by apply H2].
    - destruct H3 as [H3|(y & Hy & H3)]; [|right; exists y; split; [set_solver|done]].
      destruct (Z.max_spec n (r_seq x)) as [[? E]|[? E]]; [right; exists x; split; [set_solver|lia]|left; lia]. }
  destruct (H (r_seq r)) as (H1 & H2 & H3). split.
  - destruct H3 as [E|(x & Hx & E)]; [exists r|exists x]; (split; [set_solver|done]).
  - intros x [->|Hx]%elem_of_cons; [done|by apply H2].
Qed.
Program Definition toy_laws (d : SQLDialect) : DatabaseLaws (D := toy_database d) d :=
  {| tbl := ty_table; up t := ty_fuse t = None; sends _ := True |}.
Next Obligation. done. Qed.
Next Obligation. done. Qed.
Next Obligation. done. Qed.
Next Obligation.
  intros d c t Hu _. cbn in *. unfold toy_exec, burn. rewrite Hu, parse_change_text. eexists _, _. split_and!; [reflexivity|done..|].
  intros b ->. by destruct b.
Qed.
Next Obligation.
  intros d c t Hu _. cbn in *. unfold toy_query, burn. rewrite Hu, parse_selection_text. eexists _, _. by split_and!.
Qed.
Next Obligation.
  intros d inst t Hu _. cbn in *. unfold toy_query, burn. rewrite Hu, parse_max.
  destruct (max_largest (selected (OfInstance "hist" inst) (ty_table t))) as (m & Hm & Hl). eexists _, m, _. by split_and!.
Qed.

(** ** Records that a JSON of samples holds *)
Definition keyed_json {A} (key : A -> string) (samples : list A) : Json A :=
  {| encode x := if existsb (String.eqb (key x)) (map key samples) then Some (key x) else None;
     decode s := match find (fun x => String.eqb (key x) s) samples with
                 | Some x => inr x
                 | None => inl "unexpected end of JSON input"
                 end |}.
Definition job_a := sample_job "j1" "a" 10.
Definition job_a2 := sample_job "j2" "a" 20.
Definition job_b := sample_job "j3" "b" 30.
Definition work_a := sample_ext "x1" "a".
Definition event_a := sample_event "a".
Definition number_ext (t : ExternalTask) : string := ex_id t ++ "/" ++ ex_locked_by t.
#[export] Instance sample_json : RecordJson := {|
  json_definition := keyed_json pd_id [];
  json_instance := keyed_json in_id [set_in_rev 1 (StoreMemory.sample_instance "a")];
  json_task := keyed_json ta_id [];
  json_job := keyed_json jb_id [job_a; job_a2; job_b];
  json_external := keyed_json number_ext [work_a; ext_lock "w" 50 work_a];
  json_agent := keyed_json ag_id [];
  json_sub := keyed_json sb_id [];
  json_incident := keyed_json ic_id [];
  json_blob := keyed_json bl_key [];
  json_event := keyed_json (fun ev => fmt_int (hv_seq ev)) [set_hv_seq 1 event_a; set_hv_seq 2 event_a];
|}.
Definition every_event : HistoryFilter := {| hf_type := ""; hf_after := 0; hf_limit := 0 |}.
Definition sample_calls : list store_call :=
  [CallOp (OPutInstance (StoreMemory.sample_instance "a")); CallOp (OPutJob job_a); CallOp (OPutJob job_b);
   CallOp (OPutExternalTask work_a); CallOp (OAppendHistory event_a); CallOp (OAppendHistory event_a);
   CallOp (ODueJobs 25 0); CallOp (OFetchExternalTasks "mail" "w" 50 10 1);
   CallOp (OFetchExternalTasks "mail" "w" 50 20 1); CallRead (RInstances no_inst_filter); CallRead (RHistory "a" every_event);
   CallOp (OPurgeInstance "a"); CallRead (RExternal "x1"); CallRead (RJobs "")].
#[local] Existing Instance key_order.
#[local] Existing Instance latin1_only.
#[local] Instance postgres : Database := toy_database DialectPostgres.
#[local] Instance postgres_laws : DatabaseLaws DialectPostgres := toy_laws DialectPostgres.
Definition connect (T : table) (fuse : option nat) : SQL :=
  {| sq_db := {| ty_table := T; ty_fuse := fuse |}; sq_dialect := DialectPostgres; sq_seq := ∅ |}.

Lemma only_work m k x : (m_externals m = {["x1" := work_a]} \/ m_externals m = {["x1" := ext_lock "w" 50 work_a]}) ->
  m_externals m !! k = Some x -> x = work_a \/ x = ext_lock "w" 50 work_a.
Proof. intros [-> | ->] [_ <-]%lookup_singleton_Some; auto. Qed.
(** The calls of the samples keep to what they have to. *)
Ltac sample_pre :=
  repeat split; try exact I; try discriminate; try (by left); try (eexists; split; vm_compute; reflexivity);
  try (vm_compute; first [reflexivity|discriminate]); try (right; lia);
  (match goal with Hx : _ !! _ = Some _ |- _ => eapply only_work in Hx; [destruct Hx as [-> | ->]|] end;
   [eexists; split; vm_compute; reflexivity|eexists; split; vm_compute; reflexivity|
  first [left; vm_compute; reflexivity|right; vm_compute; reflexivity]]).
Lemma sql_refines_memory_witness :
  exists s', run_sql sample_calls (connect ∅ None)
    = ([Ok (AInsts [set_in_rev 1 (StoreMemory.sample_instance "a")]); Ok ADone; Ok ADone; Ok ADone;
        Ok (AEvents [set_hv_seq 1 event_a]); Ok (AEvents [set_hv_seq 2 event_a]);
        Ok (AJobs [job_a]); Ok (AExts [ext_lock "w" 50 work_a]); Ok (AExts []);
        Ok (AInsts [set_in_rev 1 (StoreMemory.sample_instance "a")]);
        Ok (AEvents [set_hv_seq 1 event_a; set_hv_seq 2 event_a]); Ok ADone; Err ENotFound; Ok (AJobs [job_b])], s').
Proof.
  destruct (sql_refines_memory sample_calls (connect ∅ None) new_memory) as (s' & H & _).
  - apply abs_empty; [by split|reflexivity|reflexivity].
  - sample_pre.
  - exists s'. exact H.
Defined.
(** The variable that no JSON of the samples holds. *)
Lemma unencodable_poisons_witness :
  let i := StoreMemory.sample_instance "nan" in
  exists s', PutInstance i (connect ∅ None) = (Ok (set_in_rev 1 i), s') /\
    forall f, exists msg s2, ListInstances f s' = (Err (EMsg msg), s2).
Proof.
  apply (unencodable_poisons (StoreMemory.sample_instance "nan") (connect ∅ None) new_memory "unexpected end of JSON input");
    [apply abs_empty; [by split|reflexivity|reflexivity]|reflexivity|reflexivity|exact I].
Defined.

(** Two jobs are due.  The database answers the scan and the first deletion and
    then no more: the call fails, and the first job is neither handed out nor
    left in the table, so that the next call only finds the second. *)
Example claimed_jobs_lost :
  let s := (run_sql [CallOp (OPutJob job_a); CallOp (OPutJob job_a2)] (connect ∅ None)).2 in
  let '(r, s') := DueJobs 25 0 (connect (tb s) (Some 2%nat)) in
  r = Err (EMsg "connection refused") /\ tb s' !! ("job", "j1") = None /\
  (DueJobs 25 0 (connect (tb s') None)).1 = Ok [job_a2].
Proof. vm_compute. auto. Qed.
(** A task filter on variables: when the second query is not answered, the task
    is left out, without an error. *)
Example unread_variables_hide_work :
  (cached_vars "a" ∅ (connect ∅ (Some 0%nat))).1 = Ok (None, {["a" := None]}).
Proof. vm_compute. reflexivity. Qed.
