(* ===== verification/SqlDriver.v ===== *)
(** * The database of the tests ([src/store/sqltest/driver.go])

    The program has a driver of its own that speaks the statements of the SQL
    store over a map in memory.  It obeys [DatabaseLaws] for the dialects that
    leave the placeholders alone, so that the SQL store over it is the in-memory
    store, from the creation of the table on.

    A row lies under its kind and identifier, joined by a NUL byte; two different
    pairs can only share a key when a kind holds that byte. *)
From Stdlib Require Import Ascii.
From S2P Require Import Prelude GoFloat GoUtf8 GoTime ExprValue StoreTypes StoreQuery StoreMemory EngineBase EngineApi SqlStore SqlRefine SqlCalls SqlSamples.
Local Open Scope string_scope.
Local Open Scope Z_scope.

(** [fakeDB]; [fk_calls] counts the calls, each of which walks the map in an
    order of its own. *)
Record fake_db := { fk_rows : gmap string row; fk_calls : nat }.
Definition nul : ascii := Ascii.zero.
Definition row_key (kind id : string) : string := kind ++ String nul id.
Definition as_string (v : sql_value) : string := match v with SText s => s | SInt z => fmt_int z | SNull => "<nil>" end.
Definition as_int (v : sql_value) : Z := match v with SInt z => z | _ => 0 end.
(** The statements come with the arguments that their placeholders name. *)
Definition arg (args : list sql_value) (n : nat) : sql_value := nth n args SNull.

Definition create_prefixes := ["CREATE TABLE"; "CREATE INDEX"].
Definition update_prefix := "UPDATE fliable_records SET data=?, due=? WHERE kind=? AND id=? AND state=? AND due<=?".
Section driver.
Context {MO : MapOrder}.
Definition with_rows (rows : gmap string row) (s : fake_db) : fake_db := {| fk_rows := rows; fk_calls := S (fk_calls s) |}.
(** The loop that deletes the rows of an instance counts them. *)
Definition purge_step (inst : string) (acc : gmap string row * Z) (kr : string * row) : gmap string row * Z :=
  if String.eqb (r_instance kr.2) inst then (delete kr.1 acc.1, acc.2 + 1) else acc.
Definition purge_rows (inst : string) (n : nat) (rows : gmap string row) : gmap string row * Z :=
  fold_left (purge_step inst) (map_range n rows) (rows, 0).
(** [ExecContext] *)
Definition fake_exec (query : string) (args : list sql_value) (s : fake_db) : exec_result * fake_db :=
  let q := trim_space query in
  let str n := as_string (arg args n) in
  let int n := as_int (arg args n) in
  let rows := fk_rows s in
  if existsb (has_prefix q) create_prefixes then (Affected (inr 0), with_rows rows s)
  else if has_prefix q "INSERT INTO fliable_records" then
    if negb (Nat.eqb (length args) 9) then
      (ExecErr ("sqltest: upsert wants 9 args, got " ++ fmt_int (Z.of_nat (length args))), with_rows rows s)
    else
      let r := {| r_kind := str 0%nat; r_id := str 1%nat; r_tenant := str 2%nat; r_k := str 3%nat; r_instance := str 4%nat;
                  r_state := str 5%nat; r_due := int 6%nat; r_seq := int 7%nat; r_data := str 8%nat |} in
      (Affected (inr 1), with_rows (<[row_key (r_kind r) (r_id r) := r]> rows) s)
  else if has_prefix q update_prefix then
    let key := row_key (str 2%nat) (str 3%nat) in
    match rows !! key with
    | Some r => if negb (String.eqb (r_state r) (str 4%nat)) || (int 5%nat <? r_due r) then (Affected (inr 0), with_rows rows s)
                else (Affected (inr 1), with_rows (<[key := set_claim (str 0%nat) (int 1%nat) r]> rows) s)
    | None => (Affected (inr 0), with_rows rows s)
    end
  else if has_prefix q "DELETE FROM fliable_records WHERE kind=? AND id=?" then
    let key := row_key (str 0%nat) (str 1%nat) in
    match rows !! key with
    | None => (Affected (inr 0), with_rows rows s)
    | Some _ => (Affected (inr 1), with_rows (delete key rows) s)
    end
  else if has_prefix q "DELETE FROM fliable_records WHERE instance=?" then
    let '(rows', n) := purge_rows (str 0%nat) (fk_calls s) rows in (Affected (inr n), with_rows rows' s)
  else (ExecErr ("sqltest: unsupported exec: " ++ q), with_rows rows s).

(** [QueryContext] *)
Definition data_rows (p : row -> bool) (n : nat) (rows : gmap string row) : list (list sql_value) :=
  map (fun r => [SText (r_data r)]) (keep p (map snd (map_range n rows))).
Definition max_step (m : sql_value) (r : row) : sql_value :=
  match m with SInt n => if n <? r_seq r then SInt (r_seq r) else m | _ => SInt (r_seq r) end.
Definition max_seq (rs : list row) : sql_value := fold_left max_step rs SNull.
Definition of_instance (kind inst : string) (r : row) : bool := String.eqb (r_kind r) kind && String.eqb (r_instance r) inst.
Definition fake_query (query : string) (args : list sql_value) (s : fake_db) : query_result * fake_db :=
  let q := trim_space query in
  let str n := as_string (arg args n) in
  let rows := fk_rows s in
  let answer r := (r, with_rows rows s) in
  if has_prefix q "SELECT data FROM fliable_records WHERE kind=? AND id=?" then
    answer (QueryRows (match rows !! row_key (str 0%nat) (str 1%nat) with Some r => [[SText (r_data r)]] | None => [] end) None)
  else if has_prefix q "SELECT data FROM fliable_records WHERE kind=? AND instance=?" then
    answer (QueryRows (data_rows (of_instance (str 0%nat) (str 1%nat)) (fk_calls s) rows) None)
  else if has_prefix q "SELECT data FROM fliable_records WHERE kind=?" then
    answer (QueryRows (data_rows (fun r => String.eqb (r_kind r) (str 0%nat)) (fk_calls s) rows) None)
  else if has_prefix q "SELECT MAX(seq) FROM fliable_records WHERE kind=? AND instance=?" then
    answer (QueryRows [[max_seq (keep (of_instance (str 0%nat) (str 1%nat)) (map snd (map_range (fk_calls s) rows)))]] None)
  else answer (QueryErr ("sqltest: unsupported query: " ++ q)).
#[export] Instance fake_database : Database := {| db_state := fake_db; db_exec := fake_exec; db_query := fake_query |}.
(** [OpenDB]: a fresh table. *)
Definition open_db : fake_db := {| fk_rows := ∅; fk_calls := 0 |}.
End driver.

(** ** The table of the driver *)
Fixpoint nul_free (s : string) : bool :=
  match s with EmptyString => true | String c s => negb (Ascii.eqb c nul) && nul_free s end.
Lemma row_key_inj k i k' i' : nul_free k = true -> nul_free k' = true -> row_key k i = row_key k' i' -> k = k' /\ i = i'.
Proof.
  unfold row_key. revert k'. induction k as [|c k IH]; intros [|c' k']; cbn; intros Hk Hk' E.
  - by injection E.
  - injection E as <- _. discriminate Hk'.
  - injection E as -> _. discriminate Hk.
  - injection E as -> E. apply andb_prop in Hk as [_ Hk], Hk' as [_ Hk']. by destruct (IH k' Hk Hk' E) as [-> ->].
Qed.
(** Every row lies under its key, and its kind has no NUL byte. *)
Definition filed (rows : gmap string row) : Prop :=
  forall k r, rows !! k = Some r -> k = row_key (r_kind r) (r_id r) /\ nul_free (r_kind r) = true.
Definition row_entry (kr : string * row) : string * string * row := ((r_kind kr.2, r_id kr.2), kr.2).
Definition table_of (rows : gmap string row) : table := list_to_map (map row_entry (map_to_list rows)).

Section filed.
Context (rows : gmap string row) (Hf : filed rows).
Lemma entries_NoDup : NoDup (map row_entry (map_to_list rows)).*1.
Proof.
  change (map row_entry (map_to_list rows)) with (row_entry <$> map_to_list rows). rewrite <- list_fmap_compose.
  apply NoDup_fmap_2_strong; [|apply NoDup_map_to_list].
  intros [k1 r1] [k2 r2] H1%elem_of_map_to_list H2%elem_of_map_to_list E. unfold row_entry in E.
  cbn in E. simplify_eq. destruct (Hf _ _ H1) as [-> _], (Hf _ _ H2) as [-> _].
  assert (r1 = r2) as -> by congruence. done.
Qed.
Lemma table_lookup k i r : table_of rows !! (k, i) = Some r <-> nul_free k = true /\ rows !! row_key k i = Some r.
Proof.
  unfold table_of. rewrite <- elem_of_list_to_map by apply entries_NoDup. rewrite list_elem_of_fmap. split.
  - intros ([key x] & [= -> -> ->] & Hx%elem_of_map_to_list). cbn in *. destruct (Hf _ _ Hx) as [-> Hn]. by split.
  - intros [Hn Hr]. exists (row_key k i, r). split; [|by apply elem_of_map_to_list]. destruct (Hf _ _ Hr) as [E Hn'].
    destruct (row_key_inj _ _ _ _ Hn Hn' E) as [-> ->]. done.
Qed.
Lemma table_find k i : nul_free k = true -> table_of rows !! (k, i) = rows !! row_key k i.
Proof. intros Hk. apply option_eq. intros r. rewrite table_lookup. naive_solver. Qed.
Lemma table_entries : map_to_list (table_of rows) ≡ₚ map row_entry (map_to_list rows).
Proof. apply map_to_list_to_map, entries_NoDup. Qed.
Lemma by_key k i : nul_free k = true ->
  match rows !! row_key k i with Some r => [r] | None => [] end
  ≡ₚ keep (fun r => String.eqb (r_kind r) k && String.eqb (r_id r) i) (map snd (map_to_list rows)).
Proof.
  intros Hk. apply NoDup_Permutation.
  - destruct (rows !! row_key k i); [apply NoDup_singleton|constructor].
  - unfold keep. apply NoDup_filter. apply NoDup_fmap_2_strong; [|apply NoDup_map_to_list].
    intros [k1 r1] [k2 r2] H1%elem_of_map_to_list H2%elem_of_map_to_list E. cbn in E. subst r2.
    destruct (Hf _ _ H1) as [-> _], (Hf _ _ H2) as [-> _]. done.
  - intros r. unfold keep. rewrite list_elem_of_filter, elem_of_values, andb_true_iff, !String.eqb_eq. split.
    + destruct (rows !! row_key k i) as [x|] eqn:E; [|intros Hr; by apply elem_of_nil in Hr].
      intros ->%list_elem_of_singleton. destruct (Hf _ _ E) as [Ek Hn]. apply row_key_inj in Ek as [-> ->]; [|done..].
      split; [done|by eexists].
    + intros [[<- <-] [key Hr]]. destruct (Hf _ _ Hr) as [-> _]. rewrite Hr. by apply list_elem_of_singleton.
Qed.
Lemma keep_map {A B} (f : A -> B) (p : B -> bool) l : keep p (map f l) = map f (keep (fun x => p (f x)) l).
Proof. unfold keep. induction l as [|x l IH]; [done|]. cbn [map]. rewrite !filter_cons. case_decide; cbn; by rewrite IH. Qed.
Lemma table_selected c p n `{MO : MapOrder} :
  (forall r, selects c ((r_kind r, r_id r), r) = p r) -> keep p (map snd (map_range n rows)) ≡ₚ selected c (table_of rows).
Proof.
  intros Hp. assert (forall kr, selects c (row_entry kr) = p kr.2) as Hp' by (intros [k r]; apply Hp). unfold selected.
  rewrite (keep_perm (selects c) _ _ table_entries), (keep_perm p _ _ (fmap_Permutation snd _ _ (map_range_perm n rows))).
  rewrite !keep_map, map_map. cbn. apply Permutation_refl'. unfold keep. induction (map_to_list rows) as [|[k r] l IH]; [done|].
  rewrite !filter_cons, Hp'. cbn [snd]. case_decide; cbn; by rewrite IH.
Qed.
Lemma filed_insert r : nul_free (r_kind r) = true -> filed (<[row_key (r_kind r) (r_id r) := r]> rows).
Proof. intros Hn k x [[<- <-]|[_ Hx]]%lookup_insert_Some; [by split|by apply Hf]. Qed.
Lemma filed_delete k : filed (delete k rows).
Proof. intros k' x [_ Hx]%lookup_delete_Some. by apply Hf. Qed.
Lemma filed_filter (p : string * row -> Prop) `{forall x, Decision (p x)} : filed (filter p rows).
Proof. intros k x [Hx _]%map_lookup_filter_Some. by apply Hf. Qed.
End filed.

Lemma table_insert rows r : filed rows -> nul_free (r_kind r) = true ->
  table_of (<[row_key (r_kind r) (r_id r) := r]> rows) = <[(r_kind r, r_id r) := r]> (table_of rows).
Proof.
  intros Hf Hn. apply map_eq. intros [k i]. apply option_eq. intros x.
  rewrite table_lookup by by apply filed_insert. rewrite !lookup_insert_Some, (table_lookup _ Hf). split.
  - intros [Hk [[E <-]|[E Hx]]].
    + apply row_key_inj in E as [<- <-]; [by left|done..].
    + right. split; [|done]. intros [= <- <-]. done.
  - intros [[[= <- <-] <-]|[E [Hk Hx]]]; [by split; [|left]|]. split; [done|right]. split; [|done].
    intros E'. apply row_key_inj in E' as [<- <-]; done.
Qed.
Lemma table_delete rows k i : filed rows -> nul_free k = true -> table_of (delete (row_key k i) rows) = delete (k, i) (table_of rows).
Proof.
  intros Hf Hn. apply map_eq. intros [k' i']. apply option_eq. intros x.
  rewrite table_lookup by by apply filed_delete. rewrite !lookup_delete_Some, (table_lookup _ Hf). split.
  - intros [Hk [E Hx]]. split; [|done]. intros [= <- <-]. done.
  - intros [E [Hk Hx]]. split_and!; [done| |done]. intros E'. apply row_key_inj in E' as [<- <-]; done.
Qed.
Lemma table_purge rows inst : filed rows ->
  table_of (filter (fun kr => String.eqb (r_instance kr.2) inst = false) rows)
  = filter (fun kr => String.eqb (r_instance kr.2) inst = false) (table_of rows).
Proof.
  intros Hf. apply map_eq. intros [k i]. apply option_eq. intros x.
  rewrite table_lookup by by apply filed_filter. rewrite !map_lookup_filter_Some, (table_lookup _ Hf). naive_solver.
Qed.

(** ** The laws *)
Section laws.
Context {MO : MapOrder}.

Lemma purge_fold inst l : forall rows n k r,
  (fold_left (purge_step inst) l (rows, n)).1 !! k = Some r <-> rows !! k = Some r /\ forall x, (k, x) ∈ l -> String.eqb (r_instance x) inst = false.
Proof.
  induction l as [|[k0 x0] l IH]; intros rows n k r; cbn [fold_left].
  - split; [|by intros []]. intros H. split; [done|]. intros x Hx. by apply elem_of_nil in Hx.
  - unfold purge_step at 2. cbn [fst snd]. destruct (String.eqb (r_instance x0) inst) eqn:E; rewrite IH.
    + rewrite lookup_delete_Some. split.
      * intros [[Hne Hr] Hl]. split; [done|]. intros x [[= -> ->]|Hx]%elem_of_cons; [done|by apply Hl].
      * intros [Hr Hl]. split; [split; [|done]|intros x Hx; apply Hl; by right]. intros ->.
        rewrite (Hl x0) in E; [done|by left].
    + split; intros [Hr Hl]; (split; [done|]); intros x; [|intros Hx; apply Hl; by right].
      intros [[= -> ->]|Hx]%elem_of_cons; [done|by apply Hl].
Qed.
Lemma purge_spec inst n rows : (purge_rows inst n rows).1 = filter (fun kr => String.eqb (r_instance kr.2) inst = false) rows.
Proof.
  apply map_eq. intros k. apply option_eq. intros r. unfold purge_rows. rewrite purge_fold, map_lookup_filter_Some. cbn.
  setoid_rewrite elem_of_map_range. split.
  - intros [Hr Hl]. split; [done|by apply Hl].
  - intros [Hr Hl]. split; [done|]. intros x Hx. congruence.
Qed.
Lemma max_spec rs : exists m, scan_null_int (max_seq rs) = inr m /\ largest rs m.
Proof.
  assert (forall (rs : list row) n, exists m, fold_left max_step rs (SInt n) = SInt m /\ n <= m /\ (forall x, x ∈ rs -> r_seq x <= m) /\ (m = n \/ exists x, x ∈ rs /\ r_seq x = m)) as H.
  { induction rs0 as [|r rs0 IH]; intros n; cbn [fold_left max_step]; [exists n; split_and!; [done|lia|intros x Hx; by apply elem_of_nil in Hx|by left]|].
    destruct (Z.ltb_spec n (r_seq r)).
    - destruct (IH (r_seq r)) as (m & -> & Hm & Hall & Hex). exists m. split_and!; [done|lia| |].
      + intros x [->|Hx]%elem_of_cons; [done|by apply Hall].
      + right. destruct Hex as [->|(x & Hx & Hm')]; [exists r; split; [by left|done]|exists x; split; [by right|done]].
    - destruct (IH n) as (m & -> & Hm & Hall & Hex). exists m. split_and!; [done|lia| |].
      + intros x [->|Hx]%elem_of_cons; [lia|by apply Hall].
      + destruct Hex as [->|(x & Hx & Hm')]; [by left|right; exists x; split; [by right|done]]. }
  destruct rs as [|r rs]; [by exists None|]. unfold max_seq. cbn [fold_left max_step]. destruct (H rs (r_seq r)) as (m & -> & Hm & Hall & Hex).
  exists (Some m). split; [done|]. split.
  - destruct Hex as [->|(x & Hx & Hm')]; [exists r; split; [by left|done]|exists x; split; [by right|done]].
  - intros x [->|Hx]%elem_of_cons; [done|by apply Hall].
Qed.
Lemma largest_perm rs rs' m : rs ≡ₚ rs' -> largest rs m -> largest rs' m.
Proof.
  intros Hp. destruct m as [m|]; cbn.
  - intros [(r & Hr & Hm) Hall]. split; [exists r; by rewrite <- Hp|]. intros x. rewrite <- Hp. apply Hall.
  - intros ->. by apply Permutation_nil in Hp.
Qed.

(** The branch of the driver that a closed statement takes. *)
Ltac statement :=
  cbv zeta; unfold as_string, as_int, arg; cbn [nth];
  repeat match goal with
  | |- context [existsb (has_prefix (trim_space ?a)) create_prefixes] =>
      let v := eval vm_compute in (existsb (has_prefix (trim_space a)) create_prefixes) in
      change (existsb (has_prefix (trim_space a)) create_prefixes) with v; cbv iota
  | |- context [has_prefix (trim_space ?a) ?b] =>
      let v := eval vm_compute in (has_prefix (trim_space a) b) in change (has_prefix (trim_space a) b) with v; cbv iota
  end.
(** The arguments by which a row is found hold no NUL byte in the kind. *)
Definition takes (args : list sql_value) : Prop :=
  match args with
  | [SText kind; _] | [_; _; SText kind; _; _; _] | [SText kind; _; _; _; _; _; _; _; _] => nul_free kind = true
  | _ => True
  end.
Lemma kinds_nul_free k : k ∈ kinds -> nul_free k = true.
Proof. intros Hk. repeat (apply elem_of_cons in Hk as [->|Hk]; [reflexivity|]). by apply elem_of_nil in Hk. Qed.

Program Definition driver_laws (d : SQLDialect) (Hd : d <> DialectPostgres) : DatabaseLaws d :=
  {| tbl s := table_of (fk_rows s); up s := filed (fk_rows s); sends := takes |}.
Next Obligation. done. Qed.
Next Obligation. done. Qed.
Next Obligation. intros d Hd r k _ Hk. by apply kinds_nul_free. Qed.
Next Obligation.
  intros d Hd c s Hf Hs. cbn [db_exec fake_database] in *. unfold fake_exec. destruct c as [r|kind id|inst|data due kind id state now].
  - assert (fake_exec (change_text d (Upsert r)) (change_args (Upsert r)) s
      = (Affected (inr 1), with_rows (<[row_key (r_kind r) (r_id r) := r]> (fk_rows s)) s)) as He.
    { destruct d; [done|..]; unfold fake_exec; cbn [change_text change_args row_args]; statement; cbn [length Nat.eqb negb]; by destruct r. }
    cbn in Hs. eexists _, _. split; [exact He|]. cbn. split_and!; [by apply filed_insert|by apply table_insert|done].
  - pose proof (table_find _ Hf kind id Hs) as Hl. unfold finds. rewrite Hl. destruct (fk_rows s !! row_key kind id) as [r|] eqn:E.
    + exists 1, (with_rows (delete (row_key kind id) (fk_rows s)) s).
      split; [destruct d; [done|..]; cbn [change_text change_args]; statement; by rewrite E|]. cbn.
      split_and!; [by apply filed_delete|by apply table_delete|by intros b [= <-]].
    + exists 0, (with_rows (fk_rows s) s).
      split; [destruct d; [done|..]; cbn [change_text change_args]; statement; by rewrite E|]. cbn.
      split_and!; [done|symmetry; by apply delete_id|by intros b [= <-]].
  - exists (purge_rows inst (fk_calls s) (fk_rows s)).2, (with_rows (purge_rows inst (fk_calls s) (fk_rows s)).1 s).
    split; [destruct d; [done|..]; cbn [change_text change_args]; statement; by destruct (purge_rows _ _ _)|]. cbn.
    rewrite purge_spec. split_and!; [by apply filed_filter|by apply table_purge|done].
  - unfold effect, finds, claimable. rewrite (table_find _ Hf kind id Hs). destruct (fk_rows s !! row_key kind id) as [r|] eqn:E.
    + destruct (String.eqb (r_state r) state && (r_due r <=? now)) eqn:Ec.
      * destruct (Hf _ _ E) as [Ek Hn]. cbn in Hs. apply row_key_inj in Ek as [Ek Ei]; [|done..].
        exists 1, (with_rows (<[row_key kind id := set_claim data due r]> (fk_rows s)) s). split.
        { destruct d; [done|..]; cbn [change_text change_args]; statement; rewrite E;
            apply andb_prop in Ec as [-> Hdue]; rewrite Z.leb_le in Hdue; by rewrite (proj2 (Z.ltb_ge _ _) Hdue). }
        cbn. subst kind id. split_and!; [by apply (filed_insert _ Hf (set_claim data due r))|
          by apply (table_insert _ (set_claim data due r))|by intros b [= <-]].
      * exists 0, (with_rows (fk_rows s) s). split.
        { destruct d; [done|..]; cbn [change_text change_args]; statement; rewrite E;
            (replace (negb (String.eqb (r_state r) state) || (now <? r_due r)) with true; [done|]);
            rewrite Z.ltb_antisym, <- negb_andb; by rewrite Ec. }
        cbn. by split_and!; [| |intros b [= <-]].
    + exists 0, (with_rows (fk_rows s) s). split; [destruct d; [done|..]; cbn [change_text change_args]; statement; by rewrite E|].
      cbn. by split_and!; [| |intros b [= <-]].
Qed.
Next Obligation.
  intros d Hd c s Hf Hs. cbn [db_query fake_database] in *. unfold fake_query. destruct c as [kind id|kind|kind inst].
  - exists (match fk_rows s !! row_key kind id with Some r => [r] | None => [] end), (with_rows (fk_rows s) s).
    split; [destruct d; [done|..]; cbn [selection_text selection_args]; statement; by destruct (fk_rows s !! row_key kind id)|].
    split_and!; [done..|]. cbn [fk_rows]. rewrite <- (table_selected _ Hf (ById kind id)
      (fun r => String.eqb (r_kind r) kind && String.eqb (r_id r) id) 0) by done.
    rewrite (keep_perm _ _ _ (fmap_Permutation snd _ _ (map_range_perm 0 (fk_rows s)))).
    apply by_key; [done|exact Hs].
  - exists (keep (fun r => String.eqb (r_kind r) kind) (map snd (map_range (fk_calls s) (fk_rows s)))), (with_rows (fk_rows s) s).
    split; [destruct d; [done|..]; cbn [selection_text selection_args]; by statement|].
    split_and!; [done..|]. by apply table_selected.
  - exists (keep (of_instance kind inst) (map snd (map_range (fk_calls s) (fk_rows s)))), (with_rows (fk_rows s) s).
    split; [destruct d; [done|..]; cbn [selection_text selection_args]; by statement|].
    split_and!; [done..|]. by apply table_selected.
Qed.
Next Obligation.
  intros d Hd inst s Hf Hs. cbn [db_query fake_database] in *. unfold fake_query.
  pose proof (table_selected _ Hf (OfInstance "hist" inst) (of_instance "hist" inst) (fk_calls s) (fun r => eq_refl)) as Hp.
  destruct (max_spec (keep (of_instance "hist" inst) (map snd (map_range (fk_calls s) (fk_rows s))))) as (m & Hm & Hl).
  eexists _, m, (with_rows (fk_rows s) s). split; [destruct d; [done|..]; cbn [largest_text]; by statement|].
  split_and!; [done|done|exact Hm|]. by eapply largest_perm.
Qed.
End laws.

(** ** The store over the driver *)
Section store.
Context {U : Unicode} {MO : MapOrder} {RJ : RecordJson} (d : SQLDialect) (Hd : d <> DialectPostgres).
#[local] Instance laws_of_driver : DatabaseLaws d := driver_laws d Hd.

(** [NewSQL] runs the statements of the schema, and leaves a fresh table. *)
Definition creates (stmt : string) : bool :=
  let stmt := trim_space stmt in String.eqb stmt "" || existsb (has_prefix (trim_space stmt)) create_prefixes.
Lemma migrate_creates stmts s : forallb creates stmts = true ->
  exists n, migrate stmts s = (Ok tt, set_sq_db {| fk_rows := fk_rows (sq_db s); fk_calls := n |} s).
Proof.
  revert s. induction stmts as [|stmt stmts IH]; intros s; cbn [forallb migrate].
  - intros _. exists (fk_calls (sq_db s)). by destruct s as [[]].
  - unfold creates at 1. intros [Hc Hs]%andb_prop. destruct (String.eqb (trim_space stmt) ""); [by apply IH|].
    cbn [orb] in Hc. cbn [db_exec fake_database]. unfold fake_exec. rewrite Hc.
    destruct (IH (set_sq_db (D := fake_database) (with_rows (fk_rows (sq_db s)) (sq_db s)) s) Hs) as (n & E). exists n. exact E.
Qed.
Lemma new_sql skip : exists n,
  NewSQL open_db d skip = (Ok tt, {| sq_db := {| fk_rows := ∅; fk_calls := n |}; sq_dialect := d; sq_seq := ∅ |}).
Proof.
  destruct skip; [by eexists|]. refine (migrate_creates _ {| sq_db := open_db; sq_dialect := d; sq_seq := ∅ |} _).
  vm_compute. reflexivity.
Qed.
Lemma new_sql_empty skip : exists s, NewSQL open_db d skip = (Ok tt, s) /\ abs s new_memory.
Proof.
  destruct (new_sql skip) as (n & E). eexists. split; [exact E|]. apply abs_empty; [|reflexivity|reflexivity].
  split; [reflexivity|]. intros k r. cbn. by rewrite lookup_empty.
Qed.
(** C35: the SQL store over the driver of the tests is the in-memory store, from
    the creation of its table on: opening it succeeds, and any sequence of calls
    on it gives the answers of a fresh in-memory store. *)
Theorem driver_refines skip cs : calls_pre cs new_memory ->
  exists s s', NewSQL open_db d skip = (Ok tt, s) /\ run_sql cs s = ((run_mem cs new_memory).1, s') /\
    abs s' (run_mem cs new_memory).2.
Proof.
  intros Hpre. destruct (new_sql_empty skip) as (s & E & Ha).
  destruct (calls_agree cs s new_memory Ha Hpre) as (s' & H & Ha'). by exists s, s'.
Qed.
End store.
#[local] Existing Instance key_order.
#[local] Existing Instance latin1_only.
Lemma driver_refines_witness : exists s s', NewSQL open_db DialectSQLite false = (Ok tt, s) /\ run_sql sample_calls s
    = ([Ok (AInsts [set_in_rev 1 (StoreMemory.sample_instance "a")]); Ok ADone; Ok ADone; Ok ADone;
        Ok (AEvents [set_hv_seq 1 event_a]); Ok (AEvents [set_hv_seq 2 event_a]);
        Ok (AJobs [job_a]); Ok (AExts [ext_lock "w" 50 work_a]); Ok (AExts []);
        Ok (AInsts [set_in_rev 1 (StoreMemory.sample_instance "a")]);
        Ok (AEvents [set_hv_seq 1 event_a; set_hv_seq 2 event_a]); Ok ADone; Err ENotFound; Ok (AJobs [job_b])], s').
Proof.
  assert (DialectSQLite <> DialectPostgres) as Hd by discriminate.
  destruct (driver_refines DialectSQLite Hd false sample_calls) as (s & s' & H1 & H2 & _); [sample_pre|].
  exists s, s'. split; [exact H1|exact H2].
Defined.
