(* ===== verification/EngineReach.v ===== *)
(** * The search behind the inclusive join ([src/engine/exec.go])

    [canReach] against the graph of the container: an element leads to the
    targets of its flows and of the flows of its boundary events. *)
From S2P Require Import Prelude GoFloat GoUtf8 GoTime ExprValue StoreTypes StoreQuery StoreMemory BpmnModel EngineBase EngineCancel EngineFlow.
From stdpp Require Import relations.
Local Open Scope string_scope.

(** ** The graph *)
Definition flow_of (c : Container) (a fid : string) : Prop :=
  exists el, c_elements c !! a = Some el
    /\ (fid ∈ el_outgoing el \/ exists b, b ∈ boundary_events c a /\ fid ∈ el_outgoing b).
Definition leads (c : Container) (a b : string) : Prop :=
  exists fid f, flow_of c a fid /\ c_flows c !! fid = Some f /\ sq_target f = b.

Lemma elem_of_next_flows c el a fid :
  c_elements c !! a = Some el -> fid ∈ next_flows c el a <-> flow_of c a fid.
Proof.
  intros Hel. unfold next_flows, flow_of. rewrite elem_of_app, (list_elem_of_In (flat_map _ _)), in_flat_map.
  setoid_rewrite <- list_elem_of_In. naive_solver.
Qed.

(** ** The targets bound the queue *)
Definition targets (c : Container) : gset string :=
  list_to_set (map (fun p => sq_target p.2) (map_to_list (c_flows c))).
Lemma elem_of_targets c fid f : c_flows c !! fid = Some f -> sq_target f ∈ targets c.
Proof.
  intros Hf. apply elem_of_list_to_set, list_elem_of_fmap.
  exists (fid, f). by rewrite elem_of_map_to_list.
Qed.
Lemma list_set_size (l : list string) : size (list_to_set l : gset string) <= length l.
Proof.
  induction l as [|x l IH]; cbn; [by rewrite size_empty|].
  pose proof (size_union_alt {[x]} (list_to_set l : gset string)) as E. rewrite E, size_singleton.
  pose proof (subseteq_size (list_to_set l ∖ {[x]}) (list_to_set l : gset string) ltac:(set_solver)). lia.
Qed.
Lemma targets_size c : size (targets c) <= size (c_flows c).
Proof.
  unfold targets. etrans; [apply list_set_size|]. by rewrite length_map, length_map_to_list.
Qed.

(** ** One element's flows *)
Section search.
Context (c : Container) (to : string).

(** What a round over [fids] adds to [seen] and to the queue. *)
Record visited (seen seen' : gset string) (queue queue' : list string) (fids : list string) : Prop := {
  vi_seen : forall x, x ∈ seen' <-> x ∈ seen \/ exists fid f, fid ∈ fids /\ c_flows c !! fid = Some f /\ sq_target f = x;
  vi_queue : forall x, x ∈ queue' <-> x ∈ queue \/ x ∈ seen' ∖ seen;
  vi_room : length queue' + size (targets c ∖ seen') <= length queue + size (targets c ∖ seen);
}.
Definition finds (fids : list string) : Prop :=
  exists fid f, fid ∈ fids /\ c_flows c !! fid = Some f /\ sq_target f = to.
Lemma found_cons fid fids : finds fids -> finds (fid :: fids).
Proof. intros (x & f & ? & ?). exists x, f. split; [by right|done]. Qed.
Lemma visit_spec fids : forall seen queue, to ∉ seen ->
  match visit_flows c to seen queue fids with
  | Found => finds fids
  | Queue seen' queue' => (to ∉ seen') /\ visited seen seen' queue queue' fids
  end.
Proof.
  induction fids as [|fid fids IH]; intros seen queue Hto; cbn [visit_flows].
  - split; [done|]. split; set_solver.
  - destruct (c_flows c !! fid) as [f|] eqn:Ef.
    + case_bool_decide as Hs; [|destruct (String.eqb_spec (sq_target f) to) as [Ht|Ht]].
      * specialize (IH seen queue Hto). destruct (visit_flows _ _ _ _ _) as [|seen' queue']; [by apply found_cons|].
        destruct IH as [? [IH1 IH2 IH3]]. split; [done|]. split; [|done..].
        intros x. rewrite IH1. setoid_rewrite elem_of_cons. naive_solver.
      * exists fid, f. split; [left|done].
      * specialize (IH ({[sq_target f]} ∪ seen) (queue ++ [sq_target f])%list ltac:(set_solver)).
        destruct (visit_flows _ _ _ _ _) as [|seen' queue']; [by apply found_cons|].
        destruct IH as [? [IH1 IH2 IH3]]. split; [done|].
        assert (sq_target f ∈ seen') as Hin' by (apply IH1; left; set_solver).
        split; [|clear IH1; intros x; rewrite IH2; destruct (decide (x = sq_target f)); set_solver|].
        { intros x. rewrite IH1. setoid_rewrite elem_of_cons. set_unfold. naive_solver. }
        etrans; [exact IH3|].
        rewrite length_app. cbn.
        assert (sq_target f ∈ targets c ∖ seen) as Hin.
        { apply elem_of_difference. split; [by eapply elem_of_targets|done]. }
        assert (targets c ∖ ({[sq_target f]} ∪ seen) = (targets c ∖ seen) ∖ {[sq_target f]}) as -> by set_solver.
        rewrite size_difference by set_solver. rewrite size_singleton.
        assert (size (targets c ∖ seen) <> 0) by (rewrite size_non_empty_iff; set_solver). lia.
    + specialize (IH seen queue Hto). destruct (visit_flows _ _ _ _ _) as [|seen' queue']; [by apply found_cons|].
      destruct IH as [? [IH1 IH2 IH3]]. split; [done|]. split; [|done..].
      intros x. rewrite IH1. setoid_rewrite elem_of_cons. naive_solver.
Qed.

(** ** The search *)

(** Every element seen was reached; those no longer queued have been
    followed, and [to] was not among them. *)
Record searching (from : string) (seen : gset string) (queue : list string) : Prop := {
  se_from : from ∈ seen;
  se_to : to ∉ seen;
  se_queue : forall x, x ∈ queue -> x ∈ seen;
  se_sound : forall x, x ∈ seen -> rtc (leads c) from x;
  se_done : forall x y, x ∈ seen -> x ∉ queue -> leads c x y -> y ∈ seen;
}.
Lemma search_next from seen cur queue seen' queue' el :
  c_elements c !! cur = Some el -> searching from seen (cur :: queue) -> to ∉ seen' ->
  visited seen seen' queue queue' (next_flows c el cur) -> searching from seen' queue'.
Proof.
  intros Hel [H1 H2 H3 H4 H5] Hto [V1 V2 _].
  assert (forall y, leads c cur y -> y ∈ seen') as Hcur.
  { intros y (fid & f & Hf & ? & ?). apply V1. right. exists fid, f. by rewrite (elem_of_next_flows _ _ cur). }
  split; [apply V1; by left|done| |..].
  - intros x [Hx|[Hx _]%elem_of_difference]%V2; [apply V1; left; apply H3; by right|done].
  - intros x [Hx|(fid & f & Hfid & Hf & <-)]%V1; [auto|].
    rewrite (elem_of_next_flows _ _ cur) in Hfid by done.
    eapply rtc_r; [apply H4, H3; left|]. by exists fid, f.
  - intros x y Hx Hq Hxy. destruct (decide (x = cur)) as [->|Hne]; [auto|].
    assert (x ∈ seen) as Hs.
    { destruct (decide (x ∈ seen)); [done|]. destruct Hq. apply V2. right. by apply elem_of_difference. }
    apply V1. left. apply (H5 x y Hs); [|done]. intros [->|Hx']%elem_of_cons; [done|].
    destruct Hq. apply V2. by left.
Qed.
Lemma search_skip from seen cur queue :
  c_elements c !! cur = None -> searching from seen (cur :: queue) -> searching from seen queue.
Proof.
  intros Hel [H1 H2 H3 H4 H5]. split; [done|done|set_solver|done|].
  intros x y Hx Hq Hxy. destruct (decide (x = cur)) as [->|]; [|apply (H5 x y); set_solver].
  destruct Hxy as (? & ? & (? & ? & _) & _). congruence.
Qed.
Lemma search_closed from seen x : searching from seen [] -> rtc (leads c) from x -> x ∈ seen.
Proof.
  intros [H1 _ _ _ H5] Hr. revert H1. induction Hr as [|a b d Hab _ IH]; intros Ha; [done|].
  apply IH, (H5 a b Ha); [set_solver|done].
Qed.

Lemma reach_loop_spec from fuel : forall seen queue, searching from seen queue ->
  length queue + size (targets c ∖ seen) <= fuel ->
  exists b, reach_loop fuel c to seen queue = Some b /\ (b = true <-> rtc (leads c) from to).
Proof.
  induction fuel as [|fuel IH]; intros seen [|cur queue] Hse Hf; cbn [reach_loop]; cbn in Hf; try lia.
  1, 2: exists false; split; [done|]; split; [done|]; intros Hr;
        pose proof (search_closed _ _ _ Hse Hr); destruct (se_to _ _ _ Hse); done.
  destruct (c_elements c !! cur) as [el|] eqn:Hel.
  - pose proof (visit_spec (next_flows c el cur) seen queue (se_to _ _ _ Hse)) as Hv.
    destruct (visit_flows _ _ _ _ _) as [|seen' queue'].
    + destruct Hv as (fid & f & Hfid & Hfl & <-). exists true. split; [done|]. split; [intros _|done].
      eapply rtc_r; [apply (se_sound _ _ _ Hse), (se_queue _ _ _ Hse); left|].
      rewrite (elem_of_next_flows _ _ cur) in Hfid by done. by exists fid, f.
    + destruct Hv as [Hto Hv]. apply IH; [by eapply search_next|].
      destruct Hv as [_ _ Hroom]. lia.
  - apply IH; [by eapply search_skip|lia].
Qed.
Lemma can_reach_core from :
  exists b, can_reach c from to = Some b /\ (b = true <-> rtc (leads c) from to).
Proof.
  unfold can_reach. destruct (String.eqb_spec from to) as [->|Hne].
  - exists true. by split.
  - apply reach_loop_spec.
    + split; try set_solver.
    + cbn. unfold reach_fuel. pose proof (targets_size c).
      pose proof (subseteq_size (targets c ∖ {[from]}) (targets c) ltac:(set_solver)). lia.
Qed.
End search.

(** C14: the search behind an inclusive join always ends with an answer, and
    answers yes exactly when the gateway can be reached over sequence flows,
    its own and those of boundary events. *)
Theorem can_reach_spec c from to :
  exists b, can_reach c from to = Some b /\ (b = true <-> rtc (leads c) from to).
Proof. apply can_reach_core. Qed.

(** ** The joins *)

(** Where a token is, seen from the scope instance of another one. *)
Definition stands_on (t ref : Token) (pos : string) : Prop := position_in_scope t ref = Some pos.
Definition waits_here (el : Element) (tok t : Token) : Prop :=
  tk_element t = el_id el /\ tk_state t = TokenJoining /\ same_scope t tok = true.
Lemma joining_at_iff tok el t : joining_at tok el t = true <-> waits_here el tok t.
Proof.
  unfold joining_at, waits_here. rewrite !andb_true_iff, String.eqb_eq, bool_decide_eq_true. tauto.
Qed.
Definition may_arrive (c : Container) (tok : Token) (el : Element) (t : Token) : Prop :=
  tk_id t <> tk_id tok /\ ~ waits_here el tok t
  /\ exists pos, stands_on t tok pos /\ rtc (leads c) pos (el_id el).

Lemma blocks_join_spec c tok el t :
  exists b, blocks_join c tok el t = Some b /\ (b = true <-> may_arrive c tok el t).
Proof.
  unfold blocks_join, may_arrive, stands_on. pose proof (joining_at_iff tok el t) as Hj.
  destruct (String.eqb_spec (tk_id t) (tk_id tok)) as [He|He]; cbn; [exists false; naive_solver|].
  destruct (joining_at tok el t); [exists false; naive_solver|].
  destruct (position_in_scope t tok) as [pos|]; [|exists false; naive_solver].
  destruct (can_reach_core c (el_id el) pos) as (b & -> & Hb). exists b. split; [done|]. naive_solver.
Qed.
Lemma inclusive_ready_core c tok el ts :
  exists b, inclusive_join_ready c tok el ts = Some b /\ (b = true <-> forall t, t ∈ ts -> ~ may_arrive c tok el t).
Proof.
  induction ts as [|t ts (b & IH & Hb)]; cbn [inclusive_join_ready]; [exists true; split; [done|set_solver]|].
  destruct (blocks_join_spec c tok el t) as ([] & -> & Hb').
  - exists false. split; [done|]. split; [done|]. intros H. exfalso. apply (H t); [left|by apply Hb'].
  - exists b. split; [done|]. rewrite Hb. split; intros H x Hx; [|by apply H; right].
    apply elem_of_cons in Hx as [->|]; naive_solver.
Qed.

(** C13: an inclusive join fires exactly when no other token can still arrive:
    every other token of the instance already waits here, stands in an
    unrelated scope or loop iteration, or stands where no path leads here. *)
Theorem inclusive_join_ready_spec c tok el (i : Instance) :
  exists b, inclusive_join_ready c tok el (tokens_of i) = Some b
  /\ (b = true <-> forall k t, in_tokens i !! k = Some t -> ~ may_arrive c tok el t).
Proof.
  destruct (inclusive_ready_core c tok el (tokens_of i)) as (b & -> & Hb). exists b. split; [done|].
  rewrite Hb. unfold tokens_of. split; intros H.
  - intros k t Hk. apply H, elem_of_values. eauto.
  - intros t [k Hk]%elem_of_values. eauto.
Qed.

(** A parallel join fires exactly when each of its incoming flows has
    brought a token that waits at the gateway in the same scope instance. *)
Theorem parallel_join_ready_spec (i : Instance) tok el :
  parallel_join_ready i tok el = true <->
  forall fid, fid ∈ el_incoming el ->
    exists k t, in_tokens i !! k = Some t /\ waits_here el tok t /\ tk_flow t = fid.
Proof.
  unfold parallel_join_ready. rewrite forallb_forall.
  assert (forall fid, existsb (String.eqb fid) (map tk_flow (keep (joining_at tok el) (tokens_of i))) = true
    <-> exists k t, in_tokens i !! k = Some t /\ waits_here el tok t /\ tk_flow t = fid) as H.
  { intros fid. rewrite existsb_exists. split.
    - intros (x & Hx & <-%String.eqb_eq). apply list_elem_of_In, list_elem_of_fmap in Hx as (t & -> & Ht).
      apply list_elem_of_filter in Ht as [Hw [k Hk]%elem_of_values]. apply joining_at_iff in Hw. eauto.
    - intros (k & t & Hk & Hw & <-). exists (tk_flow t). split; [|apply String.eqb_refl].
      apply list_elem_of_In, list_elem_of_fmap. exists t. split; [done|].
      apply list_elem_of_filter. split; [by apply joining_at_iff|]. apply elem_of_values. eauto. }
  setoid_rewrite H. by setoid_rewrite <- list_elem_of_In.
Qed.
