(* ===== verification/EngineTrace.v ===== *)
(** * What a running instance may do

    The elementary changes of the state of a running instance, as a step
    relation.  Every function of the engine that runs under the instance's
    lock is a sequence of such changes, on every path through it
    ([traces]); an invariant of the steps is then an invariant of all of
    them, by induction on the sequence. *)
From S2P Require Import Prelude GoFloat GoUtf8 GoTime ExprValue ExprLexer ExprFuncs ExprEval StoreTypes StoreQuery StoreMemory BpmnModel EngineBase EngineCancel EngineFlow EngineErrors EngineActivity EngineRun.
From stdpp Require Import relations.
Local Open Scope string_scope.
Local Open Scope Z_scope.

(** ** The steps *)

(** The writes of an instance: its own history, and records of waits.  It
    stores no instance, definition or blob and claims no work. *)
Definition own_op (iid : string) (o : store_op) : Prop :=
  match o with
  | OPutTask _ | OPutJob _ | ODeleteJob _ | OPutExternalTask _ | OPutAgentJob _
  | OPutSubscription _ | ODeleteSubscription _ | OPutIncident _ => True
  | OAppendHistory ev => hv_seq ev = 0 /\ hv_inst ev = iid
  | _ => False
  end.
Inductive wstep (iid : string) (w : world) : world -> Prop :=
| ws_tick n : wstep iid w (set_w_tick n w)
| ws_seq q : wstep iid w (set_w_seq q w)
| ws_op o : own_op iid o -> wstep iid w (set_w_store (run_op o (w_store w)) w).

(** A token may move, wait and change its variables; its identity, scope and
    parent stay. *)
Definition same_place (t t' : Token) : Prop :=
  tk_id t' = tk_id t /\ tk_scope t' = tk_scope t /\ tk_owners t' = tk_owners t /\ tk_parent t' = tk_parent t.
(** One owner for each enclosing sub-process. *)
Definition token_shape (t : Token) : Prop := length (tk_scope t) = length (tk_owners t).

Inductive rstep (iid : string) (s : rt) : rt -> Prop :=
| rs_world w : wstep iid (rt_world s) w -> rstep iid s (set_rt_world w s)
| rs_vars v : rstep iid s (set_rt_inst (set_in_vars v (rt_inst s)) s)
| rs_multi m : rstep iid s (set_rt_inst (set_in_multi m (rt_inst s)) s)
| rs_end_elem e : rstep iid s (set_rt_inst (set_in_end_elem e (rt_inst s)) s)
| rs_ended st t : rstep iid s (set_rt_inst (set_in_ended t (set_in_state st (rt_inst s))) s)
| rs_suspend b : rstep iid s (set_rt_inst (set_in_suspended b (rt_inst s)) s)
| rs_conts c : rstep iid s (set_rt_conts (rt_conts s ++ [c])%list s)
| rs_steps n : rt_steps s <= n -> rstep iid s (set_rt_steps n s)
| rs_tok k t t' : in_tokens (rt_inst s) !! k = Some t -> same_place t t' ->
    rstep iid s (set_tokens (insert k t') s)
| rs_gone k f : (forall t, same_place t (f t)) -> rstep iid s (set_rt_gone (alter f k (rt_gone s)) s)
| rs_del k t : in_tokens (rt_inst s) !! k = Some t ->
    rstep iid s (set_rt_gone (<[k := t]> (rt_gone s)) (set_tokens (delete k) s))
| rs_spawn t : token_shape t -> tk_state t = TokenActive ->
    rstep iid s (set_tokens (insert (tk_id t) t) s).

(** Tokens are kept under their IDs and have an owner for each scope. *)
Record shaped (iid : string) (s : rt) : Prop := {
  sh_id : in_id (rt_inst s) = iid;
  sh_live : map_Forall (fun k t => tk_id t = k /\ token_shape t) (in_tokens (rt_inst s));
  sh_gone : map_Forall (fun k t => tk_id t = k /\ token_shape t) (rt_gone s);
}.

Lemma same_place_shape t t' : same_place t t' -> token_shape t -> token_shape t'.
Proof. unfold token_shape. by intros (_ & -> & -> & _). Qed.

Lemma rstep_shaped iid s s' : rstep iid s s' -> shaped iid s -> shaped iid s'.
Proof.
  intros Hr [Hid Hl Hg]. destruct Hr; split; cbn; auto.
  - apply map_Forall_insert_2; [|done]. destruct (Hl k t H) as [? ?].
    split; [destruct H0; congruence|by eapply same_place_shape].
  - intros k' t. rewrite lookup_alter_Some. intros [(-> & t0 & H0 & ->)|[_ H0]]; [|by apply Hg].
    destruct (Hg k' t0 H0) as [? ?]. split; [destruct (H t0); congruence|by eapply same_place_shape].
  - by apply map_Forall_delete.
  - apply map_Forall_insert_2; [|done]. by apply Hl.
  - by apply map_Forall_insert_2.
Qed.
Lemma rsteps_shaped iid s s' : rtc (rstep iid) s s' -> shaped iid s -> shaped iid s'.
Proof. induction 1; eauto using rstep_shaped. Qed.

(** ** Programs as sequences of steps *)

(** Run on a well-shaped state, the program takes steps only, however it
    ends, and its value satisfies [V]. *)
Definition traces {A} (iid : string) (m : M A) (V : A -> Prop) : Prop :=
  forall s, shaped iid s -> rtc (rstep iid) s (m s).2 /\ forall a, (m s).1 = Ok a -> V a.
(** The same of a program of the engine. *)
Definition wtraces {A} (iid : string) (m : EM A) : Prop := forall w, rtc (wstep iid) w (m w).2.
Abbreviation any := (fun _ => True).

Section rules.
Context (iid : string).
Abbreviation traces := (traces iid).
Abbreviation wtraces := (wtraces iid).

Lemma traces_ret {A} (a : A) (V : A -> Prop) : V a -> traces (mret a) V.
Proof. intros Ha s _. split; [done|]. cbn. naive_solver. Qed.
Lemma traces_bind {A B} (m : M A) (f : A -> M B) V W :
  traces m V -> (forall a, V a -> traces (f a) W) -> traces (m ≫= f) W.
Proof.
  intros Hm Hf s Hs. destruct (Hm s Hs) as [H1 HV]. unfold mbind, ST_bind.
  destruct (m s) as [[a|e|w|] s'] eqn:Em; cbn in *; try (split; [done|discriminate]).
  destruct (Hf a (HV a eq_refl) s' (rsteps_shaped _ _ _ H1 Hs)) as [H2 HW].
  split; [by etrans|done].
Qed.
Lemma traces_weaken {A} (m : M A) (V W : A -> Prop) : traces m V -> (forall a, V a -> W a) -> traces m W.
Proof. intros Hm HVW s Hs. destruct (Hm s Hs). eauto. Qed.
Lemma traces_any {A} (m : M A) V : traces m V -> traces m any.
Proof. intros H. by eapply traces_weaken. Qed.
Lemma traces_attempt {A} (m : M A) V : traces m V -> traces (attempt m) any.
Proof.
  intros Hm s Hs. destruct (Hm s Hs) as [H _]. unfold attempt.
  by destruct (m s) as [[]].
Qed.
Lemma traces_ignore {A} (m : M A) V : traces m V -> traces (ignore m) any.
Proof. intros Hm. eapply traces_bind; [by eapply traces_attempt|]. intros. by apply traces_ret. Qed.
Lemma traces_stop {A} (r : res goerr A) V : is_ok r = false -> traces (fun s => (r, s)) V.
Proof. intros Hr s _. cbn. split; [done|]. by intros a ->. Qed.
Lemma traces_fail {A} e (V : A -> Prop) : traces (fail e) V.
Proof. by apply (traces_stop (Err e)). Qed.
Lemma traces_panic {A} w (V : A -> Prop) : traces (panic w) V.
Proof. by apply (traces_stop (Panic w)). Qed.
Lemma traces_fuel {A} (V : A -> Prop) : traces out_of_fuel V.
Proof. by apply (traces_stop OutOfFuel). Qed.
Lemma traces_or_nil {A} (o : option A) : traces (or_nil o) (fun a => o = Some a).
Proof. destruct o; [by apply traces_ret|apply traces_panic]. Qed.
Lemma traces_when b m V : traces m V -> traces (when b m) any.
Proof. intros H. destruct b; [by eapply traces_any|by apply traces_ret]. Qed.
Lemma traces_for_each {A} (f : A -> M unit) l :
  (forall x, x ∈ l -> traces (f x) any) -> traces (for_each f l) any.
Proof.
  induction l as [|x l IH]; intros H; cbn; [by apply traces_ret|].
  eapply traces_bind; [apply H; left|]. intros _ _. apply IH. intros y Hy. apply H. by right.
Qed.
Lemma traces_gets {A} (f : rt -> A) V : (forall s, shaped iid s -> V (f s)) -> traces (gets f) V.
Proof. intros H s Hs. split; [done|]. cbn. intros a [= <-]. auto. Qed.
Lemma traces_modify f : (forall s, shaped iid s -> rtc (rstep iid) s (f s)) -> traces (modify f) any.
Proof. intros H s Hs. by split; [apply H|]. Qed.
Lemma traces_step f : (forall s, shaped iid s -> rstep iid s (f s)) -> traces (modify f) any.
Proof. intros H. apply traces_modify. intros s Hs. by apply rtc_once, H. Qed.

Lemma traces_lift {A} (m : EM A) : wtraces m -> traces (lift m) any.
Proof.
  intros Hm s Hs. unfold lift. specialize (Hm (rt_world s)).
  destruct (m (rt_world s)) as [r w]. cbn in *. split; [|done].
  clear -Hm. replace s with (set_rt_world (rt_world s) s) at 1 by by destruct s.
  induction Hm as [w|w1 w2 w3 Hw _ IH]; [by destruct s|]. etrans; [apply rtc_once|exact IH].
  by apply (rs_world iid (set_rt_world w1 s)).
Qed.

Lemma wtraces_ret {A} (a : A) : wtraces (mret a).
Proof. by intros w. Qed.
Lemma wtraces_bind {A B} (m : EM A) (f : A -> EM B) :
  wtraces m -> (forall a, wtraces (f a)) -> wtraces (m ≫= f).
Proof.
  intros Hm Hf w. specialize (Hm w). unfold mbind, ST_bind.
  destruct (m w) as [[a|e|p|] w']; cbn in *; try done. by etrans; [|apply Hf].
Qed.
Lemma wtraces_stop {A} (r : res goerr A) : wtraces (fun w => (r, w)).
Proof. by intros w. Qed.
Lemma wtraces_attempt {A} (m : EM A) : wtraces m -> wtraces (attempt m).
Proof. intros Hm w. specialize (Hm w). unfold attempt. by destruct (m w) as [[]]. Qed.
Lemma wtraces_gets {A} (f : world -> A) : wtraces (gets f).
Proof. by intros w. Qed.
Lemma wtraces_op (f : Memory -> Memory) o :
  own_op iid o -> (forall m, f m = run_op o m) -> wtraces (store_put f).
Proof. intros Ho Hf w. apply rtc_once. cbn. rewrite Hf. by constructor. Qed.
End rules.

(** ** Automation

    [tr] walks through a program: binds, branches and loops by their rules,
    calls by the lemma of the function called, found in the database
    [trace]. *)
Create HintDb trace discriminated.

Definition live_good (id : string) (o : option Token) : Prop :=
  forall t, o = Some t -> tk_id t = id /\ token_shape t.
Ltac live_facts :=
  repeat match goal with
         | H : live_good _ (Some ?t) |- _ => destruct (H t eq_refl) as [? ?]; clear H
         | H : _ /\ _ |- _ => destruct H
         end.
Ltac shape_side := live_facts; unfold token_shape in *; rewrite ?length_app, ?length_rev; cbn in *; solve [lia | congruence | naive_solver].
Ltac wtr1 :=
  match goal with
  | |- forall _, _ => intros; cbv beta in *
  | |- wtraces _ (mret _) => apply wtraces_ret
  | |- wtraces _ (gets _) => apply wtraces_gets
  | |- wtraces _ (attempt _) => apply wtraces_attempt
  | |- wtraces _ (fail _) => apply (wtraces_stop _ (Err _))
  | |- wtraces _ (panic _) => apply (wtraces_stop _ (Panic _))
  | |- wtraces _ (_ ≫= _) => apply wtraces_bind
  | |- wtraces _ _ => solve [auto with trace]
  | |- wtraces _ (match ?x with _ => _ end) => destruct x eqn:?
  end.
Ltac wtr := repeat wtr1.
Ltac tr1 :=
  match goal with
  | |- forall _, _ => intros; cbv beta in *
  | |- traces _ (mret _) _ => apply traces_ret; solve [done]
  | |- traces _ (fail _) _ => apply traces_fail
  | |- traces _ (panic _) _ => apply traces_panic
  | |- traces _ nil_pointer _ => apply traces_panic
  | |- traces _ out_of_fuel _ => apply traces_fuel
  | |- traces _ (_ ≫= _) _ =>
      first [ eapply traces_bind; [solve [eauto 3 with trace]|]
            | eapply (traces_bind _ _ _ any) ]
  | |- traces _ (attempt _) _ => eapply traces_attempt
  | |- traces _ (ignore _) _ => eapply traces_ignore
  | |- traces _ (when _ _) _ => eapply traces_when
  | |- traces _ (for_each _ _) _ => apply traces_for_each
  | |- traces _ (match ?x with _ => _ end) _ => destruct x eqn:?
  | |- traces _ _ _ => solve [eauto 3 with trace | eapply traces_any; eauto 3 with trace]
  | |- traces _ (lift _) _ => apply traces_lift; wtr
  end.
Ltac tr := repeat tr1.

Section functions.
Context {U : Unicode} {R : Regexp} {MO : MapOrder} {E : Engine} {PD : ParsedDef} (iid : string).
Abbreviation traces := (traces iid).
Abbreviation wtraces := (wtraces iid).

Lemma wt_tick : wtraces tick.
Proof. intros w. apply rtc_once. constructor. Qed.
Lemma wt_now : wtraces e_now.
Proof. apply wtraces_bind; [apply wt_tick|]. wtr. Qed.
Lemma wt_seq q : wtraces (modify (set_w_seq q)).
Proof. intros w. apply rtc_once. constructor. Qed.
#[local] Hint Resolve wt_tick wt_now wt_seq : trace.
Lemma wt_new_id p : wtraces (new_id p).
Proof. unfold new_id. wtr. Qed.
Lemma wt_get {A} (f : Memory -> A) : wtraces (store_get f).
Proof. apply wtraces_gets. Qed.
Lemma wt_of_res {A} (r : res string A) : wtraces (of_res r).
Proof. by intros w. Qed.
Lemma wt_outcome {A} (r : res goerr A) : wtraces (of_outcome r).
Proof. by intros w. Qed.
Lemma wt_of_expr {A} (r : res expr_error A) : wtraces (of_expr r).
Proof. by intros w. Qed.
#[local] Hint Resolve wt_new_id wt_get wt_of_res wt_outcome wt_of_expr : trace.
Lemma wt_eval src v : wtraces (expr_eval src v).
Proof. unfold expr_eval. wtr. Qed.
Lemma wt_eval_bool src v : wtraces (expr_eval_bool src v).
Proof. unfold expr_eval_bool. wtr. Qed.
#[local] Hint Resolve wt_eval wt_eval_bool : trace.
Lemma wt_field s v : wtraces (eval_field s v).
Proof. unfold eval_field. wtr. Qed.
#[local] Hint Resolve wt_field : trace.
Lemma wt_field_string s v : wtraces (eval_field_string s v).
Proof. unfold eval_field_string. wtr. Qed.
#[local] Hint Resolve wt_field_string : trace.
Lemma wt_timer ev v : wtraces (timer_schedule ev v).
Proof. unfold timer_schedule. wtr. Qed.
#[local] Hint Resolve wt_timer : trace.

Lemma wt_put_task t : wtraces (store_put (PutTask t)).
Proof. by apply (wtraces_op _ _ (OPutTask t)). Qed.
Lemma wt_put_job j : wtraces (store_put (PutJob j)).
Proof. by apply (wtraces_op _ _ (OPutJob j)). Qed.
Lemma wt_delete_job id : wtraces (store_put (DeleteJob id)).
Proof. by apply (wtraces_op _ _ (ODeleteJob id)). Qed.
Lemma wt_put_external x : wtraces (store_put (PutExternalTask x)).
Proof. by apply (wtraces_op _ _ (OPutExternalTask x)). Qed.
Lemma wt_put_agent x : wtraces (store_put (PutAgentJob x)).
Proof. by apply (wtraces_op _ _ (OPutAgentJob x)). Qed.
Lemma wt_put_sub x : wtraces (store_put (PutSubscription x)).
Proof. by apply (wtraces_op _ _ (OPutSubscription x)). Qed.
Lemma wt_delete_sub id : wtraces (store_put (DeleteSubscription id)).
Proof. by apply (wtraces_op _ _ (ODeleteSubscription id)). Qed.
Lemma wt_put_incident x : wtraces (store_put (PutIncident x)).
Proof. by apply (wtraces_op _ _ (OPutIncident x)). Qed.
#[local] Hint Resolve wt_put_task wt_put_job wt_delete_job wt_put_external wt_put_agent wt_put_sub
  wt_delete_sub wt_put_incident : trace.

(** *** Primitives of the running instance *)
Definition inst_good (i : Instance) : Prop :=
  in_id i = iid /\ forall k t, in_tokens i !! k = Some t -> tk_id t = k /\ token_shape t.

Lemma t_inst : traces inst_get inst_good.
Proof. apply traces_gets. intros s [Hid Hl _]. split; [done|]. intros k t Hk. by apply Hl in Hk. Qed.
Lemma t_live id : traces (tok_live id) (live_good id).
Proof. apply traces_gets. intros s [_ Hl _] t Ht. by apply Hl in Ht. Qed.
Lemma t_get id : traces (tok_get id) (fun t => tk_id t = id /\ token_shape t).
Proof.
  eapply traces_bind.
  - apply (traces_gets _ _ (live_good id)). intros s [_ Hl Hg] t Ht. unfold tok_of in Ht.
    destruct (in_tokens (rt_inst s) !! id) eqn:El; simplify_eq; [by apply Hl in El|by apply Hg in Ht].
  - intros o Ho. eapply traces_weaken; [apply traces_or_nil|]. intros t ->. by apply Ho.
Qed.
Lemma t_set id f : (forall t, same_place t (f t)) -> traces (tok_set id f) any.
Proof.
  intros Hf. apply traces_step. intros s Hs. destruct (in_tokens (rt_inst s) !! id) eqn:El.
  - eapply rs_tok; eauto.
  - by constructor.
Qed.
Lemma t_del id : traces (tok_del id) any.
Proof.
  apply traces_modify. intros s Hs. destruct (in_tokens (rt_inst s) !! id) eqn:El; [|done].
  by apply rtc_once, rs_del.
Qed.
Lemma t_park id st ref : traces (park id st ref) any.
Proof. by apply t_set. Qed.
Lemma t_set_var k v : traces (set_var k v) any.
Proof. apply traces_step. intros s _. apply rs_vars. Qed.
Lemma t_merge m : traces (merge_vars m) any.
Proof. apply traces_step. intros s _. apply rs_vars. Qed.
Lemma t_set_multi g : traces (inst_set (fun i => set_in_multi (g (in_multi i)) i)) any.
Proof. apply traces_step. intros s _. apply rs_multi. Qed.
Lemma t_mi_set p f : traces (mi_set p f) any.
Proof. apply traces_step. intros s _. apply rs_multi. Qed.
Lemma t_end_elem e : traces (inst_set (set_in_end_elem e)) any.
Proof. apply traces_step. intros s _. apply rs_end_elem. Qed.
Lemma t_ended st t : traces (inst_set (fun i => set_in_ended t (set_in_state st i))) any.
Proof. apply traces_step. intros s _. apply rs_ended. Qed.
Lemma t_suspend b : traces (inst_set (set_in_suspended b)) any.
Proof. apply traces_step. intros s _. apply rs_suspend. Qed.
Lemma t_cont c : traces (push_cont c) any.
Proof. apply traces_step. intros s _. apply rs_conts. Qed.
Lemma t_bump : traces bump_steps any.
Proof. intros s _. split; [|done]. apply rtc_once, rs_steps. lia. Qed.
Lemma t_outcome {A} (r : res goerr A) : traces (of_outcome r) any.
Proof. by intros s _. Qed.
Lemma t_of_res {A} (r : res string A) : traces (of_res r) any.
Proof. by intros s _. Qed.
Lemma t_emit_op typ el d t i :
  in_id i = iid -> wtraces (store_put (fun m => (AppendHistory
    {| hv_seq := 0; hv_inst := in_id i; hv_time := t; hv_type := typ; hv_element := el; hv_detail := d |} m).2)).
Proof. intros Hi. refine (wtraces_op _ _ (OAppendHistory _) _ (fun m => eq_refl)). by split. Qed.
Lemma t_emit typ el d : traces (emit typ el d) any.
Proof.
  eapply traces_bind; [apply t_inst|]. intros i [Hi _].
  eapply traces_bind; [apply traces_lift, wt_now|]. intros t _.
  by apply traces_lift, t_emit_op.
Qed.
Lemma t_spawn el path owners parent locals :
  length path = length owners -> traces (spawn_token el path owners parent locals) any.
Proof.
  intros Hl. eapply traces_bind; [apply traces_lift, wt_new_id|]. intros id _.
  eapply (traces_bind _ _ _ any); [|intros; by apply traces_ret].
  apply traces_step. intros s _. by apply (rs_spawn iid s {| tk_id := id |}).
Qed.
Lemma t_env id : traces (tok_env id) any.
Proof.
  eapply traces_bind; [apply t_get|]. intros t _. eapply traces_bind; [apply t_inst|].
  intros i _. apply t_outcome.
Qed.
Lemma t_for_keys f l :
  (forall k t, tk_id t = k -> token_shape t -> traces (f k t) any) ->
  traces (for_each (fun k => t ← tok_live k; match t with Some t => f k t | None => mret tt end) l) any.
Proof.
  intros Hf. apply traces_for_each. intros k _. eapply traces_bind; [apply t_live|].
  intros [t|] Ht; [|by apply traces_ret]. destruct (Ht t eq_refl). auto.
Qed.
Lemma t_for_tokens f :
  (forall k t, tk_id t = k -> token_shape t -> traces (f k t) any) -> traces (for_tokens f) any.
Proof.
  intros Hf. eapply traces_bind; [apply traces_lift, wt_tick|]. intros n _.
  eapply traces_bind; [apply t_inst|]. intros i _. by apply t_for_keys.
Qed.
#[local] Hint Resolve t_inst t_live t_get t_set t_del t_park t_set_var t_merge t_set_multi t_mi_set t_end_elem
  t_ended t_suspend t_cont t_bump t_outcome t_of_res t_emit t_env traces_or_nil : trace.
#[local] Hint Extern 2 (traces (spawn_token _ _ _ _ _) _) => apply t_spawn; shape_side : trace.
#[local] Hint Extern 2 (traces (tok_set _ _) _) => apply t_set; intros ?; split_and!; reflexivity : trace.
#[local] Hint Extern 2 (traces (lift _) _) => apply traces_lift; solve [wtr] : trace.

Lemma t_raise tok code msg : traces (raise_incident tok code msg) any.
Proof. unfold raise_incident. tr. Qed.
#[local] Hint Resolve t_raise : trace.

(** *** Cancellation *)
Lemma t_drop tok : traces (drop_waits tok) any.
Proof. unfold drop_waits. tr. Qed.
#[local] Hint Resolve t_drop : trace.
Lemma t_cancel_record t : traces (cancel_record t) any.
Proof. unfold cancel_record. tr. Qed.
#[local] Hint Resolve t_cancel_record : trace.
Lemma t_kill_scope cancel path owners ex :
  (forall k, traces (cancel k) any) -> traces (kill_scope_with cancel path owners ex) any.
Proof. intros Hc. apply t_for_tokens. tr. all: auto. Qed.
Lemma t_cancel_activity cancel tok : (forall k, traces (cancel k) any) -> traces (cancel_activity_with cancel tok) any.
Proof. intros Hc. unfold cancel_activity_with. pose proof (t_kill_scope cancel). tr; auto. Qed.
Lemma t_cancel_children cancel tok : (forall k, traces (cancel k) any) -> traces (cancel_children_with cancel tok) any.
Proof. intros Hc. apply t_for_tokens. tr. by apply t_cancel_activity. Qed.
Lemma t_cancel_fuel n : forall tok, traces (cancel_waits_fuel n tok) any.
Proof. induction n as [|n IH]; intros tok; cbn [cancel_waits_fuel]; tr. by apply t_cancel_children. Qed.
#[local] Hint Resolve t_cancel_fuel : trace.
Lemma t_cancel_waits tok : traces (cancel_waits tok) any.
Proof. unfold cancel_waits. tr. Qed.
#[local] Hint Resolve t_cancel_waits t_cancel_activity t_cancel_children t_kill_scope : trace.
Lemma t_cleanup : traces cleanup_records any.
Proof. unfold cleanup_records. tr. Qed.
Lemma t_notify : traces notify_parent any.
Proof. unfold notify_parent. tr. Qed.
#[local] Hint Resolve t_cleanup t_notify : trace.
Lemma t_complete_instance e : traces (complete_instance e) any.
Proof. unfold complete_instance. tr. Qed.
Lemma t_clear : traces clear_tokens any.
Proof. apply t_for_tokens. tr. Qed.
#[local] Hint Resolve t_complete_instance t_clear : trace.
Lemma t_terminate r : traces (terminate r) any.
Proof. unfold terminate. tr. Qed.
#[local] Hint Resolve t_terminate : trace.

(** *** Flow *)
Lemma t_event_wait tok el ev b : traces (create_event_wait tok el ev b) any.
Proof. unfold create_event_wait. tr. Qed.
#[local] Hint Resolve t_event_wait : trace.
Lemma t_boundaries tok el : traces (register_boundaries tok el) any.
Proof. unfold register_boundaries. tr. Qed.
Lemma t_async tok : traces (maybe_async tok) any.
Proof. unfold maybe_async. tr. Qed.
#[local] Hint Resolve t_boundaries t_async : trace.
Lemma t_sibling tok f : traces (spawn_sibling tok f) any.
Proof. unfold spawn_sibling. tr. Qed.
#[local] Hint Resolve t_sibling : trace.
Lemma t_move tok fs : traces (move_over tok fs) any.
Proof. unfold move_over. tr. Qed.
Lemma t_holds env f : traces (flow_holds env f) any.
Proof. unfold flow_holds. tr. Qed.
#[local] Hint Resolve t_move t_holds : trace.
Lemma t_true_flows c d h ids : (forall f, traces (h f) any) -> traces (true_flows c d h ids) any.
Proof. intros Hh. induction ids as [|id ids IH]; cbn [true_flows]; tr. all: auto. Qed.
Lemma t_first_flow c d h ids : (forall f, traces (h f) any) -> traces (first_flow c d h ids) any.
Proof. intros Hh. induction ids as [|id ids IH]; cbn [first_flow]; tr. all: auto. Qed.
#[local] Hint Resolve t_true_flows t_first_flow : trace.
Lemma t_take_selected tok c el none r : traces (take_selected tok c el none r) any.
Proof. unfold take_selected. tr. Qed.
#[local] Hint Resolve t_take_selected : trace.
Lemma t_take tok el : traces (take_outgoing tok el) any.
Proof. unfold take_outgoing. tr. apply t_true_flows. tr. Qed.
#[local] Hint Resolve t_take : trace.
Lemma t_leave tok el : traces (leave tok el) any.
Proof. unfold leave. tr. Qed.
Lemma t_exclusive tok el : traces (exclusive_gateway tok el) any.
Proof. unfold exclusive_gateway. tr. Qed.
Lemma t_merge_loop t el c ks : traces (merge_loop t el c ks) any.
Proof. revert c. induction ks as [|k ks IH]; intros c; cbn [merge_loop]; tr. Qed.
#[local] Hint Resolve t_leave t_exclusive t_merge_loop : trace.
Lemma t_merge_joining tok el : traces (merge_joining tok el) any.
Proof. unfold merge_joining. tr. Qed.
Lemma t_fork tok el : traces (fork_all tok el) any.
Proof. unfold fork_all. tr. Qed.
#[local] Hint Resolve t_merge_joining t_fork : trace.
Lemma t_parallel tok el : traces (parallel_gateway tok el) any.
Proof. unfold parallel_gateway. tr. Qed.
Lemma t_merge_all tok el : traces (merge_all_joining tok el) any.
Proof. unfold merge_all_joining. tr; [apply t_for_tokens; tr|..]; tr. Qed.
#[local] Hint Resolve t_merge_all : trace.
Lemma t_inclusive tok el : traces (inclusive_gateway tok el) any.
Proof. unfold inclusive_gateway. tr. Qed.
Lemma t_event_gateway tok el : traces (event_based_gateway tok el) any.
Proof. unfold event_based_gateway. tr. Qed.
Lemma t_inputs el tok : traces (apply_inputs el tok) any.
Proof. unfold apply_inputs. tr. Qed.
Lemma t_outputs el tok : traces (apply_outputs el tok) any.
Proof. unfold apply_outputs. tr. Qed.
Lemma t_clear_inputs el tok : traces (clear_input_locals el tok) any.
Proof. unfold clear_input_locals. tr. Qed.
#[local] Hint Resolve t_parallel t_inclusive t_event_gateway t_inputs t_outputs t_clear_inputs : trace.
Lemma t_mi_child p el st n : traces (spawn_mi_child p el st n) any.
Proof. unfold spawn_mi_child. tr. Qed.
Lemma t_mi_items tok el ml env : traces (mi_items_of tok el ml env) any.
Proof. unfold mi_items_of. tr. Qed.
Lemma t_mi_condition p el ml st : traces (mi_condition p el ml st) any.
Proof. unfold mi_condition. tr. Qed.
Lemma t_mi_output c p el ml : traces (mi_output c p el ml) any.
Proof. unfold mi_output. tr. Qed.
#[local] Hint Resolve t_mi_child t_mi_items t_mi_condition t_mi_output : trace.

(** *** Completion *)
Section completion.
Context (complete : string -> M unit) (Hc : forall k, traces (complete k) any).
#[local] Hint Resolve Hc : trace.
Lemma t_finish_multi p el st b : traces (finish_multi_with complete p el st b) any.
Proof. unfold finish_multi_with, cancel_children. tr. Qed.
#[local] Hint Resolve t_finish_multi : trace.
Lemma t_mi_completed c : traces (mi_child_completed_with complete c) any.
Proof. unfold mi_child_completed_with. tr. Qed.
Lemma t_check_scope rpath owners : traces (check_scope_with complete rpath owners) any.
Proof. revert owners. induction rpath as [|x rp IH]; intros owners; cbn [check_scope_with]; tr. Qed.
#[local] Hint Resolve t_check_scope : trace.
Lemma t_consume_with tok : traces (consume_with complete tok) any.
Proof. unfold consume_with. tr. Qed.
End completion.
#[local] Hint Resolve t_finish_multi t_mi_completed t_check_scope t_consume_with : trace.
Lemma t_complete_fuel n : forall tok, traces (complete_activity_fuel n tok) any.
Proof. induction n as [|n IH]; intros tok; cbn [complete_activity_fuel]; tr. Qed.
#[local] Hint Resolve t_complete_fuel : trace.
Lemma t_complete tok : traces (complete_activity tok) any.
Proof. unfold complete_activity. tr. Qed.
Lemma t_check path owners : traces (check_scope path owners) any.
Proof. unfold check_scope. tr. Qed.
Lemma t_consume tok : traces (consume tok) any.
Proof. unfold consume. tr. Qed.
#[local] Hint Resolve t_complete t_check t_consume : trace.
Lemma t_finish_sync tok el : traces (finish_sync tok el) any.
Proof. unfold finish_sync. tr. Qed.
Lemma t_start_multi tok el : traces (start_multi tok el) any.
Proof. unfold start_multi. tr. Qed.
#[local] Hint Resolve t_finish_sync t_start_multi : trace.

(** *** Errors *)
Lemma t_move_boundary tok b : traces (move_to_boundary tok b) any.
Proof. unfold move_to_boundary. tr. Qed.
Lemma t_error_boundary code bs : traces (error_boundary code bs) any.
Proof. induction bs as [|b bs IH]; cbn [error_boundary]; tr. Qed.
Lemma t_error_vars c m : traces (set_error_vars c m) any.
Proof. unfold set_error_vars. tr. Qed.
Lemma t_unhandled t c m : traces (unhandled_error t c m) any.
Proof. unfold unhandled_error. tr. Qed.
#[local] Hint Resolve t_move_boundary t_error_boundary t_error_vars t_unhandled : trace.
Lemma t_enter_boundary b sid path owners pp po oid c m :
  length pp = length po -> traces (enter_error_boundary b sid path owners pp po oid c m) any.
Proof. intros Hl. unfold enter_error_boundary, kill_scope. tr. Qed.
Lemma t_propagate_loop t c m rpath rowners :
  length rpath = length rowners -> traces (propagate_loop t c m rpath rowners) any.
Proof.
  revert rowners. induction rpath as [|x rp IH]; intros [|y ro] Hl; try done; cbn [propagate_loop].
  - unfold kill_scope. tr.
  - assert (length rp = length ro) as Hl' by (cbn in Hl; congruence).
    assert (length (rev rp) = length (rev ro)) as Hr by by rewrite !length_rev.
    unfold kill_scope. tr; auto using t_enter_boundary.
Qed.
Lemma t_propagate t c m : token_shape t -> traces (propagate_error t c m) any.
Proof. intros Ht. apply t_propagate_loop. by rewrite !length_rev. Qed.
#[local] Hint Resolve t_propagate : trace.
Lemma t_throw tok c m : traces (throw_error tok c m) any.
Proof. unfold throw_error. tr. apply t_propagate. tauto. Qed.
#[local] Hint Resolve t_throw : trace.
Lemma t_failure tok el err : traces (handle_failure tok el err) any.
Proof. unfold handle_failure. tr. Qed.
#[local] Hint Resolve t_failure : trace.

(** *** Activities *)
Lemma t_throw_message el : traces (throw_message el) any.
Proof. unfold throw_message. tr. Qed.
Lemma t_throw_signal el : traces (throw_signal el) any.
Proof. unfold throw_signal. tr. Qed.
Lemma t_resolve_due s env : traces (resolve_due s env) any.
Proof. unfold resolve_due. tr. Qed.
Lemma t_candidates env l : traces (candidates env l) any.
Proof. induction l as [|x l IH]; cbn [candidates]; tr. Qed.
#[local] Hint Resolve t_throw_message t_throw_signal t_resolve_due t_candidates : trace.
Lemma t_due el env : traces (task_due el env) any.
Proof. unfold task_due. tr. Qed.
Lemma t_priority el env : traces (task_priority el env) any.
Proof. unfold task_priority. tr. Qed.
#[local] Hint Resolve t_due t_priority : trace.
Lemma t_user_task tok el : traces (user_task tok el) any.
Proof. unfold user_task. tr. Qed.
Lemma t_run_value tok el run target after :
  traces run any -> traces after any -> traces (run_value tok el run target after) any.
Proof. intros. unfold run_value. tr. Qed.
Lemma t_eval_activity tok el : traces (eval_activity tok el) any.
Proof. unfold eval_activity. tr. Qed.
Lemma t_run_handler tok el h : traces (run_handler tok el h) any.
Proof. unfold run_handler. tr. Qed.
Lemma t_external tok el : traces (external_task tok el) any.
Proof. unfold external_task. tr. Qed.
#[local] Hint Resolve t_user_task t_eval_activity t_run_handler t_external : trace.
Lemma t_service tok el : traces (service_task tok el) any.
Proof. unfold service_task. tr. apply t_run_value; tr. Qed.
Lemma t_script tok el : traces (script_task tok el) any.
Proof. unfold script_task. tr. apply t_run_value; tr. Qed.
Lemma t_rule tok el : traces (business_rule_task tok el) any.
Proof. unfold business_rule_task. tr. apply t_run_value; tr. Qed.
Lemma t_receive tok el : traces (receive_task tok el) any.
Proof. unfold receive_task. tr. Qed.
Lemma t_register_start o se : traces (register_start o se) any.
Proof. unfold register_start. tr. Qed.
#[local] Hint Resolve t_service t_script t_rule t_receive t_register_start : trace.
Lemma t_register_subs c o : traces (register_event_subs c o) any.
Proof. unfold register_event_subs. tr. Qed.
#[local] Hint Resolve t_register_subs : trace.
Lemma t_sub_process tok el : traces (enter_sub_process tok el) any.
Proof. unfold enter_sub_process. tr. Qed.
Lemma t_call_inputs env l acc : traces (call_inputs env l acc) any.
Proof. revert acc. induction l as [|m l IH]; intros acc; cbn [call_inputs]; tr. Qed.
#[local] Hint Resolve t_sub_process t_call_inputs : trace.
Lemma t_call tok el : traces (call_activity tok el) any.
Proof. unfold call_activity. tr. Qed.
Lemma t_expand n op cl v s : traces (expand_fuel n op cl v s) any.
Proof. revert s. induction n as [|n IH]; intros s; cbn [expand_fuel]; tr. Qed.
#[local] Hint Resolve t_call t_expand : trace.
Lemma t_interpolate s v : traces (interpolate s v) any.
Proof. unfold interpolate, expand_delim. tr. Qed.
Lemma t_budget tok el : traces (check_agent_budget tok el) any.
Proof. unfold check_agent_budget. tr. Qed.
Lemma t_charge u : traces (charge_agent_usage u) any.
Proof. unfold charge_agent_usage. tr. Qed.
Lemma t_apply_agent spec o t : traces (apply_agent_output spec o t) any.
Proof. unfold apply_agent_output. tr. Qed.
Lemma t_approval tok el spec o t : traces (create_approval_task tok el spec o t) any.
Proof. unfold create_approval_task. tr. Qed.
#[local] Hint Resolve t_interpolate t_budget t_charge t_apply_agent t_approval : trace.
Lemma t_finish_agent tok el spec o t : traces (finish_agent tok el spec o t) any.
Proof. unfold finish_agent. tr. Qed.
Lemma t_review tok el spec o t cs u : traces (review_agent_result tok el spec o t cs u) any.
Proof. unfold review_agent_result. tr. Qed.
#[local] Hint Resolve t_finish_agent t_review : trace.
Lemma t_accept tok el spec o t cs u : traces (accept_agent_result tok el spec o t cs u) any.
Proof. unfold accept_agent_result. tr. Qed.
Lemma t_invoke inv q : traces (invoke_agent inv q) any.
Proof. unfold invoke_agent. tr. Qed.
#[local] Hint Resolve t_accept t_invoke : trace.
Lemma t_agent tok el spec : traces (agent_task tok el spec) any.
Proof. unfold agent_task. tr. Qed.
#[local] Hint Resolve t_agent : trace.
Lemma t_run_activity tok el : traces (run_activity tok el) any.
Proof. unfold run_activity. tr. Qed.
#[local] Hint Resolve t_run_activity : trace.
Lemma t_activity tok el : traces (activity tok el) any.
Proof. unfold activity. tr. Qed.
Lemma t_catch tok el : traces (intermediate_catch tok el) any.
Proof. unfold intermediate_catch. tr. Qed.
Lemma t_throw_event el : traces (throw_event el) any.
Proof. unfold throw_event. tr. Qed.
#[local] Hint Resolve t_activity t_catch t_throw_event : trace.
Lemma t_throw_leave tok el : traces (intermediate_throw tok el) any.
Proof. unfold intermediate_throw. tr. Qed.
Lemma t_end tok el : traces (end_event tok el) any.
Proof. unfold end_event, kill_scope. tr; apply t_propagate; tauto. Qed.
#[local] Hint Resolve t_throw_leave t_end : trace.

(** *** Running *)
Lemma t_step tok : traces (step tok) any.
Proof. unfold step. tr. Qed.
#[local] Hint Resolve t_step : trace.
Lemma t_drain_loop n : traces (drain_loop n) any.
Proof. induction n as [|n IH]; cbn [drain_loop]; tr. Qed.
#[local] Hint Resolve t_drain_loop : trace.
Lemma t_drain : traces drain any.
Proof. unfold drain. tr. Qed.
Lemma t_boundary_triggered tok b : traces (boundary_triggered tok b) any.
Proof. unfold boundary_triggered, cancel_activity. tr. Qed.
Definition place_good (p : option (list string * list string)) : Prop :=
  forall path owners, p = Some (path, owners) -> length path = length owners.
Lemma t_event_sub o se ref : traces (event_sub_triggered o se ref) any.
Proof.
  unfold event_sub_triggered. destruct (find_event_sub _ _) as [es|]; [|tr].
  eapply (traces_bind _ _ _ place_good).
  - destruct (String.eqb o ""); [apply traces_ret; by intros ? ? [= <- <-]|].
    eapply traces_bind; [apply t_live|]. intros [t|] Ht; apply traces_ret; [|done].
    intros ? ? [= <- <-]. destruct (Ht t eq_refl) as [_ H]. rewrite !length_app. cbn. by rewrite H.
  - intros [[path owners]|] Hp; [|tr]. specialize (Hp _ _ eq_refl). unfold kill_scope. tr.
Qed.
#[local] Hint Resolve t_drain t_boundary_triggered t_event_sub : trace.
Lemma t_triggered tok e ref : traces (event_triggered tok e ref) any.
Proof. unfold event_triggered. tr. Qed.
#[local] Hint Resolve t_triggered : trace.
Lemma t_timer_fired j : traces (timer_fired j) any.
Proof. unfold timer_fired. tr. Qed.
End functions.

(** The lemmas of the functions an operation calls directly. *)
#[export] Hint Resolve wt_tick wt_now wt_new_id wt_get wt_of_res wt_outcome wt_of_expr wt_eval wt_put_task wt_put_job
  wt_put_external wt_put_agent wt_delete_sub wt_put_incident t_inst t_live t_get t_park t_set_var t_merge t_suspend
  t_emit t_raise t_terminate t_complete t_finish_sync t_outputs t_clear_inputs t_apply_agent t_accept t_throw
  t_drain t_triggered t_timer_fired t_register_subs : trace.
#[export] Hint Extern 2 (traces _ (tok_set _ _) _) => apply t_set; intros ?; split_and!; reflexivity : trace.
#[export] Hint Extern 2 (traces _ (lift _) _) => apply traces_lift; solve [wtr] : trace.
