(* ===== verification/EngineProgress.v ===== *)
(** * Running to rest

    Which token runs next, how the loop ends, and an instance that never
    ends. *)
From stdpp Require Import relations.
From S2P Require Import Prelude GoFloat GoUtf8 GoTime ExprValue ExprLexer ExprFuncs ExprEval StoreTypes StoreQuery StoreMemory BpmnModel EngineBase EngineCancel EngineFlow EngineErrors EngineActivity EngineRun EngineApi EngineSched EngineSamples EngineTrace.
Local Open Scope string_scope.
Local Open Scope Z_scope.

(** ** The next token *)
Definition active (t : Token) : Prop := tk_state t = TokenActive.
Lemma better_active best t :
  (forall b, best = Some b -> active b) -> forall b, better best t = Some b -> active b.
Proof.
  intros Hb b. unfold better, active in *. case_bool_decide; cbn; [|auto].
  destruct best as [x|]; [|by intros [= <-]]. destruct (str_lt _ _); [by intros [= <-]|auto].
Qed.
Lemma next_active_fold ts : forall best,
  (forall b, best = Some b -> active b) ->
  match fold_left better ts best with
  | Some t => active t /\ (t ∈ ts \/ best = Some t)
      /\ (forall u, u ∈ ts \/ best = Some u -> active u -> str_le (tk_id t) (tk_id u) = true)
  | None => best = None /\ forall u, u ∈ ts -> ~ active u
  end.
Proof.
  induction ts as [|x ts IH]; intros best Hb; cbn [fold_left].
  - destruct best as [b|]; [|split; [done|set_solver]].
    split_and!; [by apply Hb|by right|]. intros u [Hu|[= ->]] _; [set_solver|].
    by rewrite str_le_lt, str_lt_irrefl.
  - specialize (IH (better best x) (better_active best x Hb)).
    assert (forall b u, better best x = Some b -> u = x \/ best = Some u -> active u ->
      str_le (tk_id b) (tk_id u) = true) as Hle.
    { unfold better, active. intros b u Hbx Hu Hau. rewrite str_le_lt. case_bool_decide as Hx; cbn in Hbx.
      - destruct best as [y|]; [|destruct Hu as [->|]; simplify_eq; by rewrite str_lt_irrefl].
        destruct (str_lt (tk_id x) (tk_id y)) eqn:El; simplify_eq; destruct Hu as [->|[= <-]];
          rewrite ?str_lt_irrefl, ?El; try done. by rewrite (str_lt_antisym _ _ El).
      - destruct Hu as [->|Hu]; [done|]. rewrite Hbx in Hu. simplify_eq. by rewrite str_lt_irrefl. }
    assert (forall b, better best x = Some b -> b = x \/ best = Some b) as Hfrom.
    { unfold better. intros b. repeat (case_match; cbn); naive_solver. }
    destruct (fold_left better ts (better best x)) as [t|].
    + destruct IH as (Ha & Hin & Hmin). split_and!; [done| |].
      * destruct Hin as [|H]; [left; by right|]. destruct (Hfrom t H) as [->|]; [left; left|by right].
      * intros u [[->|Hu]%elem_of_cons|Hu] Hau; [|auto|].
        all: destruct (better best x) as [b|] eqn:Eb; [apply (str_le_transitive (tk_id t) (tk_id b)); [apply (Hmin b); [by right|by eapply better_active]|]|].
        all: try (eapply Hle; eauto; fail).
        all: exfalso; unfold better, active in *; rewrite ?Hau in Eb; cbn in Eb; repeat case_match; naive_solver.
    + destruct IH as [Hn Hno]. unfold better in Hn. case_bool_decide as Hx; cbn in Hn; [by repeat case_match|].
      split; [done|]. intros u [->|Hu]%elem_of_cons; [done|auto].
Qed.

Section progress.
Context {U : Unicode} {R : Regexp} {MO : MapOrder} {E : Engine}.

(** The tokens in the order of the [n]th loop over the map. *)
Definition ranged (n : nat) (ts : gmap string Token) : list Token := map snd (map_range n ts).
Lemma elem_of_ranged n ts t : t ∈ ranged n ts <-> exists k, ts !! k = Some t.
Proof.
  unfold ranged. rewrite list_elem_of_fmap. split.
  - intros ([k x] & -> & H). apply elem_of_map_range in H. eauto.
  - intros [k H]. exists (k, t). by rewrite elem_of_map_range.
Qed.
Lemma next_active_core n ts :
  match next_active (ranged n ts) with
  | Some t => active t /\ (exists k, ts !! k = Some t)
      /\ forall k u, ts !! k = Some u -> active u -> str_le (tk_id t) (tk_id u) = true
  | None => forall k u, ts !! k = Some u -> ~ active u
  end.
Proof.
  unfold next_active. pose proof (next_active_fold (ranged n ts) None ltac:(done)) as H.
  destruct (fold_left better (ranged n ts) None) as [t|].
  - destruct H as (Ha & [Hin|] & Hmin); [|done]. split_and!; [done|by apply elem_of_ranged in Hin|].
    intros k u Hu. apply Hmin. left. apply elem_of_ranged. eauto.
  - destruct H as [_ H]. intros k u Hu. apply H, elem_of_ranged. eauto.
Qed.

(** The token that runs next is the active one with the lowest ID, in
    whatever order the map of tokens is walked; there is none only when no
    token is active. *)
Theorem next_active_deterministic n n' ts :
  (forall k t, ts !! k = Some t -> tk_id t = k) ->
  next_active (ranged n ts) = next_active (ranged n' ts) /\
  match next_active (ranged n ts) with
  | Some t => ts !! tk_id t = Some t /\ active t
      /\ forall k u, ts !! k = Some u -> active u -> k = tk_id t \/ str_lt (tk_id t) k = true
  | None => forall k u, ts !! k = Some u -> ~ active u
  end.
Proof.
  intros Hk. pose proof (next_active_core n ts) as H. pose proof (next_active_core n' ts) as H'.
  destruct (next_active (ranged n ts)) as [t|], (next_active (ranged n' ts)) as [t'|].
  - destruct H as (Ha & [k Ht] & Hmin), H' as (Ha' & [k' Ht'] & Hmin').
    assert (tk_id t = tk_id t') as Eid.
    { specialize (Hmin _ _ Ht' Ha'). specialize (Hmin' _ _ Ht Ha). rewrite str_le_lt in Hmin, Hmin'.
      destruct (str_lt_total (tk_id t) (tk_id t')) as [|[E1|E1]]; [done|..]; rewrite E1 in *; done. }
    assert (k' = k) as -> by (rewrite <- (Hk _ _ Ht), <- (Hk _ _ Ht'); done).
    assert (t' = t) as -> by congruence. split; [done|]. split_and!; [|done|].
    + by rewrite (Hk _ _ Ht).
    + intros k' u Hu Hau. specialize (Hmin k' u Hu Hau). rewrite (Hk _ _ Hu), str_le_lt in Hmin.
      destruct (str_lt_total k' (tk_id t)) as [|[E1|E1]]; [by left|by rewrite E1 in Hmin|by right].
  - destruct H as (Ha & [k Ht] & _). destruct (H' k t Ht Ha).
  - destruct H' as (Ha & [k Ht] & _). destruct (H k t' Ht Ha).
  - done.
Qed.

(** ** The loop *)
Context {PD : ParsedDef} (iid : string).

Lemma rsteps_steps s s' : rtc (rstep iid) s s' -> rt_steps s <= rt_steps s'.
Proof.
  induction 1 as [|s1 s2 s3 Hs _ IH]; [done|]. etrans; [|exact IH]. by destruct Hs.
Qed.
Lemma steps_mono {A} (m : M A) V s : traces iid m V -> shaped iid s -> rt_steps s <= rt_steps (m s).2.
Proof. intros Hm Hs. apply rsteps_steps, Hm, Hs. Qed.
Lemma shaped_after {A} (m : M A) V s : traces iid m V -> shaped iid s -> shaped iid (m s).2.
Proof. intros Hm Hs. eapply rsteps_shaped; [|exact Hs]. apply Hm, Hs. Qed.

(** One round: rest, the step limit, or a step. *)
Inductive round := Rest | Limit (tok : string) | Run (tok : string).
Definition next_round (s : rt) : round * rt :=
  let n := w_tick (rt_world s) in
  let s1 := set_rt_world (set_w_tick (S n) (rt_world s)) s in
  match next_active (ranged n (in_tokens (rt_inst s))) with
  | None => (Rest, s1)
  | Some t => ((if maxSteps <? rt_steps s + 1 then Limit else Run) (tk_id t), set_rt_steps (rt_steps s + 1) s1)
  end.
Lemma drain_round fuel s :
  drain_loop (S fuel) s =
  match next_round s with
  | (Rest, s1) => (Ok tt, s1)
  | (Limit tok, s1) => raise_incident tok "" "execution exceeded step limit (possible unguarded loop)" s1
  | (Run tok, s1) =>
      match step tok s1 with
      | (Ok tt, s2) => if bool_decide (in_state (rt_inst s2) = InstanceActive) then drain_loop fuel s2 else (Ok tt, s2)
      | r => r
      end
  end.
Proof.
  cbn [drain_loop]. unfold next_round, ranged, lift, tick, inst_get, gets, bump_steps, mbind, ST_bind. cbn.
  destruct (next_active _) as [t|]; [|done]. cbn. destruct (maxSteps <? rt_steps s + 1); [done|].
  destruct (step (tk_id t) _) as [[[]|e|p|] s2]; try done. cbn. by case_bool_decide.
Qed.
Lemma next_round_shaped s : shaped iid s -> shaped iid (next_round s).2.
Proof. intros [H1 H2 H3]. unfold next_round. destruct (next_active _); split; done. Qed.
Lemma next_round_steps s tok : (next_round s).1 = Run tok ->
  rt_steps (next_round s).2 = rt_steps s + 1 /\ rt_steps s + 1 <= maxSteps.
Proof.
  unfold next_round. destruct (next_active _); [|done]. cbn.
  destruct (Z.ltb_spec maxSteps (rt_steps s + 1)); [done|]. by split.
Qed.

(** Fuel beyond the step limit makes no difference. *)
Lemma drain_loop_fuel f1 : forall f2 s, shaped iid s ->
  maxSteps - rt_steps s < Z.of_nat f1 -> maxSteps - rt_steps s < Z.of_nat f2 -> (0 < f1)%nat -> (0 < f2)%nat ->
  drain_loop f1 s = drain_loop f2 s.
Proof.
  induction f1 as [|f1 IH]; intros [|f2] s Hs H1 H2 P1 P2; try lia. rewrite !drain_round.
  pose proof (next_round_shaped s Hs) as Hs1. pose proof (next_round_steps s) as Hst.
  destruct (next_round s) as [[|tok|tok] s1]; [done..|]. cbn in Hs1, Hst. destruct (Hst tok eq_refl) as [E1 Hle].
  pose proof (steps_mono (step tok) _ s1 (t_step iid tok) Hs1) as Hmono.
  pose proof (shaped_after (step tok) _ s1 (t_step iid tok) Hs1) as Hs2.
  destruct (step tok s1) as [[[]|e|p|] s2]; try done. cbn in Hmono, Hs2. case_bool_decide; [|done].
  apply IH; [done|lia..|lia|lia].
Qed.

(** What a loop that ended leaves. *)
Definition at_rest (s : rt) : Prop :=
  in_state (rt_inst s) <> InstanceActive
  \/ (forall k t, in_tokens (rt_inst s) !! k = Some t -> ~ active t)
  \/ maxSteps < rt_steps s.
Lemma drain_loop_rest fuel : forall s s', shaped iid s -> drain_loop fuel s = (Ok tt, s') -> at_rest s'.
Proof.
  induction fuel as [|fuel IH]; intros s s' Hs Hd; [done|]. rewrite drain_round in Hd.
  pose proof (next_round_shaped s Hs) as Hs1.
  unfold next_round in Hd, Hs1. pose proof (next_active_core (w_tick (rt_world s)) (in_tokens (rt_inst s))) as Hn.
  destruct (next_active _) as [t|]; cbn in Hs1; [|right; left; by simplify_eq/=].
  destruct (Z.ltb_spec maxSteps (rt_steps s + 1)) as [Hlim|Hlim].
  - right; right. pose proof (steps_mono _ _ _ (t_raise iid (tk_id t) "" "execution exceeded step limit (possible unguarded loop)") Hs1) as Hm.
    rewrite Hd in Hm. cbn in Hm. lia.
  - pose proof (shaped_after (step (tk_id t)) _ _ (t_step iid (tk_id t)) Hs1) as Hs2.
    destruct (step (tk_id t) _) as [[[]|e|p|] s2]; try done. cbn in Hs2.
    case_bool_decide as Ha; [by eapply IH|]. left. by simplify_eq.
Qed.

Lemma drain_unfold s : drain s = if in_suspended (rt_inst s) then (Ok tt, s) else drain_loop drain_fuel s.
Proof.
  unfold drain. generalize drain_fuel. intros f. unfold inst_get, gets, mbind, ST_bind. cbn -[drain_loop].
  by destruct (in_suspended (rt_inst s)).
Qed.

(** C12: the loop that runs an instance ends: its bound of steps is enough, a
    larger one changes nothing.  A suspended instance does not move; when the
    loop of another one returns, the instance has ended, or no token is
    active any more, or the limit of steps was passed and an incident
    raised. *)
Theorem drain_runs_to_rest s fuel : shaped iid s -> rt_steps s = 0 -> (drain_fuel <= fuel)%nat ->
  drain_loop fuel s = drain_loop drain_fuel s /\
  forall s', drain s = (Ok tt, s') ->
    in_suspended (rt_inst s) = true /\ s' = s \/ in_suspended (rt_inst s) = false /\ at_rest s'.
Proof.
  intros Hs H0 Hf. split.
  - apply drain_loop_fuel; [done|..]; unfold drain_fuel in *; lia.
  - intros s' Hd. rewrite drain_unfold in Hd.
    destruct (in_suspended (rt_inst s)); [left; by simplify_eq/=|right]. split; [done|]. by eapply drain_loop_rest.
Qed.
End progress.

(** ** The properties on a concrete engine *)
#[local] Existing Instance latin1_only.
#[local] Existing Instance literal_regexp.
#[local] Existing Instance key_order.
#[local] Existing Instance sample_engine.

(** An inclusive fork sends a token to the join and one to a choice that
    leads past it: the second token ends, the first one waits. *)
Definition stuck_id : string := "inst_60a24181e400200000002abcd".
Definition stuck_world : world := launched "join" {["go" := VBool false]}.
Definition join_el : Element := plain_node "join" TypeInclusiveGateway ["fa"; "fx"] ["fj"].
Definition waiting_at_join (w : world) : bool :=
  match GetInstance stuck_id (w_store w) with
  | Some i =>
      match tokens_of i with
      | [t] => bool_decide (in_state i = InstanceActive) && bool_decide (tk_state t = TokenJoining)
               && String.eqb (tk_element t) "join"
               && bool_decide (inclusive_join_ready join_container t join_el [t] = Some true)
      | _ => false
      end
  | None => false
  end.

(** An inclusive join is not looked at again when the last token that
    could have reached it goes elsewhere: the instance stays active for ever
    with its only token waiting at the join, although the join is ready; no
    job, subscription, task or incident is left that could wake it, and
    neither a later change of its variables nor the scheduler does. *)
Theorem inclusive_join_stuck :
  waiting_at_join stuck_world = true
  /\ m_jobs (w_store stuck_world) = ∅ /\ m_subs (w_store stuck_world) = ∅ /\ m_tasks (w_store stuck_world) = ∅
  /\ m_externals (w_store stuck_world) = ∅ /\ m_agent_jobs (w_store stuck_world) = ∅
  /\ m_incidents (w_store stuck_world) = ∅
  /\ waiting_at_join (set_variables 5 stuck_id {["go" := VBool true]} stuck_world).2 = true
  /\ waiting_at_join (run_due_jobs 5 100 stuck_world).2 = true
  /\ waiting_at_join (reconcile 5 stuck_world).2 = true.
Proof. split_and!; vm_compute; reflexivity. Qed.

Lemma next_active_deterministic_witness :
  (forall k t, in_tokens (sample_instance "user" ∅ (first_token "tok_1" "start")) !! k = Some t -> tk_id t = k) /\
  next_active (ranged 0 {["tok_1" := first_token "tok_1" "start"]}) = next_active (ranged 1 {["tok_1" := first_token "tok_1" "start"]}).
Proof.
  assert (forall k t, in_tokens (sample_instance "user" ∅ (first_token "tok_1" "start")) !! k = Some t -> tk_id t = k) as H.
  { intros k t Ht. change (({["tok_1" := first_token "tok_1" "start"]} : gmap string Token) !! k = Some t) in Ht.
    apply (lookup_singleton_Some "tok_1") in Ht as [<- <-]. reflexivity. }
  split; [exact H|]. apply (next_active_deterministic 0 1 _ H).
Defined.

Definition user_rt : rt := sample_rt "user" ∅ (first_token "tok_1" "start").
Lemma user_rt_shaped : shaped "inst_1" user_rt.
Proof. split; [reflexivity|by apply map_Forall_singleton|apply map_Forall_empty]. Qed.
Lemma drain_runs_to_rest_witness :
  exists s', drain (PD := parsed "user" user_container) user_rt = (Ok tt, s') /\ at_rest s'.
Proof.
  destruct (drain (PD := parsed "user" user_container) user_rt) as [r s'] eqn:Ed.
  assert (r = Ok tt) as -> by (replace r with (drain (PD := parsed "user" user_container) user_rt).1 by (rewrite Ed; reflexivity); vm_compute; reflexivity).
  exists s'. split; [reflexivity|].
  destruct (proj2 (drain_runs_to_rest (PD := parsed "user" user_container) "inst_1" user_rt drain_fuel user_rt_shaped
    ltac:(reflexivity) ltac:(apply le_n)) s' Ed) as [[H _]|[_ H]]; [discriminate H|exact H].
Defined.
