(* ===== verification/EngineSafety.v ===== *)
(** * What a call of the engine may do to the store

    Every operation of the engine is a sequence of the store transitions of
    [estep]: instance records are only written for a fresh instance or for an
    active one, whose identity stays; only a migration changes the definition
    of an instance; definitions get a new version; only housekeeping purges,
    and only what has ended; events are appended.  The
    invariants of the store and the audit trail follow. *)
From stdpp Require Import relations.
From S2P Require Import Prelude GoFloat GoUtf8 GoTime ExprValue ExprLexer ExprFuncs ExprEval StoreTypes StoreQuery StoreMemory BpmnModel EngineBase EngineCancel EngineFlow EngineErrors EngineActivity EngineRun EngineApi EngineSched EngineTrace.
Local Open Scope string_scope.
Local Open Scope Z_scope.

(** ** Transitions of the store *)
Definition inst_shaped (i : Instance) : Prop :=
  map_Forall (fun k t => tk_id t = k /\ token_shape t) (in_tokens i).
Definition same_instance (i i' : Instance) : Prop :=
  in_id i' = in_id i /\ in_tenant i' = in_tenant i /\ in_def_id i' = in_def_id i
  /\ in_def_key i' = in_def_key i /\ in_bkey i' = in_bkey i /\ in_parent i' = in_parent i
  /\ in_parent_tok i' = in_parent_tok i /\ in_started i' = in_started i.
Definition fresh_instance (i : Instance) : Prop := in_state i = InstanceActive /\ in_rev i = 0.
Definition updates (m : Memory) (i : Instance) : Prop :=
  exists old, m_instances m !! in_id i = Some old /\ in_state old = InstanceActive /\ same_instance old i.

(** A migration may also point an active instance to another definition. *)
Definition migrates (m : Memory) (i : Instance) : Prop :=
  exists old, m_instances m !! in_id i = Some old /\ in_state old = InstanceActive /\ in_state i = InstanceActive
  /\ in_tenant i = in_tenant old /\ in_bkey i = in_bkey old /\ in_parent i = in_parent old
  /\ in_parent_tok i = in_parent_tok old /\ in_started i = in_started old
  /\ dom (in_tokens i) = dom (in_tokens old).

(** What a call may do beyond running instances. *)
Inductive privilege := Ordinary | Migrating | Purging.
#[export] Instance privilege_eq_dec : EqDecision privilege.
Proof. solve_decision. Defined.
Definition allowed (priv : privilege) (m : Memory) (o : store_op) : Prop :=
  match o with
  | OPutInstance i => inst_shaped i /\ (fresh_instance i \/ updates m i \/ priv = Migrating /\ migrates m i)
  | OPurgeInstance id =>
      priv = Purging /\ forall i, m_instances m !! id = Some i -> in_state i <> InstanceActive
  | OAppendHistory ev => hv_seq ev = 0
  | OPutDefinition _ | OPutBlob _ | ODeleteBlob _ _ => False
  | _ => True
  end.

(** The version is above those of the earlier definitions of the process. *)
Definition newest (m : Memory) (d : ProcDef) : Prop :=
  forall k d', m_definitions m !! k = Some d' -> pd_key d' = pd_key d -> pd_tenant d' = pd_tenant d ->
    pd_version d' < pd_version d.
(** A definition, with what its text parses to. *)
Definition loads {E : Engine} (d : ProcDef) (PD : ParsedDef) : Prop :=
  pd_def = d /\ e_parse (pd_xml d) = inr pd_doc /\ first_executable pd_doc = Some pd_proc.
Inductive estep {E : Engine} (priv : privilege) (w : world) : world -> Prop :=
| es_tick n : estep priv w (set_w_tick n w)
| es_seq q : estep priv w (set_w_seq q w)
| es_cache id d PD : m_definitions (w_store w) !! id = Some d -> loads d PD ->
    estep priv w (set_w_defs (<[id := PD]> (w_defs w)) w)
| es_deploy d PD : newest (w_store w) d -> loads d PD ->
    estep priv w (set_w_defs (<[pd_id d := PD]> (w_defs w)) (set_w_store (PutDefinition d (w_store w)) w))
| es_op o : allowed priv (w_store w) o -> estep priv w (set_w_store (run_op o (w_store w)) w).

(** The invariant of the store. *)
Record store_ok (m : Memory) : Prop := {
  so_memory : memory_ok m;
  so_shaped : map_Forall (fun _ => inst_shaped) (m_instances m);
}.

Section preservation.
Context {MO : MapOrder}.

Lemma allowed_pre priv m o : allowed priv m o -> op_pre o m.
Proof. destruct o; cbn; auto. Qed.
Lemma run_op_instances o m :
  m_instances (run_op o m) =
  match o with
  | OPutInstance i => <[in_id i := set_in_rev (in_rev i + 1) i]> (m_instances m)
  | OPurgeInstance id => delete id (m_instances m)
  | _ => m_instances m
  end.
Proof.
  by destruct o.
Qed.
Lemma run_op_history o m id :
  hist_of id m `prefix_of` hist_of id (run_op o m) \/ o = OPurgeInstance id.
Proof.
  destruct o; try (by left).
  - destruct (decide (id0 = id)) as [->|Hne]; [by right|left].
    unfold hist_of. cbn. by rewrite lookup_delete_ne.
  - left. cbn. unfold AppendHistory. repeat case_step; cbn; unfold hist_of at 2; cbn;
      destruct (decide (hv_inst ev = id)) as [<-|Hne];
      rewrite ?lookup_insert_eq, ?lookup_insert_ne by done; cbn; try done; by apply prefix_app_r.
Qed.

Lemma run_op_definitions priv o m : allowed priv m o -> m_definitions (run_op o m) = m_definitions m.
Proof. by destruct o. Qed.

Context {E : Engine}.
Lemma estep_ok priv w w' : estep priv w w' -> store_ok (w_store w) -> store_ok (w_store w').
Proof.
  intros [n|q|id d PD _ _|d PD _ _|o Ho] Hok; cbn; [done..| |]; destruct Hok as [Hm Hs]; split; try done.
  - by apply (run_op_ok_core (OPutDefinition d)).
  - apply run_op_ok_core; [done|by eapply allowed_pre].
  - rewrite run_op_instances. destruct o; try done.
    + apply map_Forall_insert_2; [by apply Ho|done].
    + by apply map_Forall_delete.
Qed.
Lemma esteps_ok priv w w' : rtc (estep priv) w w' -> store_ok (w_store w) -> store_ok (w_store w').
Proof. induction 1; eauto using estep_ok. Qed.
Lemma esteps_history priv w w' id :
  priv <> Purging -> rtc (estep priv) w w' -> hist_of id (w_store w) `prefix_of` hist_of id (w_store w').
Proof.
  intros Hp. induction 1 as [|w1 w2 w3 Hs _ IH]; [done|]. etrans; [|exact IH].
  destruct Hs as [| | | |o Ho]; [done..|]. cbn. destruct (run_op_history o (w_store w1) id) as [?| ->]; [done|].
  by destruct Ho.
Qed.

(** *** The cache of definitions *)

(** What is cached is what the stored text parses to. *)
Definition coherent (w : world) : Prop :=
  forall id PD, w_defs w !! id = Some PD -> exists d, m_definitions (w_store w) !! id = Some d /\ loads d PD.
Lemma estep_coherent priv w w' : estep priv w w' -> coherent w -> coherent w'.
Proof.
  intros [n|q|id d PD Hd Hl|d PD _ Hl|o Ho] Hw id' PD' H'; cbn in *; [by apply Hw..| | |].
  - apply lookup_insert_Some in H' as [[<- <-]|[_ H']]; [by exists d|by apply Hw].
  - destruct (decide (pd_id d = id')) as [<-|Hne].
    + rewrite lookup_insert_eq in H'. injection H' as <-. exists d. by rewrite lookup_insert_eq.
    + rewrite lookup_insert_ne in H' by done. rewrite lookup_insert_ne by done. by apply Hw.
  - rewrite (run_op_definitions priv) by done. by apply Hw.
Qed.
Lemma esteps_coherent priv w w' : rtc (estep priv) w w' -> coherent w -> coherent w'.
Proof. induction 1; eauto using estep_coherent. Qed.

(** *** A run of one instance *)
Lemma wstep_estep iid priv w w' : wstep iid w w' -> estep priv w w'.
Proof.
  intros [n|q|o Ho]; try constructor. destruct o; cbn in *; tauto.
Qed.
Lemma wsteps_esteps iid priv w w' : rtc (wstep iid) w w' -> rtc (estep priv) w w'.
Proof. induction 1; econstructor; eauto using wstep_estep. Qed.
Lemma wsteps_instances iid w w' : rtc (wstep iid) w w' -> m_instances (w_store w') = m_instances (w_store w).
Proof.
  induction 1 as [|w1 w2 w3 Hs _ IH]; [done|]. rewrite IH. destruct Hs as [| |o Ho]; [done..|].
  cbn. rewrite run_op_instances. by destruct o.
Qed.
Lemma rsteps_world iid s s' : rtc (rstep iid) s s' -> rtc (wstep iid) (rt_world s) (rt_world s').
Proof.
  induction 1 as [|s1 s2 s3 Hs _ IH]; [done|]. etrans; [|exact IH].
  destruct Hs; try done. by apply rtc_once.
Qed.
#[export] Instance same_instance_trans : Transitive same_instance.
Proof. intros a b c Hab Hbc. unfold same_instance in *. intuition congruence. Qed.
Lemma rsteps_same iid s s' : rtc (rstep iid) s s' -> same_instance (rt_inst s) (rt_inst s').
Proof. induction 1 as [|s1 s2 s3 Hs _ IH]; [done|]. etrans; [|exact IH]. by destruct Hs. Qed.
End preservation.

(** ** Programs as sequences of transitions *)

(** The program makes allowed transitions only, however it ends, and its
    value satisfies [V] in the state it ends in. *)
Definition etr_at {MO : MapOrder} {E : Engine} {A} (priv : privilege) (w : world) (m : EM A) (V : A -> world -> Prop) : Prop :=
  rtc (estep priv) w (m w).2 /\ forall a, (m w).1 = Ok a -> V a (m w).2.
Definition etraces {MO : MapOrder} {E : Engine} {A} (priv : privilege) (m : EM A) (V : A -> world -> Prop) : Prop :=
  forall w, store_ok (w_store w) -> etr_at priv w m V.
Abbreviation any2 := (fun _ _ => True).

Section rules.
Context {MO : MapOrder} {E : Engine} (priv : privilege).
Abbreviation etraces := (etraces priv).

Lemma etraces_ret {A} (a : A) (V : A -> world -> Prop) : (forall w, V a w) -> etraces (mret a) V.
Proof. intros HV w _. split; [done|]. cbn. intros a' [= <-]. auto. Qed.
Lemma at_bind {A B} (m : EM A) (f : A -> EM B) V W w :
  store_ok (w_store w) -> etr_at priv w m V ->
  (forall a w, V a w -> store_ok (w_store w) -> etr_at priv w (f a) W) ->
  etr_at priv w (m ≫= f) W.
Proof.
  intros Hw [H1 HV] Hf. unfold etr_at, mbind, ST_bind.
  destruct (m w) as [[a|e|p|] w'] eqn:Em; cbn in *; try (split; [done|discriminate]).
  destruct (Hf a w' (HV a eq_refl) (esteps_ok _ _ _ H1 Hw)) as [H2 HW].
  split; [by etrans|done].
Qed.
Lemma at_from {A} (m : EM A) V w w' : rtc (estep priv) w w' -> etr_at priv w' m V -> etr_at priv w (fun _ => m w') V.
Proof. intros H [H1 HV]. split; [by etrans|done]. Qed.
Lemma etraces_bind {A B} (m : EM A) (f : A -> EM B) V W :
  etraces m V ->
  (forall a w, V a w -> store_ok (w_store w) -> etr_at priv w (f a) W) ->
  etraces (m ≫= f) W.
Proof. intros Hm Hf w Hw. eapply at_bind; eauto. Qed.
Lemma etraces_seq {A B} (m : EM A) (f : A -> EM B) W :
  etraces m any2 -> (forall a, etraces (f a) W) -> etraces (m ≫= f) W.
Proof. intros Hm Hf. eapply etraces_bind; [exact Hm|]. intros a w _. apply Hf. Qed.
Lemma etraces_any {A} (m : EM A) V : etraces m V -> etraces m any2.
Proof. intros H w Hw. destruct (H w Hw). by split. Qed.
Lemma etraces_attempt {A} (m : EM A) : etraces m any2 -> etraces (attempt m) any2.
Proof.
  intros Hm w Hw. destruct (Hm w Hw) as [H _]. unfold etr_at, attempt. by destruct (m w) as [[]].
Qed.
Lemma etraces_ignore {A} (m : EM A) : etraces m any2 -> etraces (ignore m) any2.
Proof. intros Hm. apply etraces_seq; [by apply etraces_attempt|]. intros. by apply etraces_ret. Qed.
Lemma etraces_stop {A} (r : res goerr A) V : is_ok r = false -> etraces (fun w => (r, w)) V.
Proof. intros Hr w _. split; [done|]. cbn. by intros a ->. Qed.
Lemma etraces_fail {A} e (V : A -> world -> Prop) : etraces (fail e) V.
Proof. by apply (etraces_stop (Err e)). Qed.
Lemma etraces_fuel {A} (V : A -> world -> Prop) : etraces out_of_fuel V.
Proof. by apply (etraces_stop OutOfFuel). Qed.
Lemma etraces_or_nil {A} (o : option A) : etraces (or_nil o) any2.
Proof. destruct o; [by apply etraces_ret|by apply (etraces_stop (Panic _))]. Qed.
Lemma etraces_or_not_found {A} (o : option A) : etraces (or_not_found o) any2.
Proof. destruct o; [by apply etraces_ret|apply etraces_fail]. Qed.
Lemma etraces_when b m : etraces m any2 -> etraces (when b m) any2.
Proof. intros H. destruct b; [done|by apply etraces_ret]. Qed.
Lemma etraces_for_each {A} (f : A -> EM unit) l :
  (forall x, etraces (f x) any2) -> etraces (for_each f l) any2.
Proof.
  intros H. induction l as [|x l IH]; cbn; [by apply etraces_ret|]. by apply etraces_seq.
Qed.
Lemma etraces_count {A} (f : A -> EM Z) l : (forall x, etraces (f x) any2) -> etraces (count_sum f l) any2.
Proof.
  intros H. induction l as [|x l IH]; cbn; [by apply etraces_ret|].
  apply etraces_seq; [done|]. intros n. apply etraces_seq; [done|]. intros. by apply etraces_ret.
Qed.
Lemma etraces_gets {A} (f : world -> A) : etraces (gets f) (fun a w => a = f w).
Proof. intros w _. split; [done|]. by intros a [= <-]. Qed.
Lemma etraces_step f : (forall w, store_ok (w_store w) -> estep priv w (f w)) -> etraces (modify f) any2.
Proof. intros H w Hw. split; [by apply rtc_once, H|done]. Qed.
Lemma etraces_op (f : Memory -> Memory) o :
  (forall m, store_ok m -> allowed priv m o) -> (forall m, f m = run_op o m) -> etraces (store_put f) any2.
Proof. intros Ho Hf. apply etraces_step. intros w Hw. rewrite Hf. by constructor; apply Ho. Qed.
Lemma etraces_call {A} (f : Memory -> A * Memory) o :
  (forall m, allowed priv m o) -> (forall m, (f m).2 = run_op o m) -> etraces (store_call f) any2.
Proof.
  intros Ho Hf w Hw. unfold etr_at, store_call. specialize (Hf (w_store w)).
  destruct (f (w_store w)) as [a m]. cbn in *. subst m. split; [|done]. apply rtc_once. by constructor.
Qed.
Lemma wtraces_etraces {A} (m : EM A) iid : wtraces iid m -> etraces m any2.
Proof. intros H w _. split; [by eapply wsteps_esteps|done]. Qed.
End rules.

Ltac etr1 :=
  match goal with
  | |- forall _, _ => intros; cbv beta in *
  | |- etraces _ (mret _) _ => apply etraces_ret; solve [done]
  | |- etraces _ (fail _) _ => apply etraces_fail
  | |- etraces _ out_of_fuel _ => apply etraces_fuel
  | |- etraces _ (_ ≫= _) _ => apply etraces_seq
  | |- etraces _ (attempt _) _ => apply etraces_attempt
  | |- etraces _ (ignore _) _ => apply etraces_ignore
  | |- etraces _ (when _ _) _ => apply etraces_when
  | |- etraces _ (for_each _ _) _ => apply etraces_for_each
  | |- etraces _ (count_sum _ _) _ => apply etraces_count
  | |- etraces _ (match ?x with _ => _ end) _ => destruct x eqn:?
  | |- etraces _ (gets _) _ => eapply etraces_any, etraces_gets
  | |- etraces _ _ _ => solve [eauto 3 with etrace]
  end.
Ltac etr := repeat etr1.
Create HintDb etrace discriminated.

Section functions.
Context {U : Unicode} {R : Regexp} {MO : MapOrder} {E : Engine} (priv : privilege).
Abbreviation etraces := (etraces priv).

Lemma e_of_w {A} (m : EM A) : wtraces "" m -> etraces m any2.
Proof. apply wtraces_etraces. Qed.
Lemma e_tick : etraces tick any2. Proof. apply e_of_w, wt_tick. Qed.
Lemma e_now_ : etraces e_now any2. Proof. apply e_of_w, wt_now. Qed.
Lemma e_new_id p : etraces (new_id p) any2. Proof. apply e_of_w, wt_new_id. Qed.
Lemma e_outcome {A} (r : res goerr A) : etraces (of_outcome r) any2. Proof. apply e_of_w, wt_outcome. Qed.
Lemma e_get {A} (f : Memory -> A) : etraces (store_get f) any2. Proof. apply e_of_w, wt_get. Qed.
Lemma e_timer ev v : etraces (timer_schedule ev v) any2. Proof. apply e_of_w, wt_timer. Qed.
Lemma e_put_task t : etraces (store_put (PutTask t)) any2. Proof. apply e_of_w, wt_put_task. Qed.
Lemma e_put_job j : etraces (store_put (PutJob j)) any2. Proof. apply e_of_w, wt_put_job. Qed.
Lemma e_delete_job j : etraces (store_put (DeleteJob j)) any2. Proof. apply e_of_w, wt_delete_job. Qed.
Lemma e_put_sub j : etraces (store_put (PutSubscription j)) any2. Proof. apply e_of_w, wt_put_sub. Qed.
Lemma e_delete_sub j : etraces (store_put (DeleteSubscription j)) any2. Proof. apply e_of_w, wt_delete_sub. Qed.
Lemma e_put_incident j : etraces (store_put (PutIncident j)) any2. Proof. apply e_of_w, wt_put_incident. Qed.
Lemma e_due now limit : etraces (store_call (DueJobs now limit)) any2.
Proof. by apply (etraces_call _ _ (ODueJobs now limit)). Qed.
Lemma e_fetch_external t w u n l : etraces (store_call (FetchAndLockExternalTasks t w u n l)) any2.
Proof. by apply (etraces_call _ _ (OFetchExternalTasks t w u n l)). Qed.
Lemma e_fetch_agent t w u n l : etraces (store_call (FetchAndLockAgentJobs t w u n l)) any2.
Proof. by apply (etraces_call _ _ (OFetchAgentJobs t w u n l)). Qed.
End functions.
#[export] Hint Resolve e_tick e_now_ e_new_id e_outcome e_get e_timer e_put_task e_put_job e_delete_job e_put_sub e_delete_sub
  e_put_incident e_due e_fetch_external e_fetch_agent etraces_or_nil etraces_or_not_found : etrace.

(** ** Loading, running and storing an instance *)
Section running.
Context {U : Unicode} {R : Regexp} {MO : MapOrder} {E : Engine} (priv : privilege).
Abbreviation etraces := (etraces priv).
Abbreviation etr_at := (etr_at priv).

Lemma e_definition id : etraces (definition id) (fun _ _ => True).
Proof.
  unfold definition. eapply etraces_bind; [apply etraces_gets|]. cbv beta. intros [PD|] w _ Hw; [by split|].
  unfold etr_at, store_get, gets, mbind, ST_bind, or_not_found. cbn.
  destruct (GetDefinition id (w_store w)) as [def|] eqn:Hd; [|done]. cbn. destruct (e_parse (pd_xml def)) as [err|doc] eqn:Hp; [done|].
  unfold or_nil. destruct (first_executable doc) as [proc|] eqn:Hf; [|done].
  split; [|done]. apply rtc_once, (es_cache priv w id def); [exact Hd|by split_and!].
Qed.
Lemma definition_store id w : w_store (definition id w).2 = w_store w.
Proof.
  unfold definition, store_get, gets, modify, mbind, ST_bind, or_not_found, or_nil. cbn.
  repeat (case_step; cbn); done.
Qed.
Lemma definition_at id w m :
  store_ok (w_store w) -> m_instances (w_store w) = m ->
  etr_at w (definition id) (fun _ w' => m_instances (w_store w') = m).
Proof.
  intros Hw Hm. destruct (e_definition id w Hw) as [H _]. split; [done|].
  intros _ _. by rewrite definition_store.
Qed.

(** What a run of the instance leaves: it is the instance it was, and the
    table of instances did not change. *)
Definition ran (i : Instance) (ts : gmap string Instance) (s : rt) (w : world) : Prop :=
  inst_shaped (rt_inst s) /\ same_instance i (rt_inst s) /\ m_instances (w_store w) = ts.
Lemma run_rt_at {A} (m : M A) (i : Instance) w :
  traces (in_id i) m any -> inst_shaped i ->
  etr_at w (run_rt m i) (fun r w' => ran i (m_instances (w_store w)) r.2 w').
Proof.
  intros Hm Hi. unfold etr_at, run_rt.
  destruct (Hm (new_rt w i)) as [Hs _]; [by split|].
  destruct (m (new_rt w i)) as [r s] eqn:Em. cbn in *.
  pose proof (rsteps_world _ _ _ Hs) as Hw. cbn in Hw. split; [by eapply wsteps_esteps|].
  assert (ran i (m_instances (w_store w)) s (rt_world s)) as Hran.
  { destruct (rsteps_shaped _ _ _ Hs) as [_ Hsh _]; [by split|].
    split_and!; [done|by apply (rsteps_same _ _ _ Hs)|by eapply wsteps_instances]. }
  intros [a s'] Ha. destruct r; simplify_eq/=. done.
Qed.
Lemma put_instance_at i w :
  inst_shaped i -> fresh_instance i \/ updates (w_store w) i \/ priv = Migrating /\ migrates (w_store w) i ->
  etr_at w (store_put (fun m => (PutInstance i m).2)) (fun _ w' =>
    m_instances (w_store w') !! in_id i = Some (set_in_rev (in_rev i + 1) i)).
Proof.
  intros Hi Hu. split; [apply rtc_once, (es_op priv w (OPutInstance i)); by split|].
  intros [] _. cbn. apply lookup_insert_eq.
Qed.

Section after.
Variable after : list continuation -> EM unit.
Hypothesis Hafter : forall cs, etraces (after cs) any2.
#[local] Hint Resolve Hafter : etrace.

Lemma e_resume_ok id (mutate : forall PD : ParsedDef, M bool) :
  (forall PD, traces id (mutate PD) any) -> etraces (resume_ok after id mutate) any2.
Proof.
  intros Hm. unfold resume_ok.
  eapply etraces_bind; [apply etraces_gets|]. cbv beta. intros found w -> Hw.
  destruct (GetInstance id (w_store w)) as [i|] eqn:Ei; [|by split].
  eapply (at_bind _ _ _ (fun a w' => a = i /\ w' = w)); [done|split; [done|by intros ? [= <-]]|].
  intros ? ? [-> ->] _.
  assert (in_id i = id) as Hid by by apply (ok_instances _ (so_memory _ Hw)).
  case_bool_decide as Ha; [|by split]. cbn [negb].
  eapply at_bind; [done|by apply definition_at|]. intros PD w1 H1 Hw1.
  eapply at_bind; [done|apply run_rt_at|].
  { rewrite Hid. unfold change_and_drain. tr. }
  { by apply (so_shaped _ Hw id). }
  intros [ok s] w2 (Hs1 & Hs2 & Hs3) Hw2. cbn [fst snd] in *.
  assert (etr_at w2 (when ok (store_put (fun m => (PutInstance (rt_inst s) m).2) ;; after (rt_conts s))) any2) as Hput.
  { destruct ok; [|by split]. eapply at_bind; [done|apply put_instance_at; [done|right; left]|].
    { exists i. split; [|done]. rewrite Hs3, H1. destruct Hs2 as (-> & _). by rewrite Hid. }
    intros [] w3 _ Hw3. by apply Hafter. }
  eapply at_bind; [done|exact Hput|]. intros [] w3 _ _. by split.
Qed.
Lemma e_resume_with id (mutate : forall PD : ParsedDef, M bool) :
  (forall PD, traces id (mutate PD) any) -> etraces (resume_with after id mutate) any2.
Proof. intros Hm. unfold resume_with. etr. by apply e_resume_ok. Qed.

(** *** Starting an instance *)
Lemma t_start_body PD start i iid : traces iid (start_body PD start i) any.
Proof. unfold start_body. tr. Qed.
Lemma new_instance_shaped def id bkey v parent ptok now tid el :
  inst_shaped (new_instance def id bkey v parent ptok now (first_token tid el)).
Proof. by apply map_Forall_singleton. Qed.
Lemma e_start def_id preset bkey v start_element parent ptok :
  etraces (start_instance_with after def_id preset bkey v start_element parent ptok) any2.
Proof.
  unfold start_instance_with. apply etraces_seq; [apply e_definition|]. intros PD. cbv zeta.
  destruct (if nonempty start_element then _ else _) as [start|]; [|apply etraces_fail].
  apply etraces_seq; [destruct (nonempty preset); etr|]. intros id.
  apply etraces_seq; [etr|]. intros now. apply etraces_seq; [etr|]. intros tid.
  set (i := new_instance _ _ _ _ _ _ _ _). intros w Hw.
  assert (inst_shaped i) as Hi by apply new_instance_shaped.
  eapply at_bind; [done|apply put_instance_at; [done|by left]|]. intros [] w1 H1 Hw1.
  eapply at_bind; [done|apply run_rt_at; [apply t_start_body|exact Hi]|].
  intros [[] s] w2 (Hs1 & Hs2 & Hs3) Hw2. cbn [fst snd] in *.
  eapply at_bind; [done|apply put_instance_at; [done|right; left]|].
  { exists (set_in_rev 1 i). split; [|done]. rewrite Hs3. destruct Hs2 as (-> & _). exact H1. }
  intros [] w3 _ Hw3. eapply at_bind; [done|by apply Hafter|]. intros [] w4 _ Hw4.
  eapply at_bind; [done|by apply e_get|]. intros r w5 _ Hw5. by apply etraces_or_not_found.
Qed.
End after.
End running.

(** ** The operations *)
Section bodies.
Context {U : Unicode} {R : Regexp} {MO : MapOrder} {E : Engine} {PD : ParsedDef} (iid : string).
Abbreviation traces := (traces iid).

Lemma t_trigger_body sub v hist : traces (trigger_body sub v hist PD) any.
Proof. unfold trigger_body. tr. Qed.
Lemma t_map_outputs tok v l : traces (map_outputs tok v l) any.
Proof. induction l as [|m l IH]; cbn [map_outputs]; tr. Qed.
#[local] Hint Resolve t_map_outputs : trace.
Lemma t_notify_body tok child v : traces (notify_body tok child v PD) any.
Proof. unfold notify_body. tr. Qed.
Lemma t_child_failed tok child err : traces (child_failed tok child err PD) any.
Proof. unfold child_failed. tr. Qed.
Lemma t_claim_body task user : traces (claim_body task user PD) any.
Proof. unfold claim_body, or_not_found. tr. Qed.
Lemma t_complete_task_body task t v user : traces (complete_task_body task t v user PD) any.
Proof. unfold complete_task_body, apply_stash. tr. Qed.
Lemma t_complete_external id worker t v : traces (complete_external_body id worker t v PD) any.
Proof. unfold complete_external_body. tr. Qed.
Lemma t_fail_external id m c t : traces (fail_external_body id m c t PD) any.
Proof. unfold fail_external_body. tr. Qed.
Lemma t_complete_agent j o text cs u : traces (complete_agent_body j o text cs u PD) any.
Proof. unfold complete_agent_body. tr. Qed.
Lemma t_fail_agent id m c j : traces (fail_agent_body id m c j PD) any.
Proof. unfold fail_agent_body. tr. Qed.
Lemma t_resolve_body inc : traces (resolve_body inc PD) any.
Proof. unfold resolve_body. tr. Qed.
Lemma t_continue_body j : traces (continue_body j PD) any.
Proof. unfold continue_body. tr. Qed.
Lemma t_reconcile_token k t : traces (reconcile_token k t PD) any.
Proof. unfold reconcile_token. tr. Qed.
Lemma t_reconcile_body : traces (reconcile_body PD) any.
Proof.
  unfold reconcile_body. tr. match goal with |- traces (any_token _ ?l) _ => generalize l end.
  intros l. pose proof t_reconcile_token. induction l as [|k l IH]; cbn [any_token]; tr.
Qed.
End bodies.
#[export] Hint Resolve t_trigger_body t_notify_body t_child_failed t_claim_body t_complete_task_body t_complete_external
  t_fail_external t_complete_agent t_fail_agent t_resolve_body t_continue_body t_reconcile_body : trace.
#[export] Hint Extern 1 (etraces _ (resume_ok _ _ _) _) => apply e_resume_ok; [assumption|tr] : etrace.
#[export] Hint Extern 1 (etraces _ (resume_with _ _ _) _) => apply e_resume_with; [assumption|tr] : etrace.
#[export] Hint Extern 1 (etraces _ (start_instance_with _ _ _ _ _ _ _ _) _) => apply e_start; assumption : etrace.

Section operations.
Context {U : Unicode} {R : Regexp} {MO : MapOrder} {E : Engine} (priv : privilege).
Abbreviation etraces := (etraces priv).

Section after.
Variable after : list continuation -> EM unit.
Hypothesis Hafter : forall cs, etraces (after cs) any2.
Lemma e_deliver v hist sub : etraces (deliver after v hist sub) any2.
Proof. unfold deliver, trigger_with. etr. Qed.
Lemma e_start_from bkey v sub : etraces (start_from after bkey v sub) any2.
Proof. unfold start_from. etr. Qed.
#[local] Hint Resolve e_deliver e_start_from : etrace.
Lemma e_correlate name key v : etraces (correlate_with after name key v) any2.
Proof. unfold correlate_with. etr. Qed.
Lemma e_broadcast name v : etraces (broadcast_with after name v) any2.
Proof. unfold broadcast_with. etr. Qed.
#[local] Hint Resolve e_correlate e_broadcast : etrace.
Lemma e_continuation c : etraces (run_continuation after c) any2.
Proof. unfold run_continuation, cancel_instance_with. etr. Qed.
End after.

Lemma e_after_run fuel : forall cs, etraces (after_run fuel cs) any2.
Proof.
  induction fuel as [|fuel IH]; intros [|c cs]; cbn [after_run]; etr.
  by apply e_continuation.
Qed.

Lemma e_start_triggers def proc : etraces (register_start_triggers def proc) any2.
Proof. unfold register_start_triggers, drop_start_triggers, register_start_trigger, start_sub. etr. Qed.
Lemma e_deploy tenant xml name : etraces (deploy_tenant tenant xml name) any2.
Proof.
  unfold deploy_tenant. destruct (e_parse xml) as [err|doc] eqn:Hp; [etr|].
  destruct (first_executable doc) as [proc|] eqn:Hf; [|etr].
  eapply etraces_bind; [apply etraces_gets|]. cbv beta. intros prev w Hprev Hw.
  set (top := fun w' : world => m_definitions (w_store w') = m_definitions (w_store w)).
  assert (forall A (m : EM A), (forall w', w_store (m w').2 = w_store w') ->
    forall w', etraces m any2 -> store_ok (w_store w') -> top w' -> etr_at priv w' m (fun _ => top)) as Htop.
  { intros A m Hm w' He Hw' Ht. destruct (He w' Hw') as [H _]. split; [done|]. intros _ _. unfold top.
    by rewrite Hm. }
  eapply at_bind; [done|apply Htop; [done|etr|done|done]|]. intros id w1 H1 Hw1.
  eapply at_bind; [done|apply Htop; [done|etr|done|done]|]. intros now w2 H2 Hw2. cbv zeta.
  set (def := {| pd_id := id |}).
  set (PD := {| pd_def := def |}).
  set (w4 := set_w_defs (<[id := PD]> (w_defs w2)) (set_w_store (PutDefinition def (w_store w2)) w2)).
  assert (estep priv w2 w4) as H4.
  { apply (es_deploy priv w2 def PD); [|by split_and!]. unfold newest. rewrite H2.
    pose proof (latest_definition_core tenant (pr_id proc) (w_store w)) as Hl. rewrite <- Hprev in Hl.
    intros k d' Hd' Hk Ht. destruct prev as [d|]; [|destruct (Hl k d' Hd'); done].
    destruct Hl as (_ & _ & _ & Hmax). specialize (Hmax k d' Hd' Hk Ht). cbn. lia. }
  assert (store_ok (w_store w4)) as Hw4 by by eapply estep_ok.
  change (etr_at priv w2 (fun _ => (_ ← register_start_triggers def proc; mret def) w4) (fun _ _ => True)).
  eapply at_from; [by apply rtc_once|].
  eapply at_bind; [done|by apply e_start_triggers|]. intros [] w5 _ _. by split.
Qed.

Section calls.
Context (depth : nat).
#[local] Hint Resolve e_after_run e_deliver e_start_from : etrace.
#[local] Hint Extern 1 (EngineSafety.etraces _ (resume _ _ _) _) => apply e_resume_with; [apply e_after_run|tr] : etrace.

Lemma e_suspend id : etraces (suspend_instance id) any2.
Proof.
  unfold suspend_instance. eapply etraces_bind; [apply etraces_gets|]. cbv beta. intros found w -> Hw.
  destruct (GetInstance id (w_store w)) as [i|] eqn:Ei; [|by split].
  eapply (at_bind _ _ _ (fun a w' => a = i /\ w' = w)); [done|split; [done|by intros ? [= <-]]|].
  intros ? ? [-> ->] _. case_bool_decide as Ha; [|by split]. cbn [negb].
  destruct (in_suspended i); [by split|]. split; [|done].
  apply rtc_once, (es_op priv w (OPutInstance (set_in_suspended true i))). split; [exact (so_shaped _ Hw id i Ei)|].
  right. left. exists i. split; [|done]. cbn. by rewrite (ok_instances _ (so_memory _ Hw) id i Ei).
Qed.
Lemma e_requeue j cause : etraces (requeue_failed_job j cause) any2.
Proof. unfold requeue_failed_job. etr. Qed.
Lemma e_timer_start j : etraces (timer_start depth j) any2.
Proof. unfold timer_start. etr. apply e_start, e_after_run. Qed.
#[local] Hint Resolve e_requeue e_timer_start : etrace.
Lemma e_execute_job j : etraces (execute_job depth j) any2.
Proof. unfold execute_job. etr. apply e_resume_with; [apply e_after_run|]. intros. destruct (jb_kind j); tr. Qed.
Lemma e_cancel_orphan t : etraces (cancel_orphan t) any2.
Proof. unfold cancel_orphan. etr. Qed.
#[local] Hint Resolve e_execute_job e_cancel_orphan : etrace.
Lemma e_reconcile : etraces (reconcile depth) any2.
Proof. unfold reconcile. etr. Qed.
End calls.
End operations.
