(* ===== verification/EngineCalls.v ===== *)
(** * Sequences of calls

    [call] is the interface of the engine; the theorems hold of every
    sequence of calls, whatever each of them returns. *)
From stdpp Require Import relations.
From S2P Require Import Prelude GoFloat GoUtf8 GoTime ExprValue ExprLexer ExprFuncs ExprEval StoreTypes StoreQuery StoreMemory BpmnModel EngineBase EngineCancel EngineFlow EngineErrors EngineActivity EngineRun EngineApi EngineSched EngineSamples EngineMigrate EngineTrace EngineSafety.
Local Open Scope string_scope.
Local Open Scope Z_scope.

Inductive call :=
| Deploy (tenant xml name : string)
| Start (tenant key bkey : string) (v : vars)
| StartByDefinition (def_id bkey : string) (v : vars)
| CancelInstance (id reason : string)
| SuspendInstance (id : string)
| ResumeInstance (id : string)
| SetVariables (id : string) (v : vars)
| ClaimTask (task user : string)
| CompleteTask (task : string) (v : option vars) (user : string)
| CorrelateMessage (name ckey : string) (v : vars)
| BroadcastSignal (name : string) (v : vars)
| FetchExternalTasks (topic worker : string) (lock_for limit : Z)
| CompleteExternalTask (id worker : string) (v : vars)
| FailExternalTask (id worker message code : string)
| FetchAgentJobs (topic worker : string) (lock_for limit : Z)
| CompleteAgentJob (id worker : string) (output : option vars) (text : string) (calls : list AgentToolCall) (u : AgentUsage)
| FailAgentJob (id worker message code : string)
| ResolveIncident (id : string)
| MigrateInstance (id : string) (plan : MigrationPlan)
| RunDueJobs (limit : Z)
| Reconcile
| RunHousekeeping (policy : option HousekeepingPolicy) (now : Z).
Definition privilege_of (c : call) : privilege :=
  match c with RunHousekeeping _ _ => Purging | MigrateInstance _ _ => Migrating | _ => Ordinary end.

Section calls.
Context {U : Unicode} {R : Regexp} {MO : MapOrder} {E : Engine} (depth : nat).

Definition run_call (c : call) : EM unit :=
  match c with
  | Deploy tenant xml name => ignore (deploy_tenant tenant xml name)
  | Start tenant key bkey v => ignore (start_instance_tenant depth tenant key bkey v)
  | StartByDefinition def_id bkey v => ignore (start_instance_by_definition depth def_id bkey v)
  | CancelInstance id reason => ignore (cancel_instance depth id reason)
  | SuspendInstance id => ignore (suspend_instance id)
  | ResumeInstance id => ignore (resume_instance depth id)
  | SetVariables id v => ignore (set_variables depth id v)
  | ClaimTask task user => ignore (claim_task depth task user)
  | CompleteTask task v user => ignore (complete_task depth task v user)
  | CorrelateMessage name ckey v => ignore (correlate_message depth name ckey v)
  | BroadcastSignal name v => ignore (broadcast_signal depth name v)
  | FetchExternalTasks topic worker lock_for limit => ignore (fetch_external_tasks topic worker lock_for limit)
  | CompleteExternalTask id worker v => ignore (complete_external_task depth id worker v)
  | FailExternalTask id worker message code => ignore (fail_external_task depth id worker message code)
  | FetchAgentJobs topic worker lock_for limit => ignore (fetch_agent_jobs topic worker lock_for limit)
  | CompleteAgentJob id worker output text calls u => ignore (complete_agent_job depth id worker output text calls u)
  | FailAgentJob id worker message code => ignore (fail_agent_job depth id worker message code)
  | ResolveIncident id => ignore (resolve_incident depth id)
  | MigrateInstance id plan => ignore (migrate_instance id plan)
  | RunDueJobs limit => ignore (run_due_jobs depth limit)
  | Reconcile => ignore (reconcile depth)
  | RunHousekeeping policy now => ignore (run_housekeeping policy now)
  end.
(** A sequence of calls; the process ends at a panic. *)
Definition run_calls (cs : list call) : EM unit := for_each run_call cs.

#[local] Hint Resolve e_after_run : etrace.
#[local] Hint Extern 1 (EngineSafety.etraces _ (resume _ _ _) _) => apply e_resume_with; [apply e_after_run|tr] : etrace.

Lemma e_run_call c : privilege_of c = Ordinary -> etraces Ordinary (run_call c) any2.
Proof.
  intros Hc. destruct c; try done; cbn [run_call]; apply etraces_ignore.
  - apply e_deploy.
  - unfold start_instance_tenant, start_instance_by_definition. etr. apply e_start, e_after_run.
  - apply e_start, e_after_run.
  - apply e_resume_with; [apply e_after_run|tr].
  - apply e_suspend.
  - unfold resume_instance. etr.
  - unfold set_variables. etr.
  - unfold claim_task. etr.
  - unfold complete_task, validate_form. etr.
  - apply e_correlate, e_after_run.
  - apply e_broadcast, e_after_run.
  - unfold fetch_external_tasks. etr.
  - unfold complete_external_task, check_external. etr.
  - unfold fail_external_task, check_external. etr.
  - unfold fetch_agent_jobs. etr.
  - unfold complete_agent_job, check_agent. etr.
  - unfold fail_agent_job, check_agent. etr.
  - unfold resolve_incident. etr.
  - unfold run_due_jobs. etr. apply e_execute_job.
  - apply e_reconcile.
Qed.
End calls.

(** ** Migration *)
Section migration.
Context {U : Unicode} {R : Regexp} {MO : MapOrder} {E : Engine}.
Abbreviation etraces := (etraces Migrating).

Lemma e_mapM {A B} (f : A -> EM B) l : (forall x, etraces (f x) any2) -> etraces (mapM f l) any2.
Proof. intros H. induction l as [|x l IH]; cbn; etr; auto. Qed.
Lemma e_check_plan plan target i : etraces (check_plan plan target i) any2.
Proof.
  unfold check_plan. apply etraces_seq; [apply e_tick|]. intros n. apply etraces_seq.
  { apply e_mapM. intros kt. unfold check_token, current_element. cbv zeta. etr; apply e_definition. }
  intros toks. apply etraces_seq; [apply e_tick|]. intros n2. apply etraces_seq.
  { apply e_mapM. intros x. unfold check_transform, expr_eval. etr. }
  intros new. etr.
Qed.

(** Checking a plan leaves the store alone, whatever the result. *)
Definition store_kept {A} (m : EM A) : Prop := forall w, w_store (m w).2 = w_store w.
Lemma kept_bind {A B} (m : EM A) (f : A -> EM B) : store_kept m -> (forall a, store_kept (f a)) -> store_kept (m ≫= f).
Proof. intros Hm Hf w. specialize (Hm w). unfold mbind, ST_bind. destruct (m w) as [[a| | |] w']; cbn in *; [by rewrite Hf|done..]. Qed.
Lemma kept_attempt {A} (m : EM A) : store_kept m -> store_kept (attempt m).
Proof. intros Hm w. specialize (Hm w). unfold attempt. by destruct (m w) as [[] w']. Qed.
Lemma kept_mapM {A B} (f : A -> EM B) l : (forall x, store_kept (f x)) -> store_kept (mapM f l).
Proof.
  intros H. induction l as [|x l IH]; cbn; [done|]. apply kept_bind; [done|]. intros y.
  apply kept_bind; [done|]. by intros ys.
Qed.
Lemma kept_check_plan plan target i : store_kept (check_plan plan target i).
Proof.
  apply kept_bind; [done|]. intros n. apply kept_bind.
  { apply kept_mapM. intros kt. unfold check_token. cbv zeta. destruct (FindElement _ _); [|done].
    destruct (target_scope _ _ _) as [|c]; [done|]. destruct (c_elements c !! _); [|done].
    apply kept_bind; [|intros cur; repeat case_step; done].
    apply kept_bind; [apply kept_attempt; intros w; apply definition_store|done]. }
  intros toks. apply kept_bind; [done|]. intros n2. apply kept_bind; [|done].
  apply kept_mapM. intros x. apply kept_bind; [|done]. apply kept_attempt. apply kept_bind; [done|].
  intros k w. unfold of_expr. by destruct (eval_src _ _ _).
Qed.

Lemma moved_shaped plan def new i : inst_shaped i -> inst_shaped (moved_instance plan def new i).
Proof.
  intros Hi k t Hk. cbn in Hk. apply lookup_fmap_Some in Hk as (t' & <- & Hk). destruct (Hi k t' Hk) as [H1 H2].
  split; [done|]. unfold token_shape in *. cbn. by rewrite length_map.
Qed.
(** The records of the instance are rewritten while the table of instances
    stays. *)
Lemma puts_at {A} (f : A -> Memory -> Memory) l w ts :
  (forall x, etraces (store_put (f x)) any2) -> (forall x m, m_instances (f x m) = m_instances m) ->
  store_ok (w_store w) -> m_instances (w_store w) = ts ->
  etr_at Migrating w (for_each (fun x => store_put (f x)) l) (fun _ w' => m_instances (w_store w') = ts).
Proof.
  intros He Hf Hw Hts. split; [exact (proj1 (etraces_for_each _ _ l He w Hw))|].
  intros [] _. rewrite put_loop. cbn. rewrite <- Hts. clear -Hf. generalize (w_store w).
  induction l as [|x l IH]; intros m; cbn; [done|]. by rewrite IH, Hf.
Qed.
Lemma e_apply plan PD i new n w :
  store_ok (w_store w) -> m_instances (w_store w) !! in_id i = Some i -> in_state i = InstanceActive ->
  etr_at Migrating w (apply_migration plan PD i new n) any2.
Proof.
  intros Hw Hi Ha. unfold apply_migration. cbv zeta. set (ts := m_instances (w_store w)) in *.
  apply (at_bind _ _ _ (fun _ w' => m_instances (w_store w') = ts)); [done|by split|]. intros tasks w1 H1 Hw1.
  apply (at_bind _ _ _ (fun _ w' => m_instances (w_store w') = ts)); [done|apply puts_at; eauto with etrace|].
  intros [] w2 H2 Hw2.
  apply (at_bind _ _ _ (fun _ w' => m_instances (w_store w') = ts)); [done|by split|]. intros jobs w3 H3 Hw3.
  apply (at_bind _ _ _ (fun _ w' => m_instances (w_store w') = ts)); [done|apply puts_at; eauto with etrace|].
  intros [] w4 H4 Hw4.
  apply (at_bind _ _ _ (fun _ w' => m_instances (w_store w') = ts)); [done|by split|]. intros subs w5 H5 Hw5.
  apply (at_bind _ _ _ (fun _ w' => m_instances (w_store w') = ts)); [done|apply puts_at; eauto with etrace|].
  intros [] w6 H6 Hw6.
  assert (inst_shaped i) as Hs by by apply (so_shaped _ Hw (in_id i)).
  eapply at_bind; [done|apply put_instance_at; [by apply moved_shaped|]|].
  { right. right. split; [done|]. exists i. rewrite H6. split_and!; try done. cbn. by rewrite dom_fmap_L. }
  intros [] w7 _ Hw7. eapply at_bind; [done|apply run_rt_at; [apply t_emit|by apply moved_shaped]|].
  intros r w8 _ _. by split.
Qed.
Lemma e_migrate id plan : etraces (migrate_instance id plan) any2.
Proof.
  unfold migrate_instance. destruct (String.eqb (mp_target plan) ""); [apply etraces_fail|].
  apply etraces_seq; [apply etraces_attempt, e_definition|]. intros [err|PD]; [apply etraces_fail|].
  eapply etraces_bind; [apply etraces_gets|]. cbv beta. intros found w -> Hw.
  destruct (GetInstance id (w_store w)) as [i|] eqn:Ei; [|by split].
  eapply (at_bind _ _ _ (fun a w' => a = i /\ w' = w)); [done|split; [done|by intros ? [= <-]]|].
  intros ? ? [-> ->] _. case_bool_decide as Ha; [|by split]. cbn [negb].
  destruct (String.eqb _ _); [by split|]. unfold migrate_loaded.
  eapply (at_bind _ _ _ (fun _ w' => w_store w' = w_store w)); [done| |].
  { split; [exact (proj1 (e_check_plan plan _ i w Hw))|]. intros _ _. apply kept_check_plan. }
  intros [toks new] w1 H1 Hw1. cbv zeta. destruct (_ || _); [by split|].
  eapply at_bind; [done|apply e_apply; [done| |done]|].
  { rewrite H1. by rewrite (ok_instances _ (so_memory _ Hw) id i Ei). }
  intros [] w2 _ _. by split.
Qed.
End migration.

(** ** Housekeeping *)
Section housekeeping.
Context {MO : MapOrder}.

(** The instances that retention may purge. *)
Definition expired (m : Memory) (cutoff : Z) (i : Instance) : Prop :=
  in_state i <> InstanceActive /\ (is_zero_time cutoff = true \/ in_ended i <= cutoff) /\ live_parent i m = false.
(** Purging steps from [m0]: only expired instances go, one record at a time. *)
Inductive sweep (cutoff : Z) : Memory -> Memory -> Prop :=
| sweep_done m : sweep cutoff m m
| sweep_purge m m' i : m_instances m !! in_id i = Some i -> expired m cutoff i ->
    sweep cutoff (PurgeInstance (in_id i) m) m' -> sweep cutoff m m'
| sweep_again m m' id : m_instances m !! id = None ->
    sweep cutoff (PurgeInstance id m) m' -> sweep cutoff m m'.

Lemma sweep_trans cutoff m1 m2 m3 : sweep cutoff m1 m2 -> sweep cutoff m2 m3 -> sweep cutoff m1 m3.
Proof. induction 1; eauto using sweep. Qed.
Lemma purge_lookup id m k : m_instances (PurgeInstance id m) !! k = if decide (id = k) then None else m_instances m !! k.
Proof. cbn. rewrite lookup_delete. by repeat case_decide. Qed.
Lemma purge_keeps id m k : id <> k ->
  m_instances (PurgeInstance id m) !! k = m_instances m !! k /\ hist_of k (PurgeInstance id m) = hist_of k m.
Proof. intros Hne. rewrite purge_lookup, decide_False by done. unfold hist_of. cbn. by rewrite lookup_delete_ne. Qed.

(** A live parent stays alive. *)
Lemma live_parent_purge id m i :
  (forall p, m_instances m !! id = Some p -> in_state p <> InstanceActive) ->
  live_parent i (PurgeInstance id m) = live_parent i m.
Proof.
  intros Hp. unfold live_parent, GetInstance. rewrite purge_lookup. case_decide as Hd; [subst id|done].
  destruct (m_instances m !! in_parent i) as [p|]; [|done]. by rewrite bool_decide_eq_false_2 by auto.
Qed.
Lemma expired_purge cutoff id m i :
  (forall p, m_instances m !! id = Some p -> in_state p <> InstanceActive) ->
  expired (PurgeInstance id m) cutoff i -> expired m cutoff i.
Proof. intros Hp (? & ? & Hl). rewrite live_parent_purge in Hl by done. by split_and!. Qed.
Lemma sweep_none cutoff m m' id : sweep cutoff m m' -> m_instances m !! id = None -> m_instances m' !! id = None.
Proof. induction 1 as [|???? ? ? IH|???? ? IH]; [done|..]; intros; apply IH; rewrite purge_lookup; by case_decide. Qed.
Lemma sweep_keeps cutoff m m' : sweep cutoff m m' -> forall id i, m_instances m !! id = Some i ->
  m_instances m' !! id = Some i /\ hist_of id m' = hist_of id m \/ m_instances m' !! id = None /\ expired m cutoff i.
Proof.
  induction 1 as [m|m m' x Hx He Hs IH|m m' x Hx Hs IH]; intros id i Hi; [by left|..].
  - destruct (decide (in_id x = id)) as [<-|Hne].
    + right. assert (x = i) as <- by congruence. split; [|done].
      eapply sweep_none; [exact Hs|]. rewrite purge_lookup. by rewrite decide_True.
    + destruct (purge_keeps (in_id x) m id Hne) as [H1 H2]. rewrite <- H1 in Hi.
      destruct (IH id i Hi) as [[? H3]|[? H3]]; [left; by rewrite H3|right]. split; [done|].
      eapply expired_purge; [|exact H3]. intros p Hp. assert (p = x) as -> by congruence. apply He.
  - assert (x <> id) as Hne by congruence.
    destruct (purge_keeps x m id Hne) as [H1 H2]. rewrite <- H1 in Hi.
    destruct (IH id i Hi) as [[? H3]|[? H3]]; [left; by rewrite H3|right]. split; [done|].
    eapply expired_purge; [|exact H3]. congruence.
Qed.

Lemma purge_one_run i w :
  purge_one i w = if live_parent i (w_store w) then (Ok 0, w)
                  else (Ok 1, set_w_store (PurgeInstance (in_id i) (w_store w)) w).
Proof. unfold purge_one, store_get, gets, store_put, modify, mbind, ST_bind. cbn. by destruct (live_parent _ _). Qed.
(** The instances still to be swept: stored as listed, or gone. *)
Definition listed (cutoff : Z) (m : Memory) (i : Instance) : Prop :=
  in_state i <> InstanceActive /\ (is_zero_time cutoff = true \/ in_ended i <= cutoff)
  /\ forall j, m_instances m !! in_id i = Some j -> j = i.
Lemma listed_purge cutoff m id i : listed cutoff m i -> listed cutoff (PurgeInstance id m) i.
Proof. intros (H1 & H2 & H3). split_and!; [done..|]. intros j. rewrite purge_lookup. case_decide; [done|auto]. Qed.
Lemma purge_list_sweeps cutoff l : forall w, Forall (listed cutoff (w_store w)) l ->
  exists n w', count_sum purge_one l w = (Ok n, w') /\ 0 <= n <= Z.of_nat (length l)
            /\ sweep cutoff (w_store w) (w_store w') /\ w' = set_w_store (w_store w') w.
Proof.
  induction l as [|i l IH]; intros w Hl; cbn [count_sum].
  - exists 0, w. split_and!; [done|lia|cbn; lia|constructor|by destruct w].
  - inversion Hl as [|? ? (H1 & H2 & H3) Hl']; subst. cbv [mbind ST_bind mret ST_ret].
    rewrite purge_one_run. destruct (live_parent i (w_store w)) eqn:Hlive.
    + destruct (IH w Hl') as (n & w' & -> & Hn & Hs & Hw). exists (0 + n), w'. cbn [length]. split_and!; [done|lia..|done|done].
    + destruct (IH (set_w_store (PurgeInstance (in_id i) (w_store w)) w)) as (n & w' & -> & Hn & Hs & Hw).
      { cbn. eapply Forall_impl; [exact Hl'|]. intros x. apply listed_purge. }
      exists (1 + n), w'. cbn [length]. split_and!; [done|lia..| |by rewrite Hw]. cbn in Hs.
      destruct (m_instances (w_store w) !! in_id i) as [j|] eqn:Ej.
      * specialize (H3 j eq_refl). subst j. eapply sweep_purge; [exact Ej| |exact Hs]. by split_and!.
      * by eapply sweep_again.
Qed.
Lemma purge_state_sweeps p cutoff st w :
  memory_ok (w_store w) -> st <> InstanceActive ->
  exists n w', purge_state p cutoff st w = (Ok n, w') /\ 0 <= n /\ sweep cutoff (w_store w) (w_store w')
    /\ w' = set_w_store (w_store w') w.
Proof.
  intros Hok Hst. unfold purge_state, store_get, gets, mbind, ST_bind. cbn.
  edestruct (purge_list_sweeps cutoff) as (n & w' & -> & Hn & Hs & Hw); [|exists n, w'; split_and!; [done|lia|done|done]].
  apply Forall_forall. intros i Hi. unfold ListInstances in Hi. rewrite select_limit in Hi.
  apply limited_elem_of, elem_of_select_all in Hi as [Hm [k Hk]].
  unfold match_instance, opt_field, in_time_window in Hm. cbn in Hm.
  repeat (apply andb_prop in Hm as [Hm ?]).
  split_and!.
  - match goal with H : bool_decide _ = true |- _ => apply bool_decide_eq_true in H; congruence end.
  - destruct (is_zero_time cutoff); [by left|right]. cbn in H1. by apply Z.leb_le.
  - intros j Hj. rewrite (ok_instances _ Hok k i Hk) in Hj. congruence.
Qed.

Lemma sweep_ok cutoff m m' : sweep cutoff m m' -> memory_ok m -> memory_ok m'.
Proof.
  induction 1; intros Hok; [done|apply IHsweep..].
  - by apply (run_op_ok_core (OPurgeInstance (in_id i)) m).
  - by apply (run_op_ok_core (OPurgeInstance id) m).
Qed.
Lemma sweep_esteps {E : Engine} cutoff m m' : sweep cutoff m m' -> forall w, w_store w = m ->
  rtc (estep Purging) w (set_w_store m' w).
Proof.
  induction 1 as [m|m m' i Hi He _ IH|m m' id Hi _ IH]; intros w Hw.
  - rewrite <- Hw. by destruct w.
  - eapply rtc_l; [apply (es_op Purging w (OPurgeInstance (in_id i)))|].
    + split; [done|]. rewrite Hw. intros j Hj. assert (j = i) as -> by congruence. apply He.
    + cbn. rewrite Hw. apply (IH (set_w_store (PurgeInstance (in_id i) m) w)). done.
  - eapply rtc_l; [apply (es_op Purging w (OPurgeInstance id))|].
    + split; [done|]. rewrite Hw. congruence.
    + cbn. rewrite Hw. apply (IH (set_w_store (PurgeInstance id m) w)). done.
Qed.

Definition retention (policy : option HousekeepingPolicy) : option Z :=
  match policy with Some p => if hp_ttl p <=? 0 then None else Some (hp_ttl p) | None => None end.
Lemma housekeeping_core policy now w : memory_ok (w_store w) ->
  exists n w', run_housekeeping policy now w = (Ok n, w') /\ 0 <= n /\ w' = set_w_store (w_store w') w
  /\ match retention policy with
     | Some ttl => sweep (time_add now (- ttl)) (w_store w) (w_store w')
     | None => w' = w
     end.
Proof.
  intros Hok. unfold run_housekeeping, retention.
  destruct policy as [p|]; [|exists 0, w; split_and!; [done|lia|by destruct w|done]].
  destruct (hp_ttl p <=? 0); [exists 0, w; split_and!; [done|lia|by destruct w|done]|].
  cbv [mbind ST_bind mret ST_ret].
  destruct (purge_state_sweeps p (time_add now (- hp_ttl p)) InstanceCompleted w) as (a & w1 & -> & Ha & H1 & E1); [done..|].
  destruct (purge_state_sweeps p (time_add now (- hp_ttl p)) InstanceTerminated w1) as (b & w2 & -> & Hb & H2 & E2);
    [by eapply sweep_ok|done|].
  exists (a + b), w2. split_and!; [done|lia|by rewrite E2, E1|by eapply sweep_trans].
Qed.
End housekeeping.

(** ** Properties *)
Section properties.
Context {U : Unicode} {R : Regexp} {MO : MapOrder} {E : Engine} (depth : nat).

Lemma e_housekeeping policy now : etraces Purging (run_housekeeping policy now) any2.
Proof.
  intros w Hw. destruct (housekeeping_core policy now w (so_memory _ Hw)) as (n & w' & Hr & _ & Ew & H).
  split; [|done]. rewrite Hr. cbn. destruct (retention policy) as [ttl|]; [|by rewrite H].
  rewrite Ew. by eapply sweep_esteps.
Qed.
Lemma run_call_steps c w : store_ok (w_store w) -> rtc (estep (privilege_of c)) w (run_call depth c w).2.
Proof.
  intros Hw. destruct (privilege_of c) eqn:Hc.
  - by apply e_run_call.
  - destruct c; try done. exact (proj1 (etraces_ignore Migrating _ (e_migrate _ _) w Hw)).
  - destruct c; try done. exact (proj1 (etraces_ignore Purging _ (e_housekeeping _ _) w Hw)).
Qed.

(** C1: every call of the engine, however it ends, is a sequence of the
    transitions of the specification [estep]: instance records are written
    only for a new instance or over an active one, whose identity they keep;
    a new version of a process is numbered above all earlier ones; the cache
    of definitions only gets what a stored text parses to; events are only
    appended; only a migration changes the definition of an instance,
    which stays active with its tokens; only housekeeping purges, and only
    what has ended. *)
Theorem calls_refine c w : store_ok (w_store w) ->
  rtc (estep (privilege_of c)) w (run_call depth c w).2.
Proof. apply run_call_steps. Qed.

Lemma run_calls_ok cs : forall w, store_ok (w_store w) -> store_ok (w_store (run_calls depth cs w).2).
Proof.
  induction cs as [|c cs IH]; intros w Hw; cbn; [done|]. unfold mbind, ST_bind.
  pose proof (esteps_ok _ _ _ (run_call_steps c w Hw) Hw) as Hc.
  destruct (run_call depth c w) as [[] w'] eqn:Ec; cbn in *; try done. by apply IH.
Qed.

Lemma run_calls_coherent cs : forall w, store_ok (w_store w) -> coherent w -> coherent (run_calls depth cs w).2.
Proof.
  induction cs as [|c cs IH]; intros w Hw Hc; cbn; [done|]. unfold mbind, ST_bind.
  pose proof (run_call_steps c w Hw) as Hs. pose proof (esteps_ok _ _ _ Hs Hw) as H1.
  pose proof (esteps_coherent _ _ _ Hs Hc) as H2.
  destruct (run_call depth c w) as [[] w'] eqn:Ec; cbn in *; try done. by apply IH.
Qed.

(** C5: any sequence of calls keeps the store well formed: records stored
    under their IDs, events numbered in increasing order, and every token of
    every instance under its own ID with one owner for each enclosing
    sub-process. *)
Theorem calls_keep_invariant cs w : store_ok (w_store w) -> store_ok (w_store (run_calls depth cs w).2).
Proof. apply run_calls_ok. Qed.

(** C6: the audit trail is append-only: after any call the history of an
    instance begins with the history before it; housekeeping can remove a
    history only when the instance is not active. *)
Theorem audit_append_only c w id : store_ok (w_store w) ->
  privilege_of c <> Purging \/
  (exists i, GetInstance id (w_store w) = Some i /\ in_state i = InstanceActive) ->
  hist_of id (w_store w) `prefix_of` hist_of id (w_store (run_call depth c w).2).
Proof.
  intros Hw Hc. destruct (decide (privilege_of c = Purging)) as [Hh|Hh].
  - destruct c; try done. destruct Hc as [|(i & Hi & Ha)]; [done|]. cbn [run_call].
    unfold ignore, attempt, mbind, ST_bind.
    destruct (housekeeping_core policy now w (so_memory _ Hw)) as (n & w' & -> & _ & _ & H). cbn.
    destruct (retention policy); [|by subst].
    destruct (sweep_keeps _ _ _ H id i Hi) as [[_ ->]|[_ [Hna _]]]; done.
  - eapply esteps_history; [exact Hh|by apply run_call_steps].
Qed.

(** Housekeeping ends with a count, and what it removes had ended, at or
    before the cutoff, and no running parent waits for it; every other
    instance keeps its record and its history.  Without a positive retention
    time it does nothing. *)
Theorem housekeeping_spec policy now w : memory_ok (w_store w) ->
  exists n w', run_housekeeping policy now w = (Ok n, w') /\ 0 <= n
  /\ match retention policy with
     | None => w' = w
     | Some ttl => forall id i, GetInstance id (w_store w) = Some i ->
         GetInstance id (w_store w') = Some i /\ hist_of id (w_store w') = hist_of id (w_store w)
         \/ GetInstance id (w_store w') = None /\ expired (w_store w) (time_add now (- ttl)) i
     end.
Proof.
  intros Hok. destruct (housekeeping_core policy now w Hok) as (n & w' & Hr & Hn & _ & H).
  exists n, w'. split_and!; [done..|]. destruct (retention policy); [|done]. by apply sweep_keeps.
Qed.
End properties.

(** ** The properties on a concrete engine *)
#[local] Existing Instance latin1_only.
#[local] Existing Instance literal_regexp.
#[local] Existing Instance key_order.
#[local] Existing Instance sample_engine.

Definition sample_calls (key : string) (v : vars) : list call := [Deploy "" key ""; Start "" key "key-1" v].
Definition sample_world (key : string) (v : vars) : world := (run_calls 5 (sample_calls key v) empty_world).2.
Lemma empty_ok : store_ok (w_store empty_world).
Proof. split; [apply new_memory_ok|apply map_Forall_empty]. Qed.
Lemma sample_world_ok key v : store_ok (w_store (sample_world key v)).
Proof. apply run_calls_ok, empty_ok. Qed.

Lemma calls_refine_witness :
  store_ok (w_store (sample_world "user" ∅)) /\
  rtc (estep Purging) (sample_world "user" ∅) (run_call 5 (RunHousekeeping None 0) (sample_world "user" ∅)).2.
Proof. split; [apply sample_world_ok|exact (calls_refine 5 (RunHousekeeping None 0) _ (sample_world_ok _ _))]. Defined.

Lemma calls_keep_invariant_witness :
  store_ok (w_store empty_world) /\ store_ok (w_store (run_calls 5 (sample_calls "user" ∅) empty_world).2).
Proof. split; [exact empty_ok|exact (calls_keep_invariant 5 _ _ empty_ok)]. Defined.

Definition user_inst : string := "inst_60a24181e400200000002abcd".
Lemma user_inst_active : (in_state <$> GetInstance user_inst (w_store (sample_world "user" ∅))) = Some InstanceActive.
Proof. vm_compute. reflexivity. Qed.
Definition month_policy : HousekeepingPolicy := {| hp_ttl := 720 * hour; hp_interval := hour; hp_batch := 500 |}.
Lemma audit_append_only_witness :
  let w := sample_world "user" ∅ in
  let w' := (run_call 5 (RunHousekeeping (Some month_policy) (1800000000 * second)) w).2 in
  hist_of user_inst (w_store w) `prefix_of` hist_of user_inst (w_store w').
Proof.
  apply (audit_append_only 5 (RunHousekeeping (Some month_policy) (1800000000 * second))); [apply sample_world_ok|].
  right. pose proof user_inst_active as H. apply fmap_Some in H as (i & Hi & Ha). exists i. by split.
Defined.

Lemma housekeeping_spec_witness :
  memory_ok (w_store (sample_world "join" {["go" := VBool true]})) /\
  exists n w', run_housekeeping (Some month_policy) (1800000000 * second) (sample_world "join" {["go" := VBool true]}) = (Ok n, w')
  /\ 0 <= n.
Proof.
  split; [apply sample_world_ok|].
  destruct (housekeeping_spec (Some month_policy) (1800000000 * second) _ (so_memory _ (sample_world_ok "join" {["go" := VBool true]})))
    as (n & w' & Hr & Hn & _). exists n, w'. by split.
Defined.
