(* ===== verification/RestSamples.v ===== *)
(** * A concrete server and concrete requests

    The parameters of the REST interface instantiated with small functions, a
    server with three callers over the world of [EngineCalls], and requests to
    it.  The theorems about requests are applied to them. *)
From S2P Require Import Prelude GoFloat GoUtf8 GoTime GoBase64 ExprValue ExprFuncs ExprEval StoreTypes StoreMemory Vault EngineBase EngineApi EngineSamples EngineMigrate DmnParser Forms RestAuth RestTypes Rest EngineSafety EngineCalls.
Local Open Scope go_scope.
Local Open Scope string_scope.
Local Open Scope Z_scope.

#[export] Existing Instance latin1_only.
#[export] Existing Instance literal_regexp.
#[export] Existing Instance key_order.
#[export] Existing Instance sample_engine.
#[export] Existing Instance small_codec.
#[export] Existing Instance plain_aead.
#[export] Existing Instance claim_codec.
#[export] Instance no_dmn : DmnDecoder := fun _ => inl "no decoder".

(** A webhook that starts an order, and one whose correlation fails. *)
Definition channel (name correlation : string) : WebhookChannel :=
  {| wc_name := name; wc_kind := "message"; wc_event := "order"; wc_correlation := correlation; wc_dedupe := "";
     wc_secret := "s3cret"; wc_vars := ∅; wc_tenant := "" |}.
Definition refuse_body {T} (s : string) : string + T := inl "unexpected end of JSON input".
#[export] Instance sample_codec : RestCodec := {|
  decode_start s := if String.eqb s "start" then inr {| sr_key := "user"; sr_id := ""; sr_bkey := "key-2"; sr_vars := ∅ |}
                    else refuse_body s;
  decode_vars := refuse_body; decode_task_action := refuse_body; decode_message := refuse_body; decode_fetch := refuse_body;
  decode_external := refuse_body; decode_plan := refuse_body; decode_batch := refuse_body; decode_fetch_agent := refuse_body;
  decode_complete_agent := refuse_body; decode_fail_agent := refuse_body;
  decode_secret s := inr s; decode_channel := refuse_body;
  marshal_channel c := if String.eqb (wc_name c) "broken" then "broken" else "orders";
  unmarshal_channel s := if String.eqb s "broken" then inr (channel "broken" "1 +") else inr (channel "orders" "");
  unmarshal_payload s := if String.eqb s "{}" then inr ∅ else inl "not an object";
|}.
Fixpoint zeros_of (n : nat) : string := match n with O => "" | S n => String Ascii.zero (zeros_of n) end.
#[export] Instance sample_host : Host := {|
  h_random _ n := inr (zeros_of n);
  h_page _ name := name;
  h_moments _ _ := at_second 1 (FetchFailed "no network");
  h_equal_fold := String.eqb;
|}.

(** ** Callers *)
Definition caller (subject tenant role : string) : Principal :=
  {| pr_subject := subject; pr_tenant := tenant; pr_roles := [role]; pr_expires := 0; pr_scopes := [] |}.
Definition tokens : gmap string (option Principal) :=
  {["view" := Some (caller "vera" "acme" RoleViewer); "act" := Some (caller "olga" "acme" RoleOperator);
    "other" := Some (caller "gina" "globex" RoleViewer); "manage" := Some (caller "adam" "" RoleAdmin)]}.

(** ** Requests *)
Definition request (token method path body : string) : Request :=
  {| hr_method := method; hr_path := path; hr_headers := {["Authorization" := "Bearer " ++ token]}; hr_query := []; hr_body := body |}.

(** ** Servers *)
Definition with_tenant (tenant : string) (i : Instance) : Instance :=
  {| in_id := in_id i; in_tenant := tenant; in_def_id := in_def_id i; in_def_key := in_def_key i; in_bkey := in_bkey i;
     in_state := in_state i; in_suspended := in_suspended i; in_parent := in_parent i; in_parent_tok := in_parent_tok i;
     in_vars := in_vars i; in_tokens := in_tokens i; in_multi := in_multi i; in_started := in_started i; in_ended := in_ended i;
     in_end_elem := in_end_elem i; in_rev := in_rev i |}.
(** The world in which [acme] has the process [user], and one instance of it. *)
Definition acme_world : world :=
  (run_calls 5 [Deploy "acme" "user" ""; Start "acme" "user" "key-1" ∅] empty_world).2.
Definition acme_server : Server := New acme_world [WithAuth (StaticToken tokens); WithVault "master"; WithForms ∅].
Lemma acme_ok : store_ok (w_store (sv_world acme_server)).
Proof. apply run_calls_ok, empty_ok. Qed.
Definition code_of (x : res response response * Server) : Z := match x.1 with Ok r => rp_code r | _ => -1 end.

Example roles_on_routes :
  code_of (serve_http 5 (request "view" "POST" "/v1/instances" "start") acme_server) = 403 /\
  code_of (serve_http 5 (request "act" "POST" "/v1/instances" "start") acme_server) = 201 /\
  code_of (serve_http 5 (request "nobody" "POST" "/v1/instances" "start") acme_server) = 401 /\
  code_of (serve_http 5 (request "act" "PUT" "/v1/secrets/key" "value") acme_server) = 403 /\
  code_of (serve_http 5 (request "manage" "PUT" "/v1/secrets/key" "value") acme_server) = 204 /\
  code_of (serve_http 5 (request "nobody" "GET" "/healthz" "") acme_server) = 200 /\
  code_of (serve_http 5 (request "view" "PATCH" "/v1/tasks" "") acme_server) = 405.
Proof. vm_compute. split_and!; reflexivity. Qed.
