(* ===== verification/RestSafety.v ===== *)
(** * What a request may do

    Every request is a sequence of the transitions [request_step] of the world,
    and how far they go depends on who calls: a caller who may only read leaves
    the store alone, an operator makes what the engine's calls make, and an
    administrator also migrates and writes blobs (forms, secrets, webhooks).
    [guard] and the table of routes decide which caller reaches which handler. *)
From stdpp Require Import relations.
From S2P Require Import Prelude GoFloat GoUtf8 GoTime GoDuration ExprValue ExprLexer ExprFuncs ExprEval StoreTypes StoreQuery StoreMemory Vault BpmnModel EngineBase EngineApi EngineSched EngineSamples EngineMigrate Dmn DmnParser Forms RestAuth RestTypes Rest EngineTrace EngineSafety EngineCalls RestSamples.
Local Open Scope go_scope.
Local Open Scope string_scope.
Local Open Scope Z_scope.

(** ** Powers *)
Inductive power := Reads | Acts | Manages.
#[export] Instance power_eq_dec : EqDecision power.
Proof. solve_decision. Defined.
Definition role_of (pw : power) : string :=
  match pw with Reads => RoleViewer | Acts => RoleOperator | Manages => RoleAdmin end.
Definition permits (pw : power) (priv : privilege) : bool :=
  match pw, priv with
  | Reads, _ | _, Purging | Acts, Migrating => false
  | _, _ => true
  end.
Definition blob_op (o : store_op) : bool := match o with OPutBlob _ | ODeleteBlob _ _ => true | _ => false end.
Definition still (w w' : world) : Prop := w_store w' = w_store w /\ w_defs w' = w_defs w.
Inductive request_step {E : Engine} (pw : power) (w : world) : world -> Prop :=
| rs_quiet w' : still w w' -> request_step pw w w'
| rs_engine priv w' : permits pw priv = true -> estep priv w w' -> request_step pw w w'
| rs_blob o : pw = Manages -> blob_op o = true -> request_step pw w (set_w_store (run_op o (w_store w)) w).

Section steps.
Context {MO : MapOrder} {E : Engine}.
Lemma step_ok pw w w' : request_step pw w w' -> store_ok (w_store w) -> store_ok (w_store w').
Proof.
  intros [w2 [H _]|priv w2 _ Hs|o _ Ho] Hok; [by rewrite H|by eapply estep_ok|]. cbn. destruct Hok as [Hm Hs]. split.
  - apply run_op_ok_core; [done|by destruct o].
  - rewrite run_op_instances. by destruct o.
Qed.
Lemma steps_ok pw w w' : rtc (request_step pw) w w' -> store_ok (w_store w) -> store_ok (w_store w').
Proof. induction 1; eauto using step_ok. Qed.
Lemma steps_history pw w w' id :
  rtc (request_step pw) w w' -> hist_of id (w_store w) `prefix_of` hist_of id (w_store w').
Proof.
  induction 1 as [|w1 w2 w3 Hs _ IH]; [done|]. etrans; [|exact IH]. destruct Hs as [w2 [Hst _]|priv w2 Hp Hs|o _ Ho].
  - by rewrite Hst.
  - apply (esteps_history priv); [by destruct pw, priv|by apply rtc_once].
  - by destruct o.
Qed.
Lemma step_coherent pw w w' : request_step pw w w' -> coherent w -> coherent w'.
Proof.
  intros [w2 [Hst Hd]|priv w2 _ Hs|o _ Ho] Hw; [|by eapply estep_coherent|].
  - unfold coherent. by rewrite Hst, Hd.
  - by destruct o.
Qed.
Lemma steps_coherent pw w w' : rtc (request_step pw) w w' -> coherent w -> coherent w'.
Proof. induction 1; eauto using step_coherent. Qed.
#[export] Instance still_preorder : PreOrder still.
Proof. split; [by intros w|]. intros a b c [H1 H2] [H3 H4]. split; congruence. Qed.
Lemma reads_still w w' : rtc (request_step Reads) w w' -> still w w'.
Proof. induction 1 as [|w1 w2 w3 Hs _ IH]; [done|]. etrans; [|exact IH]. by destruct Hs as [| |]. Qed.
Lemma reads_nothing w w' : rtc (request_step Reads) w w' -> w_store w' = w_store w.
Proof. apply reads_still. Qed.
Lemma steps_more pw w w' : rtc (request_step Reads) w w' -> rtc (request_step pw) w w'.
Proof. intros H. by apply rtc_once, rs_quiet, reads_still. Qed.
End steps.

(** ** Programs of the server *)
Definition htr {MO : MapOrder} {E : Engine} (pw : power) {A} (m : H A) : Prop :=
  forall s, store_ok (w_store (sv_world s)) -> rtc (request_step pw) (sv_world s) (sv_world (m s).2).

Section programs.
Context {MO : MapOrder} {E : Engine} (pw : power).
Lemma htr_ret {A} (a : A) : htr pw (mret a). Proof. by intros s _. Qed.
Lemma htr_stop {A} (r : res response A) : htr pw (fun s => (r, s)). Proof. by intros s _. Qed.
Lemma htr_refuse {A} code msg : htr pw (refuse (A := A) code msg). Proof. by intros s _. Qed.
Lemma htr_check ok code msg : htr pw (check ok code msg). Proof. by destruct ok; intros s _. Qed.
Lemma htr_server {A} (f : Server -> A) : htr pw (server f). Proof. by intros s _. Qed.
Lemma htr_change f : (forall s, sv_world (f s) = sv_world s) -> htr pw (change f).
Proof. intros Hf s _. unfold change. cbn. by rewrite Hf. Qed.
Lemma htr_bind {A B} (m : H A) (f : A -> H B) : htr pw m -> (forall a, htr pw (f a)) -> htr pw (m ≫= f).
Proof.
  intros Hm Hf s Hs. specialize (Hm s Hs). unfold mbind, H_bind. destruct (m s) as [[a|e|w|] s']; cbn in *; try done.
  etrans; [exact Hm|]. apply Hf. by eapply steps_ok.
Qed.
End programs.

Section engine.
Context {U : Unicode} {R : Regexp} {MO : MapOrder} {E : Engine}.
Lemma eng_world {A} (m : EM A) s : sv_world (eng m s).2 = (m (sv_world s)).2.
Proof. unfold eng, on_world, fail_err, refuse. by destruct (m (sv_world s)) as [[a|e|p|] w]. Qed.
Lemma htr_engine pw priv {A} (m : EM A) : permits pw priv = true -> etraces priv m any2 -> htr pw (eng m).
Proof.
  intros Hp Hm s Hs. rewrite eng_world. destruct (Hm _ Hs) as [H _]. clear Hs Hm.
  induction H as [|w1 w2 w3 H1 _ IH]; [done|]. eapply rtc_l; [exact (rs_engine pw w1 priv w2 Hp H1)|exact IH].
Qed.
(** Neither the store nor the cache changes. *)
Definition unmoved {A} (m : EM A) : Prop := forall w, still w (m w).2.
Lemma unmoved_bind {A B} (m : EM A) (f : A -> EM B) : unmoved m -> (forall a, unmoved (f a)) -> unmoved (m ≫= f).
Proof.
  intros Hm Hf w. specialize (Hm w). unfold mbind, ST_bind. destruct (m w) as [[a| | |] w']; cbn in *; [|done..].
  etrans; [exact Hm|apply Hf].
Qed.
Lemma unmoved_attempt {A} (m : EM A) : unmoved m -> unmoved (attempt m).
Proof. intros Hm w. specialize (Hm w). unfold attempt. by destruct (m w) as [[] w']. Qed.
Lemma htr_kept pw {A} (m : EM A) : unmoved m -> htr pw (eng m).
Proof. intros Hm s _. rewrite eng_world. by apply rtc_once, rs_quiet. Qed.
Lemma htr_get pw {A} (f : Memory -> A) : htr pw (eng (store_get f)). Proof. by apply htr_kept. Qed.
Lemma htr_tick pw : htr pw (eng tick). Proof. by apply htr_kept. Qed.
Lemma htr_wall pw : htr pw (eng wall). Proof. by apply htr_kept. Qed.
Lemma kept_eval src v : unmoved (attempt (expr_eval src v)).
Proof.
  apply unmoved_attempt. unfold expr_eval. apply unmoved_bind; [done|]. intros n w. unfold of_expr. by destruct (eval_src _ _ _).
Qed.
Lemma kept_found {A} (f : Memory -> option A) : unmoved (x ← store_get f; or_not_found x).
Proof. intros w. unfold or_not_found, mbind, ST_bind, store_get, gets. by destruct (f (w_store w)). Qed.
Lemma htr_blob_put f o : (forall m, f m = run_op o m) -> blob_op o = true -> htr Manages (eng (store_put f)).
Proof. intros Hf Ho s _. rewrite eng_world. cbn. rewrite Hf. by apply rtc_once, rs_blob. Qed.

(** An operation of the engine, by way of the interface [call]. *)
Lemma of_ignore priv {A} (m : EM A) : etraces priv (ignore m) any2 -> etraces priv m any2.
Proof.
  intros Hm w Hw. destruct (Hm w Hw) as [H _]. split; [|done]. revert H. unfold ignore, attempt, mbind, ST_bind.
  by destruct (m w) as [[] w'].
Qed.
End engine.

Create HintDb rest discriminated.
#[export] Hint Resolve htr_ret htr_stop htr_refuse htr_check htr_server htr_get htr_tick htr_wall : rest.
#[export] Hint Extern 1 (htr _ (answer _ _)) => apply htr_ret : rest.
#[export] Hint Extern 1 (htr _ no_content) => apply htr_ret : rest.
#[export] Hint Extern 1 (htr _ (fail_text _)) => apply htr_refuse : rest.
#[export] Hint Extern 1 (htr _ (eng (x ← store_get _; or_not_found x))) => apply htr_kept, kept_found : rest.
Ltac htr1 :=
  match goal with
  | |- forall _, _ => intros; cbv beta in *
  | |- htr _ (_ ≫= _) => apply htr_bind
  | |- htr _ (match ?x with _ => _ end) => destruct x eqn:?
  | |- htr _ (change _) => apply htr_change; done
  | |- htr _ _ => solve [eauto 3 with rest]
  end.
Ltac htr := repeat htr1.

(** ** Handlers *)
Section handlers.
Context {U : Unicode} {R : Regexp} {MO : MapOrder} {E : Engine} {A : AuthCodec} {AE : Aead} {FC : FormCodec}
  {DD : DmnDecoder} {RC : RestCodec} {HO : Host} (depth : nat).

Lemma htr_decode {T} pw (decode : string -> string + T) q : htr pw (decodeJSON decode q).
Proof. unfold decodeJSON. htr. Qed.
Lemma htr_call pw c {T} (m : EM T) :
  permits pw Ordinary = true -> privilege_of c = Ordinary -> run_call depth c = ignore m -> htr pw (eng m).
Proof. intros Hp Hc Hm. eapply htr_engine; [exact Hp|]. apply of_ignore. rewrite <- Hm. by apply e_run_call. Qed.
Lemma htr_done pw c status (m : EM unit) :
  permits pw Ordinary = true -> privilege_of c = Ordinary -> run_call depth c = ignore m -> htr pw (done status m).
Proof. intros. unfold done. apply htr_bind; [by eapply htr_call|]. htr. Qed.
Lemma htr_lock pw prefix s : htr pw (lock_duration prefix s).
Proof. unfold lock_duration. htr. Qed.
#[local] Hint Resolve htr_decode htr_lock : rest.

(** *** Readers *)
Definition reader (h : handler) : Prop := forall q, htr Reads (h q).
Lemma htr_page pw name : htr pw (page_text name).
Proof. unfold page_text. htr. Qed.
#[local] Hint Resolve htr_page : rest.
Lemma on_forms_world {T} (f : Forms.Registry -> T * Forms.Registry) pw :
  (forall r, rg_store (f r).2 = rg_store r) -> htr pw (on_forms f).
Proof.
  intros Hf s _. unfold on_forms. pose proof (Hf {| rg_store := w_store (sv_world s); rg_cache := default ∅ (sv_forms s) |}) as H.
  destruct (f _) as [x r]. cbn in *. rewrite H. by apply rtc_once, rs_quiet.
Qed.
Lemma forms_get_store key r : rg_store (Forms.Get key r).2 = rg_store r.
Proof. unfold Forms.Get. by repeat case_match. Qed.
Lemma htr_get_form pw key : htr pw (get_form key).
Proof. unfold get_form. apply htr_bind; [apply on_forms_world, forms_get_store|]. htr. Qed.
#[local] Hint Resolve htr_get_form : rest.
Lemma htr_get_task pw id : htr pw (eng (get_task id)). Proof. apply htr_kept, kept_found. Qed.
Lemma htr_get_instance pw id : htr pw (eng (get_instance id)). Proof. apply htr_kept, kept_found. Qed.
Lemma htr_get_definition pw q : htr pw (get_definition q). Proof. apply htr_kept, kept_found. Qed.
#[local] Hint Resolve htr_get_task htr_get_instance htr_get_definition : rest.

Lemma r_pages : reader handleHealth /\ reader handleStats /\ reader handleMetrics /\ reader handleOpenAPI /\ reader handleDocs /\ reader handleSSE.
Proof.
  split_and!; intros q; unfold handleHealth, handleStats, handleMetrics, handleOpenAPI, handleDocs, handleSSE; htr.
Qed.
Lemma r_definitions : reader handleListDefinitions /\ reader handleGetDefinition /\ reader handleGetDefinitionXML.
Proof. split_and!; intros q; unfold handleListDefinitions, handleGetDefinition, handleGetDefinitionXML; htr. Qed.
Lemma r_instances : reader handleListInstances /\ reader handleGetInstance /\ reader handleHistory /\ reader handleInstanceIncidents.
Proof. split_and!; intros q; unfold handleListInstances, handleGetInstance, handleHistory, handleInstanceIncidents; htr. Qed.
Lemma r_tasks : reader handleListTasks /\ reader handleGetTask /\ reader handleTaskForm.
Proof. split_and!; intros q; unfold handleListTasks, handleGetTask, handleTaskForm; htr. Qed.
Lemma r_lists : reader handleListAgentJobs /\ reader handleListIncidents /\ reader handleListDecisions /\ reader handleGetForm
  /\ reader handleListWebhooks /\ reader handleProcessAnalytics.
Proof.
  split_and!; intros q;
    unfold handleListAgentJobs, handleListIncidents, handleListDecisions, handleGetForm, handleListWebhooks, handleProcessAnalytics;
    cbv zeta; htr.
Qed.
Lemma r_forms : reader handleListForms.
Proof. intros q. unfold handleListForms. apply htr_bind; [by apply on_forms_world|]. htr. Qed.

(** *** Operators *)
Definition actor (pw : power) (h : handler) : Prop := forall q, htr pw (h q).
Ltac by_call c := first [eapply (htr_done _ c); [reflexivity|reflexivity|reflexivity]
                        |eapply (htr_call _ c); [reflexivity|reflexivity|reflexivity]].

Lemma a_start : actor Acts (handleStartInstance depth).
Proof.
  intros q. unfold handleStartInstance. apply htr_bind; [apply htr_decode|]. intros req. cbv zeta.
  apply htr_bind; [|htr]. destruct (negb _); [by_call (StartByDefinition (sr_id req) (sr_bkey req) (traced q (sr_vars req)))|].
  destruct (negb _); [by_call (Start (tenantOf (q_req q)) (sr_key req) (sr_bkey req) (traced q (sr_vars req)))|htr].
Qed.
Lemma a_instances : actor Acts (handleCancelInstance depth) /\ actor Acts (handleSetVariables depth)
  /\ actor Acts handleSuspendInstance /\ actor Acts (handleResumeInstance depth) /\ actor Acts (handleResolveIncident depth).
Proof.
  split_and!; intros q.
  - unfold handleCancelInstance. cbv zeta.
    by_call (CancelInstance (path_value "id" q) (if String.eqb (qget "reason" q) "" then "cancelled via API" else qget "reason" q)).
  - unfold handleSetVariables. apply htr_bind; [apply htr_decode|]. intros v. by_call (SetVariables (path_value "id" q) v).
  - by_call (SuspendInstance (path_value "id" q)).
  - by_call (ResumeInstance (path_value "id" q)).
  - by_call (ResolveIncident (path_value "id" q)).
Qed.
Lemma a_tasks : actor Acts (handleClaimTask depth) /\ actor Acts (handleCompleteTask depth).
Proof.
  split; intros q; [unfold handleClaimTask|unfold handleCompleteTask]; (apply htr_bind; [apply htr_decode|]); intros req.
  - by_call (ClaimTask (path_value "id" q) (tr_user req)).
  - by_call (CompleteTask (path_value "id" q) (tr_vars req) (tr_user req)).
Qed.
Lemma a_events : actor Acts (handleMessage depth) /\ actor Acts (handleSignal depth).
Proof.
  split; intros q; [unfold handleMessage|unfold handleSignal];
    (apply htr_bind; [apply htr_decode|]; intros req; apply htr_bind; [apply htr_check|]; intros []; apply htr_bind; [|htr]).
  - by_call (CorrelateMessage (mq_name req) (mq_ckey req) (mq_vars req)).
  - by_call (BroadcastSignal (mq_name req) (mq_vars req)).
Qed.
Lemma a_externals : actor Acts handleFetchExternal /\ actor Acts (handleCompleteExternal depth) /\ actor Acts (handleFailExternal depth).
Proof.
  split_and!; intros q; [unfold handleFetchExternal|unfold handleCompleteExternal|unfold handleFailExternal];
    (apply htr_bind; [apply htr_decode|]); intros req.
  - apply htr_bind; [apply htr_check|]. intros []. apply htr_bind; [apply htr_lock|]. intros lock. apply htr_bind; [|htr].
    by_call (FetchExternalTasks (fr_topic req) (fr_worker req) lock (if fr_max req <=? 0 then 10 else fr_max req)).
  - by_call (CompleteExternalTask (path_value "id" q) (xr_worker req) (xr_vars req)).
  - by_call (FailExternalTask (path_value "id" q) (xr_worker req) (xr_message req) (xr_code req)).
Qed.
Lemma a_agents : actor Acts handleFetchAgentJobs /\ actor Acts (handleCompleteAgentJob depth) /\ actor Acts (handleFailAgentJob depth).
Proof.
  split_and!; intros q; [unfold handleFetchAgentJobs|unfold handleCompleteAgentJob|unfold handleFailAgentJob];
    (apply htr_bind; [apply htr_decode|]); intros req.
  - apply htr_bind; [apply htr_check|]. intros []. apply htr_bind; [apply htr_lock|]. intros lock. apply htr_bind; [|htr].
    by_call (FetchAgentJobs (fr_topic req) (fr_worker req) lock (if fr_max req <=? 0 then 5 else fr_max req)).
  - by_call (CompleteAgentJob (path_value "id" q) (cr_worker req) (cr_output req) (cr_text req) (cr_calls req) (cr_usage req)).
  - by_call (FailAgentJob (path_value "id" q) (fa_worker req) (fa_message req) (fa_code req)).
Qed.
Lemma e_batch apply_ ids : (forall id, etraces Ordinary (apply_ id) any2) -> etraces Ordinary (run_batch apply_ ids) any2.
Proof.
  intros Ha. induction ids as [|id ids IH]; cbn [run_batch]; etr.
Qed.
Lemma of_call c {T} (m : EM T) : privilege_of c = Ordinary -> run_call depth c = ignore m -> etraces Ordinary m any2.
Proof. intros Hc Hm. apply of_ignore. rewrite <- Hm. by apply e_run_call. Qed.
Lemma batch_op_traces op reason f id : batch_op depth op reason = Some f -> etraces Ordinary (f id) any2.
Proof.
  unfold batch_op. repeat (destruct (String.eqb op _)); intros [= <-].
  - by apply (of_call (CancelInstance id (if String.eqb reason "" then "batch cancel" else reason))).
  - by apply (of_call (SuspendInstance id)).
  - by apply (of_call (ResumeInstance id)).
  - by apply (of_call (ResolveIncident id)).
Qed.
Lemma a_batch : actor Acts (handleBatch depth).
Proof.
  intros q. unfold handleBatch. cbv zeta. apply htr_bind; [apply htr_decode|]. intros req.
  apply htr_bind; [apply htr_check|]. intros []. apply htr_bind; [apply htr_check|]. intros [].
  destruct (batch_op _ _ _) as [f|] eqn:Ef; [|htr]. apply htr_bind; [|htr].
  apply (htr_engine _ Ordinary); [done|]. apply e_batch. intros id. by eapply batch_op_traces.
Qed.

(** *** Webhook events *)
Lemma htr_eval pw src v : htr pw (eng (attempt (expr_eval src v))).
Proof. apply htr_kept, kept_eval. Qed.
#[local] Hint Resolve htr_eval : rest.
Lemma htr_eval_payload pw what src payload : htr pw (eval_payload what src payload).
Proof. unfold eval_payload. htr. Qed.
#[local] Hint Resolve htr_eval_payload : rest.
Lemma htr_eval_vars pw l payload acc : htr pw (eval_vars l payload acc).
Proof. revert acc. induction l as [|[name src] l IH]; intros acc; cbn [eval_vars]; htr; apply IH. Qed.
Lemma htr_seen pw key : htr pw (seen_before key).
Proof. unfold seen_before. apply htr_bind; [htr|]. intros now. apply htr_bind; [htr|]. intros d. destruct (remember _ _ _). htr. Qed.
Lemma htr_deliver ch payload : htr Acts (deliver_event depth ch payload).
Proof.
  unfold deliver_event. apply htr_bind; [htr|]. intros ckey. apply htr_bind; [htr; apply htr_eval_vars|]. intros v.
  apply htr_bind; [|htr]. destruct (String.eqb _ _).
  - by_call (BroadcastSignal (wc_event ch) v).
  - by_call (CorrelateMessage (wc_event ch) ckey v).
Qed.
Lemma a_webhook : actor Acts (handleWebhookEvent depth).
Proof.
  intros q. unfold handleWebhookEvent. cbv zeta. apply htr_bind; [htr|]. intros [b|]; [|htr].
  destruct (unmarshal_channel _) as [|ch]; [htr|]. apply htr_bind; [htr|]. intros []. destruct (if _ : bool then _ else _) as [|payload]; [htr|].
  unfold receive_event. apply htr_bind; [unfold dedupe_key; cbv zeta; htr|]. intros key.
  apply htr_bind; [destruct (String.eqb _ _); [htr|apply htr_seen]|]. intros []; [htr|apply htr_deliver].
Qed.

(** *** Administrators *)
Lemma m_deploy : actor Manages handleDeploy /\ actor Manages handleMigrateInstance.
Proof.
  split; intros q.
  - unfold handleDeploy. cbv zeta. apply htr_bind; [htr|]. intros []. apply htr_bind; [|htr].
    by_call (Deploy (tenantOf (q_req q)) (read_all max_json q) (qget "name" q)).
  - unfold handleMigrateInstance. apply htr_bind; [apply htr_decode|]. intros plan. apply htr_bind; [|htr].
    apply (htr_engine _ Migrating); [done|apply e_migrate].
Qed.
Lemma m_decision : actor Manages handleDeployDecision.
Proof.
  intros q. unfold handleDeployDecision. apply htr_bind; [htr|]. intros [reg|]; [|htr]. cbv zeta.
  apply htr_bind; [htr|]. intros []. destruct (RegisterXML _ _). apply htr_bind; [htr|]. intros []. htr.
Qed.
Lemma m_secrets v : actor Manages handleListSecrets /\ actor Manages (handlePutSecret v)
  /\ actor Manages (handleGetSecretValue v) /\ actor Manages handleDeleteSecret.
Proof.
  split_and!; intros q; unfold handleListSecrets, handlePutSecret, handleGetSecretValue, handleDeleteSecret.
  - htr.
  - apply htr_bind; [apply htr_decode|]. intros secret. apply htr_bind; [htr|]. intros n. apply htr_bind; [htr|]. intros now.
    apply htr_bind; [|htr]. intros s _. rewrite eng_world. unfold store_call.
    destruct (Set_ _ _ _ _ _ _) as [r m] eqn:Es. cbn. unfold Set_ in Es.
    destruct (String.eqb _ _); [simplify_eq; by apply rtc_once, rs_quiet|].
    destruct (h_random n nonce_size) as [|nonce]; simplify_eq; [by apply rtc_once, rs_quiet|].
    apply rtc_once. by apply (rs_blob _ _ (OPutBlob _)).
  - htr.
  - apply htr_bind; [|htr]. by apply (htr_blob_put _ (ODeleteBlob Vault.BlobKind (path_value "name" q))).
Qed.
Lemma m_forms : actor Manages handleDeployForm /\ actor Manages handleDeleteForm.
Proof.
  split; intros q; unfold handleDeployForm, handleDeleteForm.
  - apply htr_bind; [htr|]. intros now. apply htr_bind; [|htr]. intros s _. unfold on_forms.
    destruct (Forms.Deploy _ _ _) as [r reg] eqn:Ed. cbn. unfold Forms.Deploy in Ed.
    repeat case_match; simplify_eq; cbn; try (by apply rtc_once, rs_quiet).
    apply rtc_once. by apply (rs_blob _ _ (OPutBlob _)).
  - apply htr_bind; [|htr]. intros s _. unfold on_forms. cbn.
    apply rtc_once. by apply (rs_blob _ _ (ODeleteBlob Forms.BlobKind (path_value "key" q))).
Qed.
Lemma m_webhooks : actor Manages handlePutWebhook /\ actor Manages handleDeleteWebhook.
Proof.
  split; intros q; unfold handlePutWebhook, handleDeleteWebhook.
  - apply htr_bind; [apply htr_decode|]. intros ch. apply htr_bind; [htr|]. intros []. cbv zeta.
    apply htr_bind; [htr|]. intros []. apply htr_bind; [htr|]. intros now. apply htr_bind; [|htr].
    set (b := {| bl_kind := _ |}). by apply (htr_blob_put _ (OPutBlob b)).
  - apply htr_bind; [|htr]. by apply (htr_blob_put _ (ODeleteBlob webhookBlobKind (path_value "name" q))).
Qed.

(** ** The table of routes *)
Definition route_ok (ro : route) : Prop :=
  match ro_role ro with
  | None => actor Acts (ro_handler ro) /\ ro_pattern ro ∈ ["/healthz"; "/openapi.json"; "/docs"]
            \/ actor Acts (ro_handler ro) /\ ro_method ro = "POST" /\ ro_pattern ro = "/v1/webhooks/{name}"
  | Some min => exists h pw, ro_handler ro = guard min h /\ role_of pw = min /\ actor pw h
  end.
Lemma reader_actor pw h : reader h -> actor pw h.
Proof. intros Hr q s Hs. by apply steps_more, Hr. Qed.
Lemma guarded_ok method pattern pw h : actor pw h -> route_ok (guarded method pattern (role_of pw) h).
Proof. intros Ha. by exists h, pw. Qed.

Ltac routes_list := repeat first [apply Forall_nil_2|apply Forall_cons_2].
Lemma routes_ok s : Forall route_ok (routes depth s).
Proof.
  pose proof r_pages as (? & ? & ? & ? & ? & ?). pose proof r_definitions as (? & ? & ?).
  pose proof r_instances as (? & ? & ? & ?). pose proof r_tasks as (? & ? & ?). pose proof r_lists as (? & ? & ? & ? & ? & ?).
  pose proof r_forms. pose proof a_start. pose proof a_instances as (? & ? & ? & ? & ?). pose proof a_tasks as (? & ?).
  pose proof a_events as (? & ?). pose proof a_externals as (? & ? & ?). pose proof a_agents as (? & ? & ?).
  pose proof a_batch. pose proof a_webhook. pose proof m_deploy as (? & ?). pose proof m_decision.
  pose proof m_forms as (? & ?). pose proof m_webhooks as (? & ?).
  unfold routes. rewrite !Forall_app. split_and!.
  - unfold core_routes. routes_list; try (left; split; [by apply reader_actor|]; cbn; set_solver);
      first [by apply (guarded_ok _ _ Reads)|by apply (guarded_ok _ _ Acts)|by apply (guarded_ok _ _ Manages)].
  - unfold agent_routes. routes_list; first [by apply (guarded_ok _ _ Reads)|by apply (guarded_ok _ _ Acts)].
  - unfold vault_routes. destruct (sv_vault s) as [v|]; [|constructor]. pose proof (m_secrets v) as (? & ? & ? & ?).
    routes_list; by apply (guarded_ok _ _ Manages).
  - unfold form_routes. destruct (negb _); [constructor|].
    routes_list; first [by apply (guarded_ok _ _ Reads)|by apply (guarded_ok _ _ Manages)].
  - unfold webhook_routes. routes_list; first [by apply (guarded_ok _ _ Reads)|by apply (guarded_ok _ _ Manages)|by right].
  - routes_list; by apply (guarded_ok _ _ Reads).
Qed.

Lemma find_route_some method path l ro m : find_route method path l = Some (ro, m) -> ro ∈ l /\ route_match method path ro = Some m.
Proof.
  induction l as [|r l IH]; cbn; [done|]. destruct (route_match method path r) eqn:Er.
  - intros [= <- <-]. split; [set_solver|done].
  - intros H. destruct (IH H). split; [set_solver|done].
Qed.
Lemma match_three l m : match_segments ["v1"; "webhooks"; "{name}"] l = Some m ->
  exists c, l = ["v1"; "webhooks"; c] /\ String.eqb c "" = false.
Proof.
  destruct l as [|a l]; [done|]. cbn [match_segments]. change (wildcard "v1") with (@None string). cbv iota.
  destruct (String.eqb_spec "v1" a) as [<-|]; [|done]. destruct l as [|b l]; [done|].
  cbn [match_segments]. change (wildcard "webhooks") with (@None string). cbv iota.
  destruct (String.eqb_spec "webhooks" b) as [<-|]; [|done]. destruct l as [|c l]; [done|].
  cbn [match_segments]. change (wildcard "{name}") with (Some "name"). cbv iota.
  destruct (String.eqb c "") eqn:Ec; [done|]. destruct l; [|done]. intros _. by exists c.
Qed.
(** No two patterns of a method overlap, so that the order of the table does
    not matter ([net/http] refuses such patterns). *)
Fixpoint unambiguous (l : list (string * string)) : bool :=
  match l with
  | [] => true
  | x :: l => forallb (fun y => negb (String.eqb x.1 y.1 && overlap (segments x.2) (segments y.2))) l && unambiguous l
  end.
Lemma routes_unambiguous s : unambiguous (map (fun r => (ro_method r, ro_pattern r)) (routes depth s)) = true.
Proof. unfold routes. destruct (sv_vault s), (sv_forms s); vm_compute; reflexivity. Qed.
(** A route without a role is only reached by a public request. *)
Lemma open_is_public r ro m :
  route_ok ro -> ro_role ro = None -> route_match (hr_method r) (hr_path r) ro = Some m -> publicRequest r = true.
Proof.
  intros Hok Hr Hm. unfold route_ok in Hok. rewrite Hr in Hok. unfold route_match in Hm.
  destruct (match_method _ _) eqn:Ee; [|done]. unfold publicRequest.
  destruct Hok as [[_ Hp]|(_ & Em & Ep)].
  - assert (publicPath (hr_path r) = true) as ->; [|done].
    rewrite !elem_of_cons, elem_of_nil in Hp. destruct Hp as [Hp|[Hp|[Hp|[]]]]; rewrite Hp in Hm;
      (apply match_literal in Hm; [|reflexivity]); apply segments_path in Hm as [-> _]; done.
  - rewrite Em in Ee. rewrite Ep in Hm. unfold match_method in Ee.
    change (String.eqb "POST" "GET") with false in Ee. rewrite andb_false_l, orb_false_r in Ee.
    apply String.eqb_eq in Ee. rewrite <- Ee. rewrite String.eqb_refl, andb_true_l. apply orb_true_intro. right.
    change (segments "/v1/webhooks/{name}") with ["v1"; "webhooks"; "{name}"] in Hm.
    destruct (match_three _ m Hm) as (c & Hl & Hc).
    apply segments_path in Hl as [-> Hall]; [|done].
    change (strip_prefix "/v1/webhooks/" ("/" ++ sjoin "/" ["v1"; "webhooks"; c])) with (Some c). cbv beta iota. rewrite Hc.
    rewrite !Forall_cons in Hall. destruct Hall as (_ & _ & Hn & _). by rewrite has_no_contains.
Qed.

(** ** Requests *)

(** Only the count of calls and the caches of the authenticators differ. *)
Definition quiet (s s' : Server) : Prop :=
  exists n auth, s' = set_sv_auth auth (set_sv_world (set_w_tick n (sv_world s)) s) /\ length auth = length (sv_auth s).
Lemma quiet_refl s : quiet s s.
Proof. exists (w_tick (sv_world s)), (sv_auth s). destruct s as [[]]. by split. Qed.
Lemma quiet_trans a b c : quiet a b -> quiet b c -> quiet a c.
Proof. intros (n & x & -> & Hx) (k & y & -> & Hy). exists k, y. split; [done|]. cbn in Hy. congruence. Qed.
Lemma quiet_world s : quiet s (set_sv_world (sv_world s) s).
Proof. exists (w_tick (sv_world s)), (sv_auth s). destruct s as [[]]. by split. Qed.
Lemma quiet_steps pw s s' : quiet s s' -> rtc (request_step pw) (sv_world s) (sv_world s').
Proof. intros (n & auth & -> & _). apply rtc_once, rs_quiet. done. Qed.
Lemma quiet_store s s' : quiet s s' -> w_store (sv_world s') = w_store (sv_world s).
Proof. by intros (n & auth & -> & _). Qed.
Lemma quiet_required s s' : quiet s s' -> authRequired s' = authRequired s.
Proof. intros (n & auth & -> & Hl). unfold authRequired. cbn. by destruct auth, (sv_auth s). Qed.
Lemma quiet_routes s s' : quiet s s' -> routes depth s' = routes depth s.
Proof. by intros (n & auth & -> & _). Qed.

Lemma trace_quiet r s : exists tr s', ensureTrace r s = (Ok tr, s') /\ quiet s s' /\ sv_auth s' = sv_auth s.
Proof.
  unfold ensureTrace. destruct (is_traceparent _); [do 2 eexists; split_and!; [done|apply quiet_refl|done]|].
  do 2 eexists. split_and!; [reflexivity| |done]. exists (S (S (w_tick (sv_world s)))), (sv_auth s). split; [by destruct s as [[]]|done].
Qed.
Lemma chain_length as_ r ts p as' : chain_auth as_ r ts = (p, as') -> length as' = length as_.
Proof.
  revert ts p as'. induction as_ as [|a as_ IH]; intros ts p as'; cbn; [by intros [= _ <-]|].
  destruct (authenticate a r (ts 0%nat)) as [[[x|]| | |] a'] eqn:Ea; try (intros [= _ <-]; done).
  destruct (chain_auth as_ r _) as [p' rest] eqn:Ec. intros [= _ <-]. cbn. f_equal. by eapply IH.
Qed.

(** *** The stages of [serve_http] *)
Definition finish (hs : list (string * string)) (x : res response response * Server) : res response response * Server :=
  (match x.1 with Ok r => Ok (with_headers hs r) | y => y end, x.2).
Lemma serve_stages r s : exists tr s1 hs, quiet s s1 /\ sv_auth s1 = sv_auth s /\
  ((exists res, serve_http depth r s = (Ok res, s1) /\ rp_code res = 204) \/
   serve_http depth r s = finish hs (recovered (handle_request depth tr r) s1)).
Proof.
  destruct (trace_quiet r s) as (tr & s1 & Ht & Hq & Ha). unfold serve_http, server, mbind, H_bind. rewrite Ht. cbv beta iota.
  destruct (match sv_cors s1 with Some c => _ | None => _ end) as [hs pre].
  exists tr, s1, (("X-Trace-Id", ti_id tr) :: hs). split_and!; [done..|]. destruct pre; [left; by eexists|right].
  unfold finish. by destruct (recovered _ s1) as [[]].
Qed.
Definition stopped {T} (out : res response T) : Prop :=
  match out with Ok _ => False | Err e => rp_code e = 401 | _ => True end.
Lemma resolve_stage r s : exists p ts as', chain_auth (sv_auth s) r ts = (p, as') /\
  let s' := set_sv_auth as' (set_sv_world (set_w_tick (S (w_tick (sv_world s))) (sv_world s)) s) in
  resolve_principal r s = (Ok p, s') /\ quiet s s'.
Proof.
  destruct (chain_auth (sv_auth s) r (h_moments (w_tick (sv_world s)))) as [p as'] eqn:Ec.
  exists p, (h_moments (w_tick (sv_world s))), as'. split; [done|]. split.
  - unfold resolve_principal, eng, on_world, tick, server, change, mbind, H_bind. cbn -[chain_auth]. by rewrite Ec.
  - exists (S (w_tick (sv_world s))), as'. split; [done|by eapply chain_length].
Qed.
Lemma auth_stage r s : authRequired s = true -> publicRequest r = false -> exists s', quiet s s' /\
  ((exists p ts, (chain_auth (sv_auth s) r ts).1 = Ok (Some p) /\ authenticated r s = (Ok (confine r p, Some p), s')) \/
   (exists out, authenticated r s = (out, s') /\ stopped out)).
Proof.
  intros Hreq Hpub. destruct (resolve_stage r s) as (p & ts & as' & Ec & Hr & Hq). eexists. split; [exact Hq|].
  unfold authenticated, server, mbind, H_bind. rewrite Hreq, Hpub. cbv beta iota delta [negb orb]. rewrite Hr.
  destruct p as [[p|]| | |]; [left|right..]; [exists p, ts; by rewrite Ec| | | |]; (eexists; split; [reflexivity|done]).
Qed.
Lemma auth_open r s : authRequired s = false \/ publicRequest r = true -> authenticated r s = (Ok (r, None), s).
Proof. intros Ho. unfold authenticated, mbind, H_bind, server. by destruct Ho as [-> | ->]; [|rewrite orb_true_r]. Qed.
Lemma mux_stage q s :
  (exists res, serve_mux depth q s = (Ok res, s) /\ rp_code res ∈ [301; 404; 405]) \/
  (exists ro m, find_route (hr_method (q_req q)) (hr_path (q_req q)) (routes depth s) = Some (ro, m) /\
    serve_mux depth q s = ro_handler ro (with_path m q) s).
Proof.
  unfold serve_mux, mbind, H_bind, server. destruct (_ && _).
  { left. eexists. split; [reflexivity|]. cbn. set_solver. }
  destruct (find_route _ _ _) as [[ro m]|]; [right; by exists ro, m|]. left.
  destruct (methods_of _ _); (eexists; split; [reflexivity|]; cbn; set_solver).
Qed.
Lemma recovered_eq (m m' : H response) s s' : m s = m' s' -> recovered m s = recovered m' s'.
Proof. intros Hm. unfold recovered. by rewrite Hm. Qed.
Lemma recovered_world (m : H response) s : sv_world (recovered m s).2 = sv_world (m s).2.
Proof. unfold recovered. by destruct (m s) as [[]]. Qed.

(** The codes of answers that no handler gave. *)
Definition own_codes : list Z := [204; 301; 401; 403; 404; 405; 500].
Definition unserved (s : Server) (x : res response response * Server) : Prop :=
  quiet s x.2 /\ match x.1 with Ok res => rp_code res ∈ own_codes | Err _ => False | _ => True end.
(** The handler of a route, run for a caller whose role suffices. *)
Definition served (r : Request) (s : Server) (x : res response response * Server) : Prop :=
  exists p ts ro m min h q s1 hs,
    (chain_auth (sv_auth s) r ts).1 = Ok (Some p) /\
    find_route (hr_method r) (hr_path r) (routes depth s) = Some (ro, m) /\
    ro_role ro = Some min /\ has p min = true /\ ro_handler ro = guard min h /\
    q_req q = confine r p /\ q_principal q = Some p /\ q_path q = m /\ quiet s s1 /\ x = finish hs (recovered (h q) s1).

Lemma guard_stage min h q s : authRequired s = true ->
  (exists p, q_principal q = Some p /\ has p min = true /\ guard min h q s = h q s) \/
  (exists e, guard min h q s = (Err e, s) /\ rp_code e ∈ [401; 403] /\ forall p, q_principal q = Some p -> has p min = false).
Proof.
  intros Hreq. unfold guard, mbind, H_bind, server. rewrite Hreq. cbn. destruct (q_principal q) as [p|].
  - destruct (has p min) eqn:Hp; [left; by exists p|right]. eexists. split_and!; [done|cbn; set_solver|by intros ? [= <-]].
  - right. eexists. split_and!; [done|cbn; set_solver|done].
Qed.

(** C9: when the server has an authenticator, a request that is not public
    reaches a handler only for an authenticated caller who has the role of the
    route, and with the tenant of the caller in the place of the one the request
    names; every other request gets an answer of the server itself and changes
    nothing but the caches of the authenticators. *)
Theorem serve_guarded r s :
  authRequired s = true -> publicRequest r = false ->
  unserved s (serve_http depth r s) \/ served r s (serve_http depth r s).
Proof.
  intros Hreq Hpub. destruct (serve_stages r s) as (tr & s1 & hs & Hq1 & Ha1 & [(res & -> & Hc)| ->]).
  { left. split; [done|]. cbn. rewrite Hc. set_solver. }
  rewrite <- (quiet_required _ _ Hq1) in Hreq. destruct (auth_stage r s1 Hreq Hpub) as (s2 & Hq2 & Hcases).
  assert (quiet s s2) as Hq by by eapply quiet_trans.
  destruct Hcases as [(p & ts & Hp & Hauth)|(out & Hauth & Hout)].
  2:{ left. unfold handle_request, recovered, mbind, H_bind. rewrite Hauth.
      destruct out as [|e| |]; cbn in *; (split; [done|]); cbn; rewrite ?Hout; try done; set_solver. }
  set (q0 := {| q_req := confine r p; q_trace := tr; q_principal := Some p; q_path := [] |}).
  assert (handle_request depth tr r s1 = serve_mux depth q0 s2) as Hh by (unfold handle_request, mbind, H_bind; by rewrite Hauth).
  rewrite (recovered_eq _ _ _ _ Hh). destruct (mux_stage q0 s2) as [(res & Hm & Hc)|(ro & m & Hf & Hm)].
  { left. unfold recovered. rewrite Hm. split; [done|]. cbn. unfold own_codes. set_solver. }
  rewrite (quiet_routes _ _ Hq) in Hf. cbn [q0 q_req] in Hf.
  assert (hr_method (confine r p) = hr_method r /\ hr_path (confine r p) = hr_path r) as [E1 E2].
  { unfold confine. by destruct (String.eqb _ _). }
  rewrite E1, E2 in Hf. destruct (find_route_some _ _ _ _ _ Hf) as [Hin Hmatch].
  pose proof (proj1 (Forall_forall _ _) (routes_ok s) ro Hin) as Hok.
  destruct (ro_role ro) as [min|] eqn:Er; [|by rewrite (open_is_public r ro m Hok Er Hmatch) in Hpub].
  unfold route_ok in Hok. rewrite Er in Hok. destruct Hok as (h & pw & Hh' & _).
  rewrite <- (quiet_required _ _ Hq2) in Hreq. rewrite Hh' in Hm.
  destruct (guard_stage min h (with_path m q0) s2 Hreq) as [(p' & [= <-] & Hhas & Hg)|(e & Hg & Hc & _)].
  - right. exists p, ts, ro, m, min, h, (with_path m q0), s2, hs. rewrite <- Ha1. split_and!; try done.
    rewrite (recovered_eq _ (h (with_path m q0)) s2 s2); [done|]. by rewrite Hm.
  - left. unfold recovered. rewrite Hm, Hg. split; [done|]. cbn. unfold own_codes. set_solver.
Qed.

(** *** What requests do to the world *)
Lemma confine_public r p : publicRequest (confine r p) = publicRequest r.
Proof. unfold confine. by destruct (String.eqb _ _). Qed.
Definition empowered (pw : power) (q : rq) (s : Server) : Prop :=
  pw = Reads \/ authRequired s = false \/ (pw = Acts /\ publicRequest (q_req q) = true) \/
  exists p, q_principal q = Some p /\ has p (role_of pw) = true.
Lemma mux_steps q s : store_ok (w_store (sv_world s)) ->
  exists pw, rtc (request_step pw) (sv_world s) (sv_world (serve_mux depth q s).2) /\ empowered pw q s.
Proof.
  intros Hok. destruct (mux_stage q s) as [(res & -> & _)|(ro & m & Hf & ->)]; [exists Reads; split; [done|by left]|].
  destruct (find_route_some _ _ _ _ _ Hf) as [Hin Hm].
  pose proof (proj1 (Forall_forall _ _) (routes_ok s) ro Hin) as Hro.
  destruct (ro_role ro) as [min|] eqn:Er; unfold route_ok in Hro; rewrite Er in Hro.
  - destruct Hro as (h & pw & -> & <- & Ha). destruct (authRequired s) eqn:Hreq.
    + destruct (guard_stage (role_of pw) h (with_path m q) s Hreq) as [(p & Hp & Hhas & ->)|(e & -> & _)].
      * exists pw. split; [by apply Ha|]. right; right; right. by exists p.
      * exists Reads. split; [done|by left].
    + exists pw. unfold guard, mbind, H_bind, server. rewrite Hreq. split; [by apply Ha|]. right. by left.
  - exists Acts. split; [by destruct Hro as [[Ha _]|[Ha _]]; apply Ha|]. right; right; left. split; [done|].
    apply (open_is_public (q_req q) ro m); [unfold route_ok; by rewrite Er|done|done].
Qed.
(** The caller's power in a request: the principal comes from the chain. *)
Definition authorised (pw : power) (r : Request) (s : Server) : Prop :=
  pw = Reads \/ authRequired s = false \/ (pw = Acts /\ publicRequest r = true) \/
  exists p ts, (chain_auth (sv_auth s) r ts).1 = Ok (Some p) /\ has p (role_of pw) = true.
Lemma serve_steps r s : store_ok (w_store (sv_world s)) ->
  exists pw, rtc (request_step pw) (sv_world s) (sv_world (serve_http depth r s).2) /\ authorised pw r s.
Proof.
  intros Hok. destruct (serve_stages r s) as (tr & s1 & hs & Hq1 & Ha1 & [(res & -> & _)| ->]).
  { exists Reads. split; [by apply quiet_steps|by left]. }
  cbn [finish snd]. rewrite recovered_world.
  assert (forall q s2 pw, quiet s s2 -> rtc (request_step pw) (sv_world s2) (sv_world (serve_mux depth q s2).2) ->
    rtc (request_step pw) (sv_world s) (sv_world (serve_mux depth q s2).2)) as Htrans.
  { intros q s2 pw Hq H. etrans; [by apply quiet_steps|exact H]. }
  assert (forall s2, quiet s s2 -> store_ok (w_store (sv_world s2))) as Hkeep by (intros s2 Hq; by rewrite (quiet_store _ _ Hq)).
  destruct (decide (authRequired s1 = false \/ publicRequest r = true)) as [Ho|Hno].
  - unfold handle_request, mbind, H_bind. rewrite (auth_open r s1 Ho).
    set (q := {| q_req := r; q_trace := tr; q_principal := None; q_path := [] |}).
    destruct (mux_steps q s1 (Hkeep s1 Hq1)) as (pw & Hs & He). exists pw. split; [by apply Htrans|].
    destruct He as [->|[He|[He|(p & [=] & _)]]]; [by left|right; left; by rewrite <- (quiet_required _ _ Hq1)|by right; right; left].
  - assert (authRequired s1 = true) as Hreq by (destruct (authRequired s1); naive_solver).
    assert (publicRequest r = false) as Hpub by (destruct (publicRequest r); naive_solver).
    destruct (auth_stage r s1 Hreq Hpub) as (s2 & Hq2 & Hc). assert (quiet s s2) as Hq by by eapply quiet_trans.
    unfold handle_request, mbind, H_bind. destruct Hc as [(p & ts & Hp & ->)|(out & -> & Hout)].
    2:{ exists Reads. split; [|by left]. destruct out; try done; by apply quiet_steps. }
    set (q := {| q_req := confine r p; q_trace := tr; q_principal := Some p; q_path := [] |}).
    destruct (mux_steps q s2 (Hkeep s2 Hq)) as (pw & Hs & He). exists pw. split; [by apply Htrans|].
    rewrite Ha1 in Hp. destruct He as [->|[He|[[-> He]|(p' & [= <-] & He)]]]; [by left| | |].
    + rewrite (quiet_required _ _ Hq2), Hreq in He. done.
    + cbn in He. by rewrite confine_public, Hpub in He.
    + right; right; right. by exists p, ts.
Qed.

(** C7: a request moves the world by allowed transitions only, and only as
    far as its caller goes: blobs and migrations need an administrator, the
    calls of the engine an operator or the event of a webhook, and nobody
    purges; for anybody else the store stays as it is. *)
Theorem requests_refine r s : store_ok (w_store (sv_world s)) ->
  let s' := (serve_http depth r s).2 in
  exists pw, rtc (request_step pw) (sv_world s) (sv_world s') /\ authorised pw r s /\
    (pw = Reads -> w_store (sv_world s') = w_store (sv_world s)).
Proof.
  intros Hok s'. destruct (serve_steps r s Hok) as (pw & Hs & Ha). exists pw. split_and!; [done..|].
  intros ->. by apply reads_nothing.
Qed.

Lemma serve_all_steps rs s : store_ok (w_store (sv_world s)) ->
  store_ok (w_store (sv_world (serve_all depth rs s))) /\
  forall id, hist_of id (w_store (sv_world s)) `prefix_of` hist_of id (w_store (sv_world (serve_all depth rs s))).
Proof.
  revert s. unfold serve_all. induction rs as [|r rs IH]; intros s Hok; cbn [fold_left]; [by split|].
  destruct (serve_steps r s Hok) as (pw & Hs & _).
  destruct (IH (serve_http depth r s).2) as [H1 H2]; [by eapply steps_ok|]. split; [done|].
  intros id. etrans; [by eapply steps_history|apply H2].
Qed.
(** C8: whatever requests come, from whomever, the invariant of the store
    holds and the audit trail of every instance only grows. *)
Theorem requests_keep_invariant rs s id :
  store_ok (w_store (sv_world s)) ->
  store_ok (w_store (sv_world (serve_all depth rs s))) /\
  hist_of id (w_store (sv_world s)) `prefix_of` hist_of id (w_store (sv_world (serve_all depth rs s))).
Proof. intros Hok. destruct (serve_all_steps rs s Hok). by split. Qed.
End handlers.

(** ** On a concrete server *)
Definition start_request (token : string) : Request := request token "POST" "/v1/instances" "start".
Lemma serve_guarded_witness :
  unserved acme_server (serve_http 5 (start_request "view") acme_server) \/
  served 5 (start_request "view") acme_server (serve_http 5 (start_request "view") acme_server).
Proof. apply serve_guarded; reflexivity. Defined.
Lemma requests_refine_witness :
  let s' := (serve_http 5 (start_request "view") acme_server).2 in
  store_ok (w_store (sv_world acme_server)) /\
  exists pw, rtc (request_step pw) (sv_world acme_server) (sv_world s') /\ authorised pw (start_request "view") acme_server.
Proof.
  intros s'. split; [exact acme_ok|]. destruct (requests_refine 5 (start_request "view") acme_server acme_ok) as (pw & H1 & H2 & _).
  by exists pw.
Defined.
Lemma requests_keep_invariant_witness :
  store_ok (w_store (sv_world acme_server)) /\
  store_ok (w_store (sv_world (serve_all 5 [start_request "act"; start_request "view"] acme_server))).
Proof. split; [exact acme_ok|]. apply (requests_keep_invariant 5 _ acme_server "" acme_ok). Defined.
