(* ===== verification/RestTenants.v ===== *)
(** * Tenants

    What a caller of one tenant sees: the lists of instances and of tasks are
    confined to the tenant, whatever the request says; a record asked for by its
    identifier is not. *)
From Stdlib Require Import Ascii.
From S2P Require Import Prelude GoFloat GoUtf8 GoTime ExprValue ExprFuncs ExprEval StoreTypes StoreQuery StoreMemory Vault EngineBase EngineApi EngineSamples EngineMigrate DmnParser Forms RestAuth RestTypes Rest EngineSafety EngineCalls RestSamples RestSafety.
Local Open Scope go_scope.
Local Open Scope string_scope.
Local Open Scope Z_scope.

Section tenants.
Context {U : Unicode} {R : Regexp} {MO : MapOrder} {E : Engine} {A : AuthCodec} {AE : Aead} {FC : FormCodec}
  {DD : DmnDecoder} {RC : RestCodec} {HO : Host} (depth : nat).

(** The server takes every request like [r] for one of the caller [p]. *)
Definition is_caller (p : Principal) (r : Request) (s : Server) : Prop :=
  forall ts, (chain_auth (sv_auth s) r ts).1 = Ok (Some p).

Lemma find_route_at method path l1 ro l2 m :
  Forall (fun x => route_match method path x = None) l1 -> route_match method path ro = Some m ->
  find_route method path (l1 ++ ro :: l2) = Some (ro, m).
Proof. intros H Hro. induction H as [|x l1 Hx _ IH]; cbn; [by rewrite Hro|by rewrite Hx, IH]. Qed.

(** A [GET] by a caller with the role of its route. *)
Lemma serve_get p r s ro m min h :
  authRequired s = true -> publicRequest r = false -> is_caller p r s -> hr_method r = "GET" -> clean_path (hr_path r) = true ->
  find_route "GET" (hr_path r) (routes depth s) = Some (ro, m) -> ro = guarded (ro_method ro) (ro_pattern ro) min h -> has p min = true ->
  exists tr s1 hs, quiet s s1 /\ serve_http depth r s
    = finish hs (recovered (h {| q_req := confine r p; q_trace := tr; q_principal := Some p; q_path := m |}) s1).
Proof.
  intros Hreq Hpub Hp Hget Hclean Hf Hro Hhas.
  unfold serve_http, server, mbind at 1 2, H_bind at 1 2.
  destruct (trace_quiet r s) as (tr & s1 & -> & Hq1 & Ha1). cbv beta iota.
  assert (exists hs, match sv_cors s1 with Some c => apply_cors h_equal_fold c r | None => ([], false) end = (hs, false)) as (hs & ->).
  { destruct (sv_cors s1) as [c|]; [|by eexists]. unfold apply_cors. rewrite Hget. cbv zeta.
    destruct (String.eqb _ ""); [by eexists|]. destruct (String.eqb _ ""); by eexists. }
  rewrite <- (quiet_required _ _ Hq1) in Hreq. destruct (auth_stage r s1 Hreq Hpub) as (s2 & Hq2 & Hc).
  assert (quiet s s2) as Hq by by eapply quiet_trans.
  destruct Hc as [(p' & ts & Hp' & Hauth)|(out & Hauth & Hout)].
  2:{ exfalso. destruct (resolve_stage r s1) as (res & ts & as' & Hch & Hr & _).
      pose proof (Hp ts) as Hpt. rewrite Ha1 in Hch. rewrite Hch in Hpt. cbn in Hpt. subst res.
      unfold authenticated, server, mbind, H_bind in Hauth. rewrite Hreq, Hpub in Hauth. cbv beta iota delta [negb orb] in Hauth.
      rewrite Hr in Hauth. cbn in Hauth. injection Hauth as <- _. done. }
  rewrite Ha1, Hp in Hp'. injection Hp' as ->.
  exists tr, s2, (("X-Trace-Id", ti_id tr) :: hs). split; [done|]. cbv zeta.
  assert (recovered (handle_request depth tr r) s1
    = recovered (h {| q_req := confine r p'; q_trace := tr; q_principal := Some p'; q_path := m |}) s2) as Hrec.
  { apply recovered_eq. unfold handle_request, mbind at 1, H_bind at 1. rewrite Hauth.
    assert (hr_method (confine r p') = hr_method r /\ hr_path (confine r p') = hr_path r) as [E1 E2].
    { unfold confine. by destruct (String.eqb _ _). }
    unfold serve_mux, server, mbind, H_bind. cbn [q_req]. rewrite E1, E2, Hget, Hclean, andb_false_r, (quiet_routes _ _ _ Hq), Hf.
    rewrite Hro. cbn [ro_handler guarded]. unfold with_path. cbn [q_req q_trace q_principal].
    rewrite <- (quiet_required _ _ Hq2) in Hreq.
    destruct (guard_stage min h {| q_req := confine r p'; q_trace := tr; q_principal := Some p'; q_path := m |} s2 Hreq)
      as [(p2 & [= <-] & _ & ->)|(e & _ & _ & Hno)]; [done|]. by rewrite (Hno p' eq_refl) in Hhas. }
  unfold mbind, H_bind, finish. rewrite Hrec. by destruct (recovered _ s2) as [[]].
Qed.
Lemma tenant_of_confined r p : pr_tenant p <> "" -> tenantOf (confine r p) = pr_tenant p.
Proof.
  intros Ht. unfold confine. destruct (String.eqb_spec (pr_tenant p) ""); [done|]. unfold tenantOf, header, set_header. cbn.
  rewrite lookup_insert_eq. cbn. by destruct (String.eqb_spec (pr_tenant p) "").
Qed.

Lemma page_limit_range r : 0 < pageLimit r <= 1000.
Proof. unfold pageLimit. repeat case_match; rewrite ?Z.leb_le, ?Z.leb_gt, ?Z.ltb_lt, ?Z.ltb_ge in *; lia. Qed.
Lemma select_bound {T} (id : T -> string) q desc r m : Z.of_nat (length (select id q desc (pageLimit r) m)) <= 1000.
Proof.
  pose proof (page_limit_range r). unfold select, limited. rewrite (proj2 (Z.ltb_lt 0 _)) by lia. rewrite length_take. lia.
Qed.
Lemma select_in {T} (id : T -> string) q desc limit m x :
  x ∈ select id q desc limit m -> q x = true /\ exists k, m !! k = Some x.
Proof.
  rewrite select_limit. unfold limited. intros H. apply (elem_of_select_all id q desc m).
  case_match; [|done]. by eapply elem_of_take in H as (i & Hi & _); apply list_elem_of_lookup_2 in Hi.
Qed.
Lemma str_field_eq a b : a <> "" -> str_field a b = true -> b = a.
Proof. unfold str_field. destruct (String.eqb_spec a "") as [|_]; [done|]. intros _. by intros ->%String.eqb_eq. Qed.

Definition lists_own (p : Principal) (s : Server) {T} (tenant : T -> string) (table : gmap string T) (pg : page T) : Prop :=
  Z.of_nat (length (pg_items pg)) <= 1000 /\
  forall x, x ∈ pg_items pg -> tenant x = pr_tenant p /\ exists k, table !! k = Some x.
Lemma instances_own p s q : tenantOf (q_req q) = pr_tenant p -> pr_tenant p <> "" ->
  exists pg s', handleListInstances q s = (Ok (json 200 (BInstances pg)), s') /\ quiet s s' /\
    lists_own p s in_tenant (m_instances (w_store (sv_world s))) pg.
Proof.
  intros Ht Hne. unfold handleListInstances.
  assert (forall st, lists_own p s in_tenant (m_instances (w_store (sv_world s)))
    (make_page in_id (pageLimit (q_req q)) (ListInstances (instance_filter q st) (w_store (sv_world s))))) as Hown.
  { intros st. split; [apply select_bound|]. cbn [pg_items make_page]. intros x [Hx Hk]%select_in. split; [|done].
    unfold match_instance, instance_filter in Hx. cbn in Hx. rewrite !andb_true_iff in Hx. destruct_and! Hx.
    rewrite Ht in *. by eapply str_field_eq. }
  destruct (instance_state _) as [|st|].
  1, 2: do 2 eexists; split_and!; [reflexivity|by apply quiet_world|apply Hown].
  do 2 eexists. split_and!; [reflexivity|apply quiet_refl|]. split; [done|]. intros x Hx. by apply elem_of_nil in Hx.
Qed.
Lemma tasks_own p s q : tenantOf (q_req q) = pr_tenant p -> pr_tenant p <> "" ->
  exists pg s', handleListTasks q s = (Ok (json 200 (BTasks pg)), s') /\ quiet s s' /\
    lists_own p s ta_tenant (m_tasks (w_store (sv_world s))) pg.
Proof.
  intros Ht Hne. unfold handleListTasks.
  assert (forall st, lists_own p s ta_tenant (m_tasks (w_store (sv_world s)))
    (make_page ta_id (pageLimit (q_req q)) (ListTasks (task_filter q st) (w_store (sv_world s))))) as Hown.
  { intros st. split; [apply select_bound|]. cbn [pg_items make_page]. intros x [Hx Hk]%select_in. split; [|done].
    unfold match_task, task_filter in Hx. cbn in Hx. rewrite !andb_true_iff in Hx. destruct_and! Hx.
    rewrite Ht in *. by eapply str_field_eq. }
  destruct (task_state _) as [|st|].
  1, 2: do 2 eexists; split_and!; [reflexivity|by apply quiet_world|apply Hown].
  do 2 eexists. split_and!; [reflexivity|apply quiet_refl|]. split; [done|]. intros x Hx. by apply elem_of_nil in Hx.
Qed.

(** C10: the lists of instances and of tasks that a caller of a tenant gets
    hold records of that tenant alone, and at most a thousand, whatever tenant,
    filter, cursor and limit the request names. *)
Theorem tenant_lists p r s :
  authRequired s = true -> is_caller p r s -> has p RoleViewer = true -> pr_tenant p <> "" -> hr_method r = "GET" ->
  (hr_path r = "/v1/instances" -> exists hs pg s',
    serve_http depth r s = (Ok {| rp_code := 200; rp_headers := hs; rp_body := BInstances pg |}, s') /\ quiet s s' /\
    lists_own p s in_tenant (m_instances (w_store (sv_world s))) pg) /\
  (hr_path r = "/v1/tasks" -> exists hs pg s',
    serve_http depth r s = (Ok {| rp_code := 200; rp_headers := hs; rp_body := BTasks pg |}, s') /\ quiet s s' /\
    lists_own p s ta_tenant (m_tasks (w_store (sv_world s))) pg).
Proof.
  intros Hreq Hp Hhas Hne Hget. split; intros Hpath.
  - destruct (serve_get p r s (guarded "GET" "/v1/instances" RoleViewer handleListInstances) [] RoleViewer handleListInstances)
      as (tr & s1 & hs & Hq & ->); try done; [unfold publicRequest; by rewrite Hpath, Hget|by rewrite Hpath|by rewrite Hpath|].
    set (q := {| q_req := _ |}). destruct (instances_own p s1 q (tenant_of_confined r p Hne) Hne) as (pg & s2 & Hh & Hq2 & Hown).
    unfold recovered, finish. rewrite Hh. do 3 eexists. split; [reflexivity|]. split; [by eapply quiet_trans|].
    by rewrite (quiet_store _ _ Hq) in Hown.
  - destruct (serve_get p r s (guarded "GET" "/v1/tasks" RoleViewer handleListTasks) [] RoleViewer handleListTasks)
      as (tr & s1 & hs & Hq & ->); try done; [unfold publicRequest; by rewrite Hpath, Hget|by rewrite Hpath|by rewrite Hpath|].
    set (q := {| q_req := _ |}). destruct (tasks_own p s1 q (tenant_of_confined r p Hne) Hne) as (pg & s2 & Hh & Hq2 & Hown).
    unfold recovered, finish. rewrite Hh. do 3 eexists. split; [reflexivity|]. split; [by eapply quiet_trans|].
    by rewrite (quiet_store _ _ Hq) in Hown.
Qed.

(** ** Records by their identifier *)
Definition plain_segment (id : string) : bool :=
  has_no "/" id && negb (String.eqb id "" || String.eqb id "." || String.eqb id "..").
Lemma instance_path id : plain_segment id = true ->
  segments ("/v1/instances/" ++ id) = ["v1"; "instances"; id] /\ clean_path ("/v1/instances/" ++ id) = true.
Proof.
  unfold plain_segment. intros [Hs Hn]%andb_prop.
  assert (segments ("/v1/instances/" ++ id) = ["v1"; "instances"; id]) as Hseg.
  { change (segments ("/v1/instances/" ++ id)) with ("v1" :: "instances" :: split_at "/" "" id). by rewrite split_none. }
  split; [done|]. unfold clean_path. rewrite Hseg. apply negb_true_iff in Hn.
  change (has_prefix ("/v1/instances/" ++ id) "/") with true. rewrite andb_true_l.
  cbn -[String.eqb]. apply orb_false_iff in Hn as [[_ ->]%orb_false_iff ->]. done.
Qed.
Lemma instance_route id s : plain_segment id = true ->
  find_route "GET" ("/v1/instances/" ++ id) (routes depth s)
  = Some (guarded "GET" "/v1/instances/{id}" RoleViewer handleGetInstance, [("id", id)]).
Proof.
  intros Hid. destruct (instance_path id Hid) as [Hseg _].
  assert (String.eqb id "" = false) as Hne.
  { unfold plain_segment in Hid. destruct (String.eqb id ""); [|done]. by rewrite andb_false_r in Hid. }
  unfold routes. rewrite <- (take_drop 11 (core_routes depth)), <- app_assoc.
  apply (find_route_at _ _ (take 11 (core_routes depth)) (guarded "GET" "/v1/instances/{id}" RoleViewer handleGetInstance)).
  - cbn [take core_routes]. repeat (apply Forall_cons_2; [unfold route_match; rewrite Hseg; reflexivity|]). apply Forall_nil_2.
  - unfold route_match. rewrite Hseg. cbn -[String.eqb]. rewrite Hne. done.
Qed.

(** A caller who may read gets any instance whose identifier it names,
    with its variables, of whatever tenant the instance and the caller are. *)
Theorem tenant_bypass p r s id i :
  authRequired s = true -> is_caller p r s -> has p RoleViewer = true -> hr_method r = "GET" ->
  hr_path r = "/v1/instances/" ++ id -> plain_segment id = true -> GetInstance id (w_store (sv_world s)) = Some i ->
  exists hs s', serve_http depth r s = (Ok {| rp_code := 200; rp_headers := hs; rp_body := BInstance i |}, s').
Proof.
  intros Hreq Hp Hhas Hget Hpath Hid Hi. destruct (instance_path id Hid) as [Hseg Hclean].
  destruct (serve_get p r s (guarded "GET" "/v1/instances/{id}" RoleViewer handleGetInstance) [("id", id)] RoleViewer handleGetInstance)
    as (tr & s1 & hs & Hq & ->); try done.
  - unfold publicRequest. rewrite Hget, Hpath. done.
  - by rewrite Hpath.
  - rewrite Hpath. by apply instance_route.
  - unfold recovered, handleGetInstance, path_value. cbn [find q_path fst snd]. rewrite String.eqb_refl.
    unfold mbind at 1, H_bind at 1, eng, on_world, get_instance, store_get, or_not_found, gets, mbind, ST_bind.
    cbn [snd]. rewrite (quiet_store _ _ Hq), Hi. do 2 eexists. reflexivity.
Qed.
End tenants.

(** ** On a concrete server *)
Definition acme_instance : string := default "" (head (map fst (map_to_list (m_instances (w_store acme_world))))).
Lemma tenant_lists_witness :
  let r := set_header "X-Tenant-Id" "globex" (request "view" "GET" "/v1/instances" "") in
  exists hs pg s', serve_http 5 r acme_server = (Ok {| rp_code := 200; rp_headers := hs; rp_body := BInstances pg |}, s') /\
    lists_own (caller "vera" "acme" RoleViewer) acme_server in_tenant (m_instances (w_store (sv_world acme_server))) pg.
Proof.
  intros r. destruct (tenant_lists 5 (caller "vera" "acme" RoleViewer) r acme_server) as [H _];
    [reflexivity|intros ts; vm_compute; reflexivity|reflexivity|discriminate|reflexivity|].
  destruct (H eq_refl) as (hs & pg & s' & H1 & _ & H2). by exists hs, pg, s'.
Defined.
(** A reader of another tenant gets the instance of [acme]. *)
Lemma tenant_bypass_witness :
  let r := request "other" "GET" ("/v1/instances/" ++ acme_instance) "" in
  exists i hs s', in_tenant i = "acme" /\ in_tenant i <> pr_tenant (caller "gina" "globex" RoleViewer) /\
    serve_http 5 r acme_server = (Ok {| rp_code := 200; rp_headers := hs; rp_body := BInstance i |}, s').
Proof.
  intros r. destruct (GetInstance acme_instance (w_store (sv_world acme_server))) as [i|] eqn:Ei; [|revert Ei; vm_compute; discriminate].
  assert (in_tenant i = "acme") as Ht.
  { assert (in_tenant <$> GetInstance acme_instance (w_store (sv_world acme_server)) = Some "acme") as Hi by (vm_compute; reflexivity).
    rewrite Ei in Hi. by injection Hi. }
  exists i. destruct (tenant_bypass 5 (caller "gina" "globex" RoleViewer) r acme_server acme_instance i) as (hs & s' & H);
    [reflexivity|intros ts; vm_compute; reflexivity|reflexivity|reflexivity|reflexivity|vm_compute; reflexivity|exact Ei|].
  exists hs, s'. split; [exact Ht|]. split; [rewrite Ht; discriminate|exact H].
Defined.
