(* ===== verification/RestEvents.v ===== *)
(** * Webhook events

    The window of idempotency keys against what it promises, and an event
    whose delivery fails: its key is remembered before it is delivered, so that
    the repetition is acknowledged and dropped. *)
From S2P Require Import Prelude GoFloat GoUtf8 GoTime ExprValue ExprFuncs ExprEval StoreTypes StoreQuery StoreMemory Vault EngineBase EngineApi EngineSamples EngineMigrate DmnParser Forms RestAuth RestTypes Rest EngineSafety EngineCalls RestSamples.
Local Open Scope go_scope.
Local Open Scope string_scope.
Local Open Scope Z_scope.

(** ** The window *)

(** Calls of [remember], with their answers. *)
Fixpoint run_window (calls : list (string * Z)) (log : list (string * Z * bool)) (d : dedupeCache)
    : list (string * Z * bool) * dedupeCache :=
  match calls with
  | [] => (log, d)
  | (k, now) :: calls => let '(seen, d) := remember k now d in run_window calls (log ++ [(k, now, seen)])%list d
  end.
(** The clock does not go back. *)
Fixpoint ordered_from (t : Z) (calls : list (string * Z)) : Prop :=
  match calls with [] => True | (_, now) :: calls => t <= now /\ ordered_from now calls end.

Definition recalls (log : list (string * Z * bool)) : Prop :=
  forall i j k t t' b, (j < i)%nat -> log !! j = Some (k, t', false) -> log !! i = Some (k, t, b) -> t - t' < hour -> b = true.
Definition justified (log : list (string * Z * bool)) : Prop :=
  forall i k t, log !! i = Some (k, t, true) ->
    exists j t', (j < i)%nat /\ log !! j = Some (k, t', false) /\ t - t' < hour.
Definition entries (d : dedupeCache) : Z := Z.of_nat (size (dd_seen d)).

Record window_ok (now : Z) (log : list (string * Z * bool)) (d : dedupeCache) : Prop := {
  wo_conf : dd_limit d = 8192 /\ dd_ttl d = hour;
  wo_size : entries d <= 8192;
  wo_seen : forall k t, dd_seen d !! k = Some t -> exists j, log !! j = Some (k, t, false);
  wo_just : justified log;
  wo_past : forall j k t b, log !! j = Some (k, t, b) -> t <= now;
  wo_few : Z.of_nat (length log) <= 8192 ->
    entries d <= Z.of_nat (length log) /\ recalls log /\
    forall j k t, log !! j = Some (k, t, false) -> exists t', dd_seen d !! k = Some t' /\ t <= t';
}.

Lemma live_at_iff now at_ : at_ <= now -> live_at now hour at_ = true <-> now - at_ < hour.
Proof.
  intros H. unfold live_at, time_sub. rewrite Z.ltb_lt. change hour with 3600000000000. change int64_min with (- 2 ^ 63).
  change int64_max with (2 ^ 63 - 1). lia.
Qed.
Lemma lookup_snoc_old {T} (l : list T) x i y : (l ++ [x])%list !! i = Some y -> l !! i = Some y \/ (i = length l /\ y = x).
Proof.
  intros H. apply lookup_app_Some in H as [H|[Hi H]]; [by left|right]. apply list_lookup_singleton_Some in H as [H ->]. split; [lia|done].
Qed.
Lemma remember_cases k now d : dd_limit d = 8192 -> dd_ttl d = hour ->
  (exists t, dd_seen d !! k = Some t /\ live_at now hour t = true /\ remember k now d = (true, d)) \/
  (exists m, (forall t, dd_seen d !! k = Some t -> live_at now hour t = false) /\ m ⊆ dd_seen d /\ Z.of_nat (size m) < 8192 /\
    (entries d < 8192 -> m = dd_seen d) /\
    remember k now d = (false, {| dd_seen := <[k := now]> m; dd_limit := 8192; dd_ttl := hour |})).
Proof.
  intros Hl Ht. unfold remember. rewrite Hl, Ht.
  destruct (match dd_seen d !! k with Some t => live_at now hour t | None => false end) eqn:Hlive.
  - left. destruct (dd_seen d !! k) as [t|]; [by exists t|done].
  - right. set (kept := filter (fun kt => live_at now hour kt.2 = true) (dd_seen d)).
    exists (if 8192 <=? entries d then if 8192 <=? Z.of_nat (size kept) then ∅ else kept else dd_seen d).
    split; [intros t Hs; by rewrite Hs in Hlive|]. unfold entries. split_and!; [| | |done].
    + destruct (8192 <=? _); [destruct (8192 <=? _); [apply map_empty_subseteq|apply map_filter_subseteq]|done].
    + destruct (Z.leb_spec 8192 (Z.of_nat (size (dd_seen d)))); [|done].
      destruct (Z.leb_spec 8192 (Z.of_nat (size kept))); [by rewrite map_size_empty|done].
    + intros Hlt. destruct (Z.leb_spec 8192 (Z.of_nat (size (dd_seen d)))); [lia|done].
Qed.

Lemma window_step now log d k t : window_ok now log d -> now <= t ->
  window_ok t (log ++ [(k, t, (remember k t d).1)])%list (remember k t d).2.
Proof.
  intros [[Hl Ht] Hsize Hseen Hjust Hpast Hfew] Hnow.
  assert (forall b j k' t' b', (log ++ [(k, t, b)])%list !! j = Some (k', t', b') -> t' <= t) as Hpast'.
  { intros b j k' t' b' [H|[_ [= -> -> ->]]]%lookup_snoc_old; [specialize (Hpast _ _ _ _ H); lia|lia]. }
  destruct (remember_cases k t d Hl Ht) as [(t0 & Hs & Hlive & ->)|(m & Hno & Hm & Hsm & Heq & ->)]; cbn [fst snd].
  - destruct (Hseen k t0 Hs) as (j0 & Hj0). assert (t - t0 < hour) as Hw by (apply live_at_iff; [specialize (Hpast _ _ _ _ Hj0); lia|done]).
    split; [done|done| | |by eauto|].
    + intros k' t' H. destruct (Hseen k' t' H) as (j & Hj). exists j. by apply lookup_app_l_Some.
    + intros i k' t' [H|[-> [= -> ->]]]%lookup_snoc_old.
      * destruct (Hjust _ _ _ H) as (j & t1 & Hji & Hj & ?). exists j, t1. split_and!; [done|by apply lookup_app_l_Some|done].
      * exists j0, t0. split_and!; [by eapply lookup_lt_Some|by apply lookup_app_l_Some|done].
    + rewrite length_app. cbn [length]. intros Hlen. destruct Hfew as (H1 & H2 & H3); [lia|]. split_and!; [lia| |].
      * intros i j k' t1 t2 b Hji Hj [Hi|[-> [= -> -> ->]]]%lookup_snoc_old Hw'; [|done].
        apply lookup_snoc_old in Hj as [Hj|[-> _]]; [by eapply H2|]. apply lookup_lt_Some in Hi. lia.
      * intros j k' t' [H|[_ [=]]]%lookup_snoc_old. by apply (H3 j).
  - split; [done|unfold entries; cbn; rewrite map_size_insert; case_match; unfold id; lia| | |by eauto|]; cbn [dd_seen].
    + intros k' t' H. destruct (decide (k' = k)) as [->|Hk].
      * rewrite lookup_insert_eq in H. injection H as <-. exists (length log). by rewrite lookup_app_r, Nat.sub_diag by lia.
      * rewrite lookup_insert_ne in H by done. destruct (Hseen k' t') as (j & Hj); [by eapply lookup_weaken|].
        exists j. by apply lookup_app_l_Some.
    + intros i k' t' [H|[_ [=]]]%lookup_snoc_old.
      destruct (Hjust _ _ _ H) as (j & t1 & Hji & Hj & ?). exists j, t1. split_and!; [done|by apply lookup_app_l_Some|done].
    + rewrite length_app. cbn [length]. intros Hlen. destruct Hfew as (H1 & H2 & H3); [lia|].
      rewrite (Heq ltac:(lia)) in *. split_and!.
      * unfold entries in *. cbn. rewrite map_size_insert. case_match; unfold id; lia.
      * intros i j k' t1 t2 b Hji Hj [Hi|[-> [= -> -> ->]]]%lookup_snoc_old Hw'.
        { apply lookup_snoc_old in Hj as [Hj|[-> _]]; [by eapply H2|]. apply lookup_lt_Some in Hi. lia. }
        exfalso. apply lookup_snoc_old in Hj as [Hj|[-> _]]; [|lia].
        destruct (H3 _ _ _ Hj) as (t' & Hs & Hle). specialize (Hno _ Hs). apply not_true_iff_false in Hno. apply Hno.
        destruct (Hseen _ _ Hs) as (j' & Hj'). apply live_at_iff; [specialize (Hpast _ _ _ _ Hj'); lia|lia].
      * intros j k' t' [H|[_ [= -> ->]]]%lookup_snoc_old; [|exists t; split; [by rewrite lookup_insert_eq|lia]].
        destruct (decide (k' = k)) as [->|Hk]; [exists t; split; [by rewrite lookup_insert_eq|]; specialize (Hpast _ _ _ _ H); lia|].
        destruct (H3 j k' t' H) as (t1 & Hs & ?). exists t1. by rewrite lookup_insert_ne.
Qed.
Lemma run_window_ok calls now log d : window_ok now log d -> ordered_from now calls ->
  exists now', window_ok now' (run_window calls log d).1 (run_window calls log d).2 /\
    length (run_window calls log d).1 = (length log + length calls)%nat.
Proof.
  revert now log d. induction calls as [|[k t] calls IH]; intros now log d Hok Hord; cbn [run_window].
  - exists now. split; [done|]. cbn. lia.
  - destruct Hord as [Hle Hord]. pose proof (window_step _ _ _ k t Hok Hle) as Hs. destruct (remember k t d) as [b d']. cbn in Hs.
    destruct (IH _ _ _ Hs Hord) as (now' & H & Hlen). exists now'. split; [done|]. rewrite Hlen, length_app. cbn. lia.
Qed.

(** C33: the window of idempotency keys never holds more than its limit, and
    answers that a key was seen only when the key was recorded less than an hour
    before; as long as no more keys came than the limit, it recognises every
    repetition within the hour. *)
Theorem dedupe_window calls start :
  ordered_from start calls ->
  let '(log, d) := run_window calls [] newDedupeCache in
  entries d <= 8192 /\ justified log /\ (Z.of_nat (length calls) <= 8192 -> recalls log).
Proof.
  intros Hord. assert (window_ok start [] newDedupeCache) as H0.
  { split; [done|done|intros ? ? H; cbn in H; by rewrite lookup_empty in H|by intros ? ? ?|by intros ? ? ? ?|].
    intros _. split_and!; [done|by intros ? ? ? ? ? ? ? H|by intros ? ? ? H]. }
  destruct (run_window_ok calls start [] newDedupeCache H0 Hord) as (now & Hok & Hlen).
  destruct (run_window calls [] newDedupeCache) as [log d]. cbn in *. destruct Hok as [_ Hsize _ Hj _ Hfew].
  split_and!; [done|done|]. intros Hc. by apply Hfew; rewrite Hlen.
Qed.
Definition noon : Z := 12 * hour.
Lemma dedupe_window_witness :
  let calls := [("a", noon); ("a", noon + 59 * minute); ("a", noon + 61 * minute); ("a", noon + 62 * minute)] in
  run_window calls [] newDedupeCache =
    ([("a", noon, false); ("a", noon + 59 * minute, true); ("a", noon + 61 * minute, false); ("a", noon + 62 * minute, true)],
     {| dd_seen := {["a" := noon + 61 * minute]}; dd_limit := 8192; dd_ttl := hour |}) /\
  recalls (run_window calls [] newDedupeCache).1.
Proof.
  intros calls. assert (ordered_from 0 calls) as Hord by (vm_compute; intuition discriminate).
  pose proof (dedupe_window calls 0 Hord) as H. split; [vm_compute; reflexivity|].
  destruct (run_window calls [] newDedupeCache) as [log d]. destruct H as (_ & _ & H). apply H. vm_compute. discriminate.
Defined.

(** ** An event whose delivery fails *)
Section events.
Context {U : Unicode} {R : Regexp} {MO : MapOrder} {E : Engine} {A : AuthCodec} {AE : Aead} {FC : FormCodec}
  {DD : DmnDecoder} {RC : RestCodec} {HO : Host} (depth : nat).

Definition keeps_window {T} (m : H T) : Prop := forall s, sv_dedupe (m s).2 = sv_dedupe s.
Lemma kw_bind {T B} (m : H T) (f : T -> H B) : keeps_window m -> (forall a, keeps_window (f a)) -> keeps_window (m ≫= f).
Proof.
  intros Hm Hf s. specialize (Hm s). unfold mbind, H_bind. destruct (m s) as [[a|e|w|] s']; cbn in *; try done. by rewrite Hf.
Qed.
Lemma kw_eng {T} (m : EM T) : keeps_window (eng m).
Proof. intros s. unfold eng, on_world, fail_err, refuse. by destruct (m (sv_world s)) as [[a|e|p|] w]. Qed.
Lemma kw_pure {T} (r : res response T) : keeps_window (fun s => (r, s)). Proof. done. Qed.
Lemma kw_eval what src payload : keeps_window (eval_payload what src payload).
Proof. apply kw_bind; [apply kw_eng|]. intros []; apply kw_pure. Qed.
Lemma kw_eval_vars l payload acc : keeps_window (eval_vars l payload acc).
Proof.
  revert acc. induction l as [|[name src] l IH]; intros acc; cbn [eval_vars]; [apply kw_pure|]. apply kw_bind; [apply kw_eval|auto].
Qed.
Lemma kw_deliver ch payload : keeps_window (deliver_event depth ch payload).
Proof.
  unfold deliver_event. apply kw_bind.
  { destruct (String.eqb _ _); [apply kw_pure|]. apply kw_bind; [apply kw_eval|]. intros; apply kw_pure. }
  intros ckey. apply kw_bind.
  { case_bool_decide; [apply kw_pure|]. apply kw_bind; [apply kw_eng|]. intros; apply kw_eval_vars. }
  intros v. apply kw_bind; [apply kw_eng|]. intros; apply kw_pure.
Qed.

(** The event passes the checks before its delivery. *)
Definition admitted_event (q : rq) (ch : WebhookChannel) (payload : vars) (s : Server) : Prop :=
  (exists b, GetBlob webhookBlobKind (path_value "name" q) (w_store (sv_world s)) = Some b /\ unmarshal_channel (bl_data b) = inr ch) /\
  (String.eqb (wc_secret ch) "" || String.eqb (header "X-Webhook-Secret" (q_req q)) (wc_secret ch)) = true /\
  (if String.eqb (read_all max_json q) "" then inr ∅ else unmarshal_payload (read_all max_json q)) = inr payload.
Lemma admitted_stage q ch payload s : admitted_event q ch payload s ->
  exists s1, sv_dedupe s1 = sv_dedupe s /\ sv_world s1 = sv_world s /\
    handleWebhookEvent depth q s = receive_event depth ch payload q s1.
Proof.
  intros ((b & Hb & Hc) & Hs & Hp). exists (set_sv_world (sv_world s) s). split_and!; [done..|].
  unfold handleWebhookEvent, mbind at 1, H_bind at 1, eng at 1, on_world, store_get, gets.
  change ((Ok (GetBlob webhookBlobKind (path_value "name" q) (w_store (sv_world s))), sv_world s)) with
    (Ok (E := goerr) (GetBlob webhookBlobKind (path_value "name" q) (w_store (sv_world s))), sv_world s).
  cbv beta iota. rewrite Hb, Hc, Hs. unfold check. cbv zeta. rewrite Hp. unfold mbind at 1, H_bind at 1, mret at 1, H_ret. done.
Qed.
Lemma receive_keyed ch payload q s : header "X-Idempotency-Key" (q_req q) <> "" ->
  let key := wc_name ch ++ nul ++ header "X-Idempotency-Key" (q_req q) in
  let now := e_wall (w_tick (sv_world s)) in
  let x := remember key now (sv_dedupe s) in
  let s1 := set_sv_dedupe x.2 (set_sv_world (set_w_tick (S (w_tick (sv_world s))) (sv_world s)) s) in
  receive_event depth ch payload q s = if x.1 then (Ok (json 200 (BActivated 0 true)), s1) else deliver_event depth ch payload s1.
Proof.
  intros Hk key now x s1. unfold receive_event, dedupe_key. destruct (String.eqb_spec (header "X-Idempotency-Key" (q_req q)) "") as [|_]; [done|].
  cbn [andb]. unfold mbind at 1, H_bind at 1, mret at 1, H_ret. cbv beta iota.
  destruct (String.eqb_spec (header "X-Idempotency-Key" (q_req q)) "") as [|_]; [done|].
  assert (seen_before key s = (Ok x.1, s1)) as Hseen.
  { unfold seen_before, eng, on_world, wall, tick, server, change, mbind, H_bind, ST_bind, mret, H_ret, ST_ret.
    cbv beta iota. cbn [sv_dedupe set_sv_world sv_world]. fold now. subst x s1. by destruct (remember key now (sv_dedupe s)). }
  unfold mbind at 1, H_bind at 1. fold key. rewrite Hseen. by destruct (x.1).
Qed.

(** An event that failed is lost.  When its delivery ends in an error
    (an expression that does not evaluate, a call of the engine that fails), the
    same event sent again within the hour is acknowledged as a repetition with
    status 200, and does nothing. *)
Theorem failed_event_swallowed q ch payload s s1 s2 err :
  header "X-Idempotency-Key" (q_req q) <> "" -> dd_ttl (sv_dedupe s) = hour ->
  admitted_event q ch payload s -> handleWebhookEvent depth q s = (Err err, s1) ->
  admitted_event q ch payload s2 -> sv_dedupe s2 = sv_dedupe s1 ->
  live_at (e_wall (w_tick (sv_world s2))) hour (e_wall (w_tick (sv_world s))) = true ->
  exists s3, handleWebhookEvent depth q s2 = (Ok (json 200 (BActivated 0 true)), s3) /\
    w_store (sv_world s3) = w_store (sv_world s2).
Proof.
  intros Hk Httl H1 Hfail H2 Hsame Hlive.
  destruct (admitted_stage _ _ _ _ H1) as (s' & Ed & Ew & Eh). rewrite Eh in Hfail. clear Eh.
  destruct (admitted_stage _ _ _ _ H2) as (s'' & Ed2 & Ew2 & ->).
  rewrite receive_keyed in Hfail by done. rewrite receive_keyed by done. cbv zeta in *.
  rewrite Ed, Ew in Hfail. rewrite Ed2, Ew2, Hsame.
  set (key := wc_name ch ++ nul ++ header "X-Idempotency-Key" (q_req q)) in *.
  set (t := e_wall (w_tick (sv_world s))) in *. set (now := e_wall (w_tick (sv_world s2))) in *.
  assert (dd_seen (sv_dedupe s1) !! key = Some t /\ dd_ttl (sv_dedupe s1) = hour) as [Hs1 Ht1].
  { unfold remember in Hfail. destruct (match dd_seen (sv_dedupe s) !! key with Some _ => _ | None => false end); cbn [fst snd] in Hfail.
    - by injection Hfail.
    - pose proof (kw_deliver ch payload) as Hkw. eapply (f_equal snd) in Hfail. cbn [snd] in Hfail. rewrite <- Hfail, Hkw.
      cbn [sv_dedupe set_sv_dedupe dd_seen dd_ttl]. by rewrite lookup_insert_eq. }
  assert (remember key now (sv_dedupe s1) = (true, sv_dedupe s1)) as ->.
  { unfold remember. by rewrite Hs1, Ht1, Hlive. }
  cbn [fst snd]. eexists. split; [reflexivity|]. done.
Qed.
End events.

(** The channel [broken], whose correlation does not parse: the first sending
    is refused, the second one acknowledged. *)
Definition broken_server : Server :=
  New (set_w_store (PutBlob {| bl_kind := webhookBlobKind; bl_key := "broken"; bl_tenant := ""; bl_data := "broken"; bl_updated := 0 |} new_memory) empty_world) [].
Definition event_request : Request :=
  {| hr_method := "POST"; hr_path := "/v1/webhooks/broken";
     hr_headers := {["X-Webhook-Secret" := "s3cret"; "X-Idempotency-Key" := "event-1"]}; hr_query := []; hr_body := "{}" |}.
Definition event_rq : rq :=
  {| q_req := event_request; q_trace := {| ti_id := ""; ti_parent := "" |}; q_principal := None; q_path := [("name", "broken")] |}.
Lemma failed_event_swallowed_witness :
  let x := handleWebhookEvent 5 event_rq broken_server in
  match x.1 with Err e => rp_code e = 422 | _ => False end /\
  exists s3, handleWebhookEvent 5 event_rq x.2 = (Ok (json 200 (BActivated 0 true)), s3) /\
    w_store (sv_world s3) = w_store (sv_world x.2).
Proof.
  intros x. split; [vm_compute; reflexivity|].
  assert (exists err, x = (Err err, x.2)) as (err & Hx).
  { assert (is_ok x.1 = false /\ returns x.1 = true) as [H1 H2] by (vm_compute; split; reflexivity).
    destruct x as [[r|e|w|] s]; [discriminate|by exists e|discriminate..]. }
  assert (forall w, GetBlob webhookBlobKind "broken" (w_store w)
    = Some {| bl_kind := webhookBlobKind; bl_key := "broken"; bl_tenant := ""; bl_data := "broken"; bl_updated := 0 |} ->
    forall s, sv_world s = w -> admitted_event event_rq (channel "broken" "1 +") ∅ s) as Hadm.
  { intros w Hw s <-. split; [|by split]. eexists. split; [exact Hw|reflexivity]. }
  apply (failed_event_swallowed 5 event_rq (channel "broken" "1 +") ∅ broken_server x.2 x.2 err);
    [discriminate|reflexivity|apply (Hadm (sv_world broken_server)); [vm_compute; reflexivity|reflexivity]|exact Hx| |reflexivity|vm_compute; reflexivity].
  apply (Hadm (sv_world x.2)); [vm_compute; reflexivity|reflexivity].
Defined.
