(* ===== verification/Platform.v ===== *)
(** * The engine as the program sets it up

    [Config] holds the fields of the engine that its options and registrations
    set; [New] and the options are those of [src/engine/engine.go].  [engine_of]
    is the engine of such a configuration with the parser of [src/bpmn/]; the
    program's decisions and forms become its evaluator and its validator.  The
    theorems put the parts together: what a run works on is a definition that
    was parsed, whose scopes are wired and pass the validator.

    The registries change while the engine runs; [reg n] and [frm n] are what
    they hold at the [n]-th call out of the engine, and [pace n p] is the clock
    at the place [p] of that call. *)
From stdpp Require Import relations.
From S2P Require Import Prelude GoFloat GoUtf8 GoTime GoDuration ExprValue ExprLexer ExprFuncs ExprEval StoreTypes StoreQuery StoreMemory Vault BpmnModel BpmnValidate BpmnParser EngineBase EngineApi EngineSched EngineSamples EngineMigrate Dmn DmnParser Forms RestAuth RestTypes Rest EngineTrace EngineSafety EngineCalls RestSamples RestSafety.
Local Open Scope go_scope.
Local Open Scope string_scope.
Local Open Scope Z_scope.

(** ** Configuration *)
Definition secret_source := string -> goerr + string.
Record Config := {
  cf_now : nat -> Z; cf_handlers : gmap string EngineBase.handler;
  cf_decisions : option (nat -> string -> vars -> res goerr value);
  cf_agents : gmap string invoker; cf_default_agent : option invoker; cf_guard : option AgentGuard;
  cf_secrets : option secret_source; cf_forms : option (nat -> string -> option vars -> res goerr (option vars));
  cf_backoff : Z; cf_poll : Z; cf_housekeeping : option HousekeepingPolicy; cf_suffix : string;
}.
Definition option_ := Config -> Config.
Definition WithClock (now : nat -> Z) : option_ := fun c =>
  {| cf_now := now; cf_handlers := cf_handlers c; cf_decisions := cf_decisions c; cf_agents := cf_agents c;
     cf_default_agent := cf_default_agent c; cf_guard := cf_guard c; cf_secrets := cf_secrets c; cf_forms := cf_forms c;
     cf_backoff := cf_backoff c; cf_poll := cf_poll c; cf_housekeeping := cf_housekeeping c; cf_suffix := cf_suffix c |}.
Definition RegisterHandler (type : string) (h : EngineBase.handler) : option_ := fun c =>
  {| cf_now := cf_now c; cf_handlers := <[type := h]> (cf_handlers c); cf_decisions := cf_decisions c; cf_agents := cf_agents c;
     cf_default_agent := cf_default_agent c; cf_guard := cf_guard c; cf_secrets := cf_secrets c; cf_forms := cf_forms c;
     cf_backoff := cf_backoff c; cf_poll := cf_poll c; cf_housekeeping := cf_housekeeping c; cf_suffix := cf_suffix c |}.
Definition WithDecisionEvaluator (d : option (nat -> string -> vars -> res goerr value)) : option_ := fun c =>
  {| cf_now := cf_now c; cf_handlers := cf_handlers c; cf_decisions := d; cf_agents := cf_agents c;
     cf_default_agent := cf_default_agent c; cf_guard := cf_guard c; cf_secrets := cf_secrets c; cf_forms := cf_forms c;
     cf_backoff := cf_backoff c; cf_poll := cf_poll c; cf_housekeeping := cf_housekeeping c; cf_suffix := cf_suffix c |}.
Definition RegisterAgent (name : string) (inv : invoker) : option_ := fun c =>
  {| cf_now := cf_now c; cf_handlers := cf_handlers c; cf_decisions := cf_decisions c; cf_agents := <[name := inv]> (cf_agents c);
     cf_default_agent := cf_default_agent c; cf_guard := cf_guard c; cf_secrets := cf_secrets c; cf_forms := cf_forms c;
     cf_backoff := cf_backoff c; cf_poll := cf_poll c; cf_housekeeping := cf_housekeeping c; cf_suffix := cf_suffix c |}.
Definition WithDefaultAgent (inv : option invoker) : option_ := fun c =>
  {| cf_now := cf_now c; cf_handlers := cf_handlers c; cf_decisions := cf_decisions c; cf_agents := cf_agents c;
     cf_default_agent := inv; cf_guard := cf_guard c; cf_secrets := cf_secrets c; cf_forms := cf_forms c;
     cf_backoff := cf_backoff c; cf_poll := cf_poll c; cf_housekeeping := cf_housekeeping c; cf_suffix := cf_suffix c |}.
Definition WithAgentGuard (g : AgentGuard) : option_ := fun c =>
  {| cf_now := cf_now c; cf_handlers := cf_handlers c; cf_decisions := cf_decisions c; cf_agents := cf_agents c;
     cf_default_agent := cf_default_agent c; cf_guard := Some g; cf_secrets := cf_secrets c; cf_forms := cf_forms c;
     cf_backoff := cf_backoff c; cf_poll := cf_poll c; cf_housekeeping := cf_housekeeping c; cf_suffix := cf_suffix c |}.
Definition WithSecrets (s : option secret_source) : option_ := fun c =>
  {| cf_now := cf_now c; cf_handlers := cf_handlers c; cf_decisions := cf_decisions c; cf_agents := cf_agents c;
     cf_default_agent := cf_default_agent c; cf_guard := cf_guard c; cf_secrets := s; cf_forms := cf_forms c;
     cf_backoff := cf_backoff c; cf_poll := cf_poll c; cf_housekeeping := cf_housekeeping c; cf_suffix := cf_suffix c |}.
Definition WithFormValidator (v : option (nat -> string -> option vars -> res goerr (option vars))) : option_ := fun c =>
  {| cf_now := cf_now c; cf_handlers := cf_handlers c; cf_decisions := cf_decisions c; cf_agents := cf_agents c;
     cf_default_agent := cf_default_agent c; cf_guard := cf_guard c; cf_secrets := cf_secrets c; cf_forms := v;
     cf_backoff := cf_backoff c; cf_poll := cf_poll c; cf_housekeeping := cf_housekeeping c; cf_suffix := cf_suffix c |}.
Definition WithRetryBackoff (d : Z) : option_ := fun c =>
  {| cf_now := cf_now c; cf_handlers := cf_handlers c; cf_decisions := cf_decisions c; cf_agents := cf_agents c;
     cf_default_agent := cf_default_agent c; cf_guard := cf_guard c; cf_secrets := cf_secrets c; cf_forms := cf_forms c;
     cf_backoff := d; cf_poll := cf_poll c; cf_housekeeping := cf_housekeeping c; cf_suffix := cf_suffix c |}.
Definition WithJobPollInterval (d : Z) : option_ := fun c =>
  {| cf_now := cf_now c; cf_handlers := cf_handlers c; cf_decisions := cf_decisions c; cf_agents := cf_agents c;
     cf_default_agent := cf_default_agent c; cf_guard := cf_guard c; cf_secrets := cf_secrets c; cf_forms := cf_forms c;
     cf_backoff := cf_backoff c; cf_poll := d; cf_housekeeping := cf_housekeeping c; cf_suffix := cf_suffix c |}.
Definition WithHousekeeping (p : HousekeepingPolicy) : option_ := fun c =>
  {| cf_now := cf_now c; cf_handlers := cf_handlers c; cf_decisions := cf_decisions c; cf_agents := cf_agents c;
     cf_default_agent := cf_default_agent c; cf_guard := cf_guard c; cf_secrets := cf_secrets c; cf_forms := cf_forms c;
     cf_backoff := cf_backoff c; cf_poll := cf_poll c; cf_housekeeping := Some (with_housekeeping p); cf_suffix := cf_suffix c |}.

(** [New]; [utc] is [time.Now], [suffix] what the random source gave. *)
Definition New (utc : nat -> Z) (suffix : string) (opts : list option_) : Config :=
  fold_left (fun c o => o c) opts
    {| cf_now := utc; cf_handlers := ∅; cf_decisions := None; cf_agents := ∅; cf_default_agent := None; cf_guard := None;
       cf_secrets := None; cf_forms := None; cf_backoff := 5 * second; cf_poll := second / 10;
       cf_housekeeping := None; cf_suffix := suffix |}.
(** [Context.Secret] *)
Definition Secret (c : Config) (name : string) : goerr + string :=
  match cf_secrets c with
  | None => inl (EMsg "engine: no secret source configured (WithSecrets)")
  | Some s => s name
  end.

(** ** The program's own components *)
Section components.
Context {U : Unicode} {R : Regexp} {MO : MapOrder} {FC : FormCodec} {X : XmlDecoder}.

(** [bpmn.Parse], which always comes back ([BpmnParser.parse_returns]). *)
Definition parse (xml : string) : goerr + Definitions :=
  match BpmnParser.Parse xml with
  | Ok d => inr d
  | Err msg | Panic msg => inl (EMsg msg)
  | OutOfFuel => inl (EMsg "")
  end.
Lemma parse_inr xml d : parse xml = inr d <-> BpmnParser.Parse xml = Ok d.
Proof. unfold parse. by destruct (BpmnParser.Parse xml); split; intros [= ->]. Qed.
Lemma parse_inl xml e : parse xml = inl e -> exists msg, e = EMsg msg /\ BpmnParser.Parse xml = Err msg.
Proof.
  unfold parse. pose proof (parse_returns xml) as H. destruct (BpmnParser.Parse xml) as [d|msg| |]; try done.
  intros [= <-]. by exists msg.
Qed.

Section registries.
Variable pace : nat -> place -> Z.
(** [expr.Eval] at a place of a call. *)
Definition eval_at (n : nat) (p : place) (src : string) (v : vars) : res goerr value :=
  match eval_src (pace n p) src v with Ok x => Ok x | Err e => Err (EExpr e) | Panic w => Panic w | OutOfFuel => OutOfFuel end.

(** [dmn.Registry] as the engine's evaluator. *)
Definition decisions (reg : nat -> gmap string Decision) (n : nat) (key : string) (v : vars) : res goerr value :=
  EvaluateDecision (eval_at n) key v (reg n).
(** [form.Registry] as its validator: what it writes into the map. *)
Definition forms (frm : nat -> Forms.Registry) (n : nat) (key : string) (v : option vars) : res goerr (option vars) :=
  let! (err, v) := (Forms.Validate (fun k => eval_at n [k]) key v (frm n)).1 in
  match err with Some msg => Err (EMsg msg) | None => Ok v end.
End registries.

(** The registry of decisions holds what [Validate] accepts, whatever the
    documents it was given. *)
Definition registry_ok (r : gmap string Decision) : Prop := map_Forall (fun _ d => Dmn.Validate d = None) r.
Lemma register_ok d r : registry_ok r -> registry_ok (Register d r).2.
Proof.
  intros Hr. unfold Register. destruct (Dmn.Validate d) eqn:E; [done|]. by apply map_Forall_insert_2.
Qed.
Lemma register_all_ok ds : forall r, registry_ok r -> registry_ok (register_all ds r).2.
Proof.
  induction ds as [|d ds IH]; intros r Hr; cbn; [done|]. pose proof (register_ok d r Hr) as H.
  destruct (Register d r) as [[err|] r']; [done|]. by apply IH.
Qed.
Lemma register_xml_ok `{DD : DmnDecoder} data r : registry_ok r -> registry_ok (RegisterXML data r).2.
Proof.
  intros Hr. unfold RegisterXML. destruct (DmnParser.Parse data) as [ds| | |]; try done.
  pose proof (register_all_ok ds r Hr) as H. by destruct (register_all ds r) as [[] ?].
Qed.
(** A business rule task of the program gets a value or an error: the
    evaluator never indexes out of a table and is not nested without bound, as
    long as the expressions of the cells come back. *)
Lemma decisions_return pace reg n key v :
  registry_ok (reg n) -> total (eval_at pace n) -> returns (decisions pace reg n key v) = true.
Proof.
  intros Hr Ht. unfold decisions, EvaluateDecision, Dmn.Get. destruct (reg n !! key) as [d|] eqn:E; [|done].
  apply evaluate_returns; [done|]. by apply (map_Forall_lookup_1 _ _ _ _ Hr E).
Qed.
Lemma forms_return pace frm n key v :
  (forall k src u, returns (eval_at pace n [k] src u) = true) -> returns (forms pace frm n key v) = true.
Proof.
  intros Ht. unfold forms. apply returns_bind; [by apply validate_returns|]. by intros [[] ?] _.
Qed.

(** ** The engine of a configuration *)
Definition engine_of (wall : nat -> Z) (c : Config) : Engine :=
  {| e_clock := cf_now c; e_wall := wall; e_suffix := cf_suffix c; e_handlers := cf_handlers c; e_decisions := cf_decisions c;
     e_agents := cf_agents c; e_default_agent := cf_default_agent c; e_guard := cf_guard c; e_forms := cf_forms c;
     e_backoff := cf_backoff c; e_parse := parse |}.

Section definitions.
Variables (wall : nat -> Z) (c : Config).
#[local] Instance program_engine : Engine := engine_of wall c.

(** A cached definition is the stored one, and its text parses to the document
    it is run with. *)
Definition runnable (w : world) (id : string) (PD : ParsedDef) : Prop :=
  m_definitions (w_store w) !! id = Some pd_def /\ BpmnParser.Parse (pd_xml pd_def) = Ok pd_doc /\
  BpmnValidate.Validate pd_doc = Ok [] /\ pr_exec pd_proc = true /\
  forall s, inside (pr_container pd_proc) s -> wired s.
Lemma coherent_runnable w id PD : coherent w -> w_defs w !! id = Some PD -> runnable w id PD.
Proof.
  intros Hw (d & Hd & <- & Hp & Hf)%Hw. apply parse_inr in Hp.
  destruct (parse_builds _ _ Hp) as [Hv Hwired]. unfold first_executable in Hf. apply head_Some in Hf as [l Hf].
  assert (pd_proc ∈ filter (fun p => pr_exec p = true) (df_processes pd_doc)) as [Hx Hin]%list_elem_of_filter
    by (rewrite Hf; left).
  split_and!; [done..|]. intros s. by apply Hwired.
Qed.

End definitions.
End components.

(** ** The server and the loops behind it *)
Section program.
Context {U : Unicode} {R : Regexp} {MO : MapOrder} {X : XmlDecoder} {A : AuthCodec} {AE : Aead} {FC : FormCodec}
  {DD : DmnDecoder} {RC : RestCodec} {HO : Host} (depth : nat) (wall : nat -> Z) (c : Config).
#[local] Instance this_engine : Engine := engine_of wall c.

(** What happens to the program: a request, or a call by a loop or by an
    embedder. *)
Inductive happening := Requested (r : Request) | Called (c : call).
Definition happen (s : Server) (h : happening) : Server :=
  match h with
  | Requested r => (serve_http depth r s).2
  | Called c => set_sv_world (run_call depth c (sv_world s)).2 s
  end.
Definition run_program (hs : list happening) (s : Server) : Server := fold_left happen hs s.

Lemma happen_ok h s : store_ok (w_store (sv_world s)) -> coherent (sv_world s) ->
  store_ok (w_store (sv_world (happen s h))) /\ coherent (sv_world (happen s h)).
Proof.
  intros Hok Hc. destruct h as [r|cl]; cbn.
  - destruct (serve_steps depth r s Hok) as (pw & Hs & _). split; [by eapply steps_ok|by eapply steps_coherent].
  - pose proof (run_call_steps depth cl _ Hok) as Hs. split; [by eapply esteps_ok|by eapply esteps_coherent].
Qed.
Lemma run_program_ok hs : forall s, store_ok (w_store (sv_world s)) -> coherent (sv_world s) ->
  store_ok (w_store (sv_world (run_program hs s))) /\ coherent (sv_world (run_program hs s)).
Proof.
  induction hs as [|h hs IH]; intros s Hok Hc; cbn; [done|]. destruct (happen_ok h s Hok Hc). by apply IH.
Qed.

(** The program runs what its parser accepted: whatever requests come and
    whatever the loops do, in any order, a definition the engine holds ready is
    the stored one of that identifier, parsed from its text; the validator
    accepts the document, its process is executable, and every scope of the
    process, nested ones included, is wired. *)
Lemma program_runs_parsed hs s id PD :
  store_ok (w_store (sv_world s)) -> coherent (sv_world s) ->
  w_defs (sv_world (run_program hs s)) !! id = Some PD -> runnable (sv_world (run_program hs s)) id PD.
Proof. intros Hok Hc. destruct (run_program_ok hs s Hok Hc). by eapply coherent_runnable. Qed.
End program.

(** ** On a concrete program *)
#[local] Existing Instance sample_decoder.
Definition plain_config : Config :=
  New (fun n => 1700000000 * second + Z.of_nat n * 1000) "abcd" [WithJobPollInterval second].
#[local] Instance plain_engine : Engine := engine_of (fun _ => 0) plain_config.
Definition fresh_server : Server := Rest.New empty_world [WithAuth (StaticToken tokens)].
Definition sample_happenings : list happening :=
  [Requested (request "manage" "POST" "/v1/definitions" "order"); Called (Start "" "order" "key-1" ∅); Called (RunDueJobs 100)].
Definition sample_program : Server := run_program 5 (fun _ => 0) plain_config sample_happenings fresh_server.
Definition order_def : string := "def_60a24181e400300000001abcd".
Example sample_program_runs :
  map fst (map_to_list (w_defs (sv_world sample_program))) = [order_def]
  /\ map (fun i => (in_def_id i.2, in_state i.2)) (map_to_list (m_instances (w_store (sv_world sample_program))))
     = [(order_def, InstanceActive)].
Proof. vm_compute. auto. Qed.
Lemma empty_coherent : coherent empty_world.
Proof. intros id PD H. discriminate H. Qed.
Lemma program_runs_parsed_witness :
  store_ok (w_store (sv_world fresh_server)) /\ coherent (sv_world fresh_server) /\
  exists PD, w_defs (sv_world sample_program) !! order_def = Some PD /\ runnable (sv_world sample_program) order_def PD.
Proof.
  split; [exact empty_ok|]. split; [exact empty_coherent|].
  destruct (w_defs (sv_world sample_program) !! order_def) as [PD|] eqn:E; [|vm_compute in E; discriminate E].
  exists PD. split; [reflexivity|].
  exact (program_runs_parsed 5 (fun _ => 0) plain_config sample_happenings fresh_server order_def PD empty_ok empty_coherent E).
Defined.
