(* ===== verification/Cli.v ===== *)
(** * The command line ([src/cmd/fliable/main.go])

    [validate] checks files, [serve] sets up the program: the store, the engine
    with its options, the definitions deployed from a directory, the recovery and
    the server.  The file system is the parameter [FileSystem]; opening a
    journal, whose model is [StoreJournal], is an argument that gives what the
    store then holds.  Flags, sockets and signals are not modelled. *)
From stdpp Require Import relations.
From Stdlib Require Import Ascii.
From S2P Require Import Prelude GoFloat GoUtf8 GoTime GoDuration ExprValue ExprFuncs ExprEval StoreTypes StoreQuery StoreMemory Vault BpmnModel BpmnValidate BpmnParser EngineBase EngineApi EngineSched EngineSamples EngineMigrate Dmn DmnParser Forms RestAuth RestTypes Rest EngineTrace EngineSafety EngineCalls RestSamples RestSafety Platform.
Local Open Scope go_scope.
Local Open Scope string_scope.
Local Open Scope Z_scope.

(** [os.ReadDir] (names, and whether they are directories), [os.ReadFile] and
    [filepath.Join]. *)
Class FileSystem := {
  read_dir : string -> string + list (string * bool);
  read_file : string -> string + string;
  join_path : string -> string -> string;
}.

(** [filepath.Ext]: from the last dot, when no slash follows it. *)
Fixpoint has_byte (c : ascii) (s : string) : bool :=
  match s with EmptyString => false | String d s => Ascii.eqb d c || has_byte c s end.
Fixpoint file_ext (s : string) : string :=
  match s with
  | EmptyString => ""
  | String c r =>
      if negb (String.eqb (file_ext r) "") then file_ext r
      else if Ascii.eqb c "." && negb (has_byte "/" r) then String c r else ""
  end.
(** [strings.EqualFold] with [".dmn"], whose letters have no other forms than
    the two of ASCII. *)
Definition is_dmn (path : string) : bool := String.eqb (lower_ascii (file_ext path)) ".dmn".

(** An extension has one dot, the first byte. *)
Lemma file_ext_dot s : file_ext s = "" \/ exists r, file_ext s = String "." r /\ has_byte "." r = false.
Proof.
  induction s as [|c s IH]; cbn; [by left|]. destruct IH as [E|(r & E & Hr)]; rewrite E; cbn.
  - destruct (Ascii.eqb_spec c ".") as [->|]; [|by left]. destruct (has_byte "/" s) eqn:Hs; cbn; [by left|]. right.
    exists s. split; [done|]. clear -E Hs. induction s as [|d s IH]; [done|]. cbn in *.
    apply orb_false_iff in Hs as [_ Hs]. destruct (String.eqb_spec (file_ext s) "") as [E'|]; cbn in E; [|congruence].
    rewrite Hs in E. cbn in E. rewrite andb_true_r in E. destruct (Ascii.eqb d "."); [done|]. by apply IH.
  - right. by exists r.
Qed.

Section cli.
Context {U : Unicode} {R : Regexp} {MO : MapOrder} {X : XmlDecoder} {A : AuthCodec} {AE : Aead} {FC : FormCodec}
  {DD : DmnDecoder} {RC : RestCodec} {HO : Host} {FS : FileSystem}.

(** ** [validate] *)

(** The lines of a file that is accepted, and the line of one that is not. *)
Definition bad_line (path err : string) : string := "✗ " ++ path ++ ": " ++ err.
Definition process_line (path : string) (p : Process) : string :=
  "✓ " ++ path ++ ": process " ++ quote (pr_id p) ++ " (" ++ fmt_int (Z.of_nat (size (c_elements (pr_container p))))
    ++ " elements, " ++ fmt_int (Z.of_nat (size (c_flows (pr_container p)))) ++ " flows)".
Definition verdict (path : string) : res string (list string) :=
  match read_file path with
  | inl err => Err err
  | inr data =>
      if is_dmn path then
        let! ds := DmnParser.Parse data in
        Ok ["✓ " ++ path ++ ": " ++ fmt_int (Z.of_nat (length ds)) ++ " decision(s)"]
      else
        let! defs := BpmnParser.Parse data in Ok (map (process_line path) (df_processes defs))
  end.
Fixpoint check_files (files : list string) : res string (Z * list string) :=
  match files with
  | [] => Ok (0, [])
  | f :: files =>
      match verdict f with
      | Ok lines => let! (failed, out) := check_files files in Ok (failed, lines ++ out)%list
      | Err err => let! (failed, out) := check_files files in Ok (failed + 1, bad_line f err :: out)
      | Panic w => Panic w
      | OutOfFuel => OutOfFuel
      end
  end.
(** [validate]: the exit code and the lines on the standard output. *)
Definition validate (files : list string) : res string (Z * list string) :=
  match files with
  | [] => Ok (2, [])
  | _ => let! (failed, out) := check_files files in Ok (if 0 <? failed then 1 else 0, out)
  end.

Definition file_lines (f : string) : list string :=
  match verdict f with Ok lines => lines | Err err => [bad_line f err] | _ => [] end.
Lemma verdict_returns f : returns (verdict f) = true.
Proof.
  unfold verdict. destruct (read_file f) as [|data]; [done|]. case_match.
  - apply returns_bind; [|done]. unfold DmnParser.Parse. destruct (unmarshal_dmn data) as [|[|x xs]]; [done..|].
    apply returns_bind; [apply make_decisions_returns|]. by intros [] _.
  - apply returns_bind; [apply parse_returns|done].
Qed.
Lemma check_files_spec files : exists failed, check_files files = Ok (failed, flat_map file_lines files) /\ 0 <= failed
  /\ (failed = 0 <-> forall f, f ∈ files -> is_ok (verdict f) = true).
Proof.
  induction files as [|f files (n & Hn & H0 & Hall)]; cbn [check_files flat_map].
  - exists 0. split_and!; [done..|]. split; [|done]. intros _ f Hf. by apply not_elem_of_nil in Hf.
  - pose proof (verdict_returns f) as Hr. unfold file_lines at 1. destruct (verdict f) as [lines|err| |] eqn:Ev; try done.
    + rewrite Hn. cbn. exists n. split_and!; [done|lia|]. rewrite Hall. split.
      * intros H g [->|Hg]%elem_of_cons; [by rewrite Ev|by apply H].
      * intros H g Hg. apply H. by right.
    + rewrite Hn. cbn. exists (n + 1). split_and!; [done|lia|]. split; [lia|]. intros H.
      specialize (H f (list_elem_of_here _ _)). by rewrite Ev in H.
Qed.
(** Checking files always ends, with a line or more for every file in the order
    of the arguments, and the exit code says what was found: 2 without files, 0
    when every file was read and parses, and otherwise 1. *)
Theorem validation_exit files : exists code,
  validate files = Ok (code, flat_map file_lines files) /\
  (files = [] -> code = 2) /\
  (files <> [] -> code = 0 /\ (forall f, f ∈ files -> is_ok (verdict f) = true)
                  \/ code = 1 /\ exists f, f ∈ files /\ is_ok (verdict f) = false).
Proof.
  unfold validate. destruct files as [|f files]; [by exists 2|].
  destruct (check_files_spec (f :: files)) as (n & -> & H0 & Hall). cbn [rbind]. eexists. split; [reflexivity|].
  split; [done|]. intros _. destruct (Z.ltb_spec 0 n).
  - right. split; [done|]. destruct (decide (Exists (fun g => is_ok (verdict g) = false) (f :: files))) as [He|He].
    + by apply Exists_exists in He.
    + exfalso. assert (n = 0); [|lia]. apply Hall. intros g Hg. apply not_Exists_Forall in He; [|apply _].
      rewrite Forall_forall in He. specialize (He g Hg). cbn in He. by destruct (is_ok (verdict g)).
  - left. split; [done|]. apply Hall. lia.
Qed.

(** ** [deployAll] *)
Section engine.
Context {E : Engine} (depth : nat).

(** The engine and the registry of decisions before the server starts. *)
Record boot := { bt_world : world; bt_decisions : gmap string Decision }.
Definition on_engine {T} (m : EM T) : ST boot T := fun b =>
  let '(r, w) := m (bt_world b) in (r, {| bt_world := w; bt_decisions := bt_decisions b |}).
Definition on_registry (data : string) : ST boot (list Decision) := fun b =>
  let '(r, reg) := RegisterXML data (bt_decisions b) in
  (match r with Ok ds => Ok ds | Err e => Err (EMsg e) | Panic w => Panic w | OutOfFuel => OutOfFuel end,
   {| bt_world := bt_world b; bt_decisions := reg |}).
Definition in_file {T} (path : string) (m : ST boot T) : ST boot T := fun b =>
  match m b with (Err e, b) => (Err (EWrap (path ++ ": ") e), b) | r => r end.
Definition deploy_entry (dir : string) (ent : string * bool) : ST boot unit :=
  if ent.2 then mret tt
  else
    let path := join_path dir ent.1 in
    match read_file path with
    | inl err => fail (EMsg err)
    | inr data =>
        let ext := str_lower (file_ext ent.1) in
        if String.eqb ext ".bpmn" || String.eqb ext ".bpmn20.xml" then in_file path (on_engine (deploy data "")) ;; mret tt
        else if String.eqb ext ".dmn" then in_file path (on_registry data) ;; mret tt
        else mret tt
    end.
Definition deploy_all (dir : string) : ST boot unit :=
  match read_dir dir with
  | inl err => fail (EWrap "deploy dir: " (EMsg err))
  | inr entries => for_each (deploy_entry dir) entries
  end.

(** What holds before the server starts, whether the deployment ends or stops
    at a file. *)
Record boot_ok (b : boot) : Prop := {
  bo_store : store_ok (w_store (bt_world b));
  bo_coherent : coherent (bt_world b);
  bo_decisions : registry_ok (bt_decisions b);
}.
Definition keeps_boot {T} (m : ST boot T) : Prop := forall b, boot_ok b -> boot_ok (m b).2.
Lemma keeps_bind {S T} (m : ST boot S) (f : S -> ST boot T) : keeps_boot m -> (forall a, keeps_boot (f a)) -> keeps_boot (m ≫= f).
Proof.
  intros Hm Hf b Hb. specialize (Hm b Hb). unfold mbind, ST_bind. destruct (m b) as [[a| | |] b']; cbn in *; [by apply Hf|done..].
Qed.
Lemma keeps_in_file {T} path (m : ST boot T) : keeps_boot m -> keeps_boot (in_file path m).
Proof. intros Hm b Hb. specialize (Hm b Hb). unfold in_file. by destruct (m b) as [[] b']. Qed.
Lemma keeps_engine {T} (m : EM T) : EngineSafety.etraces Ordinary m (fun _ _ => True) -> keeps_boot (on_engine m).
Proof.
  intros Hm b [Hs Hc Hd]. unfold on_engine. destruct (Hm _ Hs) as [H _]. destruct (m (bt_world b)) as [r w]. cbn in *.
  split; cbn; [by eapply esteps_ok|by eapply esteps_coherent|done].
Qed.
Lemma keeps_registry data : keeps_boot (on_registry data).
Proof.
  intros b [Hs Hc Hd]. unfold on_registry. pose proof (register_xml_ok data _ Hd) as H.
  destruct (RegisterXML data (bt_decisions b)) as [r reg]. by split.
Qed.
Lemma keeps_for_each {T} (f : T -> ST boot unit) l : (forall x, keeps_boot (f x)) -> keeps_boot (for_each f l).
Proof. intros Hf. induction l as [|x l IH]; cbn; [by intros b|]. by apply keeps_bind. Qed.
Lemma keeps_entry dir ent : keeps_boot (deploy_entry dir ent).
Proof.
  unfold deploy_entry. destruct ent as [name []]; cbn; [by intros b|]. destruct (read_file _) as [|data]; [by intros b|].
  repeat case_match; try (by intros b); (apply keeps_bind; [apply keeps_in_file|by intros ? b]).
  - apply keeps_engine, e_deploy.
  - apply keeps_registry.
Qed.
Lemma keeps_deploy_all dir : keeps_boot (deploy_all dir).
Proof. unfold deploy_all. destruct (read_dir dir); [by intros b|]. by apply keeps_for_each, keeps_entry. Qed.
End engine.

(** ** [serve] *)
Record Flags := {
  fl_addr : string; fl_data : string; fl_fsync : bool; fl_api_key : string; fl_deploy : string; fl_poll : Z;
  fl_replicate : string; fl_standby : string;
}.
Record Environment := { en_master_key : string; en_replication : string }.
(** A standby only receives the journal; a primary has a server.  With
    [pm_replicate], what its journal holds is sent on. *)
Inductive serving :=
| StandsBy (addr secret : string) (m : Memory)
| Primary (addr : string) (replicate : option (string * string)) (s : Server).

Section serve.
Variables (utc wall : nat -> Z) (pace : nat -> place -> Z) (suffix : string) (depth : nat).
(** What the registries hold while the engine runs. *)
Variables (reg : nat -> gmap string Decision) (frm : nat -> Forms.Registry).
(** [store.OpenJournal] of a directory: an error, or what the store holds. *)
Variable open_journal : string -> bool -> string + Memory.

Definition engine_options (fl : Flags) (vault : option (string -> goerr + string)) : list option_ :=
  [WithDecisionEvaluator (Some (decisions pace reg)); WithJobPollInterval (fl_poll fl); WithFormValidator (Some (forms pace frm))]
  ++ match vault with Some v => [WithSecrets (Some v)] | None => [] end.
(** The vault as a source of secrets.  The program registers no handler that
    asks for one; [m] is the store as it was opened. *)
Definition vault_source (v : Vault.Vault) (m : Memory) (name : string) : goerr + string :=
  match Vault.Get v name m with Ok s => inr s | Err e => inl (EMsg (vault_error_text e)) | _ => inl (EMsg "") end.
Definition config_of (fl : Flags) (vault : option Vault.Vault) (m : Memory) : Config :=
  Platform.New utc suffix (engine_options fl ((fun v => vault_source v m) <$> vault)).

Definition serve (fl : Flags) (en : Environment) : res goerr serving :=
  if negb (String.eqb (fl_standby fl) "") then
    if String.eqb (fl_data fl) "" then Err (EMsg "--standby requires --data")
    else match open_journal (fl_data fl) (fl_fsync fl) with
         | inl err => Err (EMsg err)
         | inr m => Ok (StandsBy (fl_standby fl) (en_replication en) m)
         end
  else
    let! (m, durable) := match fl_data fl with
                         | "" => Ok (new_memory, false)
                         | dir => match open_journal dir (fl_fsync fl) with inl err => Err (EMsg err) | inr m => Ok (m, true) end
                         end in
    let! replicate := match fl_replicate fl with
                      | "" => Ok None
                      | url => if durable : bool then Ok (Some (url, en_replication en))
                               else Err (EMsg "--replicate-to requires --data (journal storage)")
                      end in
    let! vault := match en_master_key en with
                  | "" => Ok None
                  | key => match Vault.New key with
                           | Ok v => Ok (Some v) | Err e => Err (EMsg (vault_error_text e)) | Panic w => Panic w | OutOfFuel => OutOfFuel
                           end
                  end in
    let E := engine_of wall (config_of fl vault m) in
    let fresh := {| bt_world := {| w_store := m; w_tick := 0; w_seq := 0; w_defs := ∅ |}; bt_decisions := ∅ |} in
    let '(r, b) := match fl_deploy fl with "" => (Ok tt, fresh) | dir => deploy_all (E := E) dir fresh end in
    let! _ := r in
    let '(r, w) := reconcile (E := E) depth (bt_world b) in
    let! _ := r in
    Ok (Primary (fl_addr fl) replicate
         (Rest.New w ([WithDecisions (bt_decisions b); WithForms ∅]
                      ++ match vault with Some v => [Rest.WithVault v] | None => [] end
                      ++ match fl_api_key fl with "" => [] | key => [WithAPIKey key] end))).

Lemma fresh_ok (c : Config) m : store_ok m ->
  boot_ok (E := engine_of wall c) {| bt_world := {| w_store := m; w_tick := 0; w_seq := 0; w_defs := ∅ |}; bt_decisions := ∅ |}.
Proof. intros Hm. split; cbn; [done|intros id PD H; discriminate H|apply map_Forall_empty]. Qed.

End serve.
End cli.

(** ** [main] *)
Inductive printed := Usage | Lines (l : list string) | Complaint (msg : string).
Definition version := "1.2.0".
(** The exit code and what is printed; [run_serve] is [serve] with its flags,
    which comes back with an error or when the server was shut down. *)
Definition main `{U : Unicode} `{MO : MapOrder} `{X : XmlDecoder} `{DD : DmnDecoder} `{FS : FileSystem}
    (run_serve : list string -> option string) (args : list string) : res string (Z * printed) :=
  match args with
  | [] => Ok (2, Usage)
  | cmd :: rest =>
      if String.eqb cmd "serve" then
        Ok (match run_serve rest with Some err => (1, Complaint ("error: " ++ err)) | None => (0, Lines []) end)
      else if String.eqb cmd "validate" then let! (code, out) := validate rest in Ok (code, Lines out)
      else if String.eqb cmd "version" then Ok (0, Lines ["fliable " ++ version])
      else if existsb (String.eqb cmd) ["-h"; "--help"; "help"] then Ok (0, Usage)
      else Ok (2, Complaint ("unknown command " ++ quote cmd))
  end.
(** Only four outcomes are successes. *)
Lemma main_succeeds `{U : Unicode} `{MO : MapOrder} `{X : XmlDecoder} `{DD : DmnDecoder} `{FS : FileSystem} run_serve args out :
  main run_serve args = Ok (0, out) -> exists cmd rest, args = cmd :: rest /\
    (cmd = "serve" /\ run_serve rest = None \/ cmd = "validate" /\ rest <> [] \/ cmd = "version" \/ cmd ∈ ["-h"; "--help"; "help"]).
Proof.
  destruct args as [|cmd rest]; [done|]. unfold main. intros H. exists cmd, rest. split; [done|].
  destruct (String.eqb_spec cmd "serve"); [left; by destruct (run_serve rest)|].
  destruct (String.eqb_spec cmd "validate") as [->|].
  { right; left. split; [done|]. intros ->. discriminate H. }
  destruct (String.eqb_spec cmd "version"); [by do 2 right; left|].
  destruct (existsb _ _) eqn:E; [|done]. do 3 right. apply existsb_exists in E as (x & Hx & ->%String.eqb_eq). by apply list_elem_of_In.
Qed.

(** ** On concrete files *)
#[local] Existing Instance latin1_only.
#[local] Existing Instance literal_regexp.
#[local] Existing Instance key_order.
#[local] Existing Instance sample_decoder.
#[local] Existing Instance plain_aead.
#[local] Existing Instance claim_codec.
#[local] Existing Instance small_codec.
#[local] Existing Instance sample_codec.
#[local] Existing Instance sample_host.
#[local] Existing Instance no_dmn.
#[local] Instance sample_files : FileSystem := {|
  read_dir dir := if String.eqb dir "processes" then inr [("order.bpmn", false); ("drafts", true); ("old.bpmn20.xml", false)]
                  else inl "no such file or directory";
  read_file path := if existsb (String.eqb path) ["processes/order.bpmn"; "processes/old.bpmn20.xml"] then inr "order"
                    else if String.eqb path "empty.bpmn" then inr "" else inl "no such file or directory";
  join_path dir name := dir ++ "/" ++ name;
|}.
Definition plain_flags (deploy : string) : Flags :=
  {| fl_addr := ":8080"; fl_data := ""; fl_fsync := false; fl_api_key := "k"; fl_deploy := deploy; fl_poll := second;
     fl_replicate := ""; fl_standby := "" |}.
Definition sample_serve (deploy : string) : res goerr serving :=
  serve (fun n => 1700000000 * second + Z.of_nat n * 1000) (fun _ => 0) (fun _ _ => 0) "abcd" 5 (fun _ => ∅)
    (fun _ => NewRegistry new_memory) (fun _ _ => inl "permission denied") (plain_flags deploy)
    {| en_master_key := ""; en_replication := "" |}.
Definition served (deploy : string) : Server :=
  match sample_serve deploy with Ok (Primary _ _ s) => s | _ => Rest.New empty_world [] end.

Example exit_codes :
  (fst <$> match validate ["processes/order.bpmn"] with Ok r => Some r | _ => None end) = Some 0
  /\ (fst <$> match validate ["processes/order.bpmn"; "empty.bpmn"; "none.bpmn"] with Ok r => Some r | _ => None end) = Some 1
  /\ validate [] = Ok (2, []).
Proof. vm_compute. auto. Qed.
(** The extension [.bpmn20.xml] that [deployAll] asks for has two dots, so that
    no file has it: such a file is passed over without a word. *)
Example bpmn20_passed_over :
  file_ext "old.bpmn20.xml" = ".xml" /\
  map (fun d => pd_xml d.2) (map_to_list (m_definitions (w_store (sv_world (served "processes"))))) = ["order"] /\
  size (m_definitions (w_store (sv_world (served "processes")))) = 1%nat.
Proof. vm_compute. auto. Qed.
Lemma no_bpmn20 path : file_ext path <> ".bpmn20.xml".
Proof. intros E. destruct (file_ext_dot path) as [H|(r & H & Hr)]; rewrite E in H; [done|]. injection H as <-. discriminate Hr. Qed.

Lemma sample_served : sample_serve "processes" = Ok (Primary ":8080" None (served "processes")).
Proof.
  assert (match sample_serve "processes" with Ok (Primary a None _) => String.eqb a ":8080" | _ => false end = true) as H
    by (vm_compute; reflexivity).
  unfold served. destruct (sample_serve "processes") as [[a b c|a [] c]| | |]; try discriminate H.
  by apply String.eqb_eq in H as ->.
Qed.
